(** * Verification of the Motr SAL layer of the RADOS gateway (rgw_sal_motr.cc)

    A shallow embedding of the parts of [src/rgw/rgw_sal_motr.cc] that carry
    the version-id encoding, block-size selection, bucket statistics,
    versioned GET/HEAD/DELETE and multipart upload, with the properties
    proved about them. *)

From Stdlib Require Import ZArith List Ascii String Bool Lia DecimalString Sorted.
From stdpp Require Import base gmap strings.
Import ListNotations.

Local Open Scope Z_scope.

(** ** Machine integers *)

Definition uint64_mod : Z := 2 ^ 64.
Definition uint32_mod : Z := 2 ^ 32.

(** Wrap-around of [uint64_t] and of [unsigned] arithmetic. *)
Definition u64 (x : Z) : Z := x mod uint64_mod.
Definition u32 (x : Z) : Z := x mod uint32_mod.

(** The conversion of a [uint64_t] to [int64_t] (and to [off_t]). *)
Definition int64_of_u64 (x : Z) : Z :=
  let y := u64 x in if y <? 2 ^ 63 then y else y - uint64_mod.

Definition is_u64 (x : Z) : Prop := 0 <= x < uint64_mod.
Definition is_u32 (x : Z) : Prop := 0 <= x < uint32_mod.

(** ** Version-id encoding (lines 126-190, 1861-1878) *)

Module Base62.

Definition TS_LEN : nat := 8.
Definition UUID_LEN : nat := 23.

(** [base62_chars]: the table of [base62_encode], 0-9, A-Z, a-z. *)
Definition base62_chars : list ascii :=
  list_ascii_of_string
    "0123456789ABCDEFGHIJKLMNOPQRSTUVWXYZabcdefghijklmnopqrstuvwxyz".

Definition base62_size : Z := Z.of_nat (List.length base62_chars).

Definition base62_char (d : Z) : ascii :=
  nth (Z.to_nat d) base62_chars "0"%char.

(** The [while (value > 0)] loop: [ret += base62_chars[value % 62];
    value /= 62].  Every iteration divides a 64-bit value by 62, so the
    loop is given one unit of fuel per bit of the value. *)
Fixpoint base62_loop (fuel : nat) (value : Z) (ret : list ascii) : list ascii :=
  match fuel with
  | O => ret
  | S f =>
      if 0 <? value
      then base62_loop f (value / base62_size)
             (ret ++ [base62_char (value mod base62_size)])
      else ret
  end.

Definition base62_fuel : nat := 64.

(** [std::string base62_encode(uint64_t value, size_t pad)]. *)
Definition base62_encode (value : Z) (pad : nat) : string :=
  let ret := if value =? 0 then [base62_char 0] else [] in
  let ret := base62_loop base62_fuel value ret in
  let ret := rev ret in
  let ret := if (List.length ret <? pad)%nat
             then repeat (base62_char 0) (pad - List.length ret) ++ ret
             else ret in
  string_of_list_ascii ret.

(** [constexpr uint64_t max_ts_count = 218340105584895]. *)
Definition max_ts_count : Z := 218340105584895.

(** [MotrObject::gen_rand_obj_instance_name].  [ms_since_epoch] is the
    clock reading; [buf] is what [gen_rand_alphanumeric_no_underscore]
    wrote into the [UUID_LEN + 1] byte buffer (without the terminator). *)
Definition gen_rand_obj_instance_name (ms_since_epoch : Z) (buf : string) : string :=
  let cur_time := u64 (max_ts_count - ms_since_epoch) in
  let version_ts := base62_encode cur_time TS_LEN in
  (version_ts ++ buf)%string.

(** Positional base62 notation with [k] digits, most significant first:
    the encoding of [v] that is zero-padded on the left. *)
Fixpoint base62_digits (k : nat) (v : Z) : list ascii :=
  match k with
  | O => []
  | S k' => base62_digits k' (v / base62_size) ++ [base62_char (v mod base62_size)]
  end.

(** Reading a base62 string back: the inverse the version-id scheme relies
    on (position of a character in [base62_chars], most significant first). *)
Fixpoint base62_index_from (c : ascii) (tbl : list ascii) (i : Z) : Z :=
  match tbl with
  | [] => i
  | x :: tl => if Ascii.eqb c x then i else base62_index_from c tl (i + 1)
  end.

Definition base62_index (c : ascii) : Z := base62_index_from c base62_chars 0.

Definition base62_decode (s : string) : Z :=
  fold_left (fun acc c => acc * base62_size + base62_index c)
            (list_ascii_of_string s) 0.

(** The timestamp carried by a version id: its first [TS_LEN] characters,
    decoded and inverted again. *)
Definition version_id_ms (instance : string) : Z :=
  max_ts_count - base62_decode (String.substring 0 TS_LEN instance).

(** Byte-wise comparison of two character lists, the order that
    [String.compare] and [std::string::compare] implement. *)
Fixpoint lcompare (a b : list ascii) : comparison :=
  match a, b with
  | [], [] => Eq
  | [], _ :: _ => Lt
  | _ :: _, [] => Gt
  | x :: a', y :: b' =>
      match Ascii.compare x y with
      | Eq => lcompare a' b'
      | c => c
      end
  end.

End Base62.

(** ** Block-size selection (lines 130-140, 4037-4078) *)

Module Layout.

(** [static uint64_t roundup(uint64_t x, uint64_t by)]. *)
Definition roundup (x byv : Z) : Z :=
  if x =? 0 then 0
  else u64 (u64 ((x - 1) / byv + 1) * byv).

(** [static uint64_t rounddown(uint64_t x, uint64_t by)]. *)
Definition rounddown (x byv : Z) : Z := u64 (x / byv * byv).

(** The fields of [struct m0_pdclust_attr] read by [get_optimal_bs]
    (all [uint32_t]). *)
Record m0_pdclust_attr := {
  pa_N : Z;
  pa_K : Z;
  pa_S : Z;
  pa_P : Z
}.

(** [unsigned MotrObject::get_optimal_bs(unsigned len, bool last)].
    [unit_sz] is the value of [get_unit_sz()], [pa] the attributes of the
    pool version of the object; every intermediate value is an [unsigned]. *)
Definition get_optimal_bs (pa : m0_pdclust_attr) (unit_sz : Z)
    (len : Z) (last : bool) : Z :=
  let grp_sz := u32 (unit_sz * pa_N pa) in
  let depth := 128 / (u32 (unit_sz + 32767) / 32768) in
  let depth := if depth =? 0 then 1 else depth in
  let max_bs :=
    u32 (u32 (u32 (depth * unit_sz) * pa_P pa) * pa_N pa)
    / u32 (u32 (pa_N pa + pa_K pa) + pa_S pa) in
  let max_bs := u32 (roundup max_bs grp_sz) in
  if len >=? max_bs then max_bs
  else if last then u32 (roundup len unit_sz)
  else u32 (roundup len grp_sz).

(** The selection rule as the design document words it, over the
    integers: depth [128 / ceil(U / 32KiB)], maximum block
    [depth*U*P*N/(N+K+S)] rounded up to a multiple of [G = N*U]. *)
Definition ceil_div (a b : Z) : Z := (a + b - 1) / b.

Definition roundup_to (x m : Z) : Z := ceil_div x m * m.

Definition doc_depth (U : Z) : Z := 128 / ceil_div U 32768.

Definition doc_max_bs (pa : m0_pdclust_attr) (U : Z) : Z :=
  roundup_to (doc_depth U * U * pa_P pa * pa_N pa
              / (pa_N pa + pa_K pa + pa_S pa)) (pa_N pa * U).

Definition doc_optimal_bs (pa : m0_pdclust_attr) (U len : Z) (last : bool) : Z :=
  if len >=? doc_max_bs pa U then doc_max_bs pa U
  else if last then roundup_to len U
  else roundup_to len (pa_N pa * U).

(** The same rule with the depth clamped to at least one unit, which is
    what the code applies. *)
Definition clamped_depth (U : Z) : Z := Z.max 1 (128 / ceil_div U 32768).

Definition clamped_max_bs (pa : m0_pdclust_attr) (U : Z) : Z :=
  roundup_to (clamped_depth U * U * pa_P pa * pa_N pa
              / (pa_N pa + pa_K pa + pa_S pa)) (pa_N pa * U).

Definition clamped_optimal_bs (pa : m0_pdclust_attr) (U len : Z) (last : bool) : Z :=
  if len >=? clamped_max_bs pa U then clamped_max_bs pa U
  else if last then roundup_to len U
  else roundup_to len (pa_N pa * U).

End Layout.

(** ** Error codes *)

(** [<errno.h>] values used by the layer. *)
Definition ENOENT : Z := 2.
Definition ENOMEM : Z := 12.
Definition EEXIST : Z := 17.
Definition EINVAL : Z := 22.
Definition ENODATA : Z := 61.

(** Modelled from the spec: the gateway's own error numbers ([ERR_*] of
    rgw_common.h, which is not among the sources).  Section 7 of the design
    document names them NotAllowed, NoSuchUpload, InvalidArgument; only
    that they are positive and differ from [ENOENT] is used. *)
Class RgwErrors := {
  ERR_METHOD_NOT_ALLOWED : Z;
  ERR_NO_SUCH_UPLOAD : Z;
  ERR_INVALID_PART : Z;
  ERR_TOO_SMALL : Z;
  ERR_PRECONDITION_FAILED : Z;
  ERR_METHOD_NOT_ALLOWED_pos : 0 < ERR_METHOD_NOT_ALLOWED;
  ERR_METHOD_NOT_ALLOWED_ne : ERR_METHOD_NOT_ALLOWED <> ENOENT;
  ERR_NO_SUCH_UPLOAD_pos : 0 < ERR_NO_SUCH_UPLOAD;
  ERR_INVALID_PART_pos : 0 < ERR_INVALID_PART;
  ERR_TOO_SMALL_pos : 0 < ERR_TOO_SMALL
}.

(** ** Records kept in the indices *)

(** Modelled from the spec: [RGWObjCategory] (section 3.4, DirEntry
    category); the enumeration itself is declared in rgw_common.h. *)
Inductive RGWObjCategory := CatNone | Main | Shadow | MultiMeta.

Global Instance RGWObjCategory_eq_dec : EqDecision RGWObjCategory.
Proof. solve_decision. Defined.

Definition RGWObjCategory_code (c : RGWObjCategory) : nat :=
  match c with CatNone => 0 | Main => 1 | Shadow => 2 | MultiMeta => 3 end.

Definition RGWObjCategory_of_code (n : nat) : RGWObjCategory :=
  match n with
  | O => CatNone | S O => Main | S (S O) => Shadow | _ => MultiMeta
  end.

Global Instance RGWObjCategory_countable : Countable RGWObjCategory.
Proof.
  apply (inj_countable' RGWObjCategory_code RGWObjCategory_of_code).
  intros []; reflexivity.
Defined.

Definition m0_uint128 : Type := (Z * Z)%type.

(** [MotrObjectMeta]: what [meta.encode] stores next to a directory entry. *)
Record MotrObjectMeta := {
  oid : m0_uint128;
  pver : Z * Z;
  layout_id : Z;
  is_composite : bool;
  top_layer_oid : m0_uint128
}.

Definition MotrObjectMeta_default : MotrObjectMeta :=
  {| oid := (0, 0); pver := (0, 0); layout_id := 0;
     is_composite := false; top_layer_oid := (0, 0) |}.

(** [struct motr_multipart_upload_info] (lines 4553-4594). *)
Record motr_multipart_upload_info := {
  dest_placement : string;
  upload_id : string;
  hsm_enabled : bool;
  info_meta : MotrObjectMeta
}.

(** The [user_data] string of a directory entry: free text of the request,
    or the encoded upload info written by [MotrMultipartUpload::init]. *)
Inductive user_data_t :=
| ud_raw (s : string)
| ud_upload_info (i : motr_multipart_upload_info).

(** Modelled from the spec: the DirEntry flags VER, CURRENT and
    DELETE_MARKER of section 3.4 ([rgw_bucket_dir_entry::FLAG_*] of
    cls_rgw_types.h), kept as the bits of the [flags] word. *)
Definition FLAG_VER : Z := 1.
Definition FLAG_CURRENT : Z := 2.
Definition FLAG_DELETE_MARKER : Z := 4.

(** Modelled from the spec: the DirEntry of section 3.4,
    [{key=(name,instance), mtime, size, etag, owner, category, flags}]
    ([rgw_bucket_dir_entry] of cls_rgw_types.h). *)
Record rgw_bucket_dir_entry := {
  key_name : string;
  key_instance : string;
  mtime : Z;
  size : Z;
  accounted_size : Z;
  etag : string;
  owner : string;
  owner_display_name : string;
  category : RGWObjCategory;
  flags : Z;
  user_data : user_data_t
}.

Definition rgw_bucket_dir_entry_default : rgw_bucket_dir_entry :=
  {| key_name := ""; key_instance := ""; mtime := 0; size := 0;
     accounted_size := 0; etag := ""; owner := ""; owner_display_name := "";
     category := CatNone; flags := 0; user_data := ud_raw "" |}.

Definition is_delete_marker (e : rgw_bucket_dir_entry) : bool :=
  negb (Z.land (flags e) FLAG_DELETE_MARKER =? 0).

(** Modelled from the spec: CURRENT marks the latest live version; an entry
    that is not a versioned record counts as current
    ([rgw_bucket_dir_entry::is_current]). *)
Definition is_current (e : rgw_bucket_dir_entry) : bool :=
  (Z.land (flags e) FLAG_VER =? 0)
  || (Z.land (flags e) (Z.lor FLAG_VER FLAG_CURRENT)
      =? Z.lor FLAG_VER FLAG_CURRENT).

(** Modelled from the spec: the per-category counters of a BucketHeader,
    [{num_entries, total_size, actual_size}] (section 3.4). *)
Record rgw_bucket_category_stats := {
  total_size : Z;
  total_size_rounded : Z;
  num_entries : Z;
  actual_size : Z
}.

Definition rgw_bucket_category_stats_default : rgw_bucket_category_stats :=
  {| total_size := 0; total_size_rounded := 0; num_entries := 0;
     actual_size := 0 |}.

(** Modelled from the spec: BucketHeader, a map from category to counters. *)
Record rgw_bucket_dir_header := {
  stats : gmap RGWObjCategory rgw_bucket_category_stats
}.

(** Modelled from the spec: PartInfo of section 3.4
    ([RGWUploadPartInfo] of rgw_basic_types). *)
Record RGWUploadPartInfo := {
  num : Z;
  part_etag : string;
  part_size : Z;
  size_rounded : Z;
  part_accounted_size : Z;
  modified : Z;
  compression_type : string;
  cs_orig_size : Z
}.

Definition Attrs : Type := gmap string string.

(** A [bufferlist] holds a sequence of encoded values; [decode] consumes
    the value at the iterator and fails on anything else. *)
Inductive bl_item :=
| enc_dir_entry (e : rgw_bucket_dir_entry)
| enc_attrs (a : Attrs)
| enc_meta (m : MotrObjectMeta)
| enc_dir_entry_meta (e : rgw_bucket_dir_entry)
| enc_dir_header (h : rgw_bucket_dir_header)
| enc_part_info (p : RGWUploadPartInfo).

Definition bufferlist : Type := list bl_item.

(** ** The object and index services *)

Module Motr.

Inductive m0_idx_opcode := M0_IC_GET | M0_IC_PUT | M0_IC_DEL | M0_IC_NEXT.

(** The calls the layer makes into the services; the store answers each
    one either by performing it or with an error number. *)
Inductive m0_call :=
| call_idx (iname : string) (op : m0_idx_opcode) (key : string)
| call_obj_open (o : m0_uint128)
| call_obj_delete (o : m0_uint128)
| call_obj_create (o : m0_uint128)
| call_obj_write (o : m0_uint128)
| call_composite_delete (o : m0_uint128)
| call_composite_extents (o : m0_uint128) (is_write : bool)
| call_gc_enqueue (tag : string).

(** One index: its key/value pairs in ascending key order. *)
Definition m0_index : Type := list (string * bufferlist).

(** Configuration flags of [MotrStore] (section 6.4). *)
Record config := {
  use_metadata_cache : bool;
  gc_enabled : bool;
  tiered_enabled : bool
}.

(** A garbage-collector request, [motr_gc_obj_info] of gc.h. *)
Record motr_gc_obj_info := {
  gc_tag : string;
  gc_name : string;
  gc_mobj : MotrObjectMeta;
  gc_size : Z;
  gc_is_multipart : bool;
  gc_multipart_iname : string
}.

Record world := {
  indices : gmap string m0_index;
  objects : gset m0_uint128;
  obj_meta_cache : gmap string bufferlist;
  gc_queue : list motr_gc_obj_info;
  write_log : list (m0_uint128 * Z * Z);
  conf : config;
  m0_errno : m0_call -> N
}.

Definition set_indices (w : world) (i : gmap string m0_index) : world :=
  {| indices := i; objects := objects w; obj_meta_cache := obj_meta_cache w;
     gc_queue := gc_queue w; write_log := write_log w; conf := conf w;
     m0_errno := m0_errno w |}.

Definition set_objects (w : world) (o : gset m0_uint128) : world :=
  {| indices := indices w; objects := o; obj_meta_cache := obj_meta_cache w;
     gc_queue := gc_queue w; write_log := write_log w; conf := conf w;
     m0_errno := m0_errno w |}.

Definition set_cache (w : world) (c : gmap string bufferlist) : world :=
  {| indices := indices w; objects := objects w; obj_meta_cache := c;
     gc_queue := gc_queue w; write_log := write_log w; conf := conf w;
     m0_errno := m0_errno w |}.

Definition set_gc_queue (w : world) (q : list motr_gc_obj_info) : world :=
  {| indices := indices w; objects := objects w;
     obj_meta_cache := obj_meta_cache w;
     gc_queue := q; write_log := write_log w; conf := conf w;
     m0_errno := m0_errno w |}.

Definition set_write_log (w : world) (l : list (m0_uint128 * Z * Z)) : world :=
  {| indices := indices w; objects := objects w;
     obj_meta_cache := obj_meta_cache w;
     gc_queue := gc_queue w; write_log := l; conf := conf w;
     m0_errno := m0_errno w |}.

(** *** Results: a value, or a C++ exception leaving the function *)

Inductive exn := buffer_error | out_of_fuel.

Inductive outcome (A : Type) :=
| Ret (a : A)
| Exn (e : exn).
Arguments Ret {A} a.
Arguments Exn {A} e.

Definition M (A : Type) : Type := world -> outcome A * world.

Definition ret {A} (a : A) : M A := fun w => (Ret a, w).
Definition throw {A} (e : exn) : M A := fun w => (Exn e, w).
Definition bind {A B} (m : M A) (k : A -> M B) : M B :=
  fun w => match m w with
           | (Ret a, w') => k a w'
           | (Exn e, w') => (Exn e, w')
           end.
Definition get_world : M world := fun w => (Ret w, w).
Definition put_world (w' : world) : M unit := fun _ => (Ret tt, w').

Global Instance M_ret : MRet M := @ret.
Global Instance M_bind : MBind M := fun A B k m => bind m k.

(** *** Decoding *)

Definition decode_dir_entry (bl : bufferlist)
  : M (rgw_bucket_dir_entry * bufferlist) :=
  match bl with
  | enc_dir_entry e :: tl => ret (e, tl)
  | _ => throw buffer_error
  end.

Definition decode_attrs (bl : bufferlist) : M (Attrs * bufferlist) :=
  match bl with
  | enc_attrs a :: tl => ret (a, tl)
  | _ => throw buffer_error
  end.

(** [MotrObjectMeta::decode].  It also reads the bytes that
    [rgw_bucket_dir_entry_meta::encode] wrote (the third value of a
    delete-marker record); [reinterpret] says what they decode to. *)
Definition decode_meta (reinterpret : rgw_bucket_dir_entry -> MotrObjectMeta)
    (bl : bufferlist) : M (MotrObjectMeta * bufferlist) :=
  match bl with
  | enc_meta m :: tl => ret (m, tl)
  | enc_dir_entry_meta e :: tl => ret (reinterpret e, tl)
  | _ => throw buffer_error
  end.

Definition decode_dir_header (bl : bufferlist)
  : M (rgw_bucket_dir_header * bufferlist) :=
  match bl with
  | enc_dir_header h :: tl => ret (h, tl)
  | _ => throw buffer_error
  end.

Definition decode_part_info (bl : bufferlist)
  : M (RGWUploadPartInfo * bufferlist) :=
  match bl with
  | enc_part_info p :: tl => ret (p, tl)
  | _ => throw buffer_error
  end.

Definition decode_upload_info (u : user_data_t) : M motr_multipart_upload_info :=
  match u with
  | ud_upload_info i => ret i
  | ud_raw _ => throw buffer_error
  end.

(** *** The index service *)

Fixpoint idx_lookup (k : string) (t : m0_index) : option bufferlist :=
  match t with
  | [] => None
  | (k', v) :: tl => if String.eqb k k' then Some v else idx_lookup k tl
  end.

Fixpoint idx_insert (k : string) (v : bufferlist) (t : m0_index) : m0_index :=
  match t with
  | [] => [(k, v)]
  | (k', v') :: tl =>
      match String.compare k k' with
      | Lt => (k, v) :: t
      | Eq => (k, v) :: tl
      | Gt => (k', v') :: idx_insert k v tl
      end
  end.

Definition idx_delete (k : string) (t : m0_index) : m0_index :=
  List.filter (fun kv => negb (String.eqb k (fst kv))) t.

(** NEXT: at most [n] pairs, starting at the smallest key not below
    [start]. *)
Definition idx_next (start : string) (n : nat) (t : m0_index) : m0_index :=
  firstn n (List.filter (fun kv => String.leb start (fst kv)) t).

(** Modelled from the spec: the index service of sections 4.1 and 6.1,
    [put] (conflict EEXIST unless overwriting), [get] and [del] (not-found
    ENOENT); a failure of the service itself is returned as it is. *)
Definition m0_idx_op (iname : string) (opcode : m0_idx_opcode)
    (key : string) (val : bufferlist) (update : bool) : M (Z * bufferlist) :=
  fun w =>
    match m0_errno w (call_idx iname opcode key) with
    | N0 =>
        match indices w !! iname with
        | None => (Ret (- ENOENT, []), w)
        | Some t =>
            match opcode with
            | M0_IC_GET =>
                match idx_lookup key t with
                | Some v => (Ret (0, v), w)
                | None => (Ret (- ENOENT, []), w)
                end
            | M0_IC_PUT =>
                match idx_lookup key t with
                | Some _ =>
                    if update
                    then (Ret (0, []),
                          set_indices w (<[iname := idx_insert key val t]> (indices w)))
                    else (Ret (- EEXIST, []), w)
                | None =>
                    (Ret (0, []),
                     set_indices w (<[iname := idx_insert key val t]> (indices w)))
                end
            | M0_IC_DEL =>
                match idx_lookup key t with
                | Some _ =>
                    (Ret (0, []),
                     set_indices w (<[iname := idx_delete key t]> (indices w)))
                | None => (Ret (- ENOENT, []), w)
                end
            | M0_IC_NEXT => (Ret (- EINVAL, []), w)
            end
        end
    | e => (Ret (- Z.of_N e, []), w)
    end.

(** Modelled from the spec: [next] of section 4.1, the next [<= max]
    entries in key order from the smallest key [>= cursor]. *)
Definition m0_idx_next (iname : string) (start : string) (n : nat)
  : M (Z * m0_index) :=
  fun w =>
    match m0_errno w (call_idx iname M0_IC_NEXT start) with
    | N0 =>
        match indices w !! iname with
        | None => (Ret (- ENOENT, []), w)
        | Some t =>
            let r := idx_next start n t in
            (Ret (Z.of_nat (List.length r), r), w)
        end
    | e => (Ret (- Z.of_N e, []), w)
    end.

(** Modelled from the spec: [object.open], [object.delete] and the
    composite-layer calls of section 6.1.  An object that does not exist
    cannot be opened or deleted (ENOENT); the layers and extents of a
    composite object are not tracked. *)
Definition m0_entity_open (o : m0_uint128) : M Z :=
  fun w =>
    match m0_errno w (call_obj_open o) with
    | N0 => if decide (o ∈ objects w) then (Ret 0, w) else (Ret (- ENOENT), w)
    | e => (Ret (- Z.of_N e), w)
    end.

Definition m0_entity_delete (o : m0_uint128) : M Z :=
  fun w =>
    match m0_errno w (call_obj_delete o) with
    | N0 => if decide (o ∈ objects w)
            then (Ret 0, set_objects w (objects w ∖ {[o]}))
            else (Ret (- ENOENT), w)
    | e => (Ret (- Z.of_N e), w)
    end.

Definition m0_entity_create (o : m0_uint128) : M Z :=
  fun w =>
    match m0_errno w (call_obj_create o) with
    | N0 => if decide (o ∈ objects w)
            then (Ret (- EEXIST), w)
            else (Ret 0, set_objects w (objects w ∪ {[o]}))
    | e => (Ret (- Z.of_N e), w)
    end.

(** A write of [len] bytes at [offset]; the log keeps what was written. *)
Definition m0_obj_write (o : m0_uint128) (offset len : Z) : M Z :=
  fun w =>
    match m0_errno w (call_obj_write o) with
    | N0 => (Ret 0, set_write_log w (write_log w ++ [(o, offset, len)]))
    | e => (Ret (- Z.of_N e), w)
    end.

Definition m0_composite_delete_layers (o : m0_uint128) : M Z :=
  fun w => (Ret (- Z.of_N (m0_errno w (call_composite_delete o))), w).

Definition m0_composite_add_extents (o : m0_uint128) (is_write : bool) : M Z :=
  fun w => (Ret (- Z.of_N (m0_errno w (call_composite_extents o is_write))), w).

(** Modelled from the spec: the enqueue interface of the garbage
    collector (sections 1 and 4.5.3), [MotrGC::enqueue] of gc.h. *)
Definition gc_enqueue (g : motr_gc_obj_info) : M Z :=
  fun w =>
    match m0_errno w (call_gc_enqueue (gc_tag g)) with
    | N0 => (Ret 0, set_gc_queue w (gc_queue w ++ [g]))
    | e => (Ret (- Z.of_N e), w)
    end.

End Motr.

(** ** The storage abstraction layer *)

Module Sal.
Import Motr.

(** What the layer takes from outside its sources: the MD5 digest, the
    unquoting of an etag of a request, the unit size of a layout id
    ([m0_obj_layout_id_to_unit_size]), the [MotrObjectMeta] that the bytes of
    an encoded [rgw_bucket_dir_entry_meta] decode to, and the gateway's
    error numbers. *)
Class External := {
  md5 : string -> string;
  rgw_string_unquote : string -> string;
  layout_unit_size : Z -> Z;
  entry_meta_as_motr_meta : rgw_bucket_dir_entry -> MotrObjectMeta;
  rgw_errors :: RgwErrors
}.

Section WithExternal.
Context `{EXT : External}.

(** The separator of [get_key_str], the character ['\a']. *)
Definition SEP : string := String (ascii_of_nat 7) EmptyString.

Definition RGW_ATTR_ETAG : string := "user.rgw.etag".
Definition RGW_ATTR_TAGS : string := "user.rgw.x-amz-tagging".
Definition RGW_ATTR_COMPRESSION : string := "user.rgw.compression".
Definition RGW_ATTR_OBJECT_RETENTION : string := "user.rgw.object-retention".
Definition RGW_ATTR_MOTR_OBJ_FID : string := "user.rgw.x-amz-meta-motr-obj-fid".

(** [static const unsigned MAX_ACC_SIZE = 32 * 1024 * 1024]. *)
Definition MAX_ACC_SIZE : Z := 32 * 1024 * 1024.

(** [inline std::string get_bucket_name(tenant, bucket)]. *)
Definition get_bucket_name (tenant bucket : string) : string :=
  if negb (String.eqb tenant "") then (tenant ++ "$" ++ bucket)%string
  else bucket.

(** *** Index operations by name (lines 6032-6113, 6200-6230) *)

(** [MotrStore::do_idx_op_by_name]: the value of a PUT is [bl]; the value
    read by a GET is appended to [bl]. *)
Definition do_idx_op_by_name (idx_name : string) (opcode : m0_idx_opcode)
    (key_str : string) (bl : bufferlist) (update : bool)
  : M (Z * bufferlist) :=
  let val := match opcode with M0_IC_PUT => bl | _ => [] end in
  '(rc, val) ← m0_idx_op idx_name opcode key_str val update;
  if (rc =? 0) && match opcode with M0_IC_GET => true | _ => false end
  then mret (rc, bl ++ val)
  else mret (rc, bl).

Definition has_prefix (prefix key : string) : bool := String.prefix prefix key.

(** The inner [for (j = 0 ...)] loop of [next_query_by_name] for an empty
    delimiter: copies the pairs of one batch, stopping at the first key
    that does not start with [prefix].  The result says whether the scan
    went to the end of the batch. *)
Fixpoint next_query_copy (prefix : string) (batch : m0_index)
    (acc : m0_index) : bool * m0_index :=
  match batch with
  | [] => (true, acc)
  | (key, val) :: tl =>
      if negb (has_prefix prefix key) then (false, acc)
      else next_query_copy prefix tl (acc ++ [(key, val)])
  end.

(** The outer [for (i = 0; i < val_out.size(); ...)] loop: [acc] holds the
    [i] pairs copied so far, [nr] is the size of [keys]/[vals], [nr_kvp]
    the batch size fixed at entry. *)
Fixpoint next_query_loop (fuel : nat) (idx_name prefix : string)
    (total nr_kvp nr : nat) (key0 : string) (acc : m0_index)
  : M (Z * m0_index) :=
  match fuel with
  | O => throw out_of_fuel
  | S fuel' =>
      if negb (List.length acc <? total)%nat then mret (0, acc)
      else
        '(rc, batch) ← m0_idx_next idx_name key0 nr;
        if rc <? 0 then mret (rc, acc)
        else if rc =? 0 then mret (rc, acc)
        else
          let '(whole, acc') := next_query_copy prefix batch acc in
          if negb whole then mret (rc, acc')
          else if (Z.to_nat rc <? nr_kvp)%nat then mret (rc, acc')
          else
            let next_key :=
              (fst (List.last acc' (""%string, [])) ++ " ")%string in
            let keys_left := (total - List.length acc')%nat in
            let nr' := if (keys_left <? nr_kvp)%nat then keys_left else nr in
            next_query_loop fuel' idx_name prefix total nr_kvp nr' next_key acc'
  end.

(** [MotrStore::next_query_by_name] with an empty delimiter.  [max] is the
    size of [key_out] and [val_out], at least 1: the source reads
    [key_out[0]] before anything else, so it has no defined result for
    empty vectors, and every caller passes vectors of one slot or more.
    The result is the return value and the two vectors, the slots after
    the pairs found left empty. *)
Definition next_query_by_name (idx_name : string) (key0 : string) (max : nat)
    (prefix : string) : M (Z * list string * list bufferlist) :=
  let nr_kvp := Nat.min max 100 in
  '(rc, acc) ← next_query_loop (S max) idx_name prefix max nr_kvp nr_kvp key0 [];
  let pad := (max - List.length acc)%nat in
  let key_out :=
    match acc with
    | [] => firstn max (key0 :: repeat ""%string (max - 1))
    | _ => map fst acc ++ repeat ""%string pad
    end in
  let val_out := map snd acc ++ repeat ([] : bufferlist) pad in
  mret (if rc <? 0 then rc else Z.of_nat (List.length acc), key_out, val_out).

(** *** The metadata cache (lines 229-298) *)

(** Modelled from the spec: the object cache behind [MotrMetaCache]
    (section 4.3): [get] misses with ENOENT, and with the cache disabled
    it is a pass-through. *)
Definition ObjectCache_get (name : string) : M (Z * bufferlist) :=
  fun w =>
    if use_metadata_cache (conf w)
    then match obj_meta_cache w !! name with
         | Some d => (Ret (0, d), w)
         | None => (Ret (- ENOENT, []), w)
         end
    else (Ret (- ENOENT, []), w).

Definition ObjectCache_put (name : string) (data : bufferlist) : M unit :=
  fun w =>
    if use_metadata_cache (conf w)
    then (Ret tt, set_cache w (<[name := data]> (obj_meta_cache w)))
    else (Ret tt, w).

Definition ObjectCache_invalidate_remove (name : string) : M unit :=
  fun w => (Ret tt, set_cache w (delete name (obj_meta_cache w))).

(** [MotrMetaCache::put]: always 0. *)
Definition MotrMetaCache_put (name : string) (data : bufferlist) : M Z :=
  ObjectCache_put name data;; mret 0.

(** [MotrMetaCache::get]: on a hit [data] is replaced by the cached value. *)
Definition MotrMetaCache_get (name : string) (data : bufferlist)
  : M (Z * bufferlist) :=
  '(rc, d) ← ObjectCache_get name;
  if rc =? 0 then mret (0, d)
  else
    let rc := if rc =? - ENODATA then - ENOENT else rc in
    mret (rc, data).

(** [MotrMetaCache::remove]: always 0. *)
Definition MotrMetaCache_remove (name : string) : M Z :=
  ObjectCache_invalidate_remove name;; mret 0.

(** *** Bucket statistics (lines 200-227) *)

Definition stats_at (h : rgw_bucket_dir_header) (c : RGWObjCategory)
  : rgw_bucket_category_stats :=
  default rgw_bucket_category_stats_default (stats h !! c).

(** [update_bucket_stats]; [sz] and [actual_sz] are its parameters [size]
    and [actual_size]. *)
Definition update_bucket_stats (owner bucket_name : string)
    (sz actual_sz num_objects : Z) (add_stats : bool) : M Z :=
  let multiplier := if add_stats then 1 else u64 (-1) in
  let user_stats_iname := ("motr.rgw.user.stats." ++ owner)%string in
  '(rc, bl) ← do_idx_op_by_name user_stats_iname M0_IC_GET bucket_name [] true;
  if negb (rc =? 0) then mret rc
  else
    '(bkt_header, _) ← decode_dir_header bl;
    let bkt_stat := stats_at bkt_header Main in
    let bkt_stat' :=
      {| num_entries := u64 (num_entries bkt_stat + u64 (multiplier * num_objects));
         total_size := u64 (total_size bkt_stat + u64 (multiplier * sz));
         actual_size := u64 (actual_size bkt_stat + u64 (multiplier * actual_sz));
         total_size_rounded := total_size_rounded bkt_stat |} in
    let bkt_header' := {| stats := <[Main := bkt_stat']> (stats bkt_header) |} in
    '(rc, _) ← do_idx_op_by_name user_stats_iname M0_IC_PUT bucket_name
                 [enc_dir_header bkt_header'] true;
    mret rc.

(** The header that [update_bucket_stats] writes back, with the counters
    in closed form. *)
Definition updated_header (h : rgw_bucket_dir_header)
    (sz actual_sz num_objects : Z) (add_stats : bool) : rgw_bucket_dir_header :=
  let old := stats_at h Main in
  let upd (o d : Z) := (if add_stats then o + d else o - d) mod 2 ^ 64 in
  {| stats := <[Main := {| total_size := upd (total_size old) sz;
                           total_size_rounded := total_size_rounded old;
                           num_entries := upd (num_entries old) num_objects;
                           actual_size := upd (actual_size old) actual_sz |}]>
                (stats h) |}.

(** *** Buckets and objects *)

(** Modelled from the spec: the versioning state of a bucket (section
    4.5.3): [versioned] in the enabled and the suspended state,
    [versioning_enabled] in the enabled state only ([RGWBucketInfo]). *)
Record RGWBucketInfo := {
  versioned : bool;
  versioning_enabled : bool;
  obj_lock_retention : option (Z -> string)
}.

Record MotrBucket := {
  tenant : string;
  bucket_name : string;
  info : RGWBucketInfo;
  acl_owner : string;
  bucket_owner_display_name : string
}.

(** The state of a [MotrObject] the operations below read and write. *)
Record MotrObject := {
  bucket : MotrBucket;
  name : string;
  instance : string;
  meta : MotrObjectMeta;
  mobj : bool;
  obj_category : RGWObjCategory;
  attrs : Attrs;
  obj_size : Z;
  delete_marker : bool
}.

Definition set_instance (o : MotrObject) (i : string) : MotrObject :=
  {| bucket := bucket o; name := name o; instance := i; meta := meta o;
     mobj := mobj o; obj_category := obj_category o; attrs := attrs o;
     obj_size := obj_size o; delete_marker := delete_marker o |}.

Definition set_meta (o : MotrObject) (m : MotrObjectMeta) : MotrObject :=
  {| bucket := bucket o; name := name o; instance := instance o; meta := m;
     mobj := mobj o; obj_category := obj_category o; attrs := attrs o;
     obj_size := obj_size o; delete_marker := delete_marker o |}.

Definition set_name (o : MotrObject) (n : string) : MotrObject :=
  {| bucket := bucket o; name := n; instance := instance o; meta := meta o;
     mobj := mobj o; obj_category := obj_category o; attrs := attrs o;
     obj_size := obj_size o; delete_marker := delete_marker o |}.

(** [std::map::emplace] on the attributes: no effect when the key is
    present. *)
Definition attrs_emplace (k v : string) (a : Attrs) : Attrs :=
  match a !! k with Some _ => a | None => <[k := v]> a end.

Definition set_mobj (o : MotrObject) (b : bool) : MotrObject :=
  {| bucket := bucket o; name := name o; instance := instance o;
     meta := meta o; mobj := b; obj_category := obj_category o;
     attrs := attrs o; obj_size := obj_size o;
     delete_marker := delete_marker o |}.

Definition set_category (o : MotrObject) (c : RGWObjCategory) : MotrObject :=
  {| bucket := bucket o; name := name o; instance := instance o;
     meta := meta o; mobj := mobj o; obj_category := c; attrs := attrs o;
     obj_size := obj_size o; delete_marker := delete_marker o |}.

Definition set_attrs (o : MotrObject) (a : Attrs) : MotrObject :=
  {| bucket := bucket o; name := name o; instance := instance o;
     meta := meta o; mobj := mobj o; obj_category := obj_category o;
     attrs := a; obj_size := obj_size o; delete_marker := delete_marker o |}.

Definition set_obj_size (o : MotrObject) (s : Z) : MotrObject :=
  {| bucket := bucket o; name := name o; instance := instance o;
     meta := meta o; mobj := mobj o; obj_category := obj_category o;
     attrs := attrs o; obj_size := s; delete_marker := delete_marker o |}.

Definition set_delete_marker (o : MotrObject) (b : bool) : MotrObject :=
  {| bucket := bucket o; name := name o; instance := instance o;
     meta := meta o; mobj := mobj o; obj_category := obj_category o;
     attrs := attrs o; obj_size := obj_size o; delete_marker := b |}.

(** [MotrBucket::get_object(rgw_obj_key(name))]: a fresh object. *)
Definition get_object (b : MotrBucket) (n : string) : MotrObject :=
  {| bucket := b; name := n; instance := ""; meta := MotrObjectMeta_default;
     mobj := false; obj_category := CatNone; attrs := ∅; obj_size := 0;
     delete_marker := false |}.

Definition set_key (e : rgw_bucket_dir_entry) (n i : string)
  : rgw_bucket_dir_entry :=
  {| key_name := n; key_instance := i; mtime := mtime e; size := size e;
     accounted_size := accounted_size e; etag := etag e; owner := owner e;
     owner_display_name := owner_display_name e; category := category e;
     flags := flags e; user_data := user_data e |}.

Definition set_flags (e : rgw_bucket_dir_entry) (f : Z) : rgw_bucket_dir_entry :=
  {| key_name := key_name e; key_instance := key_instance e; mtime := mtime e;
     size := size e; accounted_size := accounted_size e; etag := etag e;
     owner := owner e; owner_display_name := owner_display_name e;
     category := category e; flags := f; user_data := user_data e |}.

(** [rgw_obj_key::have_instance] and [have_null_instance]. *)
Definition have_instance (o : MotrObject) : bool :=
  negb (String.eqb (instance o) "").
Definition have_null_instance (o : MotrObject) : bool :=
  String.eqb (instance o) "null".

Definition tenant_bkt_name (o : MotrObject) : string :=
  get_bucket_name (tenant (bucket o)) (bucket_name (bucket o)).

Definition bucket_index_iname (o : MotrObject) : string :=
  ("motr.rgw.bucket.index." ++ tenant_bkt_name o)%string.

(** [MotrObject::get_key_str] (lines 3726-3733). *)
Definition get_key_str (o : MotrObject) : string :=
  if negb (have_instance o) || have_null_instance o
  then (name o ++ SEP)%string
  else (name o ++ SEP ++ instance o)%string.

(** The loop of [fetch_latest_obj] over [vals]. *)
Fixpoint fetch_latest_loop (this_name : string) (vals : list bufferlist)
    (null_ent : rgw_bucket_dir_entry) (bl_out : bufferlist) : M bufferlist :=
  match vals with
  | [] => mret bl_out
  | bl :: rest =>
      if (List.length bl =? 0)%nat then mret bl_out
      else
        '(ent, _) ← decode_dir_entry bl;
        if negb (String.eqb (key_name ent) this_name) then mret bl_out
        else if String.eqb (key_name null_ent) ""
        then fetch_latest_loop this_name rest ent bl
        else if mtime null_ent >? mtime ent then mret bl_out
        else fetch_latest_loop this_name rest null_ent bl
  end.

(** [MotrObject::fetch_latest_obj] (lines 3738-3783). *)
Definition fetch_latest_obj (o : MotrObject) (bl_out : bufferlist)
  : M (Z * bufferlist) :=
  let max := 2%nat in
  let key0 := (name o ++ SEP)%string in
  '(rc, keys, vals) ← next_query_by_name (bucket_index_iname o) key0 max "";
  if rc <? 0 then mret (rc, bl_out)
  else if rc =? 0 then mret (- ENOENT, bl_out)
  else
    bl_out ← fetch_latest_loop (name o) vals rgw_bucket_dir_entry_default bl_out;
    mret (if (List.length bl_out =? 0)%nat then - ENOENT else 0, bl_out).

(** [MotrObject::get_bucket_dir_ent] (lines 3785-3845).  The name of an
    object key and of its index key are taken to be the same string. *)
Definition get_bucket_dir_ent (o : MotrObject) (ent : rgw_bucket_dir_entry)
  : M (Z * rgw_bucket_dir_entry * MotrObject) :=
  let obj_key := get_key_str o in
  let out (ent : rgw_bucket_dir_entry) (iter : bufferlist) :=
    '(a, iter) ← decode_attrs iter;
    '(m, _) ← decode_meta entry_meta_as_motr_meta iter;
    mret (0, ent, set_meta (set_attrs o a) m) in
  let decode_and_cache (bl : bufferlist) :=
    '(ent, iter) ← decode_dir_entry bl;
    let obj_key := (key_name ent ++ SEP ++ key_instance ent)%string in
    let ent := if have_null_instance o
               then set_key ent (key_name ent) "null" else ent in
    MotrMetaCache_put obj_key bl;;
    out ent iter in
  if have_instance o then
    '(crc, bl) ← MotrMetaCache_get obj_key [];
    if crc =? 0 then
      '(ent, iter) ← decode_dir_entry bl;
      out ent iter
    else
      '(rc, bl) ← do_idx_op_by_name (bucket_index_iname o) M0_IC_GET obj_key bl true;
      if rc <? 0 then mret (rc, ent, o)
      else decode_and_cache bl
  else
    '(rc, bl) ← fetch_latest_obj o [];
    if rc <? 0 then mret (rc, ent, o)
    else decode_and_cache bl.

(** *** Well-formed bucket indices (section 3.5) *)

(** The directory entry at the head of a record. *)
Definition record_entry (bl : bufferlist) : option rgw_bucket_dir_entry :=
  match bl with
  | enc_dir_entry e :: _ => Some e
  | _ => None
  end.

Definition record_named (n : string) (bl : bufferlist) : bool :=
  match record_entry bl with
  | Some e => String.eqb (key_name e) n
  | None => false
  end.

(** The primary key of an entry, [<name> SEP <instance>]. *)
Definition index_key (e : rgw_bucket_dir_entry) : string :=
  (key_name e ++ SEP ++ key_instance e)%string.

(** Whether the reserved separator byte occurs in a string. *)
Fixpoint has_sep (s : string) : bool :=
  match s with
  | EmptyString => false
  | String c s' => Ascii.eqb c (ascii_of_nat 7) || has_sep s'
  end.

(** A record of the bucket index: entry, attributes and object meta (for a
    delete-marker the entry meta), stored under the key of the entry, whose
    name does not contain the separator. *)
Definition wf_record (kv : string * bufferlist) : bool :=
  match snd kv with
  | [enc_dir_entry e; enc_attrs _; enc_meta _]
  | [enc_dir_entry e; enc_attrs _; enc_dir_entry_meta _] =>
      String.eqb (fst kv) (index_key e) && negb (has_sep (key_name e))
  | _ => false
  end.

(** Keys in strictly ascending order. *)
Fixpoint keys_ascending (t : m0_index) : bool :=
  match t with
  | [] => true
  | kv :: tl =>
      forallb (fun kv' => String.ltb (fst kv) (fst kv')) tl && keys_ascending tl
  end.

Definition wf_bucket_index (t : m0_index) : bool :=
  keys_ascending t && forallb wf_record t.

(** A value of the bucket index that decodes as a record: an entry, then
    attributes, then the object meta (for a delete-marker the entry meta). *)
Definition record_encoded (bl : bufferlist) : bool :=
  match bl with
  | enc_dir_entry _ :: enc_attrs _ :: enc_meta _ :: _
  | enc_dir_entry _ :: enc_attrs _ :: enc_dir_entry_meta _ :: _ => true
  | _ => false
  end.

(** The records that a scan in order goes through when it stops at the
    first record whose name is not [n]: the records of [n] at the head of
    [returned]. *)
Fixpoint records_scanned (n : string) (returned : m0_index) : m0_index :=
  match returned with
  | [] => []
  | kv :: tl =>
      if record_named n (snd kv) then kv :: records_scanned n tl else []
  end.

(** [MotrObject::get_unit_sz]. *)
Definition get_unit_sz (o : MotrObject) : Z :=
  u32 (layout_unit_size (layout_id (meta o))).

(** [MotrObject::open_mobj] (lines 3279-3349). *)
Definition open_mobj (o : MotrObject) : M (Z * MotrObject) :=
  '(rc, o) ← (if layout_id (meta o) =? 0
              then '(rc, _, o') ← get_bucket_dir_ent o rgw_bucket_dir_entry_default;
                   mret (rc, o')
              else mret (0, o));
  if rc <? 0 then mret (rc, o)
  else if layout_id (meta o) =? 0 then mret (- ENOENT, o)
  else
    rc ← m0_entity_open (oid (meta o));
    if negb (rc =? 0) then mret (rc, set_mobj o false)
    else mret (0, set_mobj o true).

(** [MotrObject::delete_mobj] (lines 3351-3410). *)
Definition delete_mobj (o : MotrObject) : M (Z * MotrObject) :=
  if (fst (oid (meta o)) =? 0) || (snd (oid (meta o)) =? 0)
  then mret (- EINVAL, o)
  else
    '(rc, o) ← (if negb (mobj o) then open_mobj o else mret (0, o));
    if rc <? 0 then mret (rc, o)
    else
      rc ← m0_entity_delete (oid (meta o));
      if negb (rc =? 0) then mret (rc, o)
      else mret (0, set_mobj o false).

(** [MotrObject::delete_hsm_enabled_mobj] (lines 3151-3192): the layers of
    the composite object and their extents are removed by the service. *)
Definition delete_hsm_enabled_mobj (o : MotrObject) : M (Z * MotrObject) :=
  '(rc, o) ← (if negb (mobj o) then open_mobj o else mret (0, o));
  if rc <? 0 then mret (rc, o)
  else
    rc ← m0_composite_delete_layers (oid (meta o));
    mret (rc, o).

(** [MotrStore::get_upload_id] (lines 5413-5440). *)
Definition get_upload_id (tenant_bkt : string) (key_name : string)
    (upload_id0 : string) : M (Z * string) :=
  let index_name := ("motr.rgw.bucket.index." ++ tenant_bkt)%string in
  '(rc, bl) ← do_idx_op_by_name index_name M0_IC_GET key_name [] true;
  if rc <? 0 then mret (rc, upload_id0)
  else
    '(ent, _) ← decode_dir_entry bl;
    upload_info ← decode_upload_info (user_data ent);
    mret (rc, upload_id upload_info).

(** *** Multipart uploads: listing and deleting parts *)

Record MotrMultipartPart := {
  part_info : RGWUploadPartInfo;
  part_meta : MotrObjectMeta
}.

(** [get_size()] and [get_size_rounded()] of a part. *)
Definition get_size (p : MotrMultipartPart) : Z := part_accounted_size (part_info p).
Definition get_size_rounded (p : MotrMultipartPart) : Z := size_rounded (part_info p).

(** The state of a [MotrMultipartUpload]; [parts] is the
    [std::map<uint32_t, ...>] in ascending key order. *)
Record MotrMultipartUpload := {
  mp_bucket : MotrBucket;
  mp_key : string;
  mp_upload_id : string;
  mp_hsm_enabled : bool;
  mp_meta : MotrObjectMeta;
  parts : list (Z * MotrMultipartPart);
  version_id : string
}.

Definition set_parts (u : MotrMultipartUpload) (p : list (Z * MotrMultipartPart))
  : MotrMultipartUpload :=
  {| mp_bucket := mp_bucket u; mp_key := mp_key u;
     mp_upload_id := mp_upload_id u; mp_hsm_enabled := mp_hsm_enabled u;
     mp_meta := mp_meta u; parts := p; version_id := version_id u |}.

Definition set_version_id (u : MotrMultipartUpload) (v : string)
  : MotrMultipartUpload :=
  {| mp_bucket := mp_bucket u; mp_key := mp_key u;
     mp_upload_id := mp_upload_id u; mp_hsm_enabled := mp_hsm_enabled u;
     mp_meta := mp_meta u; parts := parts u; version_id := v |}.

(** [MotrBucket::get_multipart_upload(oid, upload_id)]: a fresh upload. *)
Definition get_multipart_upload (b : MotrBucket) (oid_ upload : string)
  : MotrMultipartUpload :=
  {| mp_bucket := b; mp_key := oid_; mp_upload_id := upload;
     mp_hsm_enabled := false; mp_meta := MotrObjectMeta_default;
     parts := []; version_id := "" |}.

(** [std::map::emplace]: no effect when the key is present. *)
Fixpoint parts_emplace (k : Z) (p : MotrMultipartPart)
    (m : list (Z * MotrMultipartPart)) : list (Z * MotrMultipartPart) :=
  match m with
  | [] => [(k, p)]
  | (k', p') :: tl =>
      if k <? k' then (k, p) :: m
      else if k =? k' then m
      else (k', p') :: parts_emplace k p tl
  end.

(** Decimal printing, as [std::to_string] and [%d] / [%lld] do it. *)
Definition string_of_Z (z : Z) : string :=
  DecimalString.NilZero.string_of_int (Z.to_int z).

(** [snprintf(buf, sizeof(buf), ".%08d", n)] for [n >= 0]. *)
Definition fmt_dot_08d (n : Z) : string :=
  let d := string_of_Z n in
  ("." ++ string_of_list_ascii (repeat "0"%char (8 - String.length d)) ++ d)%string.

(** The [(int)] cast of a [uint32_t]. *)
Definition int_of_u32 (x : Z) : Z :=
  let y := u32 x in if y <? 2 ^ 31 then y else y - 2 ^ 32.

(** The loop of [list_parts] over [val_vec]. *)
Fixpoint list_parts_loop (vals : list bufferlist) (marker last_num part_cnt : Z)
    (ps : list (Z * MotrMultipartPart))
  : M (Z * Z * list (Z * MotrMultipartPart)) :=
  match vals with
  | [] => mret (last_num, part_cnt, ps)
  | bl :: rest =>
      if (List.length bl =? 0)%nat then mret (last_num, part_cnt, ps)
      else
        '(pinfo, iter) ← decode_part_info bl;
        '(_, iter) ← decode_attrs iter;
        '(pmeta, _) ← decode_meta entry_meta_as_motr_meta iter;
        let '(last_num, ps) :=
          if int_of_u32 (num pinfo) >? marker
          then (int_of_u32 (num pinfo),
                parts_emplace (u32 (num pinfo))
                  {| part_info := pinfo; part_meta := pmeta |} ps)
          else (last_num, ps) in
        list_parts_loop rest marker last_num (part_cnt + 1) ps
  end.

Definition multiparts_iname (tenant_bkt : string) : string :=
  ("motr.rgw.bucket." ++ tenant_bkt ++ ".multiparts")%string.

Definition multiparts_in_progress_iname (tenant_bkt : string) : string :=
  ("motr.rgw.bucket." ++ tenant_bkt ++ ".multiparts.in-progress")%string.

(** [MotrMultipartUpload::list_parts] (lines 4689-4783).  [next_marker] and
    [truncated] are the values behind the two pointers on entry. *)
Definition list_parts (u : MotrMultipartUpload) (num_parts marker : Z)
    (next_marker : Z) (truncated : bool)
  : M (Z * Z * bool * MotrMultipartUpload) :=
  if (num_parts <=? 0) || (marker <? 0)
  then mret (0, next_marker, truncated, u)
  else
    let tenant_bkt := get_bucket_name (tenant (mp_bucket u)) (bucket_name (mp_bucket u)) in
    '(rc, upload_id) ←
      (if (String.length (mp_upload_id u) =? 0)%nat then
         let mobj_ver := set_instance (get_object (mp_bucket u) (mp_key u)) (version_id u) in
         '(ret_rc, ent, _) ← get_bucket_dir_ent mobj_ver rgw_bucket_dir_entry_default;
         if ret_rc <? 0 then mret (ret_rc, mp_upload_id u)
         else if negb (is_delete_marker ent) then
           let key_name := (key_name ent ++ SEP ++ key_instance ent)%string in
           get_upload_id tenant_bkt key_name (mp_upload_id u)
         else mret (0, mp_upload_id u)
       else mret (0, mp_upload_id u));
    if rc <? 0 then mret (rc, next_marker, truncated, u)
    else
      let iname := multiparts_iname tenant_bkt in
      let prefix := (mp_key u ++ "." ++ upload_id)%string in
      let key0 := (prefix ++ fmt_dot_08d (marker + 1))%string in
      '(rc, _, val_vec) ← next_query_by_name iname key0 (Z.to_nat num_parts) prefix;
      if rc <? 0 then mret (rc, next_marker, truncated, u)
      else
        '(last_num, part_cnt, ps) ← list_parts_loop val_vec marker 0 0 [];
        mret (0, last_num, part_cnt >=? num_parts, set_parts u ps).

(** The [for] loop of [delete_parts] over the parts of one listing. *)
Fixpoint delete_parts_for (u : MotrMultipartUpload)
    (ps : list (Z * MotrMultipartPart)) (total_size total_size_rounded : Z)
  : M (Z * Z * Z) :=
  match ps with
  | [] => mret (0, total_size, total_size_rounded)
  | (_, mmpart) :: rest =>
      let part_num := u32 (num (part_info mmpart)) in
      let total_size := u64 (total_size + get_size mmpart) in
      let total_size_rounded := u64 (total_size_rounded + get_size_rounded mmpart) in
      if mp_hsm_enabled u
      then delete_parts_for u rest total_size total_size_rounded
      else
        let part_obj_name :=
          (bucket_name (mp_bucket u) ++ "." ++ mp_key u ++ ".part."
           ++ string_of_Z part_num)%string in
        let mobj := set_meta (get_object (mp_bucket u) part_obj_name) (part_meta mmpart) in
        '(rc, _) ← delete_mobj mobj;
        if rc <? 0 then mret (rc, total_size, total_size_rounded)
        else delete_parts_for u rest total_size total_size_rounded
  end.

(** The [do ... while (truncated)] loop of [delete_parts]. *)
Fixpoint delete_parts_loop (fuel : nat) (u : MotrMultipartUpload)
    (marker : Z) (truncated : bool) (total_size total_size_rounded : Z)
  : M (Z * Z * Z * MotrMultipartUpload) :=
  match fuel with
  | O => throw out_of_fuel
  | S fuel' =>
      '(rc, marker, truncated, u) ← list_parts u 1000 marker marker truncated;
      let '(rc, truncated) :=
        if rc =? - ENOENT then (0, false) else (rc, truncated) in
      if rc <? 0 then mret (rc, total_size, total_size_rounded, u)
      else
        '(rc, total_size, total_size_rounded) ←
          delete_parts_for u (parts u) total_size total_size_rounded;
        if rc <? 0 then mret (rc, total_size, total_size_rounded, u)
        else if truncated
        then delete_parts_loop fuel' u marker truncated total_size total_size_rounded
        else mret (rc, total_size, total_size_rounded, u)
  end.

(** [MotrMultipartUpload::delete_parts] (lines 4424-4510).  [size_rounded]
    is [None] for a null pointer, otherwise the value behind it. *)
Definition delete_parts (fuel : nat) (u : MotrMultipartUpload)
    (version : string) (size_rounded : option Z)
  : M (Z * option Z * MotrMultipartUpload) :=
  let u := set_version_id u version in
  '(rc, total_size, total_size_rounded, u) ←
    delete_parts_loop fuel u 0 false 0 0;
  if rc <? 0 then mret (rc, size_rounded, u)
  else
    let tenant_bkt := get_bucket_name (tenant (mp_bucket u)) (bucket_name (mp_bucket u)) in
    '(rc, upload_id) ←
      (if (String.length (mp_upload_id u) =? 0)%nat then
         let key_name := (mp_key u ++ SEP)%string in
         let key_name := if negb (String.eqb version "null")
                         then (key_name ++ version)%string else key_name in
         get_upload_id tenant_bkt key_name (mp_upload_id u)
       else mret (rc, mp_upload_id u));
    if rc <? 0 then mret (rc, size_rounded, u)
    else
      let size_rounded := match size_rounded with
                          | Some _ => Some total_size_rounded
                          | None => None
                          end in
      if negb (String.length (mp_upload_id u) =? 0)%nat then
        rc ← update_bucket_stats (acl_owner (mp_bucket u)) tenant_bkt
               total_size total_size_rounded 1 false;
        mret (rc, size_rounded, u)
      else mret (rc, size_rounded, u).

(** [MotrObject::delete_part_objs] (lines 3991-3998). *)
Definition delete_part_objs (fuel : nat) (o : MotrObject) (size_rounded : Z)
  : M (Z * Z) :=
  let version := instance o in
  let mupload := get_multipart_upload (bucket o) (name o) "" in
  '(rc, sr, _) ← delete_parts fuel mupload version (Some size_rounded);
  mret (rc, default size_rounded sr).

(** *** Removing an object and its index entry (lines 2266-2370) *)

Definition oid_str (m : MotrObjectMeta) : string :=
  (string_of_Z (fst (oid m)) ++ ":" ++ string_of_Z (snd (oid m)))%string.

(** [MotrObject::remove_mobj_and_index_entry], lines 2266-2352: the
    object is deleted or queued for the collector, then the entry is
    deleted from the bucket index.  The result carries [size_rounded].  The
    test written [this-meta.is_composite] subtracts a flag from the [this]
    pointer and is always true, so a simple object goes to
    [delete_hsm_enabled_mobj]. *)
Definition remove_mobj_and_index_delete (fuel : nat) (o : MotrObject)
    (ent : rgw_bucket_dir_entry) (delete_key bucket_index_iname bucket_name : string)
  : M (Z * Z * MotrObject) :=
  '(rc, size_rounded, o) ←
    (if negb (size ent =? 0) then
       if decide (category ent = MultiMeta) then
         let o := set_category o MultiMeta in
         w ← get_world;
         '(rc, pushed_to_gc) ←
           (if gc_enabled (conf w) then
              '(rc, upload_id) ← get_upload_id bucket_name delete_key "";
              if rc <? 0 then mret (rc, false)
              else
                let obj_fqdn := (name o ++ "." ++ upload_id)%string in
                let iname := multiparts_iname bucket_name in
                rc ← gc_enqueue {| gc_tag := upload_id; gc_name := obj_fqdn;
                                   gc_mobj := meta o; gc_size := size ent;
                                   gc_is_multipart := negb (String.eqb iname "");
                                   gc_multipart_iname := iname |};
                mret (rc, rc =? 0)
            else mret (0, false));
         if negb pushed_to_gc then
           if is_composite (meta o) then
             '(rc, size_rounded) ← delete_part_objs fuel o 0;
             if negb (rc =? 0) then mret (rc, size_rounded, o)
             else '(rc, o) ← delete_hsm_enabled_mobj o; mret (rc, size_rounded, o)
           else
             '(rc, size_rounded) ← delete_part_objs fuel o 0;
             mret (rc, size_rounded, o)
         else mret (rc, 0, o)
       else
         '(rc, o) ← (if negb (mobj o) then open_mobj o else mret (0, o));
         if rc <? 0 then mret (rc, 0, o)
         else
           let size_rounded := Layout.roundup (size ent) (get_unit_sz o) in
           w ← get_world;
           '(rc, pushed_to_gc) ←
             (if gc_enabled (conf w) then
                let tag := oid_str (meta o) in
                let obj_fqdn := (bucket_name ++ "/" ++ delete_key)%string in
                rc ← gc_enqueue {| gc_tag := tag; gc_name := obj_fqdn;
                                   gc_mobj := meta o; gc_size := size ent;
                                   gc_is_multipart := false;
                                   gc_multipart_iname := "" |};
                mret (rc, rc =? 0)
              else mret (0, false));
           if negb pushed_to_gc then
             '(rc, o) ← delete_hsm_enabled_mobj o; mret (rc, size_rounded, o)
           else mret (rc, size_rounded, o)
     else mret (0, 0, o));
  if rc <? 0 then mret (rc, size_rounded, o)
  else
    '(rc, _) ← do_idx_op_by_name bucket_index_iname M0_IC_DEL delete_key [] true;
    mret (rc, size_rounded, o).

(** The whole function: the part above, then (lines 2354-2369) the
    subtraction from the bucket statistics. *)
Definition remove_mobj_and_index_entry (fuel : nat) (o : MotrObject)
    (ent : rgw_bucket_dir_entry) (delete_key bucket_index_iname bucket_name : string)
  : M (Z * MotrObject) :=
  '(rc, size_rounded, o) ←
    remove_mobj_and_index_delete fuel o ent delete_key bucket_index_iname bucket_name;
  if rc <? 0 then mret (rc, o)
  else if is_delete_marker ent then mret (rc, o)
  else
    rc ← update_bucket_stats (owner ent) bucket_name (size ent) size_rounded 1 false;
    mret (rc, o).

(** [MotrObject::update_version_entries] (lines 3847-3911). *)
Definition update_version_entries (o : MotrObject) (set_is_latest : bool) : M Z :=
  '(rc, bl) ← fetch_latest_obj o [];
  if rc =? - ENOENT then mret 0
  else if rc <? 0 then mret rc
  else
    '(ent, iter) ← decode_dir_entry bl;
    '(a, iter) ← decode_attrs iter;
    '(m, _) ← decode_meta entry_meta_as_motr_meta iter;
    if negb (is_current ent) && negb set_is_latest then mret 0
    else
      let f :=
        if set_is_latest then
          if is_delete_marker ent then FLAG_DELETE_MARKER
          else Z.lor FLAG_VER FLAG_CURRENT
        else
          if is_delete_marker ent then Z.lor FLAG_DELETE_MARKER FLAG_VER
          else FLAG_VER in
      let ent := set_flags ent f in
      let key := (key_name ent ++ SEP ++ key_instance ent)%string in
      MotrMetaCache_remove key;;
      '(rc, _) ← do_idx_op_by_name (bucket_index_iname o) M0_IC_PUT key
                   [enc_dir_entry ent; enc_attrs a; enc_meta m] true;
      mret rc.

(** [MotrObject::fetch_null_obj] (lines 3693-3724). *)
Definition fetch_null_obj (o : MotrObject) : M (Z * string * bufferlist) :=
  let key := (name o ++ SEP)%string in
  '(crc, bl) ← MotrMetaCache_get key [];
  '(rc, bl) ←
    (if negb (crc =? 0) then
       '(rc, bl) ← do_idx_op_by_name (bucket_index_iname o) M0_IC_GET key bl true;
       if rc <? 0 then mret (rc, bl)
       else MotrMetaCache_put key bl;; mret (rc, bl)
     else mret (0, bl));
  if rc <? 0 then mret (rc, key, [])
  else
    '(_, _) ← decode_dir_entry bl;
    mret (rc, key, bl).

(** [MotrObject::remove_null_obj] (lines 4246-4289). *)
Definition remove_null_obj (fuel : nat) (o : MotrObject) : M (Z * MotrObject) :=
  '(rc, null_obj_key, old_check_bl) ← fetch_null_obj o;
  if rc =? - ENOENT then mret (0, o)
  else if rc <? 0 then mret (rc, o)
  else if (0 <? List.length old_check_bl)%nat then
    '(old_ent, ent_iter) ← decode_dir_entry old_check_bl;
    '(_, ent_iter) ← decode_attrs ent_iter;
    '(m, _) ← decode_meta entry_meta_as_motr_meta ent_iter;
    let o := set_instance (set_meta o m) (key_instance old_ent) in
    remove_mobj_and_index_entry fuel o old_ent null_obj_key
      (bucket_index_iname o) (tenant_bkt_name o)
  else mret (rc, o).

(** *** DELETE (lines 2129-2264) *)

Record DeleteOp_params := {
  obj_owner_id : string;
  obj_owner_display_name : string;
  params_mtime : Z
}.

Record DeleteOp_result := {
  result_version_id : string;
  result_delete_marker : bool
}.

(** [MotrObject::MotrDeleteOp::create_delete_marker]; [now] is the reading
    of [real_clock::now()]. *)
Definition create_delete_marker (source : MotrObject) (result : DeleteOp_result)
    (params : DeleteOp_params) (now : Z) : M Z :=
  let ent_del_marker :=
    {| key_name := name source;
       key_instance := result_version_id result;
       mtime := if params_mtime params =? 0 then now else params_mtime params;
       size := 0; accounted_size := 0; etag := "";
       owner := obj_owner_id params;
       owner_display_name := obj_owner_display_name params;
       category := CatNone;
       flags := Z.lor FLAG_DELETE_MARKER FLAG_CURRENT;
       user_data := ud_raw "" |} in
  let del_mark_bl :=
    [enc_dir_entry ent_del_marker; enc_attrs ∅; enc_dir_entry_meta ent_del_marker] in
  let delete_marker_key := get_key_str source in
  '(rc, _) ← do_idx_op_by_name (bucket_index_iname source) M0_IC_PUT
               delete_marker_key del_mark_bl true;
  if rc <? 0 then mret rc
  else MotrMetaCache_put delete_marker_key del_mark_bl;; mret rc.

(** [MotrObject::MotrDeleteOp::delete_obj]; [ms_since_epoch] and [buf] are
    the clock reading and the random characters that
    [gen_rand_obj_instance_name] uses. *)
Definition delete_obj (fuel : nat) (source : MotrObject) (params : DeleteOp_params)
    (ms_since_epoch : Z) (buf : string) (now : Z)
  : M (Z * DeleteOp_result * MotrObject) :=
  let result0 := {| result_version_id := ""; result_delete_marker := false |} in
  '(rc, ent, source) ← get_bucket_dir_ent source rgw_bucket_dir_entry_default;
  if rc <? 0 then mret (rc, result0, source)
  else
    let delete_key := get_key_str source in
    MotrMetaCache_remove delete_key;;
    let null_shown (r : DeleteOp_result) :=
      if String.eqb (result_version_id r) ""
      then {| result_version_id := "null";
              result_delete_marker := result_delete_marker r |}
      else r in
    if versioned (info (bucket source)) then
      if have_instance source then
        let result := {| result_version_id := key_instance ent;
                         result_delete_marker := is_delete_marker ent |} in
        '(rc, source) ← remove_mobj_and_index_entry fuel source ent delete_key
                          (bucket_index_iname source) (tenant_bkt_name source);
        if rc <? 0 then mret (rc, result, source)
        else if is_current ent then
          rc ← update_version_entries source true;
          if rc <? 0 then mret (rc, result, source)
          else mret (0, null_shown result, source)
        else mret (0, null_shown result, source)
      else
        let source := set_instance source
                        (Base62.gen_rand_obj_instance_name ms_since_epoch buf) in
        let del_marker_ver_id := instance source in
        let result := {| result_version_id := del_marker_ver_id;
                         result_delete_marker := true |} in
        let source := set_delete_marker source true in
        let finish (result : DeleteOp_result) (source : MotrObject) :=
          let source := set_instance source (result_version_id result) in
          rc ← update_version_entries source false;
          if rc <? 0 then mret (rc, result, source)
          else
            rc ← create_delete_marker source result params now;
            if rc <? 0 then mret (rc, result, source)
            else mret (0, null_shown result, source) in
        if negb (versioning_enabled (info (bucket source))) then
          let result := {| result_version_id := ""; result_delete_marker := true |} in
          if is_delete_marker ent && String.eqb (key_instance ent) ""
          then mret (0, result, source)
          else if String.eqb (key_instance ent) "" then
            let source := set_instance source (key_instance ent) in
            '(rc, source) ← remove_mobj_and_index_entry fuel source ent delete_key
                              (bucket_index_iname source) (tenant_bkt_name source);
            if rc <? 0 then mret (rc, result, source)
            else finish result source
          else finish result source
        else finish result source
    else
      '(rc, source) ← remove_mobj_and_index_entry fuel source ent delete_key
                        (bucket_index_iname source) (tenant_bkt_name source);
      if rc <? 0 then mret (rc, result0, source)
      else mret (0, result0, source).

(** *** GET / HEAD (lines 1946-2045) *)

Record ReadOp_params := {
  mod_ptr : option Z;
  unmod_ptr : option Z;
  if_match : option string;
  if_nomatch : option string;
  high_precision_time : bool
}.

(** Modelled from the spec: the if-modified-since and if-unmodified-since
    checks compare against [mtime] (section 4.5.4, step 3); without high
    precision the two times are compared in whole seconds
    ([obj_time_weight] of rgw_common.h, times in nanoseconds). *)
Definition weight_lt (high_precision : bool) (a b : Z) : bool :=
  if high_precision then a <? b else a / 1000000000 <? b / 1000000000.

(** [MotrObject::MotrReadOp::prepare]: the result, the object after the
    call and the value stored through [params.lastmod]. *)
Definition prepare (source : MotrObject) (params : ReadOp_params) (lastmod : Z)
  : M (Z * MotrObject * Z) :=
  '(rc, ent, source) ← get_bucket_dir_ent source rgw_bucket_dir_entry_default;
  if rc <? 0 then mret (rc, source, lastmod)
  else if is_delete_marker ent then
    if String.eqb (instance source) (key_instance ent)
       && negb (String.eqb (key_instance ent) "")
    then mret (- ERR_METHOD_NOT_ALLOWED, source, lastmod)
    else mret (- ENOENT, source, lastmod)
  else
    let source := set_attrs source (attrs_emplace RGW_ATTR_ETAG (etag ent) (attrs source)) in
    let source := set_instance (set_name source (key_name ent)) (key_instance ent) in
    let source := set_obj_size source (size ent) in
    let source := set_category source (category ent) in
    let source := set_attrs source
                    (attrs_emplace RGW_ATTR_MOTR_OBJ_FID (oid_str (meta source))
                       (attrs source)) in
    let lastmod := mtime ent in
    let hp := high_precision_time params in
    let mod_fails :=
      match mod_ptr params, if_nomatch params with
      | Some t, None => negb (weight_lt hp t lastmod)
      | _, _ => false
      end in
    let unmod_fails :=
      match unmod_ptr params, if_match params with
      | Some t, None => weight_lt hp t lastmod
      | _, _ => false
      end in
    let match_fails :=
      match if_match params with
      | Some s => negb (String.eqb (rgw_string_unquote s) (etag ent))
      | None => false
      end in
    let nomatch_fails :=
      match if_nomatch params with
      | Some s => String.eqb (rgw_string_unquote s) (etag ent)
      | None => false
      end in
    if mod_fails || unmod_fails || match_fails || nomatch_fails
    then mret (- ERR_PRECONDITION_FAILED, source, lastmod)
    else mret (0, source, lastmod).

(** *** PUT: the atomic writer (lines 4291-4422) *)

Record MotrAtomicWriter := {
  aw_obj : MotrObject;
  aw_owner : string;
  total_data_size : Z;
  acc_data_length : Z;
  acc_off : Z
}.

(** [MotrAtomicWriter::cleanup]. *)
Definition cleanup (wr : MotrAtomicWriter) : MotrAtomicWriter :=
  {| aw_obj := set_mobj (aw_obj wr) false; aw_owner := aw_owner wr;
     total_data_size := total_data_size wr; acc_data_length := 0;
     acc_off := acc_off wr |}.

(** [MotrAtomicWriter::write(true)]: the flush of the accumulated data.
    The block loop is one write of the object service here; [fresh] is the
    id and layout a newly created object receives. *)
Definition write_last (wr : MotrAtomicWriter) (fresh : MotrObjectMeta)
  : M (Z * MotrAtomicWriter) :=
  let left := acc_data_length wr in
  '(rc, obj) ←
    (if negb (mobj (aw_obj wr)) then
       rc ← m0_entity_create (oid fresh);
       if rc =? - EEXIST then open_mobj (set_meta (aw_obj wr) fresh)
       else if negb (rc =? 0) then mret (rc, set_mobj (aw_obj wr) false)
       else mret (0, set_mobj (set_meta (aw_obj wr) fresh) true)
     else mret (0, aw_obj wr));
  let wr := {| aw_obj := obj; aw_owner := aw_owner wr;
               total_data_size := total_data_size wr;
               acc_data_length := left; acc_off := acc_off wr |} in
  if negb (rc =? 0) then mret (rc, cleanup wr)
  else
    rc ← m0_obj_write (oid (meta obj)) (acc_off wr) left;
    if negb (rc =? 0) then mret (rc, cleanup wr)
    else
      mret (0, {| aw_obj := obj; aw_owner := aw_owner wr;
                  total_data_size := u64 (total_data_size wr + left);
                  acc_data_length := 0; acc_off := acc_off wr |}).

(** [MotrAtomicWriter::complete], lines 4291-4406: the data is flushed and
    the entry is written to the bucket index and the cache.  The result
    carries [size_rounded]. *)
Definition complete_write_index (fuel : nat) (wr : MotrAtomicWriter)
    (fresh : MotrObjectMeta) (etag_ : string) (set_mtime : Z)
    (attrs_ : Attrs) (user_data_ : option string) (now : Z)
  : M (Z * Z * MotrAtomicWriter) :=
  '(rc, wr) ← (if negb (acc_data_length wr =? 0)
               then '(rc, wr) ← write_last wr fresh; mret (rc, cleanup wr)
               else mret (0, wr));
  if negb (rc =? 0) then mret (rc, 0, wr)
  else
    let obj := aw_obj wr in
    let binfo := info (bucket obj) in
    let ent :=
      {| key_name := name obj; key_instance := instance obj;
         mtime := if set_mtime =? 0 then now else set_mtime;
         size := total_data_size wr; accounted_size := total_data_size wr;
         etag := etag_; owner := aw_owner wr;
         owner_display_name := bucket_owner_display_name (bucket obj);
         category := CatNone;
         flags := if versioned binfo then Z.lor FLAG_VER FLAG_CURRENT else 0;
         user_data := ud_raw (default ""%string user_data_) |} in
    let size_rounded :=
      if negb (size ent =? 0) then Layout.roundup (size ent) (get_unit_sz obj) else 0 in
    let attrs_ :=
      match obj_lock_retention binfo with
      | Some f => match attrs_ !! RGW_ATTR_OBJECT_RETENTION with
                  | None => <[RGW_ATTR_OBJECT_RETENTION := f (mtime ent)]> attrs_
                  | Some _ => attrs_
                  end
      | None => attrs_
      end in
    let bl := [enc_dir_entry ent; enc_attrs attrs_; enc_meta (meta obj)] in
    rc ← (if versioned binfo then update_version_entries obj false else mret 0);
    if rc <? 0 then mret (rc, size_rounded, wr)
    else
      rc ← (if negb (versioning_enabled binfo)
            then '(rc, _) ← remove_null_obj fuel (get_object (bucket obj) (name obj));
                 mret rc
            else mret rc);
      if rc <? 0 then mret (rc, size_rounded, wr)
      else
        let obj_key := get_key_str obj in
        '(rc, _) ← do_idx_op_by_name (bucket_index_iname obj) M0_IC_PUT obj_key bl true;
        if negb (rc =? 0) then mret (rc, size_rounded, wr)
        else
          MotrMetaCache_put obj_key bl;;
          mret (0, size_rounded, wr).

(** The whole function: the part above, then (lines 4408-4421) the
    addition to the bucket statistics. *)
Definition MotrAtomicWriter_complete (fuel : nat) (wr : MotrAtomicWriter)
    (fresh : MotrObjectMeta) (etag_ : string) (set_mtime : Z)
    (attrs_ : Attrs) (user_data_ : option string) (now : Z)
  : M (Z * MotrAtomicWriter) :=
  '(rc, size_rounded, wr) ←
    complete_write_index fuel wr fresh etag_ set_mtime attrs_ user_data_ now;
  if negb (rc =? 0) then mret (rc, wr)
  else
    rc ← update_bucket_stats (aw_owner wr) (tenant_bkt_name (aw_obj wr))
           (total_data_size wr) size_rounded 1 true;
    mret (rc, wr).

(** *** Multipart upload: abort (lines 4512-4543) *)

(** Modelled from the spec: the key of an upload in the
    [multiparts.in-progress] index, [<object>.<upload-id>] (section 3.3;
    [RGWMPObj::get_meta] of rgw_multi.h). *)
Definition get_meta (u : MotrMultipartUpload) : string :=
  (mp_key u ++ "." ++ mp_upload_id u)%string.

(** [MotrMultipartUpload::abort]. *)
Definition abort (fuel : nat) (u : MotrMultipartUpload) : M Z :=
  let tenant_bkt := get_bucket_name (tenant (mp_bucket u)) (bucket_name (mp_bucket u)) in
  let bucket_multipart_iname := multiparts_in_progress_iname tenant_bkt in
  '(rc, bl) ← do_idx_op_by_name bucket_multipart_iname M0_IC_GET (get_meta u) [] true;
  if rc <? 0 then mret (if rc =? - ENOENT then - ERR_NO_SUCH_UPLOAD else rc)
  else
    '(rc, _, _) ← delete_parts fuel u "" None;
    if rc <? 0 then mret rc
    else
      '(rc, _) ← do_idx_op_by_name bucket_multipart_iname M0_IC_DEL (get_meta u) [] true;
      mret rc.

(** *** Writing to an object (lines 3420-3572) *)

(** The members of [MotrObject] that [write_mobj] works on: the bytes
    processed so far, the size expected for the whole object, the size of
    an I/O chunk, and [io_ctxt], the buffers kept back for a later write
    (here their lengths, in order), their total size and the offset of the
    first of them.  The header among the sources does not declare these
    members; they are read off their uses in [write_mobj], and the
    arithmetic on them is written over the integers. *)
Record IoCtxt := {
  accumulated_buffer_list : list Z;
  total_bufer_sz : Z;
  start_offset : Z
}.

Record MotrObjectIo := {
  processed_bytes : Z;
  expected_obj_size : Z;
  chunk_io_sz : Z;
  io_ctxt : IoCtxt
}.

Definition set_chunk_io_sz (io : MotrObjectIo) (sz : Z) : MotrObjectIo :=
  {| processed_bytes := processed_bytes io;
     expected_obj_size := expected_obj_size io;
     chunk_io_sz := sz; io_ctxt := io_ctxt io |}.

(** The length of the buffers of a list appended to one another. *)
Definition buffers_length (l : list Z) : Z := fold_right Z.add 0 l.

(** The [for (p = start; left > 0; left -= bs, p += bs, offset += bs)]
    loop of [write_mobj]: one write of [bs] bytes at [offset] per round,
    the last block rounded to the unit size (and the data padded with
    zeros up to it) when this is the last I/O of the object.  [left] and
    [bs] are [int64_t], [offset] is [uint64_t]; [pa] is the attributes of
    the pool version of the object.  A failed write ends the loop. *)
Fixpoint write_mobj_loop (fuel : nat) (pa : Layout.m0_pdclust_attr)
    (o : MotrObject) (last_io : bool) (left bs offset : Z) : M Z :=
  match fuel with
  | O => throw out_of_fuel
  | S fuel' =>
      if negb (left >? 0) then mret 0
      else
        let bs := if (left <? bs) && last_io
                  then Layout.get_optimal_bs pa (get_unit_sz o) (u32 left) true
                  else bs in
        rc ← m0_obj_write (oid (meta o)) offset bs;
        if negb (rc =? 0) then mret rc
        else write_mobj_loop fuel' pa o last_io (left - bs) bs (u64 (offset + bs))
  end.

(** [MotrObject::write_mobj] (lines 3420-3572) on data of [data_len]
    bytes.  The three allocations of vectors are taken to succeed, and
    [get_optimal_bs] called with one argument has [last = false]. *)
Definition write_mobj (fuel : nat) (pa : Layout.m0_pdclust_attr)
    (o : MotrObject) (io : MotrObjectIo) (data_len offset : Z)
  : M (Z * MotrObjectIo) :=
  let left := data_len in
  if left =? 0 then mret (0, io)
  else
    let processed := processed_bytes io + left in
    let ctx := io_ctxt io in
    let accumulating :=
      negb (List.length (accumulated_buffer_list ctx) =? 0)%nat in
    let available_data := if accumulating then total_bufer_sz ctx else 0 in
    let bs := Layout.get_optimal_bs pa (get_unit_sz o) (u32 (chunk_io_sz io))
                false in
    let chunk := if bs <? chunk_io_sz io then bs else chunk_io_sz io in
    let remaining_bytes := expected_obj_size io - processed in
    let last_io := remaining_bytes <=? 0 in
    let with_ctx (c : IoCtxt) :=
      {| processed_bytes := processed;
         expected_obj_size := expected_obj_size io;
         chunk_io_sz := chunk; io_ctxt := c |} in
    if (left + available_data <? bs) && (remaining_bytes >? 0)
    then
      mret (0, with_ctx
                 {| accumulated_buffer_list :=
                      accumulated_buffer_list ctx ++ [left];
                    total_bufer_sz := total_bufer_sz ctx + left;
                    start_offset := if accumulating then start_offset ctx
                                    else offset |})
    else
      let append :=
        accumulating
        && ((left + available_data <? bs)
            || (left + available_data =? bs)) in
      let acc := if append then accumulated_buffer_list ctx ++ [left]
                 else accumulated_buffer_list ctx in
      let flush := negb (List.length acc =? 0)%nat in
      let offset := if flush then start_offset ctx else offset in
      let left := if flush then buffers_length acc else left in
      let bs := if flush
                then Layout.get_optimal_bs pa (get_unit_sz o) (u32 left) false
                else bs in
      rc ← write_mobj_loop fuel pa o last_io left bs offset;
      mret (rc, with_ctx {| accumulated_buffer_list := if flush then [] else acc;
                            total_bufer_sz := 0; start_offset := 0 |}).

(** Writes of the log that lie one after the other from [start] in the
    object [o], each of at least one byte. *)
Fixpoint contiguous_writes (o : m0_uint128) (start : Z)
    (blocks : list (m0_uint128 * Z * Z)) : bool :=
  match blocks with
  | [] => true
  | (o', off, len) :: tl =>
      bool_decide (o' = o) && (off =? start) && (0 <? len)
      && contiguous_writes o (u64 (start + len)) tl
  end.

(** The bytes that a list of writes covers. *)
Definition blocks_length (blocks : list (m0_uint128 * Z * Z)) : Z :=
  fold_right (fun b acc => snd b + acc) 0 blocks.

(** *** Multipart upload: the composite writer (lines 5321-5374) *)

Definition MOTR_MULTIPART_DEFAULT_PART_SIZE : Z := 15 * 1024 * 1024.

(** The writer with the I/O members of its part object, [part_io]. *)
Record MotrMultipartCompositeWriter := {
  part_num : Z;
  part_obj : MotrObject;
  part_io : MotrObjectIo;
  actual_part_size : Z
}.

(** The offset computed by [MotrMultipartCompositeWriter::process]. *)
Definition off_in_composite_obj (part_num_ offset : Z) : Z :=
  let part_size_ := MOTR_MULTIPART_DEFAULT_PART_SIZE in
  u64 (u64 (u64 (part_num_ - 1) * part_size_) + offset).

(** [MotrMultipartCompositeWriter::process]. *)
Definition process (fuel : nat) (pa : Layout.m0_pdclust_attr)
    (wr : MotrMultipartCompositeWriter) (data_len offset : Z)
  : M (Z * MotrMultipartCompositeWriter) :=
  let off := off_in_composite_obj (part_num wr) offset in
  let io := set_chunk_io_sz (part_io wr) MAX_ACC_SIZE in
  '(rc, io) ← write_mobj fuel pa (part_obj wr) io data_len off;
  mret (rc, {| part_num := part_num wr; part_obj := part_obj wr;
               part_io := io;
               actual_part_size :=
                 if rc =? 0 then u64 (processed_bytes io)
                 else actual_part_size wr |}).

(** *** Multipart upload: complete (lines 4786-5037) *)

(** Modelled from the spec: hex encoding and decoding of an etag (section
    4.6.4, step 3; [buf_to_hex] and [hex_to_buf] of the gateway's common
    code).  [hex_to_buf hex len] fills a buffer of [len] bytes; bytes that
    the text does not cover are zero here. *)
Definition hex_char (n : nat) : ascii :=
  nth n (list_ascii_of_string "0123456789abcdef") "0"%char.

Definition buf_to_hex (buf : string) : string :=
  string_of_list_ascii
    (flat_map (fun c => [hex_char (nat_of_ascii c / 16);
                         hex_char (nat_of_ascii c mod 16)])
              (list_ascii_of_string buf)).

Definition hexdigit (c : ascii) : option nat :=
  let n := nat_of_ascii c in
  if (48 <=? n)%nat && (n <=? 57)%nat then Some (n - 48)%nat
  else if (97 <=? n)%nat && (n <=? 102)%nat then Some (n - 87)%nat
  else if (65 <=? n)%nat && (n <=? 70)%nat then Some (n - 55)%nat
  else None.

Fixpoint hex_to_buf_aux (hex : list ascii) (len : nat) : list ascii :=
  match len with
  | O => []
  | S len' =>
      match hex with
      | h :: l :: tl =>
          match hexdigit h, hexdigit l with
          | Some a, Some b => ascii_of_nat (a * 16 + b) :: hex_to_buf_aux tl len'
          | _, _ => repeat zero (S len')
          end
      | _ => repeat zero (S len')
      end
  end.

Definition hex_to_buf (hex : string) (len : nat) : string :=
  string_of_list_ascii (hex_to_buf_aux (list_ascii_of_string hex) len).

Definition CEPH_CRYPTO_MD5_DIGESTSIZE : nat := 16.

(** The compression state that [complete] carries from part to part. *)
Record RGWCompressionInfo := {
  cs_compression_type : string;
  orig_size : Z
}.

(** The variables of [complete] that the part loop updates; [hash] is the
    text fed to the MD5 object so far, [off] the [off_t] behind the
    reference [off]. *)
Record complete_state := {
  hash : string;
  handled_parts : Z;
  off : Z;
  cs_accounted_size : Z;
  compressed : bool;
  cs_info : RGWCompressionInfo
}.

(** The inner [for] loop of [complete]: pairs the requested etags with the
    listed parts.  The result is an error code (negative) or 0, the etags
    not yet consumed and the new state. *)
Fixpoint complete_for (n_etags min_part_size : Z)
    (etags : list (Z * string)) (ps : list (Z * MotrMultipartPart))
    (st : complete_state) : Z * list (Z * string) * complete_state :=
  match etags, ps with
  | (enum, etag_) :: etags', (pnum, mmpart) :: ps' =>
      let part := part_info mmpart in
      let part_size_ := part_accounted_size part in
      if (handled_parts st <? n_etags - 1) && (part_size_ <? min_part_size)
      then (- ERR_TOO_SMALL, etags, st)
      else if negb (enum =? int_of_u32 pnum) then (- ERR_INVALID_PART, etags, st)
      else if negb (String.eqb (rgw_string_unquote etag_) (part_etag part))
      then (- ERR_INVALID_PART, etags, st)
      else
        let petag := hex_to_buf (part_etag part) CEPH_CRYPTO_MD5_DIGESTSIZE in
        let hash' := (hash st ++ petag)%string in
        let part_compressed := negb (String.eqb (compression_type part) "none") in
        if (0 <? handled_parts st)
           && (negb (Bool.eqb part_compressed (compressed st))
               || negb (String.eqb (cs_compression_type (cs_info st))
                                   (compression_type part)))
        then (- ERR_INVALID_PART, etags,
              {| hash := hash'; handled_parts := handled_parts st; off := off st;
                 cs_accounted_size := cs_accounted_size st;
                 compressed := compressed st; cs_info := cs_info st |})
        else
          let cs' :=
            if part_compressed
            then {| cs_compression_type :=
                      if compressed st then cs_compression_type (cs_info st)
                      else compression_type part;
                    orig_size := u64 (orig_size (cs_info st) + cs_orig_size part) |}
            else cs_info st in
          complete_for n_etags min_part_size etags' ps'
            {| hash := hash'; handled_parts := handled_parts st + 1;
               off := int64_of_u64 (off st + part_size_);
               cs_accounted_size := u64 (cs_accounted_size st + part_accounted_size part);
               compressed := compressed st || part_compressed;
               cs_info := cs' |}
  | _, _ => (0, etags, st)
  end.

(** The [do ... while (truncated)] loop of [complete]. *)
Fixpoint complete_loop (fuel : nat) (u : MotrMultipartUpload)
    (n_etags min_part_size : Z) (etags : list (Z * string))
    (marker : Z) (truncated : bool) (total_parts prev_accounted_size : Z)
    (st : complete_state) : M (Z * MotrMultipartUpload * complete_state) :=
  match fuel with
  | O => throw out_of_fuel
  | S fuel' =>
      '(rc, marker, truncated, u) ← list_parts u 1000 marker marker truncated;
      let rc := if rc =? - ENOENT then - ERR_NO_SUCH_UPLOAD else rc in
      if rc <? 0 then mret (rc, u, st)
      else
        let total_parts := total_parts + Z.of_nat (List.length (parts u)) in
        if negb truncated && negb (total_parts =? n_etags)
        then mret (- ERR_INVALID_PART, u, st)
        else
          let '(rc, etags, st) :=
            complete_for n_etags min_part_size etags (parts u) st in
          if rc <? 0 then mret (rc, u, st)
          else
            rc ← (if mp_hsm_enabled u then
                    rc ← m0_composite_add_extents (top_layer_oid (mp_meta u)) true;
                    if negb (rc =? 0) then mret rc
                    else m0_composite_add_extents (top_layer_oid (mp_meta u)) false
                  else mret rc);
            if rc <? 0 then mret (rc, u, st)
            else if truncated
            then complete_loop fuel' u n_etags min_part_size etags marker truncated
                   total_parts (cs_accounted_size st) st
            else mret (0, u, st)
  end.

(** The etag that [complete] computes once the loop is done. *)
Definition final_etag (hashed : string) (n_etags : Z) : string :=
  (buf_to_hex (md5 hashed) ++ "-" ++ string_of_Z n_etags)%string.

(** [MotrMultipartUpload::complete].  [part_etags] is the [std::map] of the
    request in ascending part number; [accounted_size0], [compressed0],
    [cs_info0] and [off0] are the values behind the references the caller
    passes; [now] is the clock reading.  The MD5 object and the count of
    handled parts start afresh. *)
Definition complete (fuel : nat) (u : MotrMultipartUpload)
    (part_etags : list (Z * string)) (accounted_size0 : Z) (compressed0 : bool)
    (cs_info0 : RGWCompressionInfo) (off0 : Z)
    (min_part_size : Z) (target_obj : MotrObject) (now : Z)
  : M (Z * MotrObject * complete_state) :=
  let n_etags := Z.of_nat (List.length part_etags) in
  let st0 := {| hash := ""; handled_parts := 0; off := off0;
                cs_accounted_size := accounted_size0;
                compressed := compressed0; cs_info := cs_info0 |} in
  '(rc, u, st) ← complete_loop fuel u n_etags min_part_size part_etags
                   0 false 0 0 st0;
  if rc <? 0 then mret (rc, target_obj, st)
  else
    let etag_ := final_etag (hash st) n_etags in
    let attrs_ := <[RGW_ATTR_ETAG := etag_]> (attrs target_obj) in
    let attrs_ := if compressed st
                  then <[RGW_ATTR_COMPRESSION := cs_compression_type (cs_info st)]> attrs_
                  else attrs_ in
    let tenant_bkt := get_bucket_name (tenant (mp_bucket u)) (bucket_name (mp_bucket u)) in
    let bucket_multipart_iname := multiparts_in_progress_iname tenant_bkt in
    '(rc, bl) ← do_idx_op_by_name bucket_multipart_iname M0_IC_GET (get_meta u) [] true;
    if rc <? 0
    then mret (if rc =? - ENOENT then - ERR_NO_SUCH_UPLOAD else rc,
               set_attrs target_obj attrs_, st)
    else
      '(ent, ent_iter) ← decode_dir_entry bl;
      upload_info ← decode_upload_info (user_data ent);
      '(temp_attrs, _) ← decode_attrs ent_iter;
      let attrs_ := match temp_attrs !! RGW_ATTR_TAGS with
                    | Some t => <[RGW_ATTR_TAGS := t]> attrs_
                    | None => attrs_
                    end in
      let target_obj := set_attrs target_obj attrs_ in
      let ent :=
        {| key_name := name target_obj; key_instance := instance target_obj;
           mtime := now; size := u64 (off st);
           accounted_size := cs_accounted_size st;
           etag := etag_; owner := owner ent;
           owner_display_name := owner_display_name ent;
           category := category ent; flags := flags ent;
           user_data := user_data ent |} in
      let update_bl := [enc_dir_entry ent; enc_attrs attrs_;
                        enc_meta (info_meta upload_info)] in
      let mobj_ver := get_object (bucket target_obj) (name target_obj) in
      let binfo := info (bucket target_obj) in
      rc ← (if versioned binfo then update_version_entries mobj_ver false else mret rc);
      if rc <? 0 then mret (rc, target_obj, st)
      else
        rc ← (if negb (versioning_enabled binfo)
              then '(rc, _) ← remove_null_obj fuel mobj_ver; mret rc
              else mret rc);
        if rc <? 0 then mret (rc, target_obj, st)
        else
          let tobj_key := get_key_str target_obj in
          '(rc, _) ← do_idx_op_by_name ("motr.rgw.bucket.index." ++ tenant_bkt)
                       M0_IC_PUT tobj_key update_bl true;
          if rc <? 0 then mret (rc, target_obj, st)
          else
            MotrMetaCache_put tobj_key update_bl;;
            '(rc, _) ← do_idx_op_by_name bucket_multipart_iname M0_IC_DEL
                         (get_meta u) [] true;
            mret (rc, target_obj, st).

(** The etags of a list of parts, in binary, one after the other. *)
Definition binary_etags (etags : list string) : string :=
  fold_right (fun e acc => (hex_to_buf e CEPH_CRYPTO_MD5_DIGESTSIZE ++ acc)%string)
             ""%string etags.

(** The etag of a completed upload as the design document has it
    (MD5-of-MD5s): the etags of the parts in binary, one after the other;
    the MD5 of that in hexadecimal; then [-] and the number of parts. *)
Definition spec_multipart_etag (etags : list string) : string :=
  (buf_to_hex (md5 (binary_etags etags)) ++ "-"
   ++ string_of_Z (Z.of_nat (List.length etags)))%string.

(** The stored etags of a list of parts. *)
Definition listed_etags (ps : list (Z * MotrMultipartPart)) : list string :=
  map (fun p => part_etag (part_info (snd p))) ps.

(** An etag of the request and a stored part that go together: the same
    part number and, after unquoting, the same etag. *)
Definition etag_matches (e : Z * string) (p : Z * MotrMultipartPart) : Prop :=
  fst e = int_of_u32 (fst p)
  /\ rgw_string_unquote (snd e) = part_etag (part_info (snd p)).

(** *** What an operation may change *)

(** [w'] differs from [w] in no index other than those named in [l]. *)
Definition only_indices (l : list string) (w w' : world) : Prop :=
  forall i, ~ In i l -> indices w' !! i = indices w !! i.

(** The indices and the answers of the services are those of [w], and
    every object of [w'] is one of [w]. *)
Definition objects_shrink (w w' : world) : Prop :=
  indices w' = indices w /\ m0_errno w' = m0_errno w
  /\ objects w' ⊆ objects w.

(** Every run of [m] takes a store to one that [R] relates to it. *)
Definition preserves {A} (R : world -> world -> Prop) (m : M A) : Prop :=
  forall w r w', m w = (r, w') -> R w w'.

(** A frame: a relation between stores that holds across the steps which
    read the indices, use the metadata cache, delete an object or queue a
    request for the collector. *)
Class Frame (R : world -> world -> Prop) : Prop := {
  frame_refl : forall w, R w w;
  frame_trans : forall w1 w2 w3, R w1 w2 -> R w2 w3 -> R w1 w3;
  frame_cache : forall w c, R w (set_cache w c);
  frame_delete : forall w o, R w (set_objects w (objects w ∖ {[o]}));
  frame_gc : forall w q, R w (set_gc_queue w q)
}.

(** The frame [R] allows writes to the index [iname]. *)
Definition may_write (R : world -> world -> Prop) (iname : string) : Prop :=
  forall w t, R w (set_indices w (<[iname := t]> (indices w))).

(** [m] only reads the indices: it leaves the store as it is, and returns
    the same in any store with the same indices and the same answers of the
    services. *)
Definition reads_indices {A} (m : M A) : Prop :=
  forall w,
    snd (m w) = w
    /\ forall w2, indices w2 = indices w -> m0_errno w2 = m0_errno w ->
                  fst (m w2) = fst (m w).

(** One round of the listing loop of [delete_parts] in the store [w]: the
    parts of the batch and, when the listing is truncated, the state of
    the next round. *)
Definition listed_step (u : MotrMultipartUpload) (marker : Z)
    (truncated : bool) (w : world)
  : list (Z * MotrMultipartPart) * option (MotrMultipartUpload * Z * bool) :=
  match fst (list_parts u 1000 marker marker truncated w) with
  | Ret (rc, marker', truncated', u') =>
      let '(rc, truncated') :=
        if rc =? - ENOENT then (0, false) else (rc, truncated') in
      if rc <? 0 then ([], None)
      else (parts u', if truncated' then Some (u', marker', truncated') else None)
  | Exn _ => ([], None)
  end.

(** The parts that the listing loop goes through, batch after batch. *)
Fixpoint listed_parts (fuel : nat) (u : MotrMultipartUpload)
    (marker : Z) (truncated : bool) (w : world)
  : list (Z * MotrMultipartPart) :=
  match fuel with
  | O => []
  | S fuel' =>
      match listed_step u marker truncated w with
      | (ps, Some (u', marker', truncated')) =>
          ps ++ listed_parts fuel' u' marker' truncated' w
      | (ps, None) => ps
      end
  end.

(** The ids of the byte objects of a list of parts, and their sizes added
    up as [delete_parts] does. *)
Definition part_oids (ps : list (Z * MotrMultipartPart)) : gset m0_uint128 :=
  list_to_set (map (fun p => oid (part_meta (snd p))) ps).

Definition sum_sizes (ps : list (Z * MotrMultipartPart)) (acc : Z) : Z :=
  fold_left (fun a p => u64 (a + get_size (snd p))) ps acc.

Definition sum_sizes_rounded (ps : list (Z * MotrMultipartPart)) (acc : Z) : Z :=
  fold_left (fun a p => u64 (a + get_size_rounded (snd p))) ps acc.

(** *** Ranged reads of a multipart object (lines 4000-4035) *)

(** A part object as [get_part_objs] prepares it: the [MotrObject] of the
    part with the three members that only parts use, its number, where it
    lies in the whole object ([part_off]) and its size ([part_size] of the
    source), all three [uint64_t]. *)
Record MotrPartObject := {
  po_obj : MotrObject;
  po_part_num : Z;
  part_off : Z;
  po_part_size : Z
}.

(** The loop of [MotrObject::read_multipart_obj] over [part_objs].
    [read_mobj obj start end] stands for the read of one part object and
    gives its result; the reads issued are returned in order, each with its
    part and its range inside the part.  The locals are [int64_t] and the
    members of the part [uint64_t]: [part_end] and [local_off] are computed
    unsigned and converted, [part_size - 1], [end - part_off] and
    [part_end + 1] are signed, written here without their overflow. *)
Fixpoint read_multipart_loop (read_mobj : MotrPartObject -> Z -> Z -> Z)
    (part_objs : list MotrPartObject) (off end_ cursor : Z)
  : Z * list (MotrPartObject * Z * Z) :=
  match part_objs with
  | [] => (0, [])
  | obj :: rest =>
      let part_off_ := int64_of_u64 (part_off obj) in
      let part_size_ := int64_of_u64 (po_part_size obj) in
      let part_end := int64_of_u64 (part_off obj + po_part_size obj - 1) in
      if part_end <? off
      then read_multipart_loop read_mobj rest off end_ cursor
      else
        let local_off := int64_of_u64 (cursor - part_off obj) in
        let local_end := if part_end <? end_ then part_size_ - 1
                         else end_ - part_off_ in
        let rc := read_mobj obj local_off local_end in
        if rc <? 0 then (rc, [(obj, local_off, local_end)])
        else
          let cursor := part_end + 1 in
          if cursor >? end_ then (0, [(obj, local_off, local_end)])
          else
            let '(rc, reads) :=
              read_multipart_loop read_mobj rest off end_ cursor in
            (rc, (obj, local_off, local_end) :: reads)
  end.

(** [MotrObject::read_multipart_obj]: the cursor starts at [off]. *)
Definition read_multipart_obj (read_mobj : MotrPartObject -> Z -> Z -> Z)
    (part_objs : list MotrPartObject) (off end_ : Z)
  : Z * list (MotrPartObject * Z * Z) :=
  read_multipart_loop read_mobj part_objs off end_ off.

(** The parts lie one after the other from [start], as the running offset
    of [get_part_objs] (lines 3945-3966) places them. *)
Fixpoint consecutive_from (start : Z) (part_objs : list MotrPartObject) : bool :=
  match part_objs with
  | [] => true
  | obj :: rest =>
      (part_off obj =? start) && (0 <=? po_part_size obj)
      && consecutive_from (start + po_part_size obj) rest
  end.

(** The bytes of the whole object that a list of reads covers, in the
    order in which they are read. *)
Definition bytes_read (reads : list (MotrPartObject * Z * Z)) : list Z :=
  flat_map (fun r => let '(obj, local_off, local_end) := r in
                     seqZ (part_off obj + local_off) (local_end - local_off + 1))
           reads.

(** The instance that [get_key_str] puts into the key: none for the null
    version. *)
Definition key_instance_of (o : MotrObject) : string :=
  if String.eqb (instance o) "null" then ""%string else instance o.

(** What the loop of [list_parts] keeps. *)
Definition parts_listed (marker last_num : Z)
    (ps : list (Z * MotrMultipartPart)) : Prop :=
  StronglySorted Z.lt (map fst ps)
  /\ Forall (fun kp => marker < int_of_u32 (fst kp)
                       /\ fst kp = u32 (num (part_info (snd kp)))) ps
  /\ ((ps = [] /\ last_num = 0)
      \/ (marker < last_num
          /\ exists kp, In kp ps /\ int_of_u32 (fst kp) = last_num)).

(** [w'] differs from [w] in the metadata only: in the indices named in
    [l] and in the cache.  The objects, the queue of the collector, the
    log of writes and the configuration are those of [w]. *)
Definition metadata_only (l : list string) (w w' : world) : Prop :=
  objects w' = objects w /\ gc_queue w' = gc_queue w
  /\ write_log w' = write_log w /\ conf w' = conf w
  /\ m0_errno w' = m0_errno w /\ only_indices l w w'.

(** The accounted sizes of a list of parts, added up. *)
Definition parts_size (ps : list (Z * MotrMultipartPart)) : Z :=
  fold_right (fun p acc => part_accounted_size (part_info (snd p)) + acc) 0 ps.

(** *** Attributes of an object (lines 1702-1836) *)

(** [MotrObject::fetch_obj_entry_and_key] (lines 1702-1734).
    [target_obj] is [None] for a null pointer, otherwise the tenant and the
    name of the bucket of the target; [bname] and [key] are the values
    behind the two references on entry. *)
Definition fetch_obj_entry_and_key (o : MotrObject)
    (ent : rgw_bucket_dir_entry) (bname key : string)
    (target_obj : option (string * string))
  : M (Z * rgw_bucket_dir_entry * string * string * MotrObject) :=
  '(rc, ent, o) ← get_bucket_dir_ent o ent;
  if rc <? 0 then mret (rc, ent, bname, key, o)
  else if is_delete_marker ent then mret (- ENOENT, ent, bname, key, o)
  else
    let bname :=
      match target_obj with
      | Some (t, n) => get_bucket_name t n
      | None => get_bucket_name (tenant (bucket o)) (bucket_name (bucket o))
      end in
    let objkey_name := key_name ent in
    let objkey_instance := key_instance ent in
    if String.eqb (key_instance ent) "null"
    then mret (0, set_key ent (key_name ent) "", bname,
               (objkey_name ++ SEP)%string, o)
    else mret (0, ent, bname,
               (objkey_name ++ SEP ++ objkey_instance)%string, o).

(** [MotrObject::set_obj_attrs] (lines 1736-1783).  [setattrs] and
    [delattrs] are [None] for null pointers; of [delattrs] only the keys
    count. *)
Definition set_obj_attrs (o : MotrObject) (setattrs delattrs : option Attrs)
    (target_obj : option (string * string)) : M (Z * MotrObject) :=
  '(rc, ent, bname, key, o) ←
    fetch_obj_entry_and_key o rgw_bucket_dir_entry_default "" "" target_obj;
  if rc <? 0 then mret (rc, o)
  else
    let attrs1 := match setattrs with
                  | Some sa => sa ∪ attrs o
                  | None => attrs o
                  end in
    let attrs2 := match delattrs with
                  | Some da => attrs1 ∖ da
                  | None => attrs1
                  end in
    let o := set_attrs o attrs2 in
    let update_bl := [enc_dir_entry ent; enc_attrs attrs2; enc_meta (meta o)] in
    let bucket_index_iname := ("motr.rgw.bucket.index." ++ bname)%string in
    '(rc, _) ← do_idx_op_by_name bucket_index_iname M0_IC_PUT key update_bl true;
    if rc <? 0 then mret (rc, o)
    else MotrMetaCache_put key update_bl;; mret (0, o).

(** [MotrObject::get_obj_attrs] (lines 1785-1812).  [req_method] is [None]
    when there is no request state, otherwise the method of the request. *)
Definition get_obj_attrs (o : MotrObject) (req_method : option string)
    (target_obj : option (string * string)) : M (Z * MotrObject) :=
  let skip :=
    match req_method with
    | Some m => (if decide (obj_category o = MultiMeta) then true else false)
                && (String.eqb m "POST" || String.eqb m "PUT")
    | None => false
    end in
  if skip then mret (0, o)
  else
    '(rc, _, _, _, o) ←
      fetch_obj_entry_and_key o rgw_bucket_dir_entry_default "" "" target_obj;
    if rc <? 0 then mret (rc, o)
    else
      mret (0, set_attrs o (attrs_emplace RGW_ATTR_MOTR_OBJ_FID
                              (oid_str (meta o)) (attrs o))).

(** [MotrObject::modify_obj_attrs] and [delete_obj_attrs] (lines
    1814-1834); [target] is the bucket of [get_obj()]. *)
Definition modify_obj_attrs (o : MotrObject) (attr_name attr_val : string)
    (target : string * string) : M (Z * MotrObject) :=
  set_obj_attrs o (Some {[ attr_name := attr_val ]}) None (Some target).

Definition delete_obj_attrs (o : MotrObject) (attr_name : string)
    (target : string * string) : M (Z * MotrObject) :=
  set_obj_attrs o None (Some {[ attr_name := ""%string ]}) (Some target).

(** *** Multipart upload: the part writer (lines 5127-5291) *)

(** The state of a [MotrMultipartWriter]: the head object, the id of the
    upload, the number of the part, the object of the part and the bytes
    written to it. *)
Record MotrMultipartWriter := {
  mw_head_obj : MotrObject;
  mw_upload_id : string;
  mw_part_num : Z;
  mw_part_obj : MotrObject;
  mw_actual_part_size : Z
}.

Section PartWriter.

(** Two functions from outside the sources.
    [rgw_compression_info_from_attrset attrs info] is the result of the
    function of that name and [info] with the [cs_info] it has filled in;
    [key_to_str o] is [o->get_key().to_str()]. *)
Variable rgw_compression_info_from_attrset :
  Attrs -> RGWUploadPartInfo -> Z * RGWUploadPartInfo.
Variable key_to_str : MotrObject -> string.

(** The key of a part in the [multiparts] index,
    [<name>.<upload id>.%08d] of the part number cast to [int]. *)
Definition part_key (wr : MotrMultipartWriter) : string :=
  (name (mw_head_obj wr) ++ "." ++ mw_upload_id wr
   ++ fmt_dot_08d (int_of_u32 (mw_part_num wr)))%string.

(** [MotrMultipartWriter::store_part_info] (lines 5127-5218). *)
Definition store_part_info (wr : MotrMultipartWriter) (info : RGWUploadPartInfo)
    (attrs_ : Attrs) : M Z :=
  let '(rc, info) := rgw_compression_info_from_attrset attrs_ info in
  if rc <? 0 then mret rc
  else
    let part_obj := mw_part_obj wr in
    let head_obj := mw_head_obj wr in
    let bl := [enc_part_info info; enc_attrs attrs_; enc_meta (meta part_obj)] in
    let part := part_key wr in
    let tenant_bkt := get_bucket_name (tenant (bucket head_obj))
                        (bucket_name (bucket head_obj)) in
    let iname := multiparts_iname tenant_bkt in
    '(rc, old_part_check_bl) ← do_idx_op_by_name iname M0_IC_GET part [] true;
    '(rc, old_part_size, old_part_size_rounded) ←
      (if (rc =? 0) && (0 <? List.length old_part_check_bl)%nat
          && negb (is_composite (meta part_obj))
       then
         let part_obj_name :=
           (bucket_name (bucket head_obj) ++ "." ++ key_to_str head_obj
            ++ ".part." ++ string_of_Z (u64 (mw_part_num wr)))%string in
         let old_part_obj := get_object (bucket head_obj) part_obj_name in
         '(old_part_info, bl_iter) ← decode_part_info old_part_check_bl;
         '(_, bl_iter) ← decode_attrs bl_iter;
         '(m, _) ← decode_meta entry_meta_as_motr_meta bl_iter;
         '(rc, _) ← delete_mobj (set_meta old_part_obj m);
         mret (rc, part_accounted_size old_part_info, size_rounded old_part_info)
       else mret (0, 0, 0));
    if negb (rc =? 0) then mret rc
    else
      '(rc, _) ← do_idx_op_by_name iname M0_IC_PUT part bl true;
      if rc <? 0 then mret (if rc =? - ENOENT then - ERR_NO_SUCH_UPLOAD else rc)
      else
        update_bucket_stats (acl_owner (bucket head_obj)) tenant_bkt
          (u64 (mw_actual_part_size wr - old_part_size))
          (u64 (size_rounded info - old_part_size_rounded)) 0 true.

(** [MotrMultipartWriter::complete] (lines 5253-5291); [now] is the clock
    reading.  A fresh [RGWUploadPartInfo] has the compression type [none]
    and the original size 0. *)
Definition MotrMultipartWriter_complete (wr : MotrMultipartWriter)
    (accounted_size_ : Z) (etag_ : string) (attrs_ : Attrs) (now : Z) : M Z :=
  let sz := mw_actual_part_size wr in
  let size_rounded_ :=
    if negb (sz =? 0)
    then Layout.roundup sz
           (u64 (layout_unit_size (layout_id (meta (mw_part_obj wr)))))
    else 0 in
  let info :=
    {| num := u32 (mw_part_num wr); part_etag := etag_; part_size := sz;
       size_rounded := size_rounded_; part_accounted_size := accounted_size_;
       modified := now; compression_type := "none"; cs_orig_size := 0 |} in
  rc ← store_part_info wr info attrs_;
  if rc <? 0 then mret (if rc =? - ENOENT then - ERR_NO_SUCH_UPLOAD else rc)
  else mret 0.

End PartWriter.

(** *** The part objects of a multipart object (lines 3917-3974) *)

Section PartObjects.

(** [key_to_str o] is [o->get_key().to_str()], from outside the sources. *)
Variable key_to_str : MotrObject -> string.

(** [emplace] of the [std::map<int, ...>] of part objects, kept in
    ascending key order: no effect when the key is present. *)
Fixpoint part_objs_emplace (k : Z) (p : MotrPartObject)
    (m : list (Z * MotrPartObject)) : list (Z * MotrPartObject) :=
  match m with
  | [] => [(k, p)]
  | (k', p') :: tl =>
      if k <? k' then (k, p) :: m
      else if k =? k' then m
      else (k', p') :: part_objs_emplace k p tl
  end.

(** The [for] loop of [get_part_objs] over the parts of one listing;
    [off] is the running [uint64_t] offset. *)
Fixpoint get_part_objs_for (o : MotrObject)
    (ps : list (Z * MotrMultipartPart)) (off : Z)
    (part_objs : list (Z * MotrPartObject))
  : Z * list (Z * MotrPartObject) :=
  match ps with
  | [] => (off, part_objs)
  | (_, mmpart) :: rest =>
      let part_num := u32 (num (part_info mmpart)) in
      let part_size := get_size mmpart in
      let part_obj_name :=
        (bucket_name (bucket o) ++ "." ++ key_to_str o ++ ".part."
         ++ string_of_Z part_num)%string in
      let mobj := set_meta (set_obj_size (get_object (bucket o) part_obj_name)
                              part_size)
                           (part_meta mmpart) in
      let part_obj := {| po_obj := mobj; po_part_num := part_num;
                         part_off := off; po_part_size := part_size |} in
      get_part_objs_for o rest (u64 (off + part_size))
        (part_objs_emplace (int_of_u32 part_num) part_obj part_objs)
  end.

(** The [do ... while (truncated)] loop of [get_part_objs]. *)
Fixpoint get_part_objs_loop (fuel : nat) (o : MotrObject)
    (u : MotrMultipartUpload) (marker : Z) (truncated : bool) (off : Z)
    (part_objs : list (Z * MotrPartObject))
  : M (Z * list (Z * MotrPartObject)) :=
  match fuel with
  | O => throw out_of_fuel
  | S fuel' =>
      '(rc, marker, truncated, u) ← list_parts u 1000 marker marker truncated;
      let rc := if rc =? - ENOENT then - ERR_NO_SUCH_UPLOAD else rc in
      if rc <? 0 then mret (rc, part_objs)
      else
        let r := get_part_objs_for o (parts u) off part_objs in
        let off := fst r in
        let part_objs := snd r in
        if (truncated : bool)
        then get_part_objs_loop fuel' o u marker truncated off part_objs
        else mret (0, part_objs)
  end.

(** [MotrObject::get_part_objs] (lines 3917-3974); [part_objs] is the map
    behind the reference on entry. *)
Definition get_part_objs (fuel : nat) (o : MotrObject)
    (part_objs : list (Z * MotrPartObject))
  : M (Z * list (Z * MotrPartObject)) :=
  let tenant_bkt := get_bucket_name (tenant (bucket o)) (bucket_name (bucket o)) in
  '(rc, upload_id) ← get_upload_id tenant_bkt (get_key_str o) "";
  if rc <? 0 then mret (rc, part_objs)
  else
    let upload := get_multipart_upload (bucket o) (name o) upload_id in
    get_part_objs_loop fuel o upload 0 false 0 part_objs.

End PartObjects.

End WithExternal.
End Sal.

(** ** A small store *)

(** One bucket [b] of user [u] with an object [a]: a null version written
    at time 5 and a version [zzz] written at time 7. *)
Module Example.
Import Motr Sal.

Definition errors : RgwErrors :=
  {| ERR_METHOD_NOT_ALLOWED := 2003;
     ERR_NO_SUCH_UPLOAD := 2009;
     ERR_INVALID_PART := 2007;
     ERR_TOO_SMALL := 2013;
     ERR_PRECONDITION_FAILED := 2016;
     ERR_METHOD_NOT_ALLOWED_pos := eq_refl;
     ERR_METHOD_NOT_ALLOWED_ne := ltac:(discriminate);
     ERR_NO_SUCH_UPLOAD_pos := eq_refl;
     ERR_INVALID_PART_pos := eq_refl;
     ERR_TOO_SMALL_pos := eq_refl |}.

(** The digest is a stand-in: the sixteenth character onwards is cut. *)
Definition ext : External :=
  {| md5 := fun s => String.substring 0 16 s;
     rgw_string_unquote := fun s => s;
     layout_unit_size := fun _ => 4096;
     entry_meta_as_motr_meta := fun _ => MotrObjectMeta_default;
     rgw_errors := errors |}.

Definition binfo (v e : bool) : RGWBucketInfo :=
  {| versioned := v; versioning_enabled := e; obj_lock_retention := None |}.

Definition bkt (v e : bool) : MotrBucket :=
  {| tenant := ""; bucket_name := "b"; info := binfo v e;
     acl_owner := "u"; bucket_owner_display_name := "U" |}.

Definition ent (n i : string) (t sz f : Z) : rgw_bucket_dir_entry :=
  {| key_name := n; key_instance := i; mtime := t; size := sz;
     accounted_size := sz; etag := "e"; owner := "u";
     owner_display_name := "U"; category := Main; flags := f;
     user_data := ud_raw "" |}.

Definition meta1 : MotrObjectMeta :=
  {| oid := (1, 1); pver := (0, 0); layout_id := 1; is_composite := false;
     top_layer_oid := (0, 0) |}.

Definition rec (n i : string) (t sz f : Z) : bufferlist :=
  [enc_dir_entry (ent n i t sz f); enc_attrs ∅; enc_meta meta1].

Definition main_stats : rgw_bucket_category_stats :=
  {| total_size := 100; total_size_rounded := 0; num_entries := 5;
     actual_size := 4096 |}.

Definition hdr : rgw_bucket_dir_header := {| stats := {[ Main := main_stats ]} |}.

Definition no_errors : m0_call -> N := fun _ => 0%N.

Definition cfg : config :=
  {| use_metadata_cache := true; gc_enabled := false; tiered_enabled := false |}.

Definition mk_world (idx : gmap string m0_index) (objs : gset m0_uint128)
    (errs : m0_call -> N) : world :=
  {| indices := idx; objects := objs; obj_meta_cache := ∅; gc_queue := [];
     write_log := []; conf := cfg; m0_errno := errs |}.

Definition bucket_index : m0_index :=
  [(("a" ++ SEP)%string, rec "a" "" 5 10 0);
   (("a" ++ SEP ++ "zzz")%string, rec "a" "zzz" 7 10 3)].

Definition stats_index : m0_index := [("b"%string, [enc_dir_header hdr])].

Definition w0 : world :=
  mk_world {[ "motr.rgw.bucket.index.b"%string := bucket_index;
              "motr.rgw.user.stats.u"%string := stats_index ]}
           {[ (1, 1) ]} no_errors.

(** The same store without the statistics header of the bucket. *)
Definition w_no_stats : world :=
  mk_world {[ "motr.rgw.bucket.index.b"%string := bucket_index;
              "motr.rgw.user.stats.u"%string := [] ]}
           {[ (1, 1) ]} no_errors.

(** A bucket index in which the latest record of [a] is a delete-marker
    with instance [dm1]. *)
Definition marker : rgw_bucket_dir_entry :=
  {| key_name := "a"; key_instance := "dm1"; mtime := 9; size := 0;
     accounted_size := 0; etag := ""; owner := "u"; owner_display_name := "U";
     category := CatNone; flags := Z.lor FLAG_DELETE_MARKER FLAG_CURRENT;
     user_data := ud_raw "" |}.

Definition marker_index : m0_index :=
  [(("a" ++ SEP ++ "dm1")%string,
    [enc_dir_entry marker; enc_attrs ∅; enc_dir_entry_meta marker]);
   (("a" ++ SEP ++ "zzz")%string, rec "a" "zzz" 7 10 1)].

Definition w_marker : world :=
  mk_world {[ "motr.rgw.bucket.index.b"%string := marker_index;
              "motr.rgw.user.stats.u"%string := stats_index ]}
           {[ (1, 1) ]} no_errors.

(** A bucket index with the null version of an object named [a SEP] and
    the version [zzz] of the object [a]: both records are stored under the
    key of their entry, and the keys ascend. *)
Definition sep_index : m0_index :=
  [((("a" ++ SEP) ++ SEP)%string, rec ("a" ++ SEP) "" 5 10 0);
   (("a" ++ SEP ++ "zzz")%string, rec "a" "zzz" 7 10 1)].

Definition w_sep : world :=
  mk_world {[ "motr.rgw.bucket.index.b"%string := sep_index;
              "motr.rgw.user.stats.u"%string := stats_index ]}
           {[ (1, 1) ]} no_errors.

(** A store in which the only record of [a] is its null version. *)
Definition w_null : world :=
  mk_world {[ "motr.rgw.bucket.index.b"%string
                := [(("a" ++ SEP)%string, rec "a" "" 5 10 0)];
              "motr.rgw.user.stats.u"%string := stats_index ]}
           {[ (1, 1) ]} no_errors.

(** The attributes of a pool version: 4 data, 2 parity and 2 spare units
    over a pool 10 wide. *)
Definition pool_attr : Layout.m0_pdclust_attr :=
  {| Layout.pa_N := 4; Layout.pa_K := 2; Layout.pa_S := 2; Layout.pa_P := 10 |}.

(** A composite writer for part 3 that has written nothing yet. *)
Definition fresh_io : MotrObjectIo :=
  {| processed_bytes := 0; expected_obj_size := 0; chunk_io_sz := 0;
     io_ctxt := {| accumulated_buffer_list := []; total_bufer_sz := 0;
                   start_offset := 0 |} |}.

Definition composite_writer : MotrMultipartCompositeWriter :=
  {| part_num := 3;
     part_obj := set_meta (get_object (bkt false false) "obj") meta1;
     part_io := fresh_io; actual_part_size := 0 |}.

(** A PUT of ten bytes to a new object [c] of the unversioned bucket, the
    data already flushed to the object [meta2]. *)
Definition meta2 : MotrObjectMeta :=
  {| oid := (2, 2); pver := (0, 0); layout_id := 1; is_composite := false;
     top_layer_oid := (0, 0) |}.

Definition writer : MotrAtomicWriter :=
  {| aw_obj := set_mobj (set_meta (get_object (bkt false false) "c") meta2) true;
     aw_owner := "u"; total_data_size := 10; acc_data_length := 0;
     acc_off := 0 |}.

(** The store [w_no_stats] after the index write of that PUT. *)
Definition w_put : world :=
  snd (complete_write_index (EXT := ext) 1 writer meta2 "e" 0 ∅ None 1 w_no_stats).

(** The null version of [a] as a DELETE of the unversioned bucket sees it,
    and the store [w_no_stats] after its index entry is deleted. *)
Definition obj_a : MotrObject :=
  set_meta (get_object (bkt false false) "a") meta1.

Definition w_del : world :=
  snd (remove_mobj_and_index_delete (EXT := ext) 1 obj_a (ent "a" "" 5 10 0)
         ("a" ++ SEP) "motr.rgw.bucket.index.b" "b" w_no_stats).

(** An upload [id1] of the object [obj] in progress, with two parts of 15
    and 7 bytes in the byte objects [(3, 3)] and [(4, 4)]; [(5, 5)] is the
    composite object of the tiered strategy. *)
Definition part (n sz : Z) : RGWUploadPartInfo :=
  {| num := n; part_etag := "00112233445566778899aabbccddeeff";
     part_size := sz; size_rounded := 1024; part_accounted_size := sz;
     modified := 0; compression_type := "none"; cs_orig_size := 0 |}.

Definition part_meta_of (n : Z) : MotrObjectMeta :=
  {| oid := (n, n); pver := (0, 0); layout_id := 1; is_composite := false;
     top_layer_oid := (0, 0) |}.

Definition parts_index : m0_index :=
  [("obj.id1.00000001"%string,
    [enc_part_info (part 1 15); enc_attrs ∅; enc_meta (part_meta_of 3)]);
   ("obj.id1.00000002"%string,
    [enc_part_info (part 2 7); enc_attrs ∅; enc_meta (part_meta_of 4)])].

Definition upload_info1 (hsm : bool) : motr_multipart_upload_info :=
  {| dest_placement := ""; upload_id := "id1"; hsm_enabled := hsm;
     info_meta := part_meta_of 5 |}.

Definition in_progress_index (hsm : bool) : m0_index :=
  [("obj.id1"%string,
    [enc_dir_entry
       {| key_name := "obj"; key_instance := ""; mtime := 3; size := 0;
          accounted_size := 0; etag := ""; owner := "u";
          owner_display_name := "U"; category := MultiMeta; flags := 0;
          user_data := ud_upload_info (upload_info1 hsm) |};
     enc_attrs ∅])].

Definition w_upload (hsm : bool) : world :=
  mk_world {[ "motr.rgw.bucket.index.b"%string := bucket_index;
              "motr.rgw.user.stats.u"%string := stats_index;
              "motr.rgw.bucket.b.multiparts"%string := parts_index;
              "motr.rgw.bucket.b.multiparts.in-progress"%string
                := in_progress_index hsm ]}
           {[ (1, 1); (3, 3); (4, 4); (5, 5) ]} no_errors.

Definition upload1 (hsm : bool) : MotrMultipartUpload :=
  {| mp_bucket := bkt false false; mp_key := "obj"; mp_upload_id := "id1";
     mp_hsm_enabled := hsm; mp_meta := part_meta_of 5; parts := [];
     version_id := "" |}.

(** The etags that the request completing that upload carries. *)
Definition request_etags : list (Z * string) :=
  [(1, "00112233445566778899aabbccddeeff"%string);
   (2, "00112233445566778899aabbccddeeff"%string)].

Definition no_compression : RGWCompressionInfo :=
  {| cs_compression_type := "none"; orig_size := 0 |}.

(** The two parts of [obj] as part objects, 15 and 7 bytes long. *)
Definition part_objs : list MotrPartObject :=
  [ {| po_obj := set_meta (set_obj_size (get_object (bkt false false)
                                            "b.obj.part.1") 15)
                          (part_meta_of 3);
       po_part_num := 1; part_off := 0; po_part_size := 15 |};
    {| po_obj := set_meta (set_obj_size (get_object (bkt false false)
                                            "b.obj.part.2") 7)
                          (part_meta_of 4);
       po_part_num := 2; part_off := 15; po_part_size := 7 |} ].

(** The two parts of the upload [id1] as a listing returns them. *)
Definition listed1 : list (Z * MotrMultipartPart) :=
  [(1, {| part_info := part 1 15; part_meta := part_meta_of 3 |});
   (2, {| part_info := part 2 7; part_meta := part_meta_of 4 |})].

(** A PUT of ten bytes to the version [v1] of a new object [c] of a bucket
    with versioning enabled, the data already in the object [meta2]. *)
Definition writer_v1 : MotrAtomicWriter :=
  {| aw_obj := set_instance
                 (set_mobj (set_meta (get_object (bkt true true) "c") meta2) true)
                 "v1";
     aw_owner := "u"; total_data_size := 10; acc_data_length := 0;
     acc_off := 0 |}.

Definition del_params : DeleteOp_params :=
  {| obj_owner_id := "u"; obj_owner_display_name := "U"; params_mtime := 0 |}.

Definition read_params : ReadOp_params :=
  {| mod_ptr := None; unmod_ptr := None; if_match := None; if_nomatch := None;
     high_precision_time := false |}.

(** A writer for part 1 of the upload [id1]: a second upload of that part,
    20 bytes written to the new byte object [(6, 6)]. *)
Definition part_writer : MotrMultipartWriter :=
  {| mw_head_obj := get_object (bkt false false) "obj";
     mw_upload_id := "id1"; mw_part_num := 1;
     mw_part_obj := set_meta (get_object (bkt false false) "b.obj.part.1")
                      (part_meta_of 6);
     mw_actual_part_size := 20 |}.

(** Attributes without compression info, and a key without an instance. *)
Definition no_cs_info (a : Attrs) (i : RGWUploadPartInfo)
  : Z * RGWUploadPartInfo := (0, i).

(** The store once the upload [id1] of [obj] is complete: the record of
    [obj] in the bucket index names the upload, and the two parts are in
    the index of parts. *)
Definition w_multipart : world :=
  mk_world {[ "motr.rgw.bucket.index.b"%string :=
                [(("obj" ++ SEP)%string,
                  [enc_dir_entry
                     {| key_name := "obj"; key_instance := ""; mtime := 3;
                        size := 22; accounted_size := 22; etag := "e";
                        owner := "u"; owner_display_name := "U";
                        category := MultiMeta; flags := 0;
                        user_data := ud_upload_info (upload_info1 false) |};
                   enc_attrs ∅; enc_meta (part_meta_of 5)])];
              "motr.rgw.bucket.b.multiparts"%string := parts_index ]}
           {[ (3, 3); (4, 4) ]} no_errors.

Definition multipart_obj : MotrObject := get_object (bkt false false) "obj".

End Example.

(** * Properties *)

(** ** Version ids *)

Section Base62Facts.
Import Base62.

Lemma base62_size_eq : base62_size = 62.
Proof. reflexivity. Qed.

Lemma string_compare_lcompare (a b : list ascii) :
  String.compare (string_of_list_ascii a) (string_of_list_ascii b) = lcompare a b.
Proof.
  revert b; induction a as [|x a IH]; intros [|y b]; simpl; try reflexivity.
  destruct (Ascii.compare x y); auto.
Qed.

Lemma ascii_compare_refl (c : ascii) : Ascii.compare c c = Eq.
Proof. unfold Ascii.compare. apply N.compare_refl. Qed.

Lemma lcompare_app_same (p a b : list ascii) :
  lcompare (p ++ a) (p ++ b) = lcompare a b.
Proof.
  induction p as [|c p IH]; simpl; [reflexivity|].
  rewrite ascii_compare_refl. exact IH.
Qed.

Lemma lcompare_app_lt (a b x y : list ascii) :
  List.length a = List.length b -> lcompare a b = Lt ->
  lcompare (a ++ x) (b ++ y) = Lt.
Proof.
  revert b; induction a as [|c a IH]; intros [|d b] Hlen Hlt; simpl in *;
    try discriminate.
  destruct (Ascii.compare c d); try discriminate; auto.
Qed.

Lemma base62_char_mono_bool :
  forallb (fun i => forallb (fun j =>
     if (i <? j)%nat
     then match Ascii.compare (base62_char (Z.of_nat i)) (base62_char (Z.of_nat j)) with
          | Lt => true | _ => false end
     else true) (seq 0 62)) (seq 0 62) = true.
Proof. vm_compute. reflexivity. Qed.

Lemma base62_char_mono (i j : Z) :
  0 <= i < j -> j < 62 ->
  Ascii.compare (base62_char i) (base62_char j) = Lt.
Proof.
  intros Hij Hj.
  pose proof base62_char_mono_bool as H.
  rewrite forallb_forall in H.
  specialize (H (Z.to_nat i)).
  rewrite forallb_forall in H.
  assert (Hi : In (Z.to_nat i) (seq 0 62)) by (apply in_seq; lia).
  assert (Hjn : In (Z.to_nat j) (seq 0 62)) by (apply in_seq; lia).
  specialize (H Hi (Z.to_nat j) Hjn).
  rewrite !Z2Nat.id in H by lia.
  assert (Hlt : (Z.to_nat i <? Z.to_nat j)%nat = true) by (apply Nat.ltb_lt; lia).
  rewrite Hlt in H.
  destruct (Ascii.compare (base62_char i) (base62_char j)); congruence.
Qed.

Lemma base62_index_char_bool :
  forallb (fun i => base62_index (base62_char (Z.of_nat i)) =? Z.of_nat i)
          (seq 0 62) = true.
Proof. vm_compute. reflexivity. Qed.

Lemma base62_index_char (d : Z) :
  0 <= d < 62 -> base62_index (base62_char d) = d.
Proof.
  intros Hd. pose proof base62_index_char_bool as H.
  rewrite forallb_forall in H.
  specialize (H (Z.to_nat d)).
  rewrite Z2Nat.id in H by lia.
  apply Z.eqb_eq, H, in_seq. lia.
Qed.

Lemma base62_digits_length (k : nat) (v : Z) :
  List.length (base62_digits k v) = k.
Proof.
  revert v; induction k as [|k IH]; intros v; simpl; [reflexivity|].
  rewrite length_app, IH. simpl. lia.
Qed.

Lemma base62_digits_zero (k : nat) :
  base62_digits k 0 = repeat (base62_char 0) k.
Proof.
  induction k as [|k IH]; simpl; [reflexivity|].
  rewrite base62_size_eq. change (0 / 62) with 0. change (0 mod 62) with 0.
  rewrite IH. symmetry. apply repeat_cons.
Qed.

Lemma pow62_succ (k : nat) : 62 ^ Z.of_nat (S k) = 62 * 62 ^ Z.of_nat k.
Proof. rewrite Nat2Z.inj_succ, Z.pow_succ_r by lia. reflexivity. Qed.

Lemma base62_digits_lt (k : nat) (a b : Z) :
  0 <= a < b -> b < 62 ^ Z.of_nat k ->
  lcompare (base62_digits k a) (base62_digits k b) = Lt.
Proof.
  revert a b; induction k as [|k IH]; intros a b Hab Hb.
  - simpl in Hb. lia.
  - rewrite pow62_succ in Hb. simpl. rewrite base62_size_eq.
    assert (Hle : a / 62 <= b / 62) by (apply Z.div_le_mono; lia).
    assert (Hbq : b / 62 < 62 ^ Z.of_nat k)
      by (apply Z.div_lt_upper_bound; lia).
    assert (Ha0 : 0 <= a / 62) by (apply Z.div_pos; lia).
    destruct (Z.eq_dec (a / 62) (b / 62)) as [Heq|Hne].
    + rewrite Heq, lcompare_app_same. simpl.
      rewrite base62_char_mono; [reflexivity| |].
      * pose proof (Z.div_mod a 62 ltac:(lia)).
        pose proof (Z.div_mod b 62 ltac:(lia)).
        pose proof (Z.mod_pos_bound a 62 ltac:(lia)).
        lia.
      * pose proof (Z.mod_pos_bound b 62 ltac:(lia)). lia.
    + apply lcompare_app_lt.
      * rewrite !base62_digits_length. reflexivity.
      * apply IH; lia.
Qed.

Lemma base62_loop_spec (k fuel : nat) (v : Z) (ret : list ascii) :
  (k <= fuel)%nat -> 0 <= v < 62 ^ Z.of_nat k ->
  exists L, base62_loop fuel v ret = ret ++ L
            /\ (List.length L <= k)%nat
            /\ repeat (base62_char 0) (k - List.length L) ++ rev L
               = base62_digits k v.
Proof.
  revert fuel v ret; induction k as [|k IH]; intros fuel v ret Hf Hv.
  - simpl in Hv. assert (v = 0) by lia. subst v.
    exists []. rewrite app_nil_r. repeat split; auto.
    destruct fuel; reflexivity.
  - destruct fuel as [|fuel]; [lia|].
    simpl base62_loop. rewrite base62_size_eq.
    destruct (0 <? v) eqn:Hpos.
    + apply Z.ltb_lt in Hpos. rewrite pow62_succ in Hv.
      destruct (IH fuel (v / 62) (ret ++ [base62_char (v mod 62)]))
        as (L & HL & Hlen & Hpad).
      * lia.
      * split; [apply Z.div_pos; lia | apply Z.div_lt_upper_bound; lia].
      * exists (base62_char (v mod 62) :: L). repeat split.
        -- rewrite HL, <- app_assoc. reflexivity.
        -- simpl. lia.
        -- simpl base62_digits. rewrite base62_size_eq, <- Hpad.
           simpl rev. simpl List.length.
           replace (S k - S (List.length L))%nat with (k - List.length L)%nat by lia.
           rewrite app_assoc. reflexivity.
    + apply Z.ltb_ge in Hpos. assert (v = 0) by lia. subst v.
      exists []. rewrite app_nil_r.
      split; [reflexivity|]. split; [simpl; lia|].
      rewrite base62_digits_zero. simpl. rewrite app_nil_r. reflexivity.
Qed.

Lemma base62_encode_digits (v : Z) :
  0 <= v < 62 ^ 8 ->
  base62_encode v TS_LEN = string_of_list_ascii (base62_digits TS_LEN v).
Proof.
  intros Hv. unfold base62_encode.
  destruct (v =? 0) eqn:Hz.
  - apply Z.eqb_eq in Hz. subst v. vm_compute. reflexivity.
  - destruct (base62_loop_spec 8 base62_fuel v [])
      as (L & HL & Hlen & Hpad).
    + unfold base62_fuel. lia.
    + exact Hv.
    + rewrite HL. simpl app. f_equal. unfold TS_LEN in *.
      rewrite length_rev.
      destruct (List.length L <? 8)%nat eqn:Hlt.
      * exact Hpad.
      * apply Nat.ltb_ge in Hlt.
        replace (8 - List.length L)%nat with 0%nat in Hpad by lia.
        exact Hpad.
Qed.

Lemma base62_decode_digits (k : nat) (v : Z) :
  0 <= v < 62 ^ Z.of_nat k ->
  fold_left (fun acc c => acc * base62_size + base62_index c)
            (base62_digits k v) 0 = v.
Proof.
  revert v; induction k as [|k IH]; intros v Hv.
  - simpl in *. lia.
  - rewrite pow62_succ in Hv. simpl base62_digits.
    rewrite fold_left_app. simpl. rewrite base62_size_eq in *.
    rewrite IH.
    + rewrite base62_index_char by (apply Z.mod_pos_bound; lia).
      pose proof (Z.div_mod v 62 ltac:(lia)). lia.
    + split; [apply Z.div_pos; lia | apply Z.div_lt_upper_bound; lia].
Qed.

Lemma string_length_of_list (l : list ascii) :
  String.length (string_of_list_ascii l) = List.length l.
Proof. induction l; simpl; congruence. Qed.

Lemma substring_prefix (p s : string) :
  String.substring 0 (String.length p) (p ++ s) = p.
Proof.
  induction p as [|c p IH]; simpl.
  - destruct s; reflexivity.
  - rewrite IH. reflexivity.
Qed.

Lemma string_compare_app_lt (a b x y : string) :
  String.length a = String.length b -> String.compare a b = Lt ->
  String.compare (a ++ x) (b ++ y) = Lt.
Proof.
  revert b; induction a as [|c a IH]; intros [|d b] Hlen Hlt; simpl in *;
    try discriminate.
  destruct (Ascii.compare c d); try discriminate; auto.
Qed.


Lemma string_length_app (a b : string) :
  String.length (a ++ b) = (String.length a + String.length b)%nat.
Proof.
  induction a as [|c a IH]; [reflexivity|].
  change (S (String.length (a ++ b)) = S (String.length a + String.length b)).
  congruence.
Qed.

Lemma substring_0_8_app (p s : string) :
  String.length p = 8%nat -> String.substring 0 TS_LEN (p ++ s) = p.
Proof. intros H. unfold TS_LEN. rewrite <- H. apply substring_prefix. Qed.

Lemma gen_rand_obj_instance_name_eq (t : Z) (buf : string) :
  0 <= t < 62 ^ 8 ->
  gen_rand_obj_instance_name t buf
  = (string_of_list_ascii (base62_digits TS_LEN (62 ^ 8 - 1 - t)) ++ buf)%string.
Proof.
  intros Ht. unfold gen_rand_obj_instance_name.
  change (62 ^ 8) with 218340105584896 in *.
  assert (Hu : u64 (max_ts_count - t) = 218340105584896 - 1 - t).
  { unfold u64, uint64_mod, max_ts_count. rewrite Z.mod_small; lia. }
  rewrite Hu, base62_encode_digits; [reflexivity|].
  change (62 ^ 8) with 218340105584896. lia.
Qed.

(** C1: for a millisecond timestamp [t < 62^8] the generated instance is
    the 8-character, zero-padded base62 notation of [62^8 - 1 - t] followed
    by the 23 characters of the random generator; decoding the first 8
    characters gives [t] back; and a later timestamp gives a prefix, and a
    version id, that is lexicographically smaller. *)
Theorem version_id_instance_encoding (t : Z) (buf : string) :
  0 <= t < 62 ^ 8 -> String.length buf = UUID_LEN ->
  let ts := string_of_list_ascii (base62_digits TS_LEN (62 ^ 8 - 1 - t)) in
  gen_rand_obj_instance_name t buf = (ts ++ buf)%string
  /\ String.length ts = 8%nat
  /\ String.length (gen_rand_obj_instance_name t buf) = 31%nat
  /\ version_id_ms (gen_rand_obj_instance_name t buf) = t
  /\ (forall t2 buf2, t < t2 < 62 ^ 8 ->
        String.compare
          (String.substring 0 TS_LEN (gen_rand_obj_instance_name t2 buf2))
          (String.substring 0 TS_LEN (gen_rand_obj_instance_name t buf)) = Lt
        /\ String.compare (gen_rand_obj_instance_name t2 buf2)
                          (gen_rand_obj_instance_name t buf) = Lt).
Proof.
  intros Ht Hbuf ts.
  assert (Hlen : forall v, String.length
                   (string_of_list_ascii (base62_digits TS_LEN v)) = 8%nat).
  { intros v. rewrite string_length_of_list, base62_digits_length. reflexivity. }
  rewrite gen_rand_obj_instance_name_eq by exact Ht. fold ts.
  split; [reflexivity|]. split; [apply Hlen|].
  split; [rewrite string_length_app; unfold ts; rewrite Hlen, Hbuf; reflexivity|].
  split.
  - unfold version_id_ms. rewrite substring_0_8_app by apply Hlen.
    unfold base62_decode, ts. rewrite list_ascii_of_string_of_list_ascii.
    rewrite base62_decode_digits.
    + change (62 ^ 8) with 218340105584896. unfold max_ts_count. lia.
    + change (Z.of_nat TS_LEN) with 8.
      change (62 ^ 8) with 218340105584896 in *. lia.
  - intros t2 buf2 Ht2.
    rewrite gen_rand_obj_instance_name_eq by lia.
    rewrite !substring_0_8_app by apply Hlen.
    assert (Hlt : String.compare
              (string_of_list_ascii (base62_digits TS_LEN (62 ^ 8 - 1 - t2))) ts = Lt).
    { unfold ts. rewrite string_compare_lcompare. apply base62_digits_lt.
      - lia.
      - change (Z.of_nat TS_LEN) with 8.
        change (62 ^ 8) with 218340105584896 in *. lia. }
    split; [exact Hlt|].
    apply string_compare_app_lt; [|exact Hlt].
    unfold ts. rewrite !Hlen. reflexivity.
Qed.

Lemma version_id_instance_encoding_witness :
  (0 <= 1700000000000 < 62 ^ 8
   /\ String.length "abcdefghijklmnopqrstuvw" = UUID_LEN)
  /\ version_id_ms
       (gen_rand_obj_instance_name 1700000000000 "abcdefghijklmnopqrstuvw")
     = 1700000000000.
Proof.
  split; [split; [change (62 ^ 8) with 218340105584896; lia | reflexivity]|].
  apply (version_id_instance_encoding 1700000000000 "abcdefghijklmnopqrstuvw").
  - change (62 ^ 8) with 218340105584896; lia.
  - reflexivity.
Defined.

End Base62Facts.

(** ** Block-size selection *)

Section LayoutFacts.
Import Layout.

Lemma u64_small (x : Z) : 0 <= x < 2 ^ 64 -> u64 x = x.
Proof. intros H. unfold u64, uint64_mod. apply Z.mod_small. exact H. Qed.

Lemma u32_small (x : Z) : 0 <= x < 2 ^ 32 -> u32 x = x.
Proof. intros H. unfold u32, uint32_mod. apply Z.mod_small. exact H. Qed.

Lemma ceil_div_nonneg (x m : Z) : 0 <= x -> 0 < m -> 0 <= ceil_div x m.
Proof. intros. unfold ceil_div. apply Z.div_pos; lia. Qed.

Lemma roundup_to_ge (x m : Z) : 0 <= x -> 0 < m -> x <= roundup_to x m.
Proof.
  intros Hx Hm. unfold roundup_to, ceil_div.
  pose proof (Z.div_mod (x + m - 1) m ltac:(lia)).
  pose proof (Z.mod_pos_bound (x + m - 1) m Hm). nia.
Qed.

Lemma ceil_div_le_of_mul (x m q : Z) :
  0 < m -> x <= q * m -> ceil_div x m <= q.
Proof.
  intros Hm Hq. unfold ceil_div.
  assert (H : (x + m - 1) / m <= (q * m + (m - 1)) / m)
    by (apply Z.div_le_mono; lia).
  rewrite Z.div_add_l in H by lia.
  rewrite (Z.div_small (m - 1) m) in H by lia. lia.
Qed.

Lemma roundup_eq (x m : Z) :
  0 <= x -> 0 < m -> roundup_to x m < 2 ^ 64 ->
  roundup x m = roundup_to x m.
Proof.
  intros Hx Hm Hb. unfold roundup.
  destruct (x =? 0) eqn:Hz.
  - apply Z.eqb_eq in Hz. subst x. unfold roundup_to, ceil_div.
    rewrite Z.div_small by lia. reflexivity.
  - apply Z.eqb_neq in Hz.
    assert (Hc : (x - 1) / m + 1 = ceil_div x m).
    { unfold ceil_div. replace (x + m - 1) with (x - 1 + 1 * m) by lia.
      rewrite Z.div_add by lia. reflexivity. }
    rewrite Hc. unfold roundup_to in *.
    pose proof (ceil_div_nonneg x m Hx Hm) as Hc0.
    assert (Hc1 : 1 <= ceil_div x m).
    { rewrite <- Hc. pose proof (Z.div_pos (x - 1) m ltac:(lia) Hm). lia. }
    rewrite (u64_small (ceil_div x m)) by nia.
    apply u64_small. nia.
Qed.

Lemma roundup_to_le_multiple (x m q : Z) :
  0 < m -> x <= q * m -> roundup_to x m <= q * m.
Proof.
  intros Hm Hq. unfold roundup_to.
  pose proof (ceil_div_le_of_mul x m q Hm Hq). nia.
Qed.

Lemma roundup_to_unit_le_group (x U N : Z) :
  0 <= x -> 0 < U -> 0 < N ->
  roundup_to x U <= roundup_to x (N * U).
Proof.
  intros Hx HU HN.
  pose proof (roundup_to_ge x (N * U) Hx ltac:(nia)) as Hge.
  unfold roundup_to at 2. unfold roundup_to at 1 in Hge.
  replace (ceil_div x (N * U) * (N * U))
    with ((ceil_div x (N * U) * N) * U) in * by ring.
  apply roundup_to_le_multiple; lia.
Qed.

Lemma depth_clamp (c : Z) :
  0 < c -> (if 128 / c =? 0 then 1 else 128 / c) = Z.max 1 (128 / c).
Proof.
  intros Hc. pose proof (Z.div_pos 128 c ltac:(lia) Hc).
  destruct (128 / c =? 0) eqn:E.
  - apply Z.eqb_eq in E. lia.
  - apply Z.eqb_neq in E. lia.
Qed.

Lemma u32_mul3 (a b c d : Z) :
  u32 (u32 (u32 (a * b) * c) * d) = u32 (a * b * c * d).
Proof.
  unfold u32.
  rewrite (Z.mul_mod_idemp_l (a * b) c) by (unfold uint32_mod; lia).
  rewrite (Z.mul_mod_idemp_l (a * b * c) d) by (unfold uint32_mod; lia).
  reflexivity.
Qed.

Example unit_8MiB_code :
  get_optimal_bs {| pa_N := 4; pa_K := 2; pa_S := 2; pa_P := 10 |}
    8388608 4096 true = 8388608.
Proof. vm_compute. reflexivity. Qed.

Example unit_8MiB_doc :
  doc_depth 8388608 = 0
  /\ doc_optimal_bs {| pa_N := 4; pa_K := 2; pa_S := 2; pa_P := 10 |}
       8388608 4096 true = 0.
Proof. vm_compute. split; reflexivity. Qed.

(** C9, as worded, fails for a unit size above 4 MiB: there
    [128 / ceil(U / 32KiB)] is 0, so the documented maximum block and
    block size are 0, while the code clamps the depth to 1. *)
Lemma get_optimal_bs_doc_counterexample :
  get_optimal_bs {| pa_N := 4; pa_K := 2; pa_S := 2; pa_P := 10 |}
    8388608 4096 true
  <> doc_optimal_bs {| pa_N := 4; pa_K := 2; pa_S := 2; pa_P := 10 |}
       8388608 4096 true.
Proof. vm_compute. discriminate. Qed.

(** The block size in closed form, as long as nothing overflows 32 bits. *)
Lemma get_optimal_bs_clamped_eq (pa : m0_pdclust_attr) (U len : Z) (last : bool) :
  0 < U -> U + 32767 < 2 ^ 32 ->
  0 < pa_N pa -> 0 <= pa_K pa -> 0 <= pa_S pa -> 0 <= pa_P pa ->
  pa_N pa + pa_K pa + pa_S pa < 2 ^ 32 ->
  pa_N pa * U < 2 ^ 32 ->
  clamped_depth U * U * pa_P pa * pa_N pa < 2 ^ 32 ->
  clamped_max_bs pa U < 2 ^ 32 ->
  0 <= len ->
  get_optimal_bs pa U len last = clamped_optimal_bs pa U len last.
Proof.
  intros HU HU32 HN HK HS HP Hsum HG Hprod Hmax Hlen.
  unfold get_optimal_bs, clamped_optimal_bs.
  set (G := pa_N pa * U) in *.
  assert (HG0 : 0 < G) by (unfold G; nia).
  rewrite (Z.mul_comm U (pa_N pa)). fold G.
  rewrite (u32_small G) by lia.
  rewrite (u32_small (U + 32767)) by lia.
  assert (Hc : (U + 32767) / 32768 = ceil_div U 32768)
    by (unfold ceil_div; f_equal; lia).
  rewrite Hc.
  assert (Hc0 : 0 < ceil_div U 32768).
  { unfold ceil_div. apply Z.div_str_pos. lia. }
  rewrite depth_clamp by exact Hc0. fold (clamped_depth U).
  assert (Hd : 1 <= clamped_depth U) by (unfold clamped_depth; lia).
  rewrite u32_mul3.
  rewrite (u32_small (clamped_depth U * U * pa_P pa * pa_N pa)) by nia.
  rewrite (u32_small (pa_N pa + pa_K pa)) by lia.
  rewrite (u32_small (pa_N pa + pa_K pa + pa_S pa)) by lia.
  set (x := clamped_depth U * U * pa_P pa * pa_N pa
            / (pa_N pa + pa_K pa + pa_S pa)).
  assert (Hx : 0 <= x) by (unfold x; apply Z.div_pos; nia).
  assert (Hm : clamped_max_bs pa U = roundup_to x G) by reflexivity.
  rewrite Hm in *.
  rewrite (roundup_eq x G) by lia.
  rewrite (u32_small (roundup_to x G))
    by (pose proof (roundup_to_ge x G Hx HG0); lia).
  destruct (len >=? roundup_to x G) eqn:Hcmp; [reflexivity|].
  assert (Hlt : len < roundup_to x G) by lia.
  assert (HlG : roundup_to len G <= roundup_to x G).
  { unfold roundup_to at 2. apply roundup_to_le_multiple; [lia|].
    unfold roundup_to in Hlt. lia. }
  assert (HlU : roundup_to len U <= roundup_to len G)
    by (apply roundup_to_unit_le_group; lia).
  pose proof (roundup_to_ge len U Hlen HU).
  pose proof (roundup_to_ge len G Hlen HG0).
  destruct last.
  - rewrite (roundup_eq len U) by lia. apply u32_small. lia.
  - rewrite (roundup_eq len G) by lia. apply u32_small. lia.
Qed.

(** A block size is never 0 for data of at least one byte, when the pool
    is wide enough for the maximum block not to be 0. *)
Lemma get_optimal_bs_pos (pa : m0_pdclust_attr) (U len : Z) (last : bool) :
  0 < U -> U + 32767 < 2 ^ 32 ->
  0 < pa_N pa -> 0 <= pa_K pa -> 0 <= pa_S pa -> 0 <= pa_P pa ->
  pa_N pa + pa_K pa + pa_S pa < 2 ^ 32 ->
  pa_N pa * U < 2 ^ 32 ->
  clamped_depth U * U * pa_P pa * pa_N pa < 2 ^ 32 ->
  clamped_max_bs pa U < 2 ^ 32 ->
  pa_N pa + pa_K pa + pa_S pa <= clamped_depth U * U * pa_P pa * pa_N pa ->
  0 < len ->
  0 < get_optimal_bs pa U len last.
Proof.
  intros HU HU32 HN HK HS HP Hsum HG Hprod Hmax Hwide Hlen.
  rewrite get_optimal_bs_clamped_eq by (assumption || lia).
  unfold clamped_optimal_bs.
  assert (Hx : 0 < clamped_max_bs pa U).
  { unfold clamped_max_bs.
    set (x := clamped_depth U * U * pa_P pa * pa_N pa
              / (pa_N pa + pa_K pa + pa_S pa)).
    assert (H1 : 1 <= x).
    { unfold x. apply Z.div_le_lower_bound; lia. }
    pose proof (roundup_to_ge x (pa_N pa * U) ltac:(lia) ltac:(nia)). lia. }
  destruct (len >=? clamped_max_bs pa U); [exact Hx|].
  destruct last.
  - pose proof (roundup_to_ge len U ltac:(lia) HU). lia.
  - pose proof (roundup_to_ge len (pa_N pa * U) ltac:(lia) ltac:(nia)). lia.
Qed.

(** C9, amended: with the depth [max(1, 128 / ceil(U / 32KiB))], for a
    unit size [0 < U] with [U + 32767 < 2^32], [N >= 1], [K, S, P >= 0]
    and [len >= 0], and as long as [N+K+S], [N*U], [depth*U*P*N] and the
    rounded maximum are below [2^32], [max_bs] is [depth*U*P*N/(N+K+S)]
    rounded up to a multiple of [G = N*U], and [get_optimal_bs len last] is
    [max_bs] when [len >= max_bs], otherwise [len] rounded up to [U] when
    [last], otherwise to [G]. *)
Theorem get_optimal_bs_clamped (pa : m0_pdclust_attr) (U len : Z) (last : bool) :
  0 < U -> U + 32767 < 2 ^ 32 ->
  0 < pa_N pa -> 0 <= pa_K pa -> 0 <= pa_S pa -> 0 <= pa_P pa ->
  pa_N pa + pa_K pa + pa_S pa < 2 ^ 32 ->
  pa_N pa * U < 2 ^ 32 ->
  clamped_depth U * U * pa_P pa * pa_N pa < 2 ^ 32 ->
  clamped_max_bs pa U < 2 ^ 32 ->
  0 <= len ->
  get_optimal_bs pa U len last = clamped_optimal_bs pa U len last.
Proof. apply get_optimal_bs_clamped_eq. Qed.

Lemma get_optimal_bs_clamped_witness :
  get_optimal_bs {| pa_N := 4; pa_K := 2; pa_S := 2; pa_P := 10 |}
    1048576 5000000 false
  = clamped_optimal_bs {| pa_N := 4; pa_K := 2; pa_S := 2; pa_P := 10 |}
      1048576 5000000 false.
Proof.
  apply (get_optimal_bs_clamped
           {| pa_N := 4; pa_K := 2; pa_S := 2; pa_P := 10 |} 1048576 5000000 false);
    simpl; try lia; vm_compute; reflexivity.
Defined.

End LayoutFacts.

(** ** The layer over the services *)

Section SalFacts.
Import Motr Sal.
Context `{EXT : External}.

(** Unfolding of the monad. *)
Lemma bind_eq {A B} (m : M A) (k : A -> M B) (w : world) :
  (m ≫= k) w = match m w with
               | (Ret a, w') => k a w'
               | (Exn e, w') => (Exn e, w')
               end.
Proof. reflexivity. Qed.

Lemma mret_eq {A} (a : A) (w : world) : (mret a : M A) w = (Ret a, w).
Proof. reflexivity. Qed.

(** Evaluation of the monad operations, in the goal and in a hypothesis. *)
Ltac msimpl :=
  repeat (progress (cbv beta iota delta
                      [mbind M_bind bind mret M_ret ret throw
                       record_named record_entry];
                    simpl)).

Ltac msimpl_in H :=
  repeat (progress (cbv beta iota delta
                      [mbind M_bind bind mret M_ret ret throw
                       record_named record_entry] in H;
                    simpl in H)).

(** Case analysis along the control flow of a monadic computation whose
    result is known. *)
Ltac mcases H :=
  repeat (msimpl_in H;
          match type of H with
          | context [match ?m ?w with _ => _ end] =>
              match type of w with
              | world => destruct (m w) as [[?|?] ?] eqn:?
              end
          | context [if ?b then _ else _] => destruct b eqn:?
          | context [match ?x with _ => _ end] => destruct x eqn:?
          end;
          try discriminate H).

(** *** Tiered part writes *)

Lemma off_in_composite_obj_mod (n o : Z) :
  off_in_composite_obj n o
  = ((n - 1) * MOTR_MULTIPART_DEFAULT_PART_SIZE + o) mod 2 ^ 64.
Proof.
  unfold off_in_composite_obj, u64, uint64_mod.
  symmetry.
  rewrite <- Z.add_mod_idemp_l by lia.
  rewrite <- (Z.mul_mod_idemp_l (n - 1)) by lia.
  reflexivity.
Qed.

Lemma set_write_log_same (w : world) :
  set_write_log w (write_log w ++ []) = w.
Proof. destruct w. unfold set_write_log. cbn. rewrite app_nil_r. reflexivity. Qed.

(** The block loop of [write_mobj]: with block sizes that are never 0 and
    the object service answering, it writes blocks one after the other
    from [offset] until the data is covered. *)
Lemma write_mobj_loop_spec (pa : Layout.m0_pdclust_attr) (o : MotrObject)
    (last_io : bool) :
  (forall len last, 0 < len < 2 ^ 32 ->
                    0 < Layout.get_optimal_bs pa (get_unit_sz o) len last) ->
  forall (fuel : nat) (left bs offset : Z) (w : world),
    m0_errno w (call_obj_write (oid (meta o))) = 0%N ->
    left < 2 ^ 32 -> 0 < bs -> (Z.to_nat left < fuel)%nat ->
    exists blocks,
      write_mobj_loop fuel pa o last_io left bs offset w
      = (Ret 0, set_write_log w (write_log w ++ blocks))
      /\ contiguous_writes (oid (meta o)) offset blocks = true
      /\ left <= blocks_length blocks
      /\ (0 < left -> blocks <> []).
Proof.
  intros Hpos. induction fuel as [|fuel IH];
    intros left bs offset w Herr Hl Hbs Hf; [lia|].
  cbn [write_mobj_loop].
  destruct (left >? 0) eqn:Hgt; cbn [negb].
  - rewrite Z.gtb_ltb in Hgt. apply Z.ltb_lt in Hgt.
    set (bs' := if (left <? bs) && last_io
                then Layout.get_optimal_bs pa (get_unit_sz o) (u32 left) true
                else bs).
    assert (Hbs' : 0 < bs').
    { subst bs'. destruct ((left <? bs) && last_io); [|exact Hbs].
      apply Hpos. rewrite u32_small by lia. lia. }
    rewrite bind_eq. unfold m0_obj_write at 1. rewrite Herr.
    cbn beta iota. cbn [Z.eqb negb].
    destruct (IH (left - bs') bs' (u64 (offset + bs'))
                 (set_write_log w
                    (write_log w ++ [(oid (meta o), offset, bs')])))
      as (blocks & E & Hc & Hlen & _); try lia; [exact Herr|].
    exists ((oid (meta o), offset, bs') :: blocks).
    split; [|split; [|split]].
    + rewrite E. cbn [write_log set_write_log]. unfold set_write_log.
      cbn. rewrite <- app_assoc. reflexivity.
    + cbn [contiguous_writes]. rewrite bool_decide_eq_true_2 by reflexivity.
      rewrite Z.eqb_refl, Hc.
      replace (0 <? bs') with true by (symmetry; apply Z.ltb_lt; exact Hbs').
      reflexivity.
    + unfold blocks_length in *. cbn [fold_right snd]. lia.
    + intros _. discriminate.
  - rewrite Z.gtb_ltb in Hgt. apply Z.ltb_ge in Hgt.
    exists []. rewrite set_write_log_same.
    split; [reflexivity|]. split; [reflexivity|].
    split; [exact Hgt|]. intros; lia.
Qed.

Lemma buffers_length_app (l : list Z) (x : Z) :
  buffers_length (l ++ [x]) = buffers_length l + x.
Proof.
  unfold buffers_length. induction l as [|a l IH]; simpl; [lia|].
  rewrite IH. lia.
Qed.

Lemma buffers_length_pos (l : list Z) :
  Forall (fun x => 0 < x) l -> l <> [] -> 0 < buffers_length l.
Proof.
  unfold buffers_length. intros H Hne. destruct H as [|a l Ha Hl]; [congruence|].
  simpl. assert (0 <= fold_right Z.add 0 l); [|lia].
  clear - Hl. induction Hl; simpl; lia.
Qed.

(** [write_mobj] with data of at least one byte: either the chunk is kept
    back, with the offset of the first chunk kept back remembered, or
    blocks are written one after the other, from the offset passed in
    when nothing was kept back and from the remembered offset
    otherwise. *)
Lemma write_mobj_spec (fuel : nat) (pa : Layout.m0_pdclust_attr)
    (o : MotrObject) (io : MotrObjectIo) (data_len offset : Z) (w : world) :
  let ctx := io_ctxt io in
  let acc := accumulated_buffer_list ctx in
  let start := match acc with [] => offset | _ :: _ => start_offset ctx end in
  0 < data_len -> 0 < chunk_io_sz io < 2 ^ 32 ->
  Forall (fun l => 0 < l) acc ->
  buffers_length acc + data_len < 2 ^ 32 ->
  (forall len last, 0 < len < 2 ^ 32 ->
                    0 < Layout.get_optimal_bs pa (get_unit_sz o) len last) ->
  m0_errno w (call_obj_write (oid (meta o))) = 0%N ->
  (Z.to_nat (buffers_length acc + data_len) < fuel)%nat ->
  exists io' blocks,
    write_mobj fuel pa o io data_len offset w
    = (Ret (0, io'), set_write_log w (write_log w ++ blocks))
    /\ contiguous_writes (oid (meta o)) start blocks = true
    /\ (processed_bytes io' = processed_bytes io + data_len
        /\ expected_obj_size io' = expected_obj_size io)
    /\ (blocks = [] ->
        accumulated_buffer_list (io_ctxt io') = acc ++ [data_len]
        /\ start_offset (io_ctxt io') = start)
    /\ (blocks <> [] ->
        accumulated_buffer_list (io_ctxt io') = []
        /\ buffers_length acc <= blocks_length blocks
        /\ (acc = [] -> data_len <= blocks_length blocks))
    /\ (acc = [] -> expected_obj_size io <= processed_bytes io + data_len ->
        blocks <> []).
Proof.
  intros ctx acc start Hd Hchunk Hacc Hsum Hpos Herr Hfuel.
  unfold write_mobj.
  replace (data_len =? 0) with false by (symmetry; apply Z.eqb_neq; lia).
  cbn zeta. subst start acc ctx.
  set (ctx := io_ctxt io) in *.
  set (bs0 := Layout.get_optimal_bs pa (get_unit_sz o) (u32 (chunk_io_sz io))
                false).
  assert (Hbs0 : 0 < bs0).
  { apply Hpos. rewrite u32_small by lia. lia. }
  destruct (accumulated_buffer_list ctx) as [|a acc'] eqn:Eacc.
  - cbn [List.length Nat.eqb negb andb].
    change (buffers_length []) with 0 in Hsum, Hfuel.
    destruct ((data_len + 0 <? bs0)
              && (expected_obj_size io - (processed_bytes io + data_len) >? 0))
      eqn:Hbuf.
    + do 2 eexists. rewrite mret_eq, set_write_log_same.
      split; [reflexivity|]. split; [reflexivity|].
      split; [split; reflexivity|].
      split; [intros _; split; reflexivity|].
      split; [intros H; contradiction H; reflexivity|].
      intros _ Hexp. apply andb_true_iff in Hbuf as [_ Hr].
      rewrite Z.gtb_ltb in Hr. apply Z.ltb_lt in Hr. lia.
    + cbn [List.length Nat.eqb negb].
      rewrite bind_eq.
      destruct (write_mobj_loop_spec pa o
                  (expected_obj_size io - (processed_bytes io + data_len) <=? 0)
                  Hpos fuel data_len bs0 offset w Herr)
        as (blocks & E & Hc & Hlen & Hne); try lia.
      rewrite E. cbn beta iota. rewrite mret_eq.
      do 2 eexists. split; [reflexivity|]. split; [exact Hc|].
      split; [split; reflexivity|].
      split; [intros Hb; exfalso; apply (Hne Hd); exact Hb|].
      split; [intros _; split; [reflexivity|]; split;
              [unfold buffers_length; simpl; lia|intros _; exact Hlen]|].
      intros _ _. exact (Hne Hd).
  - cbn [List.length Nat.eqb negb andb].
    assert (Hpa : 0 < buffers_length (a :: acc'))
      by (apply buffers_length_pos; [exact Hacc|discriminate]).
    destruct ((data_len + total_bufer_sz ctx <? bs0)
              && (expected_obj_size io - (processed_bytes io + data_len) >? 0))
      eqn:Hbuf.
    + do 2 eexists. rewrite mret_eq, set_write_log_same.
      split; [reflexivity|]. split; [reflexivity|].
      split; [split; reflexivity|].
      split; [intros _; split; reflexivity|].
      split; [intros H; contradiction H; reflexivity|].
      intros H; discriminate H.
    + set (b := (data_len + total_bufer_sz ctx <? bs0)
                || (data_len + total_bufer_sz ctx =? bs0)).
      set (acc2 := if b then (a :: acc') ++ [data_len] else a :: acc').
      assert (Hnz : (List.length acc2 =? 0)%nat = false).
      { subst acc2. destruct b; reflexivity. }
      rewrite Hnz. cbn [negb].
      assert (Hl2 : buffers_length (a :: acc') <= buffers_length acc2
                    /\ buffers_length acc2
                       <= buffers_length (a :: acc') + data_len).
      { subst acc2. destruct b; [rewrite buffers_length_app|]; lia. }
      rewrite bind_eq.
      destruct (write_mobj_loop_spec pa o
                  (expected_obj_size io - (processed_bytes io + data_len) <=? 0)
                  Hpos fuel (buffers_length acc2)
                  (Layout.get_optimal_bs pa (get_unit_sz o)
                     (u32 (buffers_length acc2)) false)
                  (start_offset ctx) w Herr)
        as (blocks & E & Hc & Hlen & Hne); try lia.
      { apply Hpos. rewrite u32_small by lia. lia. }
      rewrite E. cbn beta iota. rewrite mret_eq.
      do 2 eexists. split; [reflexivity|]. split; [exact Hc|].
      split; [split; reflexivity|].
      split; [intros Hb; exfalso; apply Hne; [lia|exact Hb]|].
      split; [intros _; split; [reflexivity|]; split;
              [lia|intros H; discriminate H]|].
      intros H; discriminate H.
Qed.

(** C8: a tiered part write of part [num] at intra-part offset [off] goes
    to the composite object at byte offset [(num - 1) * 15 MiB + off]; the
    sizes of the parts stored so far do not enter it.  With nothing kept
    back from earlier calls and no more data expected for the part object
    (its expected size not above the bytes processed, as for a part object
    whose expected size was never set), [process] writes blocks to the
    composite object one after the other from that offset, covering the
    data, and leaves the writer in such a state again.  When more data is
    expected it may instead keep the chunk back, and then it remembers that
    offset as the start of the write to come; with chunks kept back, the
    blocks written start at the remembered offset, and a chunk kept back
    leaves it as it is. *)
Theorem composite_process_write_offset (fuel : nat)
    (pa : Layout.m0_pdclust_attr) (wr : MotrMultipartCompositeWriter)
    (data_len offset : Z) (w : world) :
  let o := part_obj wr in
  let ctx := io_ctxt (part_io wr) in
  let acc := accumulated_buffer_list ctx in
  let base := (part_num wr - 1) * (15 * 1024 * 1024) + offset in
  let start := match acc with [] => base | _ :: _ => start_offset ctx end in
  1 <= part_num wr -> 0 <= offset -> 0 < data_len ->
  base < 2 ^ 64 ->
  Forall (fun l => 0 < l) acc ->
  buffers_length acc + data_len < 2 ^ 32 ->
  (forall len last, 0 < len < 2 ^ 32 ->
                    0 < Layout.get_optimal_bs pa (get_unit_sz o) len last) ->
  m0_errno w (call_obj_write (oid (meta o))) = 0%N ->
  (Z.to_nat (buffers_length acc + data_len) < fuel)%nat ->
  exists wr' blocks,
    process fuel pa wr data_len offset w
    = (Ret (0, wr'), set_write_log w (write_log w ++ blocks))
    /\ contiguous_writes (oid (meta o)) start blocks = true
    /\ (blocks = [] ->
        accumulated_buffer_list (io_ctxt (part_io wr')) = acc ++ [data_len]
        /\ start_offset (io_ctxt (part_io wr')) = start)
    /\ (blocks <> [] ->
        accumulated_buffer_list (io_ctxt (part_io wr')) = []
        /\ buffers_length acc <= blocks_length blocks
        /\ (acc = [] -> data_len <= blocks_length blocks))
    /\ (acc = [] ->
        expected_obj_size (part_io wr)
        <= processed_bytes (part_io wr) + data_len ->
        blocks <> [])
    /\ processed_bytes (part_io wr') = processed_bytes (part_io wr) + data_len
    /\ expected_obj_size (part_io wr') = expected_obj_size (part_io wr)
    /\ MOTR_MULTIPART_DEFAULT_PART_SIZE = 15 * 1024 * 1024.
Proof.
  intros o ctx acc base start Hn Ho Hd Hb Hacc Hsum Hpos Herr Hfuel.
  unfold process. rewrite bind_eq.
  assert (Hoff : off_in_composite_obj (part_num wr) offset = base).
  { rewrite off_in_composite_obj_mod.
    unfold MOTR_MULTIPART_DEFAULT_PART_SIZE. apply Z.mod_small.
    subst base. nia. }
  rewrite Hoff.
  destruct (write_mobj_spec fuel pa o
              (set_chunk_io_sz (part_io wr) MAX_ACC_SIZE) data_len base w)
    as (io' & blocks & E & Hc & [Hpr Hex] & Hbuf & Hwr & Hlast);
    try assumption.
  { cbn [chunk_io_sz set_chunk_io_sz]. unfold MAX_ACC_SIZE. lia. }
  fold o. rewrite E. cbn beta iota. rewrite mret_eq.
  do 2 eexists. split; [reflexivity|].
  cbn [part_io]. repeat split; try assumption; try (apply Hbuf; assumption);
    try (apply Hwr; assumption).
Qed.

(** *** Bucket statistics *)

Lemma do_idx_op_by_name_get (iname key : string) (bl : bufferlist) (u : bool)
    (w : world) :
  exists rc v,
    do_idx_op_by_name iname M0_IC_GET key bl u w = (Ret (rc, v), w)
    /\ (rc = 0 ->
        exists t val, indices w !! iname = Some t
                      /\ idx_lookup key t = Some val /\ v = bl ++ val).
Proof.
  unfold do_idx_op_by_name. rewrite bind_eq. unfold m0_idx_op.
  destruct (m0_errno w (call_idx iname M0_IC_GET key)) eqn:He.
  - destruct (indices w !! iname) as [t|] eqn:Hi.
    + destruct (idx_lookup key t) as [val|] eqn:Hl.
      * exists 0, (bl ++ val). split; [reflexivity|]. intros _. eauto.
      * exists (- ENOENT), bl. split; [reflexivity|]. intros H; discriminate H.
    + exists (- ENOENT), bl. split; [reflexivity|]. intros H; discriminate H.
  - exists (- Z.of_N (N.pos p)), bl.
    assert (E : (- Z.of_N (N.pos p) =? 0) = false) by (apply Z.eqb_neq; lia).
    rewrite E. split; [reflexivity | lia].
Qed.

Lemma u64_add_mul (old delta : Z) (add_stats : bool) :
  u64 (old + u64 ((if add_stats then 1 else u64 (-1)) * delta))
  = (if add_stats then old + delta else old - delta) mod 2 ^ 64.
Proof.
  unfold u64, uint64_mod. destruct add_stats.
  - rewrite Z.add_mod_idemp_r by lia. f_equal; lia.
  - rewrite Z.mul_mod_idemp_l by lia.
    rewrite Z.add_mod_idemp_r by lia. f_equal; lia.
Qed.

(** C10: [update_bucket_stats] first reads the header of the bucket from
    the user-stats index; when the read fails it returns that error and
    the store is unchanged.  When it succeeds, with the counters [old] of
    the Main category in the header read (all 0 when the header has none),
    the header written back under the same key has the Main counters
    [num_entries], [total_size] and [actual_size] of [old] moved by the
    deltas modulo 2^64 and [total_size_rounded] as it was, and every other
    category as it was; nothing else in the store changes.  A failed write
    returns its error and leaves the store unchanged.  The multiplier is 1
    to add and [(uint64_t)-1] to subtract, and the subtraction is the exact
    difference precisely when the old counter is at least its delta. *)
Theorem update_bucket_stats_spec (owner_ bucket_name_ : string)
    (sz actual_sz num_objects : Z) (add_stats : bool) (w : world) :
  let iname := ("motr.rgw.user.stats." ++ owner_)%string in
  let upd (o d : Z) := (if add_stats then o + d else o - d) mod 2 ^ 64 in
  (forall rc bl,
     do_idx_op_by_name iname M0_IC_GET bucket_name_ [] true w = (Ret (rc, bl), w) ->
     rc <> 0 ->
     update_bucket_stats owner_ bucket_name_ sz actual_sz num_objects add_stats w
     = (Ret rc, w))
  /\ (forall t h tl old,
       indices w !! iname = Some t ->
       idx_lookup bucket_name_ t = Some (enc_dir_header h :: tl) ->
       m0_errno w (call_idx iname M0_IC_GET bucket_name_) = 0%N ->
       stats h !! Main = Some old
       \/ (stats h !! Main = None
           /\ old = {| total_size := 0; total_size_rounded := 0;
                       num_entries := 0; actual_size := 0 |}) ->
       (m0_errno w (call_idx iname M0_IC_PUT bucket_name_) = 0%N ->
        exists h',
          update_bucket_stats owner_ bucket_name_ sz actual_sz num_objects
            add_stats w
          = (Ret 0,
             set_indices w
               (<[iname := idx_insert bucket_name_ [enc_dir_header h'] t]>
                  (indices w)))
          /\ stats h' !! Main
             = Some {| total_size := upd (total_size old) sz;
                       total_size_rounded := total_size_rounded old;
                       num_entries := upd (num_entries old) num_objects;
                       actual_size := upd (actual_size old) actual_sz |}
          /\ forall c, c <> Main -> stats h' !! c = stats h !! c)
       /\ (forall e,
             m0_errno w (call_idx iname M0_IC_PUT bucket_name_) = N.pos e ->
             update_bucket_stats owner_ bucket_name_ sz actual_sz num_objects
               add_stats w
             = (Ret (- Z.pos e), w)))
  /\ (if add_stats then 1 else u64 (-1))
     = (if add_stats then 1 else 2 ^ 64 - 1)
  /\ (forall old delta, is_u64 old -> is_u64 delta ->
       ((old - delta) mod 2 ^ 64 = old - delta <-> delta <= old)).
Proof.
  intros iname upd. split; [|split; [|split]].
  - intros rc bl Hget Hrc. unfold update_bucket_stats. fold iname.
    rewrite bind_eq, Hget.
    destruct (rc =? 0) eqn:E; [apply Z.eqb_eq in E; contradiction|].
    reflexivity.
  - intros t h tl old Hi Hl Hget Hold.
    assert (Hg : do_idx_op_by_name iname M0_IC_GET bucket_name_ [] true w
                 = (Ret (0, enc_dir_header h :: tl), w)).
    { unfold do_idx_op_by_name. rewrite bind_eq. unfold m0_idx_op.
      rewrite Hget, Hi, Hl. reflexivity. }
    assert (Hst : stats_at h Main = old).
    { unfold stats_at. destruct Hold as [-> | [-> ->]]; reflexivity. }
    split.
    + intros Hput. eexists. split; [|split].
      * unfold update_bucket_stats. fold iname.
        rewrite bind_eq, Hg. cbn [negb Z.eqb].
        rewrite bind_eq. cbn [decode_dir_header ret].
        rewrite bind_eq. unfold do_idx_op_by_name. rewrite bind_eq.
        unfold m0_idx_op. rewrite Hput, Hi, Hl. reflexivity.
      * rewrite Hst. cbn [stats]. rewrite lookup_insert_eq.
        rewrite !u64_add_mul. reflexivity.
      * intros c Hc. cbn [stats].
        rewrite lookup_insert_ne by congruence. reflexivity.
    + intros e Hput. unfold update_bucket_stats. fold iname.
      rewrite bind_eq, Hg. cbn [negb Z.eqb].
      rewrite bind_eq. cbn [decode_dir_header ret].
      rewrite bind_eq. unfold do_idx_op_by_name. rewrite bind_eq.
      unfold m0_idx_op. rewrite Hput. reflexivity.
  - destruct add_stats; reflexivity.
  - intros old delta [Ho1 Ho2] [Hd1 Hd2]. unfold uint64_mod in *. split.
    + intros Hm. pose proof (Z.mod_pos_bound (old - delta) (2 ^ 64) ltac:(lia)).
      lia.
    + intros Hle. apply Z.mod_small. lia.
Qed.

(** *** Strings and keys *)

Lemma append_cons (c : ascii) (s t : string) :
  (String c s ++ t)%string = String c (s ++ t).
Proof. reflexivity. Qed.

Lemma append_nil (t : string) : (EmptyString ++ t)%string = t.
Proof. reflexivity. Qed.

Lemma string_app_assoc (a b c : string) :
  ((a ++ b) ++ c)%string = (a ++ b ++ c)%string.
Proof.
  induction a as [|ch a IHa]; [reflexivity|].
  rewrite !append_cons. congruence.
Qed.

(** A key between [p] and [p ++ s] starts with [p]. *)
Lemma compare_sandwich (p k s : string) :
  String.leb p k = true -> String.compare k (p ++ s) = Lt ->
  exists r, k = (p ++ r)%string.
Proof.
  revert k; induction p as [|c p IH]; intros k Hle Hlt.
  - exists k. reflexivity.
  - destruct k as [|d k].
    + discriminate Hle.
    + unfold String.leb in Hle. simpl in Hle.
      rewrite append_cons in Hlt. simpl in Hlt.
      rewrite (Ascii.compare_antisym d c) in Hlt.
      destruct (Ascii.compare c d) eqn:Hcd; simpl in Hlt; try discriminate.
      apply Ascii.compare_eq_iff in Hcd. subst d.
      destruct (IH k) as [r Hr].
      * unfold String.leb. exact Hle.
      * exact Hlt.
      * exists r. rewrite append_cons. congruence.
Qed.

(** The separator splits a key in one way only. *)
Lemma sep_split_unique (a b x y : string) :
  (a ++ SEP ++ x)%string = (b ++ SEP ++ y)%string ->
  has_sep a = false -> has_sep b = false -> a = b.
Proof.
  revert b; induction a as [|c a IH]; intros b Heq Ha Hb.
  - destruct b as [|d b]; [reflexivity|].
    rewrite append_nil, append_cons in Heq. unfold SEP in Heq.
    rewrite append_cons in Heq. injection Heq as Hc _.
    simpl in Hb. rewrite <- Hc, Ascii.eqb_refl in Hb. discriminate.
  - destruct b as [|d b].
    + rewrite append_nil, append_cons in Heq. unfold SEP in Heq.
      rewrite append_cons in Heq. injection Heq as Hc _.
      simpl in Ha. rewrite Hc, Ascii.eqb_refl in Ha. discriminate.
    + rewrite !append_cons in Heq. injection Heq as Hc Heq.
      simpl in Ha, Hb. apply orb_false_elim in Ha, Hb.
      f_equal; [exact Hc|]. apply IH; tauto.
Qed.

Lemma wf_record_inv (kv : string * bufferlist) :
  wf_record kv = true ->
  exists e a x,
    snd kv = [enc_dir_entry e; enc_attrs a; x]
    /\ (exists m, decode_meta entry_meta_as_motr_meta [x]
                  = (fun w => (Ret (m, []), w)))
    /\ fst kv = index_key e /\ has_sep (key_name e) = false.
Proof.
  destruct kv as [k bl]. unfold wf_record. simpl.
  destruct bl as [|i1 bl]; [discriminate|].
  destruct i1 as [e| | | | |]; try discriminate.
  destruct bl as [|i2 bl]; [discriminate|].
  destruct i2 as [|a| | | |]; try discriminate.
  destruct bl as [|x bl]; [discriminate|].
  destruct bl as [|y bl]; [|destruct x; discriminate].
  destruct x as [e0|a'|m|e'|h|p]; try discriminate; intros H;
    apply andb_true_iff in H as [Hk Hs];
    apply String.eqb_eq in Hk; apply negb_true_iff in Hs.
  - exists e, a, (enc_meta m). split; [reflexivity|].
    split; [exists m; reflexivity|]. split; assumption.
  - exists e, a, (enc_dir_entry_meta e'). split; [reflexivity|].
    split; [exists (entry_meta_as_motr_meta e'); reflexivity|].
    split; assumption.
Qed.

(** In a well-formed index, a record of another object cannot precede a
    record of [n] at or after the key [n SEP]. *)
Lemma other_name_not_before (n : string) (r1 r2 : string * bufferlist)
    (e1 e2 : rgw_bucket_dir_entry) :
  has_sep n = false ->
  wf_record r1 = true -> wf_record r2 = true ->
  record_entry (snd r1) = Some e1 -> record_entry (snd r2) = Some e2 ->
  String.leb (n ++ SEP) (fst r1) = true ->
  String.ltb (fst r1) (fst r2) = true ->
  key_name e2 = n -> key_name e1 = n.
Proof.
  intros Hn Hw1 Hw2 He1 He2 Hle Hlt Hn2.
  destruct (wf_record_inv r1 Hw1) as (e1' & a1 & x1 & Hs1 & _ & Hk1 & Hsep1).
  destruct (wf_record_inv r2 Hw2) as (e2' & a2 & x2 & Hs2 & _ & Hk2 & Hsep2).
  rewrite Hs1 in He1. rewrite Hs2 in He2. simpl in He1, He2.
  injection He1 as <-. injection He2 as <-.
  unfold String.ltb in Hlt.
  destruct (String.compare (fst r1) (fst r2)) eqn:Hc; try discriminate.
  rewrite Hk2 in Hc. unfold index_key in Hc. rewrite Hn2 in Hc.
  rewrite <- string_app_assoc in Hc.
  destruct (compare_sandwich _ _ _ Hle Hc) as [r Hr].
  rewrite Hk1 in Hr. unfold index_key in Hr.
  rewrite string_app_assoc in Hr.
  eapply sep_split_unique; eauto.
Qed.

(** *** NEXT with limit 2 *)

Lemma forallb_filter_true {A} (f P : A -> bool) (l : list A) :
  forallb f l = true -> forallb f (List.filter P l) = true.
Proof.
  induction l as [|x l IH]; simpl; [auto|].
  intros H. apply andb_true_iff in H as [Hx Hl].
  destruct (P x); simpl; [rewrite Hx|]; auto.
Qed.

Lemma keys_ascending_filter (P : string * bufferlist -> bool) (t : m0_index) :
  keys_ascending t = true -> keys_ascending (List.filter P t) = true.
Proof.
  induction t as [|kv t IH]; simpl; [auto|].
  intros H. apply andb_true_iff in H as [Hx Hl].
  destruct (P kv); simpl; [|auto].
  rewrite forallb_filter_true by exact Hx. auto.
Qed.

Lemma idx_next_shape (start : string) (t : m0_index) :
  wf_bucket_index t = true ->
  (idx_next start 2 t = []
   \/ (exists r1, idx_next start 2 t = [r1]
                  /\ wf_record r1 = true /\ String.leb start (fst r1) = true)
   \/ (exists r1 r2, idx_next start 2 t = [r1; r2]
                     /\ wf_record r1 = true /\ wf_record r2 = true
                     /\ String.leb start (fst r1) = true
                     /\ String.ltb (fst r1) (fst r2) = true)).
Proof.
  intros Hwf. apply andb_true_iff in Hwf as [Hasc Hrec].
  unfold idx_next.
  set (P := fun kv : string * bufferlist => String.leb start (fst kv)).
  pose proof (keys_ascending_filter P t Hasc) as Hasc'.
  pose proof (forallb_filter_true wf_record P t Hrec) as Hrec'.
  assert (HP : forallb P (List.filter P t) = true).
  { apply forallb_forall. intros x Hx. apply filter_In in Hx. tauto. }
  destruct (List.filter P t) as [|r1 [|r2 l]]; simpl in *.
  - left. reflexivity.
  - right. left. exists r1.
    apply andb_true_iff in Hrec' as [H1 _]. apply andb_true_iff in HP as [H2 _].
    auto.
  - right. right. exists r1, r2.
    apply andb_true_iff in Hrec' as [H1 H]. apply andb_true_iff in H as [H1' _].
    apply andb_true_iff in HP as [H2 _].
    apply andb_true_iff in Hasc' as [H3 _]. apply andb_true_iff in H3 as [H3 _].
    auto 10.
Qed.

Lemma m0_idx_next_ok (iname start : string) (n : nat) (t : m0_index) (w : world) :
  indices w !! iname = Some t ->
  m0_errno w (call_idx iname M0_IC_NEXT start) = 0%N ->
  m0_idx_next iname start n w
  = (Ret (Z.of_nat (List.length (idx_next start n t)), idx_next start n t), w).
Proof. intros Hi He. unfold m0_idx_next. rewrite He, Hi. reflexivity. Qed.

Lemma has_prefix_nil (k : string) : has_prefix "" k = true.
Proof. destruct k; reflexivity. Qed.

Lemma next_query_copy_all (batch acc : m0_index) :
  next_query_copy "" batch acc = (true, acc ++ batch).
Proof.
  revert acc; induction batch as [|[k v] batch IH]; intros acc; simpl.
  - rewrite app_nil_r. reflexivity.
  - rewrite has_prefix_nil. simpl. rewrite IH, <- app_assoc. reflexivity.
Qed.

Lemma next_query_by_name_2 (iname key0 : string) (t : m0_index) (w : world) :
  indices w !! iname = Some t ->
  m0_errno w (call_idx iname M0_IC_NEXT key0) = 0%N ->
  (List.length (idx_next key0 2 t) <= 2)%nat ->
  exists kout,
    next_query_by_name iname key0 2 "" w
    = (Ret (Z.of_nat (List.length (idx_next key0 2 t)), kout,
            map snd (idx_next key0 2 t)
            ++ repeat [] (2 - List.length (idx_next key0 2 t))), w).
Proof.
  intros Hi He Hlen.
  unfold next_query_by_name. rewrite bind_eq.
  cbn [next_query_loop Nat.min List.length Nat.ltb Nat.leb negb].
  rewrite bind_eq, (m0_idx_next_ok _ _ _ t) by assumption.
  cbn beta iota. rewrite next_query_copy_all.
  destruct (idx_next key0 2 t) as [|[k1 v1] [|[k2 v2] [|r3 l]]]; simpl in Hlen; try lia.
  - exists [key0; ""%string]. reflexivity.
  - exists [k1; ""%string]. reflexivity.
  - exists [k1; k2]. reflexivity.
Qed.

(** *** The latest record of a name *)

Lemma fetch_latest_obj_cases (o : MotrObject) (w : world) (t : m0_index) :
  name o <> ""%string -> has_sep (name o) = false ->
  indices w !! bucket_index_iname o = Some t ->
  wf_bucket_index t = true ->
  m0_errno w (call_idx (bucket_index_iname o) M0_IC_NEXT (name o ++ SEP)) = 0%N ->
  let returned := idx_next (name o ++ SEP) 2 t in
  let matching :=
    List.filter (fun kv => record_named (name o) (snd kv)) returned in
  match matching with
  | [] => fetch_latest_obj o [] w = (Ret (- ENOENT, []), w)
  | _ :: _ =>
      exists k bl e,
        In (k, bl) matching /\ record_entry bl = Some e
        /\ wf_record (k, bl) = true
        /\ (forall k' bl' e', In (k', bl') matching ->
                              record_entry bl' = Some e' -> mtime e' <= mtime e)
        /\ fetch_latest_obj o [] w = (Ret (0, bl), w)
  end.
Proof.
  intros Hne Hsep Hi Hwf He returned matching.
  assert (Hlen : (List.length returned <= 2)%nat).
  { unfold returned, idx_next. rewrite length_firstn. lia. }
  destruct (next_query_by_name_2 _ _ t w Hi He Hlen) as [kout Hnq].
  fold returned in Hnq.
  unfold fetch_latest_obj. rewrite bind_eq, Hnq. clear Hnq.
  destruct (idx_next_shape (name o ++ SEP) t Hwf)
    as [Hrs | [(r1 & Hrs & Hw1 & Hle1) | (r1 & r2 & Hrs & Hw1 & Hw2 & Hle1 & Hlt)]];
    fold returned in Hrs; subst matching; rewrite Hrs.
  - reflexivity.
  - destruct (wf_record_inv r1 Hw1) as (e1 & a1 & x1 & Hs1 & _ & Hk1 & Hsep1).
    destruct r1 as [k1 bl1]. simpl in Hs1. subst bl1.
    msimpl.
    destruct (String.eqb (key_name e1) (name o)) eqn:Hn1; msimpl.
    + exists k1, [enc_dir_entry e1; enc_attrs a1; x1], e1.
      split; [left; reflexivity|]. split; [reflexivity|]. split; [exact Hw1|].
      split.
      * intros k' bl' e' [Hin|[]] Hre. injection Hin as <- <-.
        simpl in Hre. injection Hre as <-. lia.
      * reflexivity.
    + reflexivity.
  - destruct (wf_record_inv r1 Hw1) as (e1 & a1 & x1 & Hs1 & _ & Hk1 & Hsep1).
    destruct (wf_record_inv r2 Hw2) as (e2 & a2 & x2 & Hs2 & _ & Hk2 & Hsep2).
    assert (Hother : key_name e2 = name o -> key_name e1 = name o).
    { apply (other_name_not_before (name o) r1 r2 e1 e2); auto.
      - rewrite Hs1. reflexivity.
      - rewrite Hs2. reflexivity. }
    destruct r1 as [k1 bl1]. destruct r2 as [k2 bl2].
    simpl in Hs1, Hs2. subst bl1 bl2.
    msimpl.
    destruct (String.eqb (key_name e1) (name o)) eqn:Hn1; msimpl.
    + apply String.eqb_eq in Hn1.
      msimpl.
      destruct (String.eqb (key_name e2) (name o)) eqn:Hn2; msimpl.
      * assert (Hne1 : String.eqb (key_name e1) "" = false).
        { apply String.eqb_neq. congruence. }
        msimpl. rewrite Hne1. msimpl.
        destruct (mtime e1 >? mtime e2) eqn:Hm; msimpl.
        -- exists k1, [enc_dir_entry e1; enc_attrs a1; x1], e1.
           split; [left; reflexivity|]. split; [reflexivity|].
           split; [exact Hw1|]. split; [|reflexivity].
           intros k' bl' e' [Hin|[Hin|[]]] Hre; injection Hin as <- <-;
             simpl in Hre; injection Hre as <-; lia.
        -- exists k2, [enc_dir_entry e2; enc_attrs a2; x2], e2.
           split; [right; left; reflexivity|]. split; [reflexivity|].
           split; [exact Hw2|]. split; [|reflexivity].
           intros k' bl' e' [Hin|[Hin|[]]] Hre; injection Hin as <- <-;
             simpl in Hre; injection Hre as <-; lia.
      * exists k1, [enc_dir_entry e1; enc_attrs a1; x1], e1.
        split; [left; reflexivity|]. split; [reflexivity|].
        split; [exact Hw1|]. split; [|reflexivity].
        intros k' bl' e' [Hin|[]] Hre. injection Hin as <- <-.
        simpl in Hre. injection Hre as <-. lia.
    + destruct (String.eqb (key_name e2) (name o)) eqn:Hn2; msimpl.
      * apply String.eqb_eq in Hn2. apply Hother in Hn2.
        apply String.eqb_neq in Hn1. contradiction.
      * reflexivity.
Qed.

(** In a well-formed index (keys ascending, every record stored under the
    key of its entry, no separator byte inside a name) no record of another
    name comes before a record of the name asked for, so the record used is
    one of maximal mtime among all the records of the name that NEXT
    returned. *)
Lemma get_without_instance_well_formed (o : MotrObject) (w : world)
    (t : m0_index) :
  instance o = ""%string -> name o <> ""%string -> has_sep (name o) = false ->
  indices w !! bucket_index_iname o = Some t ->
  wf_bucket_index t = true ->
  m0_errno w (call_idx (bucket_index_iname o) M0_IC_NEXT (name o ++ SEP)) = 0%N ->
  let returned := idx_next (name o ++ SEP) 2 t in
  let matching :=
    List.filter (fun kv => record_named (name o) (snd kv)) returned in
  match matching with
  | [] => get_bucket_dir_ent o rgw_bucket_dir_entry_default w
          = (Ret (- ENOENT, rgw_bucket_dir_entry_default, o), w)
  | _ :: _ =>
      exists k bl e o',
        In (k, bl) matching /\ record_entry bl = Some e
        /\ (forall k' bl' e', In (k', bl') matching ->
                              record_entry bl' = Some e' -> mtime e' <= mtime e)
        /\ fst (get_bucket_dir_ent o rgw_bucket_dir_entry_default w)
           = Ret (0, e, o')
  end.
Proof.
  intros Hinst Hne Hsep Hi Hwf He returned matching.
  pose proof (fetch_latest_obj_cases o w t Hne Hsep Hi Hwf He) as Hc.
  cbv zeta in Hc. fold returned in Hc. fold matching in Hc.
  unfold get_bucket_dir_ent, have_instance, have_null_instance.
  rewrite Hinst. cbn [String.eqb negb].
  rewrite bind_eq.
  destruct matching as [|m0 ms].
  - rewrite Hc. reflexivity.
  - destruct Hc as (k & bl & e & Hin & Hre & Hw & Hmax & Hf).
    rewrite Hf.
    destruct (wf_record_inv (k, bl) Hw) as (e' & a & x & Hs & [m Hm] & _ & _).
    simpl in Hs. subst bl. simpl in Hre. injection Hre as ->.
    exists k, [enc_dir_entry e; enc_attrs a; x], e, (set_meta (set_attrs o a) m).
    split; [exact Hin|]. split; [reflexivity|]. split; [exact Hmax|].
    pose proof (f_equal (fun f => fst (f w)) Hm) as Hm'. simpl in Hm'.
    unfold MotrMetaCache_put, ObjectCache_put.
    destruct x; simpl in Hm'; try discriminate Hm'; injection Hm' as <-;
      msimpl; destruct (use_metadata_cache (conf w)); reflexivity.
Qed.

Lemma record_encoded_inv (bl : bufferlist) :
  record_encoded bl = true ->
  exists e a x rest,
    bl = enc_dir_entry e :: enc_attrs a :: x :: rest
    /\ ((exists m, x = enc_meta m) \/ (exists e', x = enc_dir_entry_meta e')).
Proof.
  destruct bl as [|[e| | | | |] [|[|a| | | |] [|x rest]]]; try discriminate.
  destruct x as [|?|m|e'| |]; try discriminate; intros _;
    exists e, a; eexists; exists rest; split; try reflexivity; eauto.
Qed.

(** [fetch_latest_obj] over whatever NEXT returns, as long as it decodes. *)
Lemma fetch_latest_obj_scan (o : MotrObject) (w : world) (t : m0_index) :
  name o <> ""%string ->
  indices w !! bucket_index_iname o = Some t ->
  m0_errno w (call_idx (bucket_index_iname o) M0_IC_NEXT (name o ++ SEP)) = 0%N ->
  let returned := idx_next (name o ++ SEP) 2 t in
  Forall (fun kv => record_encoded (snd kv) = true) returned ->
  match records_scanned (name o) returned with
  | [] => fetch_latest_obj o [] w = (Ret (- ENOENT, []), w)
  | scanned =>
      exists k bl e,
        In (k, bl) scanned /\ record_entry bl = Some e
        /\ record_encoded bl = true
        /\ (forall k' bl' e', In (k', bl') scanned ->
                              record_entry bl' = Some e' -> mtime e' <= mtime e)
        /\ fetch_latest_obj o [] w = (Ret (0, bl), w)
  end.
Proof.
  intros Hne Hi He returned Henc.
  assert (Hlen : (List.length returned <= 2)%nat).
  { unfold returned, idx_next. rewrite length_firstn. lia. }
  destruct (next_query_by_name_2 _ _ t w Hi He Hlen) as [kout Hnq].
  fold returned in Hnq.
  unfold fetch_latest_obj. rewrite bind_eq, Hnq. clear Hnq.
  destruct returned as [|[k1 bl1] [|[k2 bl2] [|r3 l]]];
    [| | |simpl in Hlen; lia].
  - reflexivity.
  - pose proof (List.Forall_inv Henc) as H1. cbn [snd] in H1.
    destruct (record_encoded_inv bl1 H1) as (e1 & a1 & x1 & rest1 & -> & _).
    msimpl.
    destruct (String.eqb (key_name e1) (name o)) eqn:Hn1; msimpl.
    + exists k1, (enc_dir_entry e1 :: enc_attrs a1 :: x1 :: rest1), e1.
      split; [left; reflexivity|]. split; [reflexivity|]. split; [exact H1|].
      split; [|reflexivity].
      intros k' bl' e' [Hin|[]] Hre. injection Hin as <- <-.
      simpl in Hre. injection Hre as <-. lia.
    + reflexivity.
  - pose proof (List.Forall_inv Henc) as H1. cbn [snd] in H1.
    pose proof (List.Forall_inv (List.Forall_inv_tail Henc)) as H2.
    cbn [snd] in H2.
    destruct (record_encoded_inv bl1 H1) as (e1 & a1 & x1 & rest1 & -> & _).
    destruct (record_encoded_inv bl2 H2) as (e2 & a2 & x2 & rest2 & -> & _).
    msimpl.
    destruct (String.eqb (key_name e1) (name o)) eqn:Hn1; msimpl;
      [|reflexivity].
    apply String.eqb_eq in Hn1.
    destruct (String.eqb (key_name e2) (name o)) eqn:Hn2; msimpl.
    + assert (Hne1 : String.eqb (key_name e1) "" = false).
      { apply String.eqb_neq. congruence. }
      rewrite Hne1. msimpl.
      destruct (mtime e1 >? mtime e2) eqn:Hm; msimpl.
      * exists k1, (enc_dir_entry e1 :: enc_attrs a1 :: x1 :: rest1), e1.
        split; [left; reflexivity|]. split; [reflexivity|].
        split; [exact H1|]. split; [|reflexivity].
        intros k' bl' e' [Hin|[Hin|[]]] Hre; injection Hin as <- <-;
          simpl in Hre; injection Hre as <-; lia.
      * exists k2, (enc_dir_entry e2 :: enc_attrs a2 :: x2 :: rest2), e2.
        split; [right; left; reflexivity|]. split; [reflexivity|].
        split; [exact H2|]. split; [|reflexivity].
        intros k' bl' e' [Hin|[Hin|[]]] Hre; injection Hin as <- <-;
          simpl in Hre; injection Hre as <-; lia.
    + exists k1, (enc_dir_entry e1 :: enc_attrs a1 :: x1 :: rest1), e1.
      split; [left; reflexivity|]. split; [reflexivity|].
      split; [exact H1|]. split; [|reflexivity].
      intros k' bl' e' [Hin|[]] Hre. injection Hin as <- <-.
      simpl in Hre. injection Hre as <-. lia.
Qed.

(** C2, amended: a GET/HEAD of a non-empty name without a version instance
    is resolved from the (at most two) records that NEXT returns from the
    key [<name> SEP], each an encoded record.  The records are gone through
    in order and the scan stops at the first record of another name: that
    record and any record after it do not count, even one of the name asked
    for.  The record used is one of maximal mtime among the records gone
    through (so a null version is superseded by a later versioned record);
    and when there is none, that is when NEXT returns nothing or a record
    of another name first, the result is ENOENT and nothing changes. *)
Theorem get_without_instance_latest (o : MotrObject) (w : world) (t : m0_index) :
  instance o = ""%string -> name o <> ""%string ->
  indices w !! bucket_index_iname o = Some t ->
  m0_errno w (call_idx (bucket_index_iname o) M0_IC_NEXT (name o ++ SEP)) = 0%N ->
  let returned := idx_next (name o ++ SEP) 2 t in
  Forall (fun kv => record_encoded (snd kv) = true) returned ->
  match records_scanned (name o) returned with
  | [] => get_bucket_dir_ent o rgw_bucket_dir_entry_default w
          = (Ret (- ENOENT, rgw_bucket_dir_entry_default, o), w)
  | scanned =>
      exists k bl e o',
        In (k, bl) scanned /\ record_entry bl = Some e
        /\ (forall k' bl' e', In (k', bl') scanned ->
                              record_entry bl' = Some e' -> mtime e' <= mtime e)
        /\ fst (get_bucket_dir_ent o rgw_bucket_dir_entry_default w)
           = Ret (0, e, o')
  end.
Proof.
  intros Hinst Hne Hi He returned Henc.
  pose proof (fetch_latest_obj_scan o w t Hne Hi He Henc) as Hc.
  fold returned in Hc.
  unfold get_bucket_dir_ent, have_instance, have_null_instance.
  rewrite Hinst. cbn [String.eqb negb].
  rewrite bind_eq.
  destruct (records_scanned (name o) returned) as [|m0 ms].
  - rewrite Hc. reflexivity.
  - destruct Hc as (k & bl & e & Hin & Hre & Hb & Hmax & Hf).
    rewrite Hf.
    destruct (record_encoded_inv bl Hb) as (e' & a & x & rest & -> & Hx).
    simpl in Hre. injection Hre as ->.
    unfold MotrMetaCache_put, ObjectCache_put.
    destruct Hx as [[m ->]|[e2 ->]].
    + exists k, (enc_dir_entry e :: enc_attrs a :: enc_meta m :: rest), e,
        (set_meta (set_attrs o a) m).
      split; [exact Hin|]. split; [reflexivity|]. split; [exact Hmax|].
      msimpl; destruct (use_metadata_cache (conf w)); reflexivity.
    + exists k, (enc_dir_entry e :: enc_attrs a :: enc_dir_entry_meta e2 :: rest),
        e, (set_meta (set_attrs o a) (entry_meta_as_motr_meta e2)).
      split; [exact Hin|]. split; [reflexivity|]. split; [exact Hmax|].
      msimpl; destruct (use_metadata_cache (conf w)); reflexivity.
Qed.

Lemma get_bucket_dir_ent_key (o o' : MotrObject)
    (ent0 ent : rgw_bucket_dir_entry) (rc : Z) (w w' : world) :
  get_bucket_dir_ent o ent0 w = (Ret (rc, ent, o'), w') ->
  instance o' = instance o /\ name o' = name o /\ bucket o' = bucket o
  /\ rc <= 0.
Proof.
  intros H. unfold get_bucket_dir_ent in H.
  mcases H; injection H as <- <- <- <-; repeat split; try reflexivity; try lia.
Qed.

(** C3: when the record that a GET/HEAD resolves is a delete-marker, the
    request fails: with method-not-allowed when the instance of the request
    equals the non-empty instance of the marker, and with ENOENT otherwise,
    in particular when the request has no instance. *)
Theorem prepare_delete_marker (source source' : MotrObject)
    (params : ReadOp_params) (lastmod : Z) (ent : rgw_bucket_dir_entry)
    (rc : Z) (w w' : world) :
  get_bucket_dir_ent source rgw_bucket_dir_entry_default w
  = (Ret (rc, ent, source'), w') ->
  0 <= rc -> is_delete_marker ent = true ->
  (instance source = key_instance ent /\ key_instance ent <> ""%string ->
   prepare source params lastmod w
   = (Ret (- ERR_METHOD_NOT_ALLOWED, source', lastmod), w'))
  /\ (~ (instance source = key_instance ent /\ key_instance ent <> ""%string) ->
      prepare source params lastmod w = (Ret (- ENOENT, source', lastmod), w'))
  /\ (instance source = ""%string ->
      prepare source params lastmod w = (Ret (- ENOENT, source', lastmod), w'))
  /\ - ERR_METHOD_NOT_ALLOWED <> - ENOENT.
Proof.
  intros Hget Hrc Hdm.
  destruct (get_bucket_dir_ent_key _ _ _ _ _ _ _ Hget) as (Hinst & _ & _ & Hle).
  assert (Hlt : (rc <? 0) = false) by (apply Z.ltb_ge; lia).
  assert (Hprep : prepare source params lastmod w
          = (Ret (if String.eqb (instance source) (key_instance ent)
                     && negb (String.eqb (key_instance ent) "")
                  then - ERR_METHOD_NOT_ALLOWED else - ENOENT,
                  source', lastmod), w')).
  { unfold prepare. rewrite (bind_eq _ _ w), Hget. cbn beta iota.
    rewrite Hlt, Hdm, Hinst.
    destruct (String.eqb (instance source) (key_instance ent)
              && negb (String.eqb (key_instance ent) "")); reflexivity. }
  split; [|split; [|split]].
  - intros [He Hn]. rewrite Hprep.
    apply String.eqb_eq in He. apply String.eqb_neq in Hn.
    rewrite He, Hn. reflexivity.
  - intros Hnot. rewrite Hprep.
    destruct (String.eqb (instance source) (key_instance ent)) eqn:He;
      [|reflexivity].
    destruct (String.eqb (key_instance ent) "") eqn:Hn; [reflexivity|].
    apply String.eqb_eq in He. apply String.eqb_neq in Hn. tauto.
  - intros He. rewrite Hprep, He.
    destruct (String.eqb "" (key_instance ent)) eqn:Hk; [|reflexivity].
    apply String.eqb_eq in Hk. rewrite <- Hk. reflexivity.
  - pose proof ERR_METHOD_NOT_ALLOWED_ne. lia.
Qed.

(** *** Failures of the statistics update *)

Lemma m0_idx_op_result (iname : string) (op : m0_idx_opcode) (key : string)
    (val : bufferlist) (u : bool) (w w' : world) (r : outcome (Z * bufferlist)) :
  m0_idx_op iname op key val u w = (r, w') ->
  exists rc v, r = Ret (rc, v) /\ rc <= 0 /\ (rc <> 0 -> w' = w).
Proof.
  unfold m0_idx_op. intros H.
  assert (HN : forall p, - Z.of_N (N.pos p) <= 0) by (intros; lia).
  assert (HE : - ENOENT <= 0) by (unfold ENOENT; lia).
  assert (HX : - EEXIST <= 0) by (unfold EEXIST; lia).
  assert (HI : - EINVAL <= 0) by (unfold EINVAL; lia).
  destruct (m0_errno w _); [|injection H as <- <-; eauto 6].
  destruct (indices w !! iname); [|injection H as <- <-; eauto 6].
  destruct op; destruct (idx_lookup key m); try destruct u;
    injection H as <- <-; do 2 eexists; (split; [reflexivity|]);
    (split; [lia|]); intros; try reflexivity; try congruence.
Qed.

Lemma do_idx_op_by_name_result (iname : string) (op : m0_idx_opcode)
    (key : string) (bl : bufferlist) (u : bool) (w w' : world)
    (r : outcome (Z * bufferlist)) :
  do_idx_op_by_name iname op key bl u w = (r, w') ->
  exists rc v, r = Ret (rc, v) /\ rc <= 0 /\ (rc <> 0 -> w' = w).
Proof.
  unfold do_idx_op_by_name. rewrite bind_eq. intros H.
  destruct (m0_idx_op iname op key _ u w) as [r0 w0] eqn:E.
  destruct (m0_idx_op_result _ _ _ _ _ _ _ _ E) as (rc & v & -> & Hle & Hw).
  cbn beta iota in H.
  destruct ((rc =? 0) && _); injection H as <- <-; eauto 6.
Qed.

Lemma m0_idx_op_get_same (iname key : string) (val : bufferlist)
    (u : bool) (w w' : world) (r : outcome (Z * bufferlist)) :
  m0_idx_op iname M0_IC_GET key val u w = (r, w') -> w' = w.
Proof.
  unfold m0_idx_op. intros H. repeat case_match; congruence.
Qed.

Lemma do_idx_op_by_name_get_same (iname key : string) (bl : bufferlist)
    (u : bool) (w w' : world) (r : outcome (Z * bufferlist)) :
  do_idx_op_by_name iname M0_IC_GET key bl u w = (r, w') -> w' = w.
Proof.
  unfold do_idx_op_by_name. rewrite bind_eq. intros H.
  destruct (m0_idx_op iname M0_IC_GET key [] u w) as [r0 w0] eqn:E.
  apply m0_idx_op_get_same in E. subst w0.
  mcases H; congruence.
Qed.

Lemma update_bucket_stats_failure (owner_ bucket_name_ : string)
    (sz actual_sz num_objects : Z) (add_stats : bool) (rc : Z) (w w' : world) :
  update_bucket_stats owner_ bucket_name_ sz actual_sz num_objects add_stats w
  = (Ret rc, w') ->
  rc <= 0 /\ (rc <> 0 -> w' = w).
Proof.
  unfold update_bucket_stats. rewrite bind_eq. intros H.
  destruct (do_idx_op_by_name _ M0_IC_GET _ _ _ w) as [r0 w0] eqn:E.
  destruct (do_idx_op_by_name_result _ _ _ _ _ _ _ _ E) as (rc0 & v & -> & Hle & Hw).
  cbn beta iota in H.
  destruct (rc0 =? 0) eqn:H0; cbn [negb] in H.
  - apply Z.eqb_eq in H0. subst rc0.
    apply do_idx_op_by_name_get_same in E. subst w0.
    rewrite bind_eq in H.
    destruct v as [|[] tl]; simpl in H; try discriminate H.
    rewrite bind_eq in H.
    match type of H with
    | context [do_idx_op_by_name ?a ?b ?c ?d ?e w] =>
        destruct (do_idx_op_by_name a b c d e w) as [r1 w1] eqn:E1
    end.
    destruct (do_idx_op_by_name_result _ _ _ _ _ _ _ _ E1) as (rc1 & v1 & -> & Hle1 & Hw1).
    cbn beta iota in H. injection H as <- <-. auto.
  - apply Z.eqb_neq in H0. injection H as <- <-. auto.
Qed.

(** C5, as the code has it: once the bucket-index write of a PUT or of a
    DELETE has succeeded, the result of the statistics update is the result
    of the whole mutation.  A failed update therefore makes the PUT or
    DELETE return its negative error code; nothing is undone, the store is
    left as it was after the index write. *)
Theorem stats_failure_is_returned (fuel : nat) :
  (forall (wr wr1 : MotrAtomicWriter) (fresh : MotrObjectMeta) (etag_ : string)
          (set_mtime : Z) (attrs_ : Attrs) (user_data_ : option string)
          (now sr rc : Z) (w w1 w2 : world),
     complete_write_index fuel wr fresh etag_ set_mtime attrs_ user_data_ now w
     = (Ret (0, sr, wr1), w1) ->
     update_bucket_stats (aw_owner wr1) (tenant_bkt_name (aw_obj wr1))
       (total_data_size wr1) sr 1 true w1 = (Ret rc, w2) ->
     rc <> 0 ->
     MotrAtomicWriter_complete fuel wr fresh etag_ set_mtime attrs_ user_data_ now w
     = (Ret (rc, wr1), w1) /\ rc < 0)
  /\ (forall (o o1 : MotrObject) (ent : rgw_bucket_dir_entry)
             (delete_key iname bname : string) (sr rc0 rc : Z) (w w1 w2 : world),
        remove_mobj_and_index_delete fuel o ent delete_key iname bname w
        = (Ret (rc0, sr, o1), w1) ->
        0 <= rc0 -> is_delete_marker ent = false ->
        update_bucket_stats (owner ent) bname (size ent) sr 1 false w1
        = (Ret rc, w2) ->
        rc <> 0 ->
        remove_mobj_and_index_entry fuel o ent delete_key iname bname w
        = (Ret (rc, o1), w1) /\ rc < 0).
Proof.
  split.
  - intros wr wr1 fresh etag_ set_mtime attrs_ user_data_ now sr rc w w1 w2
      Hidx Hst Hrc.
    destruct (update_bucket_stats_failure _ _ _ _ _ _ _ _ _ Hst) as [Hle Hw].
    rewrite (Hw Hrc) in Hst.
    split; [|lia].
    unfold MotrAtomicWriter_complete. rewrite bind_eq, Hidx.
    cbn beta iota. change (negb (0 =? 0)) with false. cbn iota.
    rewrite bind_eq, Hst. reflexivity.
  - intros o o1 ent delete_key iname bname sr rc0 rc w w1 w2
      Hdel Hrc0 Hdm Hst Hrc.
    destruct (update_bucket_stats_failure _ _ _ _ _ _ _ _ _ Hst) as [Hle Hw].
    rewrite (Hw Hrc) in Hst.
    split; [|lia].
    unfold remove_mobj_and_index_entry. rewrite bind_eq, Hdel.
    cbn beta iota.
    assert (Hlt : (rc0 <? 0) = false) by (apply Z.ltb_ge; lia).
    rewrite Hlt, Hdm. rewrite bind_eq, Hst. reflexivity.
Qed.

(** *** Frames: what an operation leaves as it is *)

Global Instance only_indices_frame (l : list string) : Frame (only_indices l).
Proof.
  split.
  - intros w i _. reflexivity.
  - intros w1 w2 w3 H1 H2 i Hi. rewrite (H2 i Hi). apply H1, Hi.
  - intros w c i _. reflexivity.
  - intros w o i _. reflexivity.
  - intros w q i _. reflexivity.
Qed.

Global Instance objects_shrink_frame : Frame objects_shrink.
Proof.
  split.
  - intros w. repeat split. reflexivity.
  - intros w1 w2 w3 (H1 & H2 & H3) (H4 & H5 & H6).
    repeat split; [congruence|congruence|].
    intros x Hx. apply H3, H6, Hx.
  - intros w c. repeat split. reflexivity.
  - intros w o. repeat split. simpl.
    intros x Hx. apply elem_of_difference in Hx. tauto.
  - intros w q. repeat split. reflexivity.
Qed.

Lemma only_indices_may_write (l : list string) (iname : string) :
  In iname l -> may_write (only_indices l) iname.
Proof.
  intros Hin w t i Hi. simpl. apply lookup_insert_ne. intros ->. contradiction.
Qed.

Section Frames.
Context (R : world -> world -> Prop) `{!Frame R}.

Lemma preserves_ret {A} (a : A) : preserves R (mret a : M A).
Proof. intros w r w' H. injection H as _ <-. apply frame_refl. Qed.

Lemma preserves_ret' {A} (a : A) : preserves R (ret a : M A).
Proof. exact (preserves_ret a). Qed.

Lemma preserves_throw {A} (e : exn) : preserves R (throw e : M A).
Proof. intros w r w' H. injection H as _ <-. apply frame_refl. Qed.

Lemma preserves_get_world : preserves R get_world.
Proof. intros w r w' H. injection H as _ <-. apply frame_refl. Qed.

Lemma preserves_bind {A B} (m : M A) (k : A -> M B) :
  preserves R m -> (forall a, preserves R (k a)) -> preserves R (m ≫= k).
Proof.
  intros Hm Hk w r w' H. rewrite bind_eq in H.
  destruct (m w) as [[a|e] w1] eqn:E.
  - eapply frame_trans; [eapply Hm, E | eapply Hk, H].
  - injection H as _ <-. eapply Hm, E.
Qed.

(** The continuation needs the frame only for the values that [m] returns. *)
Lemma preserves_bind_ret {A B} (m : M A) (k : A -> M B) :
  preserves R m ->
  (forall a w w', m w = (Ret a, w') -> preserves R (k a)) ->
  preserves R (m ≫= k).
Proof.
  intros Hm Hk w r w' H. rewrite bind_eq in H.
  destruct (m w) as [[a|e] w1] eqn:E.
  - eapply frame_trans; [eapply Hm, E | eapply (Hk _ _ _ E), H].
  - injection H as _ <-. eapply Hm, E.
Qed.

Create HintDb frames discriminated.

(** Decomposition of a computation along its binds and branches. *)
Ltac frame_step :=
  first
    [ apply preserves_ret | apply preserves_ret' | apply preserves_throw
    | apply preserves_get_world
    | solve [auto 2 with frames]
    | apply preserves_bind; [|intros]
    | match goal with
      | |- preserves _ (if ?b then _ else _) => destruct b
      | |- preserves _ (match ?x with _ => _ end) => destruct x
      end ].

Ltac frame := repeat frame_step.

(** The same, with [tac] tried first on every computation met. *)
Ltac frame_by tac := repeat first [solve [tac] | frame_step].

(** A step that ends in the store it started from, in one with another
    cache, with an object deleted or with a longer collector queue. *)
Ltac frame_prim :=
  let H := fresh in
  intros ? ? ? H;
  repeat match type of H with
         | context [match ?x with _ => _ end] => destruct x
         | context [if ?b then _ else _] => destruct b
         end;
  injection H as _ <-;
  first [apply frame_refl | apply frame_cache | apply frame_delete
        | apply frame_gc].

Lemma preserves_decode_dir_entry (bl : bufferlist) :
  preserves R (decode_dir_entry bl).
Proof. unfold decode_dir_entry. frame. Qed.

Lemma preserves_decode_attrs (bl : bufferlist) : preserves R (decode_attrs bl).
Proof. unfold decode_attrs. frame. Qed.

Lemma preserves_decode_meta f (bl : bufferlist) : preserves R (decode_meta f bl).
Proof. unfold decode_meta. frame. Qed.

Lemma preserves_decode_dir_header (bl : bufferlist) :
  preserves R (decode_dir_header bl).
Proof. unfold decode_dir_header. frame. Qed.

Lemma preserves_decode_part_info (bl : bufferlist) :
  preserves R (decode_part_info bl).
Proof. unfold decode_part_info. frame. Qed.

Lemma preserves_decode_upload_info (u : user_data_t) :
  preserves R (decode_upload_info u).
Proof. unfold decode_upload_info. frame. Qed.

Lemma preserves_ObjectCache_get (n : string) : preserves R (ObjectCache_get n).
Proof. unfold ObjectCache_get. frame_prim. Qed.

Lemma preserves_ObjectCache_put (n : string) (d : bufferlist) :
  preserves R (ObjectCache_put n d).
Proof. unfold ObjectCache_put. frame_prim. Qed.

Lemma preserves_ObjectCache_invalidate_remove (n : string) :
  preserves R (ObjectCache_invalidate_remove n).
Proof. unfold ObjectCache_invalidate_remove. frame_prim. Qed.

Lemma preserves_m0_entity_open (o : m0_uint128) : preserves R (m0_entity_open o).
Proof. unfold m0_entity_open. frame_prim. Qed.

Lemma preserves_m0_entity_delete (o : m0_uint128) :
  preserves R (m0_entity_delete o).
Proof. unfold m0_entity_delete. frame_prim. Qed.

Lemma preserves_m0_composite_delete_layers (o : m0_uint128) :
  preserves R (m0_composite_delete_layers o).
Proof. unfold m0_composite_delete_layers. frame_prim. Qed.

Lemma preserves_gc_enqueue (g : motr_gc_obj_info) : preserves R (gc_enqueue g).
Proof. unfold gc_enqueue. frame_prim. Qed.

Lemma preserves_idx_next (iname start : string) (n : nat) :
  preserves R (m0_idx_next iname start n).
Proof. unfold m0_idx_next. frame_prim. Qed.

(** A GET always, a PUT or a DEL where the frame allows the write. *)
Lemma preserves_idx_op (iname : string) (op : m0_idx_opcode)
    (key : string) (val : bufferlist) (u : bool) :
  op = M0_IC_GET \/ may_write R iname ->
  preserves R (m0_idx_op iname op key val u).
Proof.
  intros Hop w r w' H. unfold m0_idx_op in H.
  destruct (m0_errno w (call_idx iname op key));
    [|injection H as _ <-; apply frame_refl].
  destruct (indices w !! iname) as [t|];
    [|injection H as _ <-; apply frame_refl].
  destruct op.
  - destruct (idx_lookup key t); injection H as _ <-; apply frame_refl.
  - destruct Hop as [Hop|Hw]; [discriminate|].
    destruct (idx_lookup key t); [destruct u|];
      injection H as _ <-; first [apply frame_refl | apply Hw].
  - destruct Hop as [Hop|Hw]; [discriminate|].
    destruct (idx_lookup key t); injection H as _ <-;
      first [apply frame_refl | apply Hw].
  - injection H as _ <-. apply frame_refl.
Qed.

Lemma preserves_do_idx_op_by_name (iname : string) (op : m0_idx_opcode)
    (key : string) (bl : bufferlist) (u : bool) :
  op = M0_IC_GET \/ may_write R iname ->
  preserves R (do_idx_op_by_name iname op key bl u).
Proof.
  intros Hop. unfold do_idx_op_by_name.
  apply preserves_bind; [apply preserves_idx_op, Hop|].
  intros [rc v]. destruct ((rc =? 0) && _); apply preserves_ret.
Qed.

Lemma preserves_get (iname key : string) (bl : bufferlist) (u : bool) :
  preserves R (do_idx_op_by_name iname M0_IC_GET key bl u).
Proof. apply preserves_do_idx_op_by_name. left. reflexivity. Qed.

Lemma preserves_write (iname : string) (op : m0_idx_opcode)
    (key : string) (bl : bufferlist) (u : bool) :
  may_write R iname -> preserves R (do_idx_op_by_name iname op key bl u).
Proof. intros H. apply preserves_do_idx_op_by_name. right. exact H. Qed.

Hint Resolve preserves_decode_dir_entry preserves_decode_attrs
  preserves_decode_meta preserves_decode_dir_header preserves_decode_part_info
  preserves_decode_upload_info preserves_ObjectCache_get
  preserves_ObjectCache_put preserves_ObjectCache_invalidate_remove
  preserves_m0_entity_open preserves_m0_entity_delete
  preserves_m0_composite_delete_layers preserves_gc_enqueue
  preserves_idx_next preserves_get : frames.

Lemma preserves_MotrMetaCache_put (n : string) (d : bufferlist) :
  preserves R (MotrMetaCache_put n d).
Proof. unfold MotrMetaCache_put. frame. Qed.

Lemma preserves_MotrMetaCache_get (n : string) (d : bufferlist) :
  preserves R (MotrMetaCache_get n d).
Proof. unfold MotrMetaCache_get. frame. Qed.

Lemma preserves_MotrMetaCache_remove (n : string) :
  preserves R (MotrMetaCache_remove n).
Proof. unfold MotrMetaCache_remove. frame. Qed.

Hint Resolve preserves_MotrMetaCache_put preserves_MotrMetaCache_get
  preserves_MotrMetaCache_remove : frames.

Lemma preserves_next_query_loop (fuel : nat) (iname pre : string)
    (total nr_kvp nr : nat) (key0 : string) (acc : m0_index) :
  preserves R (next_query_loop fuel iname pre total nr_kvp nr key0 acc).
Proof.
  revert nr key0 acc. induction fuel as [|fuel IH]; intros nr key0 acc; simpl.
  - frame.
  - frame; try apply IH.
Qed.

Hint Resolve preserves_next_query_loop : frames.

Lemma preserves_next_query_by_name (iname key0 : string) (max : nat)
    (pre : string) :
  preserves R (next_query_by_name iname key0 max pre).
Proof. unfold next_query_by_name. frame. Qed.

Hint Resolve preserves_next_query_by_name : frames.

Lemma preserves_fetch_latest_loop (n : string) (vals : list bufferlist)
    (e : rgw_bucket_dir_entry) (bl : bufferlist) :
  preserves R (fetch_latest_loop n vals e bl).
Proof.
  revert e bl. induction vals as [|v vals IH]; intros e bl; simpl.
  - frame.
  - frame; try apply IH.
Qed.

Hint Resolve preserves_fetch_latest_loop : frames.

Lemma preserves_fetch_latest_obj (o : MotrObject) (bl : bufferlist) :
  preserves R (fetch_latest_obj o bl).
Proof. unfold fetch_latest_obj. frame. Qed.

Hint Resolve preserves_fetch_latest_obj : frames.

Lemma preserves_get_bucket_dir_ent (o : MotrObject) (e : rgw_bucket_dir_entry) :
  preserves R (get_bucket_dir_ent o e).
Proof. unfold get_bucket_dir_ent. frame. Qed.

Hint Resolve preserves_get_bucket_dir_ent : frames.

Lemma preserves_open_mobj (o : MotrObject) : preserves R (open_mobj o).
Proof. unfold open_mobj. frame. Qed.

Hint Resolve preserves_open_mobj : frames.

Lemma preserves_delete_mobj (o : MotrObject) : preserves R (delete_mobj o).
Proof. unfold delete_mobj. frame. Qed.

Lemma preserves_delete_hsm_enabled_mobj (o : MotrObject) :
  preserves R (delete_hsm_enabled_mobj o).
Proof. unfold delete_hsm_enabled_mobj. frame. Qed.

Lemma preserves_get_upload_id (b k u : string) :
  preserves R (get_upload_id b k u).
Proof. unfold get_upload_id. frame. Qed.

Hint Resolve preserves_delete_mobj preserves_delete_hsm_enabled_mobj
  preserves_get_upload_id : frames.

Lemma preserves_list_parts_loop (vals : list bufferlist)
    (marker last_num part_cnt : Z) (ps : list (Z * MotrMultipartPart)) :
  preserves R (list_parts_loop vals marker last_num part_cnt ps).
Proof.
  revert last_num part_cnt ps.
  induction vals as [|v vals IH]; intros last_num part_cnt ps; simpl.
  - frame.
  - frame; try apply IH.
Qed.

Hint Resolve preserves_list_parts_loop : frames.

Lemma preserves_list_parts (u : MotrMultipartUpload) (n marker nm : Z)
    (tr : bool) :
  preserves R (list_parts u n marker nm tr).
Proof. unfold list_parts. frame. Qed.

Hint Resolve preserves_list_parts : frames.

Lemma preserves_delete_parts_for (u : MotrMultipartUpload)
    (ps : list (Z * MotrMultipartPart)) (ts tsr : Z) :
  preserves R (delete_parts_for u ps ts tsr).
Proof.
  revert ts tsr. induction ps as [|[k p] ps IH]; intros ts tsr; simpl.
  - frame.
  - frame; try apply IH.
Qed.

Hint Resolve preserves_delete_parts_for : frames.

Lemma preserves_delete_parts_loop (fuel : nat) (u : MotrMultipartUpload)
    (marker : Z) (tr : bool) (ts tsr : Z) :
  preserves R (delete_parts_loop fuel u marker tr ts tsr).
Proof.
  revert u marker tr ts tsr.
  induction fuel as [|fuel IH]; intros u marker tr ts tsr; simpl.
  - frame.
  - frame; try apply IH.
Qed.

Hint Resolve preserves_delete_parts_loop : frames.

Lemma preserves_create_delete_marker (source : MotrObject)
    (result : DeleteOp_result) (params : DeleteOp_params) (now : Z) :
  may_write R (bucket_index_iname source) ->
  preserves R (create_delete_marker source result params now).
Proof.
  intros Hw. unfold create_delete_marker.
  apply preserves_bind; [apply preserves_write, Hw|]. intros. frame.
Qed.

Lemma preserves_update_version_entries (o : MotrObject) (b : bool) :
  may_write R (bucket_index_iname o) ->
  preserves R (update_version_entries o b).
Proof.
  intros Hw. unfold update_version_entries.
  frame_by ltac:(apply preserves_write, Hw).
Qed.

Lemma preserves_update_bucket_stats (owner_ b : string) (sz asz n : Z)
    (add : bool) :
  may_write R ("motr.rgw.user.stats." ++ owner_)%string ->
  preserves R (update_bucket_stats owner_ b sz asz n add).
Proof.
  intros Hw. unfold update_bucket_stats.
  frame_by ltac:(apply preserves_write, Hw).
Qed.

(** The listing keeps the identity of the upload. *)
Lemma list_parts_upload (u u' : MotrMultipartUpload) (n marker nm rc m' : Z)
    (tr tr' : bool) (w w' : world) :
  list_parts u n marker nm tr w = (Ret (rc, m', tr', u'), w') ->
  mp_upload_id u' = mp_upload_id u /\ mp_bucket u' = mp_bucket u
  /\ mp_key u' = mp_key u /\ mp_hsm_enabled u' = mp_hsm_enabled u
  /\ version_id u' = version_id u.
Proof.
  unfold list_parts. intros H.
  destruct ((n <=? 0) || (marker <? 0)).
  { injection H as _ _ _ <- _. auto. }
  rewrite bind_eq in H.
  match type of H with
  | context [match ?m w with _ => _ end] => destruct (m w) as [[[rc0 up]|e] w0]
  end; [|discriminate H].
  cbn beta iota in H.
  destruct (rc0 <? 0); [injection H as _ _ _ <- _; auto|].
  rewrite bind_eq in H.
  destruct (next_query_by_name _ _ _ _ w0) as [[[[rc1 ks] vs]|e] w1];
    [|discriminate H].
  cbn beta iota in H.
  destruct (rc1 <? 0); [injection H as _ _ _ <- _; auto|].
  rewrite bind_eq in H.
  destruct (list_parts_loop vs marker 0 0 [] w1) as [[[[ln pc] ps]|e] w2];
    [|discriminate H].
  injection H as _ _ _ <- _. auto.
Qed.

Lemma delete_parts_loop_upload (fuel : nat) (u u' : MotrMultipartUpload)
    (marker rc ts tsr ts' tsr' : Z) (tr : bool) (w w' : world) :
  delete_parts_loop fuel u marker tr ts tsr w = (Ret (rc, ts', tsr', u'), w') ->
  mp_upload_id u' = mp_upload_id u /\ mp_bucket u' = mp_bucket u
  /\ mp_key u' = mp_key u /\ mp_hsm_enabled u' = mp_hsm_enabled u
  /\ version_id u' = version_id u.
Proof.
  revert u marker tr ts tsr w.
  induction fuel as [|fuel IH]; intros u marker tr ts tsr w H; simpl in H.
  - discriminate H.
  - rewrite bind_eq in H.
    destruct (list_parts u 1000 marker marker tr w)
      as [[[[[rc0 m0] tr0] u0]|e] w0] eqn:E; [|discriminate H].
    apply list_parts_upload in E.
    cbn beta iota in H.
    destruct (if rc0 =? - ENOENT then (0, false) else (rc0, tr0)) as [rc1 tr1].
    destruct (rc1 <? 0).
    { injection H as _ _ _ <- _. exact E. }
    rewrite bind_eq in H.
    destruct (delete_parts_for u0 (parts u0) ts tsr w0)
      as [[[[rc2 ts2] tsr2]|e] w2]; [|discriminate H].
    cbn beta iota in H.
    destruct (rc2 <? 0).
    { injection H as _ _ _ <- _. exact E. }
    destruct tr1.
    + apply IH in H. destruct E as (E1 & E2 & E3 & E4 & E5).
      destruct H as (H1 & H2 & H3 & H4 & H5). repeat split; congruence.
    + injection H as _ _ _ <- _. exact E.
Qed.

(** Without an upload id the statistics are not updated; with one, the
    frame has to allow the write to the statistics index. *)
Lemma preserves_delete_parts (fuel : nat) (u : MotrMultipartUpload)
    (version : string) (sr : option Z) :
  mp_upload_id u = ""%string
  \/ may_write R ("motr.rgw.user.stats." ++ acl_owner (mp_bucket u))%string ->
  preserves R (delete_parts fuel u version sr).
Proof.
  intros Hu. unfold delete_parts.
  apply preserves_bind_ret; [frame|].
  intros [[[rc ts] tsr] u'] w w' E.
  apply delete_parts_loop_upload in E. simpl in E.
  destruct E as (Eu & Eb & _).
  destruct Hu as [Hu|Hu].
  - rewrite Eu, Hu. cbn [String.length Nat.eqb negb]. frame.
  - frame_by ltac:(rewrite Eb; apply preserves_update_bucket_stats, Hu).
Qed.

Lemma preserves_delete_part_objs (fuel : nat) (o : MotrObject) (sr : Z) :
  preserves R (delete_part_objs fuel o sr).
Proof.
  unfold delete_part_objs.
  apply preserves_bind; [apply preserves_delete_parts; left; reflexivity|].
  intros. frame.
Qed.

Hint Resolve preserves_delete_part_objs : frames.

Lemma preserves_remove_mobj_and_index_delete (fuel : nat) (o : MotrObject)
    (ent : rgw_bucket_dir_entry) (delete_key iname bname : string) :
  may_write R iname ->
  preserves R (remove_mobj_and_index_delete fuel o ent delete_key iname bname).
Proof.
  intros Hw. unfold remove_mobj_and_index_delete.
  frame_by ltac:(apply preserves_write, Hw).
Qed.

Lemma preserves_remove_delete_marker_entry (fuel : nat) (o : MotrObject)
    (ent : rgw_bucket_dir_entry) (delete_key iname bname : string) :
  may_write R iname -> is_delete_marker ent = true ->
  preserves R (remove_mobj_and_index_entry fuel o ent delete_key iname bname).
Proof.
  intros Hw Hdm. unfold remove_mobj_and_index_entry. rewrite Hdm.
  frame_by ltac:(apply preserves_remove_mobj_and_index_delete, Hw).
Qed.

Lemma preserves_delete_obj_marker (fuel : nat) (source : MotrObject)
    (params : DeleteOp_params) (ms : Z) (buf : string) (now : Z) :
  versioning_enabled (info (bucket source)) = true ->
  versioned (info (bucket source)) = true ->
  instance source = ""%string ->
  may_write R (bucket_index_iname source) ->
  preserves R (delete_obj fuel source params ms buf now).
Proof.
  intros Hen Hv Hi Hw. unfold delete_obj.
  apply preserves_bind_ret; [frame|].
  intros [[rc ent] source'] w w' E.
  destruct (get_bucket_dir_ent_key _ _ _ _ _ _ _ E) as (Ei & _ & Eb & _).
  unfold have_instance. rewrite Eb, Hv, Ei, Hi.
  cbn [String.eqb negb instance set_instance set_delete_marker bucket].
  rewrite Eb, Hen. cbn [negb].
  assert (Hw' : forall i d,
             may_write R
               (bucket_index_iname
                  (set_instance (set_delete_marker (set_instance source' i) d)
                     (Base62.gen_rand_obj_instance_name ms buf)))).
  { intros i d. unfold bucket_index_iname, tenant_bkt_name in *.
    cbn [bucket set_instance set_delete_marker]. rewrite Eb. exact Hw. }
  frame_by ltac:(first [ apply preserves_update_version_entries, Hw'
                       | apply preserves_create_delete_marker, Hw' ]).
Qed.

(** [remove_mobj_and_index_delete] that goes through is a run that keeps
    the frame, followed by the deletion of the key from the index. *)
Lemma remove_mobj_and_index_delete_split (fuel : nat) (o o' : MotrObject)
    (ent : rgw_bucket_dir_entry) (delete_key iname bname : string)
    (rc sr : Z) (w w' : world) :
  remove_mobj_and_index_delete fuel o ent delete_key iname bname w
  = (Ret (rc, sr, o'), w') ->
  0 <= rc ->
  exists w0 v,
    R w w0
    /\ do_idx_op_by_name iname M0_IC_DEL delete_key [] true w0 = (Ret (rc, v), w').
Proof.
  unfold remove_mobj_and_index_delete. rewrite bind_eq. intros H Hrc.
  match type of H with
  | context [match ?m w with _ => _ end] =>
      assert (P : preserves R m) by frame;
      destruct (m w) as [[[[rc0 sr0] o0]|e] w0] eqn:E; [|discriminate H]
  end.
  apply P in E. cbn beta iota in H.
  destruct (rc0 <? 0) eqn:E0.
  { injection H as <- _ _ _. apply Z.ltb_lt in E0. lia. }
  rewrite bind_eq in H.
  destruct (do_idx_op_by_name iname M0_IC_DEL delete_key [] true w0)
    as [[[rc1 v1]|e] w1] eqn:Ed; [|discriminate H].
  injection H as <- _ _ <-. exists w0, v1. auto.
Qed.

End Frames.

(** *** Delete-markers and the statistics *)

Lemma stats_iname_not_bucket_index (owner_ b : string) :
  ("motr.rgw.user.stats." ++ owner_)%string
  <> ("motr.rgw.bucket.index." ++ b)%string.
Proof.
  intros H. rewrite !append_cons in H. discriminate H.
Qed.

Lemma only_bucket_index_keeps_stats (b owner_ : string) (w w' : world) :
  only_indices ["motr.rgw.bucket.index." ++ b]%string w w' ->
  indices w' !! ("motr.rgw.user.stats." ++ owner_)%string
  = indices w !! ("motr.rgw.user.stats." ++ owner_)%string.
Proof.
  intros H. apply H. intros [E|[]].
  symmetry in E. exact (stats_iname_not_bucket_index _ _ E).
Qed.

(** C4, amended: a delete-marker itself never reaches the statistics.
    Creating a delete-marker changes no index other than the bucket index,
    and so does the whole DELETE without a version instance that creates
    one in a bucket with versioning enabled; removing an index entry that
    is a delete-marker changes no index other than the bucket index either.
    In each case every statistics index ([motr.rgw.user.stats.<owner>]) is
    what it was before. *)
Theorem delete_marker_leaves_stats (fuel : nat) (source : MotrObject)
    (w w' : world) :
  (forall (result : DeleteOp_result) (params : DeleteOp_params) (now : Z)
          (r : outcome Z),
     create_delete_marker source result params now w = (r, w') ->
     only_indices [bucket_index_iname source] w w'
     /\ forall owner_, indices w' !! ("motr.rgw.user.stats." ++ owner_)%string
                       = indices w !! ("motr.rgw.user.stats." ++ owner_)%string)
  /\ (forall (params : DeleteOp_params) (ms : Z) (buf : string) (now : Z)
             (r : outcome (Z * DeleteOp_result * MotrObject)),
        versioning_enabled (info (bucket source)) = true ->
        versioned (info (bucket source)) = true ->
        instance source = ""%string ->
        delete_obj fuel source params ms buf now w = (r, w') ->
        only_indices [bucket_index_iname source] w w'
        /\ forall owner_, indices w' !! ("motr.rgw.user.stats." ++ owner_)%string
                          = indices w !! ("motr.rgw.user.stats." ++ owner_)%string)
  /\ (forall (ent : rgw_bucket_dir_entry) (delete_key : string)
             (r : outcome (Z * MotrObject)),
        is_delete_marker ent = true ->
        remove_mobj_and_index_entry fuel source ent delete_key
          (bucket_index_iname source) (tenant_bkt_name source) w = (r, w') ->
        only_indices [bucket_index_iname source] w w'
        /\ forall owner_, indices w' !! ("motr.rgw.user.stats." ++ owner_)%string
                          = indices w !! ("motr.rgw.user.stats." ++ owner_)%string).
Proof.
  assert (Hk : only_indices [bucket_index_iname source] w w' ->
               only_indices [bucket_index_iname source] w w'
               /\ forall owner_,
                   indices w' !! ("motr.rgw.user.stats." ++ owner_)%string
                   = indices w !! ("motr.rgw.user.stats." ++ owner_)%string).
  { intros H. split; [exact H|]. intros owner_.
    exact (only_bucket_index_keeps_stats _ _ _ _ H). }
  assert (Hw : may_write (only_indices [bucket_index_iname source])
                 (bucket_index_iname source)).
  { apply only_indices_may_write. left. reflexivity. }
  split; [|split].
  - intros result params now r H. apply Hk.
    eapply preserves_create_delete_marker; [typeclasses eauto|exact Hw|exact H].
  - intros params ms buf now r Hen Hv Hi H. apply Hk.
    eapply preserves_delete_obj_marker;
      [typeclasses eauto|exact Hen|exact Hv|exact Hi|exact Hw|exact H].
  - intros ent delete_key r Hdm H. apply Hk.
    eapply preserves_remove_delete_marker_entry;
      [typeclasses eauto|exact Hw|exact Hdm|exact H].
Qed.

(** *** Listing the parts of an upload *)

Lemma reads_ret {A} (a : A) : reads_indices (mret a : M A).
Proof. intros w. split; [reflexivity|]. intros; reflexivity. Qed.

Lemma reads_throw {A} (e : exn) : reads_indices (throw e : M A).
Proof. intros w. split; [reflexivity|]. intros; reflexivity. Qed.

Lemma reads_bind {A B} (m : M A) (k : A -> M B) :
  reads_indices m -> (forall a, reads_indices (k a)) ->
  reads_indices (m ≫= k).
Proof.
  intros Hm Hk w. destruct (Hm w) as [Hs Hf].
  assert (Hb : forall w0, snd (m w0) = w0 ->
                 (m ≫= k) w0 = match fst (m w0) with
                                | Ret a => k a w0
                                | Exn e => (Exn e, w0)
                                end).
  { intros w0 H0. rewrite bind_eq. destruct (m w0) as [[a|e] w1].
    - simpl in *. subst w1. reflexivity.
    - simpl in *. subst w1. reflexivity. }
  split.
  - rewrite (Hb w Hs). destruct (fst (m w)) as [a|e]; [|reflexivity].
    apply (Hk a w).
  - intros w2 Hi He. rewrite (Hb w Hs), (Hb w2 (proj1 (Hm w2))).
    rewrite (Hf w2 Hi He). destruct (fst (m w)) as [a|e]; [|reflexivity].
    apply (proj2 (Hk a w) w2 Hi He).
Qed.

Lemma reads_idx_next (iname start : string) (n : nat) :
  reads_indices (m0_idx_next iname start n).
Proof.
  intros w. unfold m0_idx_next. split.
  - destruct (m0_errno w _); [destruct (indices w !! iname)|]; reflexivity.
  - intros w2 Hi He. rewrite Hi, He. 
    destruct (m0_errno w _); [destruct (indices w !! iname)|]; reflexivity.
Qed.

Ltac reads_step :=
  first
    [ apply reads_ret | apply reads_throw | apply reads_idx_next
    | assumption
    | apply reads_bind; [|intros]
    | match goal with
      | |- reads_indices (if ?b then _ else _) => destruct b
      | |- reads_indices (match ?x with _ => _ end) => destruct x
      end ].

Lemma reads_next_query_loop (fuel : nat) (iname pre : string)
    (total nr_kvp nr : nat) (key0 : string) (acc : m0_index) :
  reads_indices (next_query_loop fuel iname pre total nr_kvp nr key0 acc).
Proof.
  revert nr key0 acc. induction fuel as [|fuel IH]; intros nr key0 acc; simpl.
  - apply reads_throw.
  - repeat reads_step. apply IH.
Qed.

Lemma reads_next_query_by_name (iname key0 : string) (max : nat) (pre : string) :
  reads_indices (next_query_by_name iname key0 max pre).
Proof.
  unfold next_query_by_name.
  apply reads_bind; [apply reads_next_query_loop|]. intros. repeat reads_step.
Qed.

Lemma reads_list_parts_loop (vals : list bufferlist)
    (marker last_num part_cnt : Z) (ps : list (Z * MotrMultipartPart)) :
  reads_indices (list_parts_loop vals marker last_num part_cnt ps).
Proof.
  revert last_num part_cnt ps.
  induction vals as [|v vals IH]; intros last_num part_cnt ps; simpl.
  - apply reads_ret.
  - unfold decode_part_info, decode_attrs, decode_meta.
    repeat reads_step; apply IH.
Qed.

(** With an upload id at hand the listing reads the [multiparts] index
    and nothing else. *)
Lemma reads_list_parts (u : MotrMultipartUpload) (n marker nm : Z) (tr : bool) :
  mp_upload_id u <> ""%string ->
  reads_indices (list_parts u n marker nm tr).
Proof.
  intros Hu. unfold list_parts.
  destruct (mp_upload_id u) as [|c s] eqn:E; [contradiction|].
  cbn [String.length Nat.eqb].
  destruct ((n <=? 0) || (marker <? 0)); [apply reads_ret|].
  apply reads_bind; [apply reads_ret|]. intros [rc up].
  destruct (rc <? 0); [apply reads_ret|].
  apply reads_bind; [apply reads_next_query_by_name|]. intros [[rc1 ks] vs].
  destruct (rc1 <? 0); [apply reads_ret|].
  apply reads_bind; [apply reads_list_parts_loop|]. intros [[ln pc] ps].
  apply reads_ret.
Qed.

Lemma listed_parts_same_indices (fuel : nat) (u : MotrMultipartUpload)
    (marker : Z) (tr : bool) (w w2 : world) :
  mp_upload_id u <> ""%string ->
  indices w2 = indices w -> m0_errno w2 = m0_errno w ->
  listed_parts fuel u marker tr w2 = listed_parts fuel u marker tr w.
Proof.
  intros Hu Hi He. revert u marker tr Hu.
  induction fuel as [|fuel IH]; intros u marker tr Hu; [reflexivity|].
  simpl. unfold listed_step.
  rewrite (proj2 (reads_list_parts u 1000 marker marker tr Hu w) w2 Hi He).
  destruct (list_parts u 1000 marker marker tr w)
    as [[[[[rc0 m0] tr0] u0]|e] w0] eqn:E; [|reflexivity].
  simpl fst. cbn beta iota.
  destruct (if rc0 =? - ENOENT then (0, false) else (rc0, tr0)) as [rc1 tr1].
  destruct (rc1 <? 0); [reflexivity|].
  destruct tr1; [|reflexivity].
  f_equal. apply IH.
  apply list_parts_upload in E. destruct E as [E _]. congruence.
Qed.

(** *** Deleting the byte objects of the parts *)

Lemma m0_entity_open_result (o : m0_uint128) (w w' : world) (r : outcome Z) :
  m0_entity_open o w = (r, w') -> exists rc, r = Ret rc /\ rc <= 0 /\ w' = w.
Proof.
  unfold m0_entity_open. intros H.
  destruct (m0_errno w _); [destruct (decide _)|];
    injection H as <- <-; eexists; (split; [reflexivity|]);
    (split; [first [reflexivity | unfold ENOENT; lia | lia]|reflexivity]).
Qed.

Lemma m0_entity_delete_result (o : m0_uint128) (w w' : world) (r : outcome Z) :
  m0_entity_delete o w = (r, w') ->
  exists rc, r = Ret rc /\ rc <= 0 /\ (rc = 0 -> o ∉ objects w').
Proof.
  unfold m0_entity_delete. intros H.
  destruct (m0_errno w _); [destruct (decide _)|];
    injection H as <- <-; eexists; (split; [reflexivity|]).
  - split; [reflexivity|]. intros _. simpl. intros Hin.
    apply elem_of_difference in Hin as [_ Hn]. apply Hn.
    apply elem_of_singleton. reflexivity.
  - split; [unfold ENOENT; lia|]. intros E. discriminate E.
  - split; [lia|]. intros E. lia.
Qed.

Lemma open_mobj_with_layout (o o' : MotrObject) (rc : Z) (w w' : world) :
  layout_id (meta o) <> 0 ->
  open_mobj o w = (Ret (rc, o'), w') -> meta o' = meta o /\ w' = w.
Proof.
  intros Hl. unfold open_mobj. apply Z.eqb_neq in Hl. rewrite Hl.
  rewrite bind_eq. cbn [mret M_ret ret]. cbn beta iota.
  change (0 <? 0) with false. cbn iota. rewrite Hl.
  rewrite bind_eq.
  destruct (m0_entity_open (oid (meta o)) w) as [r w1] eqn:E.
  destruct (m0_entity_open_result _ _ _ _ E) as (rc1 & -> & _ & ->).
  cbn beta iota. destruct (negb (rc1 =? 0)); intros H;
    injection H as _ <- <-; auto.
Qed.

(** A byte object that has a layout is gone once [delete_mobj] has
    succeeded. *)
Lemma delete_mobj_deletes (o o' : MotrObject) (rc : Z) (w w' : world) :
  delete_mobj o w = (Ret (rc, o'), w') -> 0 <= rc ->
  layout_id (meta o) <> 0 -> oid (meta o) ∉ objects w'.
Proof.
  intros H Hrc Hl. unfold delete_mobj in H.
  destruct ((fst (oid (meta o)) =? 0) || (snd (oid (meta o)) =? 0)).
  { injection H as <- _ _. unfold EINVAL in Hrc. lia. }
  rewrite bind_eq in H.
  assert (Hopen :
            (exists rc1 o1 w1,
                (if negb (mobj o) then open_mobj o else mret (0, o)) w
                = (Ret (rc1, o1), w1) /\ meta o1 = meta o)
            \/ exists e w1,
                (if negb (mobj o) then open_mobj o else mret (0, o)) w
                = (Exn e, w1)).
  { destruct (negb (mobj o)).
    - destruct (open_mobj o w) as [[[rc1 o1]|e] w1] eqn:E.
      + left. exists rc1, o1, w1. split; [reflexivity|].
        apply (open_mobj_with_layout _ _ _ _ _ Hl E).
      + right. eauto.
    - left. exists 0, o, w. split; reflexivity. }
  destruct Hopen as [(rc1 & o1 & w1 & E & Em)|(e & w1 & E)]; rewrite E in H;
    [|discriminate H].
  cbn beta iota in H.
  destruct (rc1 <? 0) eqn:Hlt.
  { injection H as <- _ _. apply Z.ltb_lt in Hlt. lia. }
  rewrite bind_eq in H.
  destruct (m0_entity_delete (oid (meta o1)) w1) as [r w2] eqn:Ed.
  destruct (m0_entity_delete_result _ _ _ _ Ed) as (rc2 & -> & Hle & Hdel).
  cbn beta iota in H.
  destruct (rc2 =? 0) eqn:E0; cbn [negb] in H.
  - apply Z.eqb_eq in E0. injection H as _ _ <-. rewrite <- Em. auto.
  - apply Z.eqb_neq in E0. injection H as <- _ _. lia.
Qed.

Lemma sum_sizes_app (ps qs : list (Z * MotrMultipartPart)) (acc : Z) :
  sum_sizes (ps ++ qs) acc = sum_sizes qs (sum_sizes ps acc).
Proof. apply fold_left_app. Qed.

Lemma sum_sizes_rounded_app (ps qs : list (Z * MotrMultipartPart)) (acc : Z) :
  sum_sizes_rounded (ps ++ qs) acc
  = sum_sizes_rounded qs (sum_sizes_rounded ps acc).
Proof. apply fold_left_app. Qed.

(** The loop over one batch: the sizes are added up; for a tiered upload
    the store is left as it is; otherwise the byte object of every part is
    deleted. *)
Lemma delete_parts_for_spec (u : MotrMultipartUpload)
    (ps : list (Z * MotrMultipartPart)) (ts tsr rc ts' tsr' : Z)
    (w w' : world) :
  delete_parts_for u ps ts tsr w = (Ret (rc, ts', tsr'), w') -> 0 <= rc ->
  ts' = sum_sizes ps ts /\ tsr' = sum_sizes_rounded ps tsr
  /\ (mp_hsm_enabled u = true -> w' = w)
  /\ (mp_hsm_enabled u = false ->
      forall p, In p ps -> layout_id (part_meta (snd p)) <> 0 ->
                oid (part_meta (snd p)) ∉ objects w').
Proof.
  revert ts tsr ts' tsr' w.
  induction ps as [|[k p] ps IH]; intros ts tsr ts' tsr' w H Hrc; simpl in H.
  - injection H as _ <- <- <-. repeat split; auto.
  - destruct (mp_hsm_enabled u) eqn:Hh.
    + destruct (IH _ _ _ _ _ H Hrc) as (-> & -> & Hw & _).
      repeat split; auto. intros E; discriminate E.
    + rewrite bind_eq in H.
      match type of H with
      | context [delete_mobj ?o w] =>
          destruct (delete_mobj o w) as [[[rc1 o1]|e] w1] eqn:E
      end; [|discriminate H].
      cbn beta iota in H.
      destruct (rc1 <? 0) eqn:Hlt.
      { injection H as <- _ _ _. apply Z.ltb_lt in Hlt. lia. }
      apply Z.ltb_ge in Hlt.
      pose proof (preserves_delete_parts_for objects_shrink _ _ _ _ _ _ _ H)
        as (_ & _ & Hsub).
      destruct (IH _ _ _ _ _ H Hrc) as (-> & -> & _ & Hrest).
      repeat split; auto.
      * intros E'; discriminate E'.
      * intros _ q [<-|Hq] Hl.
        -- cbn [snd] in *. intros Hin. apply Hsub in Hin.
           revert Hin.
           apply (delete_mobj_deletes _ _ _ _ _ E Hlt). exact Hl.
        -- apply Hrest; auto.
Qed.

(** The whole listing loop, for an upload with an id. *)
Lemma delete_parts_loop_spec (fuel : nat) (u u' : MotrMultipartUpload)
    (marker rc ts tsr ts' tsr' : Z) (tr : bool) (w w' : world) :
  mp_upload_id u <> ""%string ->
  delete_parts_loop fuel u marker tr ts tsr w = (Ret (rc, ts', tsr', u'), w') ->
  0 <= rc ->
  ts' = sum_sizes (listed_parts fuel u marker tr w) ts
  /\ tsr' = sum_sizes_rounded (listed_parts fuel u marker tr w) tsr
  /\ (mp_hsm_enabled u = true -> w' = w)
  /\ (mp_hsm_enabled u = false ->
      forall p, In p (listed_parts fuel u marker tr w) ->
                layout_id (part_meta (snd p)) <> 0 ->
                oid (part_meta (snd p)) ∉ objects w').
Proof.
  revert u marker tr ts tsr w.
  induction fuel as [|fuel IH]; intros u marker tr ts tsr w Hu H Hrc;
    simpl in H; [discriminate H|].
  rewrite bind_eq in H. simpl listed_parts. unfold listed_step.
  pose proof (proj1 (reads_list_parts u 1000 marker marker tr Hu w)) as Hsame.
  destruct (list_parts u 1000 marker marker tr w)
    as [[[[[rc0 m0] tr0] u0]|e] w0] eqn:E; [|discriminate H].
  simpl in Hsame. subst w0. simpl fst. cbn beta iota in H |- *.
  destruct (list_parts_upload _ _ _ _ _ _ _ _ _ _ _ E) as (Eu & _ & _ & Eh & _).
  destruct (if rc0 =? - ENOENT then (0, false) else (rc0, tr0)) as [rc1 tr1].
  destruct (rc1 <? 0) eqn:Hlt1.
  { injection H as <- _ _ _ _. apply Z.ltb_lt in Hlt1. lia. }
  rewrite bind_eq in H.
  destruct (delete_parts_for u0 (parts u0) ts tsr w)
    as [[[[rc2 ts2] tsr2]|e] w2] eqn:Ef; [|discriminate H].
  cbn beta iota in H.
  destruct (rc2 <? 0) eqn:Hlt2.
  { injection H as <- _ _ _ _. apply Z.ltb_lt in Hlt2. lia. }
  apply Z.ltb_ge in Hlt2.
  destruct (delete_parts_for_spec _ _ _ _ _ _ _ _ _ Ef Hlt2)
    as (-> & -> & Hw2 & Hdel2).
  rewrite Eh in Hw2, Hdel2.
  destruct tr1.
  - pose proof (preserves_delete_parts_for objects_shrink _ _ _ _ _ _ _ Ef)
      as (Hi & He & _).
    pose proof (preserves_delete_parts_loop objects_shrink _ _ _ _ _ _ _ _ _ H)
      as (_ & _ & Hsub).
    assert (Hu0 : mp_upload_id u0 <> ""%string) by congruence.
    rewrite <- (listed_parts_same_indices fuel u0 m0 true w w2 Hu0 Hi He).
    destruct (IH _ _ _ _ _ _ Hu0 H Hrc) as (-> & -> & Hw & Hdel).
    rewrite Eh in Hw, Hdel.
    rewrite sum_sizes_app, sum_sizes_rounded_app.
    repeat split; auto.
    + intros Hh. rewrite (Hw Hh). auto.
    + intros Hh p Hp Hl. apply in_app_or in Hp as [Hp|Hp].
      * intros Hin. apply Hsub in Hin. revert Hin. apply Hdel2; auto.
      * apply Hdel; auto.
  - injection H as _ <- <- _ <-. repeat split; auto.
Qed.

(** *** Index writes that succeed *)

Lemma do_idx_op_put_ok (iname key : string) (bl v : bufferlist)
    (w w' : world) :
  do_idx_op_by_name iname M0_IC_PUT key bl true w = (Ret (0, v), w') ->
  exists t, indices w !! iname = Some t
            /\ w' = set_indices w (<[iname := idx_insert key bl t]> (indices w)).
Proof.
  unfold do_idx_op_by_name. rewrite bind_eq. unfold m0_idx_op.
  destruct (m0_errno w _) eqn:He.
  - destruct (indices w !! iname) as [t|].
    + intros H. exists t. split; [reflexivity|].
      destruct (idx_lookup key t); cbn in H; injection H as _ <-; reflexivity.
    + intros H. cbn in H. injection H as H _ _. unfold ENOENT in H. lia.
  - intros H. cbn in H. injection H as H _ _. lia.
Qed.

Lemma do_idx_op_del_ok (iname key : string) (bl v : bufferlist) (u : bool)
    (w w' : world) :
  do_idx_op_by_name iname M0_IC_DEL key bl u w = (Ret (0, v), w') ->
  exists t, indices w !! iname = Some t
            /\ w' = set_indices w (<[iname := idx_delete key t]> (indices w)).
Proof.
  unfold do_idx_op_by_name. rewrite bind_eq. unfold m0_idx_op.
  destruct (m0_errno w _) eqn:He.
  - destruct (indices w !! iname) as [t|].
    + intros H. exists t. split; [reflexivity|].
      destruct (idx_lookup key t); cbn in H;
        [injection H as _ <-; reflexivity|].
      injection H as H _ _. unfold ENOENT in H. lia.
    + intros H. cbn in H. injection H as H _ _. unfold ENOENT in H. lia.
  - intros H. cbn in H. injection H as H _ _. lia.
Qed.

Lemma idx_lookup_delete (key : string) (t : m0_index) :
  idx_lookup key (idx_delete key t) = None.
Proof.
  unfold idx_delete. induction t as [|[k v] t IH]; [reflexivity|].
  simpl. destruct (String.eqb key k) eqn:E; simpl; [exact IH|].
  rewrite E. exact IH.
Qed.

(** A statistics update that returns 0 has replaced the header of the
    bucket by the updated one. *)
Lemma update_bucket_stats_ok (owner_ b : string) (sz asz n : Z) (add : bool)
    (w w' : world) :
  update_bucket_stats owner_ b sz asz n add w = (Ret 0, w') ->
  exists t h tl,
    indices w !! ("motr.rgw.user.stats." ++ owner_)%string = Some t
    /\ idx_lookup b t = Some (enc_dir_header h :: tl)
    /\ w' = set_indices w
              (<[("motr.rgw.user.stats." ++ owner_)%string
                 := idx_insert b [enc_dir_header (updated_header h sz asz n add)] t]>
                 (indices w)).
Proof.
  unfold update_bucket_stats. rewrite bind_eq. intros H.
  destruct (do_idx_op_by_name_get ("motr.rgw.user.stats." ++ owner_) b [] true w)
    as (rc & v & Hget & Hok).
  rewrite Hget in H. cbn beta iota in H.
  destruct (rc =? 0) eqn:E0; cbn [negb] in H.
  - apply Z.eqb_eq in E0. destruct (Hok E0) as (t & val & Hi & Hl & ->).
    rewrite bind_eq in H. simpl app in H.
    destruct val as [|[] tl]; simpl in H; try discriminate H.
    rewrite bind_eq in H.
    match type of H with
    | context [do_idx_op_by_name ?a ?b ?c ?d ?e w] =>
        destruct (do_idx_op_by_name a b c d e w) as [[[rc1 v1]|e1] w1] eqn:E1
    end; [|discriminate H].
    cbn beta iota in H. injection H as -> ->.
    destruct (do_idx_op_put_ok _ _ _ _ _ _ E1) as (t' & Hi' & ->).
    rewrite Hi in Hi'. injection Hi' as <-.
    exists t, h, tl. split; [exact Hi|]. split; [exact Hl|].
    unfold updated_header. rewrite !u64_add_mul. reflexivity.
  - apply Z.eqb_neq in E0. injection H as -> _. contradiction.
Qed.

(** [delete_parts] for an upload with an id: the listing loop, then the
    subtraction of what it has added up. *)
Lemma delete_parts_spec (fuel : nat) (u u' : MotrMultipartUpload)
    (version : string) (sr sr' : option Z) (rc : Z) (w w' : world) :
  mp_upload_id u <> ""%string ->
  delete_parts fuel u version sr w = (Ret (rc, sr', u'), w') -> 0 <= rc ->
  let ps := listed_parts fuel (set_version_id u version) 0 false w in
  exists w1,
    objects_shrink w w1
    /\ (mp_hsm_enabled u = true -> w1 = w)
    /\ (mp_hsm_enabled u = false ->
        forall p, In p ps -> layout_id (part_meta (snd p)) <> 0 ->
                  oid (part_meta (snd p)) ∉ objects w1)
    /\ update_bucket_stats (acl_owner (mp_bucket u))
         (get_bucket_name (tenant (mp_bucket u)) (bucket_name (mp_bucket u)))
         (sum_sizes ps 0) (sum_sizes_rounded ps 0) 1 false w1 = (Ret rc, w').
Proof.
  intros Hu H Hrc ps. unfold delete_parts in H. rewrite bind_eq in H.
  destruct (delete_parts_loop fuel (set_version_id u version) 0 false 0 0 w)
    as [[[[[rc0 ts] tsr] u0]|e] w1] eqn:E; [|discriminate H].
  cbn beta iota in H.
  destruct (rc0 <? 0) eqn:Hlt.
  { injection H as <- _ _ _. apply Z.ltb_lt in Hlt. lia. }
  apply Z.ltb_ge in Hlt.
  destruct (delete_parts_loop_upload _ _ _ _ _ _ _ _ _ _ _ _ E)
    as (Eu & Eb & _). simpl in Eu, Eb.
  assert (Hne : (String.length (mp_upload_id u0) =? 0)%nat = false).
  { rewrite Eu. destruct (mp_upload_id u); [contradiction|reflexivity]. }
  rewrite Hne in H. cbn [negb] in H.
  rewrite bind_eq in H. cbn [mret M_ret ret] in H. cbn beta iota in H.
  rewrite (proj2 (Z.ltb_ge _ _) Hlt) in H.
  rewrite bind_eq in H. rewrite Eb in H.
  destruct (delete_parts_loop_spec fuel (set_version_id u version) u0 0 rc0
              0 0 ts tsr false w w1 Hu E Hlt) as (-> & -> & Hw & Hdel).
  fold ps in H, Hdel.
  destruct (update_bucket_stats _ _ _ _ _ _ w1) as [[rc1|e] w2] eqn:Es;
    [|discriminate H].
  injection H as <- _ _ <-.
  exists w1. split; [|split; [|split]].
  - exact (preserves_delete_parts_loop objects_shrink _ _ _ _ _ _ _ _ _ E).
  - exact Hw.
  - exact Hdel.
  - exact Es.
Qed.

(** *** Aborting an upload *)

Lemma string_app_inv_head (a b c : string) :
  (a ++ b)%string = (a ++ c)%string -> b = c.
Proof.
  induction a as [|ch a IH]; [exact (fun H => H)|].
  rewrite !append_cons. intros H. injection H as H. exact (IH H).
Qed.

Lemma multiparts_iname_not_in_progress (tb : string) :
  multiparts_iname tb <> multiparts_in_progress_iname tb.
Proof.
  unfold multiparts_iname, multiparts_in_progress_iname. intros H.
  apply string_app_inv_head, string_app_inv_head in H. discriminate H.
Qed.

Lemma stats_iname_not_multiparts (owner_ tb : string) :
  ("motr.rgw.user.stats." ++ owner_)%string <> multiparts_iname tb
  /\ ("motr.rgw.user.stats." ++ owner_)%string
     <> multiparts_in_progress_iname tb.
Proof.
  unfold multiparts_iname, multiparts_in_progress_iname.
  split; intros H; rewrite !append_cons in H; discriminate H.
Qed.


(** *** Completing an upload: the etag *)

Lemma binary_etags_app (a b : list string) :
  binary_etags (a ++ b) = (binary_etags a ++ binary_etags b)%string.
Proof.
  induction a as [|e a IH]; [reflexivity|].
  simpl. rewrite IH. symmetry. apply string_app_assoc.
Qed.

Lemma string_app_nil_r (s : string) : (s ++ "")%string = s.
Proof.
  induction s as [|c s IH]; [reflexivity|]. rewrite append_cons. congruence.
Qed.

(** The loop over one batch pairs the etags of the request with the parts
    in order, and feeds the binary etag of every part it has paired to the
    digest. *)
Lemma complete_for_spec (n minp : Z) (etags etags' : list (Z * string))
    (ps : list (Z * MotrMultipartPart)) (st st' : complete_state) (rc : Z) :
  complete_for n minp etags ps st = (rc, etags', st') -> 0 <= rc ->
  hash st' = (hash st
              ++ binary_etags (listed_etags (firstn (List.length etags) ps)))%string
  /\ etags' = skipn (List.length ps) etags
  /\ Forall2 etag_matches (firstn (List.length ps) etags)
                          (firstn (List.length etags) ps).
Proof.
  pose proof ERR_TOO_SMALL_pos as Hts. pose proof ERR_INVALID_PART_pos as Hip.
  revert ps st.
  induction etags as [|[enum et] etags IH]; intros ps st H Hrc.
  - simpl in H. injection H as _ <- <-.
    rewrite string_app_nil_r, skipn_nil, firstn_nil. auto.
  - destruct ps as [|[pnum mmpart] ps].
    + simpl in H. injection H as _ <- <-.
      rewrite string_app_nil_r. simpl. auto.
    + simpl in H.
      destruct ((handled_parts st <? n - 1) && _).
      { injection H as <- _ _. lia. }
      destruct (enum =? int_of_u32 pnum) eqn:En; cbn [negb] in H;
        [|injection H as <- _ _; lia].
      destruct (String.eqb (rgw_string_unquote et) _) eqn:Ee; cbn [negb] in H;
        [|injection H as <- _ _; lia].
      destruct ((0 <? handled_parts st) && _).
      { injection H as <- _ _. lia. }
      apply IH in H; [|exact Hrc]. cbn [hash] in H.
      destruct H as (Hh & He & Hf).
      apply Z.eqb_eq in En. apply String.eqb_eq in Ee.
      split; [|split].
      * rewrite Hh. simpl. rewrite string_app_assoc. reflexivity.
      * exact He.
      * simpl. constructor; [split; assumption|exact Hf].
Qed.

Lemma firstn_add_skipn {A} (a b : nat) (l : list A) :
  firstn (a + b) l = firstn a l ++ firstn b (skipn a l).
Proof.
  revert l. induction a as [|a IH]; intros l; [reflexivity|].
  destruct l as [|x l]; [simpl; rewrite firstn_nil; reflexivity|].
  simpl. f_equal. apply IH.
Qed.

Lemma m0_composite_add_extents_same (o : m0_uint128) (b : bool) (w w' : world)
    (r : outcome Z) :
  m0_composite_add_extents o b w = (r, w') -> w' = w.
Proof. unfold m0_composite_add_extents. intros H. injection H as _ <-. reflexivity. Qed.

(** The whole loop of [complete], for an upload with an id: the store is
    left as it is, the parts listed are as many as the request still
    expects, and the etags of the request are paired with them in order. *)
Lemma complete_loop_spec (fuel : nat) (u u' : MotrMultipartUpload)
    (n minp : Z) (etags : list (Z * string)) (marker : Z) (tr : bool)
    (total prev rc : Z) (st st' : complete_state) (w w' : world) :
  mp_upload_id u <> ""%string ->
  complete_loop fuel u n minp etags marker tr total prev st w
  = (Ret (rc, u', st'), w') ->
  0 <= rc ->
  w' = w
  /\ mp_bucket u' = mp_bucket u /\ mp_key u' = mp_key u
  /\ mp_upload_id u' = mp_upload_id u
  /\ total + Z.of_nat (List.length (listed_parts fuel u marker tr w)) = n
  /\ hash st'
     = (hash st
        ++ binary_etags
             (listed_etags (firstn (List.length etags)
                                   (listed_parts fuel u marker tr w))))%string
  /\ Forall2 etag_matches
       (firstn (List.length (listed_parts fuel u marker tr w)) etags)
       (firstn (List.length etags) (listed_parts fuel u marker tr w)).
Proof.
  pose proof ERR_NO_SUCH_UPLOAD_pos as Hnsu.
  pose proof ERR_INVALID_PART_pos as Hip.
  revert u etags marker tr total prev st w.
  induction fuel as [|fuel IH]; intros u etags marker tr total prev st w Hu H Hrc;
    simpl in H; [discriminate H|].
  rewrite bind_eq in H. simpl listed_parts. unfold listed_step.
  pose proof (proj1 (reads_list_parts u 1000 marker marker tr Hu w)) as Hsame.
  destruct (list_parts u 1000 marker marker tr w)
    as [[[[[rc0 m0] tr0] u0]|e] w0] eqn:E; [|discriminate H].
  simpl in Hsame. subst w0. simpl fst. cbn beta iota in H |- *.
  destruct (list_parts_upload _ _ _ _ _ _ _ _ _ _ _ E) as (Eu & Eb & Ek & _).
  destruct (rc0 =? - ENOENT) eqn:Een.
  { assert (Hl : (- ERR_NO_SUCH_UPLOAD <? 0) = true) by (apply Z.ltb_lt; lia).
    rewrite Hl in H. injection H as <- _ _ _. lia. }
  destruct (rc0 <? 0) eqn:Hlt0.
  { injection H as <- _ _ _. apply Z.ltb_lt in Hlt0. lia. }
  destruct (negb tr0 && _) eqn:Hchk.
  { injection H as <- _ _ _. lia. }
  destruct (complete_for n minp etags (parts u0) st) as [[rc1 etags1] st1] eqn:Ef.
  destruct (rc1 <? 0) eqn:Hlt1.
  { injection H as <- _ _ _. apply Z.ltb_lt in Hlt1. lia. }
  apply Z.ltb_ge in Hlt1.
  destruct (complete_for_spec _ _ _ _ _ _ _ _ Ef Hlt1) as (Hh1 & He1 & Hf1).
  rewrite bind_eq in H.
  match type of H with
  | context [match ?m w with _ => _ end] =>
      assert (Hext : exists rc2, m w = (Ret rc2, w))
  end.
  { destruct (mp_hsm_enabled u0); [|eexists; reflexivity].
    rewrite bind_eq. unfold m0_composite_add_extents at 1. cbn beta iota.
    match goal with
    | |- context [if ?b then _ else _] => destruct b
    end; eexists; reflexivity. }
  destruct Hext as [rc2 Hext]. rewrite Hext in H. cbn beta iota in H.
  destruct (rc2 <? 0) eqn:Hlt2.
  { injection H as <- _ _ _. apply Z.ltb_lt in Hlt2. lia. }
  destruct tr0.
  - assert (Hu0 : mp_upload_id u0 <> ""%string) by congruence.
    destruct (IH _ _ _ _ _ _ _ _ Hu0 H Hrc)
      as (-> & Hb' & Hk' & Hu' & Htot & Hh & Hf).
    set (ps2 := listed_parts fuel u0 m0 true w) in *.
    subst etags1. rewrite length_skipn in Hh, Hf.
    split; [reflexivity|]. split; [congruence|]. split; [congruence|].
    split; [congruence|]. split; [|split].
    + rewrite length_app. lia.
    + rewrite Hh, Hh1. rewrite firstn_app. unfold listed_etags.
      rewrite map_app, binary_etags_app, string_app_assoc. reflexivity.
    + rewrite length_app, firstn_add_skipn, firstn_app.
      apply Forall2_app; [exact Hf1|exact Hf].
  - injection H as _ <- <- <-. cbn [negb andb] in Hchk.
    apply negb_false_iff, Z.eqb_eq in Hchk.
    repeat split; try assumption.
Qed.

Lemma idx_lookup_insert (key : string) (v : bufferlist) (t : m0_index) :
  idx_lookup key (idx_insert key v t) = Some v.
Proof.
  induction t as [|[k' v'] t IH]; simpl.
  - rewrite String.eqb_refl. reflexivity.
  - destruct (String.compare key k') eqn:Ec; simpl.
    + rewrite String.eqb_refl. reflexivity.
    + rewrite String.eqb_refl. reflexivity.
    + destruct (String.eqb key k') eqn:Ee; [|exact IH].
      apply String.eqb_eq in Ee. subst k'.
      pose proof (String.compare_antisym key key) as Ha.
      rewrite Ec in Ha. discriminate Ha.
Qed.

Lemma bucket_index_not_in_progress (tb : string) :
  ("motr.rgw.bucket.index." ++ tb)%string <> multiparts_in_progress_iname tb.
Proof.
  unfold multiparts_in_progress_iname. intros H.
  apply (f_equal String.length) in H.
  rewrite !string_length_app in H. simpl in H. lia.
Qed.

Lemma MotrMetaCache_put_indices (n : string) (d : bufferlist) (w w' : world)
    (r : outcome Z) :
  MotrMetaCache_put n d w = (r, w') -> indices w' = indices w /\ r = Ret 0.
Proof.
  unfold MotrMetaCache_put, ObjectCache_put. rewrite bind_eq.
  destruct (use_metadata_cache (conf w)); intros H; injection H as <- <-; auto.
Qed.

Lemma etag_attr_kept (a ta : Attrs) (e cs : string) (c : bool) :
  match ta !! RGW_ATTR_TAGS with
  | Some t =>
      <[RGW_ATTR_TAGS := t]>
        (if c then <[RGW_ATTR_COMPRESSION := cs]> (<[RGW_ATTR_ETAG := e]> a)
         else <[RGW_ATTR_ETAG := e]> a)
  | None =>
      if c then <[RGW_ATTR_COMPRESSION := cs]> (<[RGW_ATTR_ETAG := e]> a)
      else <[RGW_ATTR_ETAG := e]> a
  end !! RGW_ATTR_ETAG = Some e.
Proof.
  unfold RGW_ATTR_TAGS, RGW_ATTR_COMPRESSION, RGW_ATTR_ETAG, Attrs in *.
  destruct (ta !! _); destruct c;
    rewrite ?lookup_insert_ne by discriminate; apply lookup_insert_eq.
Qed.

(** C6: when [complete] succeeds for an upload with an id, the parts listed
    for the upload are those of the request, one for one in its ascending
    order, and the etag of the final object, in its attributes and in its
    record of the bucket index, is the MD5-of-MD5s of the design document:
    the hexadecimal MD5 of the binary etags of the parts one after the
    other, then [-] and the number of parts. *)
Theorem complete_etag (fuel : nat) (u : MotrMultipartUpload)
    (part_etags : list (Z * string)) (accounted_size0 : Z) (compressed0 : bool)
    (cs_info0 : RGWCompressionInfo) (off0 min_part_size : Z)
    (target_obj tobj : MotrObject) (now rc : Z) (st : complete_state)
    (w w' : world) :
  mp_upload_id u <> ""%string ->
  complete fuel u part_etags accounted_size0 compressed0 cs_info0 off0
    min_part_size target_obj now w = (Ret (rc, tobj, st), w') ->
  0 <= rc ->
  let ps := listed_parts fuel u 0 false w in
  let e := spec_multipart_etag (listed_etags ps) in
  let tb := get_bucket_name (tenant (mp_bucket u)) (bucket_name (mp_bucket u)) in
  Forall2 etag_matches part_etags ps
  /\ attrs tobj !! RGW_ATTR_ETAG = Some e
  /\ exists ent a m,
       (indices w' !! ("motr.rgw.bucket.index." ++ tb)%string)
         ≫= idx_lookup (get_key_str target_obj)
       = Some [enc_dir_entry ent; enc_attrs a; enc_meta m]
       /\ etag ent = e /\ a !! RGW_ATTR_ETAG = Some e.
Proof.
  intros Hu H Hrc ps e tb.
  pose proof ERR_NO_SUCH_UPLOAD_pos as Hnsu.
  unfold complete in H. rewrite bind_eq in H.
  match type of H with
  | context [complete_loop fuel u ?n ?mp ?et ?mk ?tr ?tot ?pv ?s0 w] =>
      destruct (complete_loop fuel u n mp et mk tr tot pv s0 w)
        as [[[[rc1 u1] st1]|ex] w1] eqn:El; [|discriminate H]
  end.
  cbn beta iota in H.
  destruct (rc1 <? 0) eqn:Hlt1.
  { injection H as <- _ _ _. apply Z.ltb_lt in Hlt1. lia. }
  apply Z.ltb_ge in Hlt1.
  destruct (complete_loop_spec _ _ _ _ _ _ _ _ _ _ _ _ _ _ _ Hu El Hlt1)
    as (-> & Eb & Ek & Eu & Htot & Hh & Hf).
  fold ps in Htot, Hh, Hf. cbn [hash] in Hh.
  assert (Hlen : List.length ps = List.length part_etags) by lia.
  rewrite Hlen, firstn_all in Hf. rewrite <- Hlen, firstn_all in Hf, Hh.
  rewrite append_nil in Hh.
  assert (He : final_etag (hash st1) (Z.of_nat (List.length part_etags)) = e).
  { unfold final_etag, e, spec_multipart_etag, listed_etags.
    rewrite Hh, length_map, Hlen. reflexivity. }
  rewrite He in H. clear He Hh.
  unfold get_meta in H. rewrite Eb, Ek, Eu in H. fold tb in H.
  fold (get_meta u) in H.
  rewrite bind_eq in H.
  destruct (do_idx_op_by_name_get (multiparts_in_progress_iname tb)
              (get_meta u) [] true w) as (rc2 & bl & Hget & _).
  rewrite Hget in H. cbn beta iota in H.
  destruct (rc2 <? 0) eqn:Hlt2.
  { injection H as <- _ _ _. apply Z.ltb_lt in Hlt2.
    destruct (rc2 =? - ENOENT); lia. }
  rewrite bind_eq in H.
  destruct (decode_dir_entry bl w) as [[[ent0 it1]|ex] w2] eqn:Ed1;
    [|discriminate H].
  assert (w2 = w) as ->.
  { unfold decode_dir_entry, ret, throw in Ed1.
    destruct bl as [|[] ?]; congruence. }
  cbn beta iota in H. rewrite bind_eq in H.
  destruct (decode_upload_info (user_data ent0) w) as [[ui|ex] w2] eqn:Ed2;
    [|discriminate H].
  assert (w2 = w) as ->.
  { unfold decode_upload_info, ret, throw in Ed2.
    destruct (user_data ent0); congruence. }
  cbn beta iota in H. rewrite bind_eq in H.
  destruct (decode_attrs it1 w) as [[[ta it2]|ex] w2] eqn:Ed3;
    [|discriminate H].
  assert (w2 = w) as ->.
  { unfold decode_attrs, ret, throw in Ed3.
    destruct it1 as [|[] ?]; congruence. }
  cbn beta iota in H.
  set (attrs0 := if compressed st1
                 then <[RGW_ATTR_COMPRESSION := cs_compression_type (cs_info st1)]>
                        (<[RGW_ATTR_ETAG := e]> (attrs target_obj))
                 else <[RGW_ATTR_ETAG := e]> (attrs target_obj)) in *.
  set (attrs1 := match ta !! RGW_ATTR_TAGS with
                 | Some t => <[RGW_ATTR_TAGS := t]> attrs0
                 | None => attrs0
                 end) in *.
  assert (Hat : attrs1 !! RGW_ATTR_ETAG = Some e).
  { apply etag_attr_kept. }
  rewrite bind_eq in H.
  match type of H with
  | context [match ?m w with _ => _ end] =>
      destruct (m w) as [[rc3|ex] w3] eqn:Ev; [|discriminate H]
  end.
  cbn beta iota in H.
  destruct (rc3 <? 0) eqn:Hlt3.
  { injection H as <- _ _ _. apply Z.ltb_lt in Hlt3. lia. }
  rewrite bind_eq in H.
  match type of H with
  | context [match ?m w3 with _ => _ end] =>
      destruct (m w3) as [[rc4|ex] w4] eqn:En; [|discriminate H]
  end.
  cbn beta iota in H.
  destruct (rc4 <? 0) eqn:Hlt4.
  { injection H as <- _ _ _. apply Z.ltb_lt in Hlt4. lia. }
  rewrite bind_eq in H.
  match type of H with
  | context [do_idx_op_by_name ?i M0_IC_PUT ?k ?v true w4] =>
      destruct (do_idx_op_by_name i M0_IC_PUT k v true w4)
        as [[[rc5 v5]|ex] w5] eqn:Ep; [|discriminate H];
      set (rec := v) in *
  end.
  cbn beta iota in H.
  destruct (rc5 <? 0) eqn:Hlt5.
  { injection H as <- _ _ _. apply Z.ltb_lt in Hlt5. lia. }
  apply Z.ltb_ge in Hlt5.
  destruct (do_idx_op_by_name_result _ _ _ _ _ _ _ _ Ep)
    as (rc5' & v5' & Hr5 & Hle5 & _).
  injection Hr5 as <- <-.
  assert (rc5 = 0) as -> by lia.
  destruct (do_idx_op_put_ok _ _ _ _ _ _ Ep) as (t & Ht & ->).
  rewrite bind_eq in H.
  match type of H with
  | context [MotrMetaCache_put ?k ?v ?ww] =>
      destruct (MotrMetaCache_put k v ww) as [r6 w6] eqn:Ec
  end.
  destruct (MotrMetaCache_put_indices _ _ _ _ _ Ec) as [Hi6 ->].
  cbn beta iota in H. rewrite bind_eq in H.
  destruct (do_idx_op_by_name (multiparts_in_progress_iname tb) M0_IC_DEL
              (get_meta u) [] true w6) as [[[rc7 v7]|ex] w7] eqn:Edel;
    [|discriminate H].
  cbn beta iota in H. injection H as <- <- <- <-.
  destruct (do_idx_op_by_name_result _ _ _ _ _ _ _ _ Edel)
    as (rc7' & v7' & Hr7 & Hle7 & _).
  injection Hr7 as <- <-.
  assert (rc7 = 0) as -> by lia.
  destruct (do_idx_op_del_ok _ _ _ _ _ _ _ Edel) as (tip & Htip & ->).
  split; [exact Hf|]. split; [exact Hat|].
  do 3 eexists. split; [|split].
  - cbn [indices set_indices]. rewrite Hi6. cbn [indices set_indices].
    rewrite lookup_insert_ne
      by (intros E'; symmetry in E'; exact (bucket_index_not_in_progress tb E')).
    rewrite lookup_insert_eq. simpl. rewrite idx_lookup_insert. reflexivity.
  - reflexivity.
  - exact Hat.
Qed.

(** ** Further properties of the layer *)

(** *** Rounding (lines 130-140) *)

(** X1: for a positive step and as long as [x + by] does not pass 2^64,
    [roundup x by] is the least multiple of [by] that is not below [x] and
    [rounddown x by] the greatest that is not above it; both are [x] itself
    when [x] is a multiple. *)
Theorem roundup_rounddown_bounds (x byv : Z) :
  0 <= x -> 0 < byv -> x + byv <= 2 ^ 64 ->
  (x <= Layout.roundup x byv < x + byv /\ Layout.roundup x byv mod byv = 0)
  /\ (x - byv < Layout.rounddown x byv <= x
      /\ Layout.rounddown x byv mod byv = 0)
  /\ (x mod byv = 0 ->
      Layout.roundup x byv = x /\ Layout.rounddown x byv = x).
Proof.
  intros Hx Hb Hov.
  assert (Hup : Layout.roundup_to x byv = x + (byv - 1) - (x + byv - 1) mod byv).
  { unfold Layout.roundup_to, Layout.ceil_div.
    pose proof (Z.div_mod (x + byv - 1) byv ltac:(lia)). lia. }
  pose proof (Z.mod_pos_bound (x + byv - 1) byv Hb) as Hm1.
  assert (Hge : x <= Layout.roundup_to x byv)
    by (apply roundup_to_ge; assumption).
  assert (Hru : Layout.roundup x byv = Layout.roundup_to x byv)
    by (apply roundup_eq; lia).
  assert (Hrd : Layout.rounddown x byv = x / byv * byv).
  { unfold Layout.rounddown. apply u64_small.
    pose proof (Z.div_mod x byv ltac:(lia)).
    pose proof (Z.mod_pos_bound x byv Hb).
    pose proof (Z.div_pos x byv Hx Hb). nia. }
  pose proof (Z.div_mod x byv ltac:(lia)) as Hdm.
  pose proof (Z.mod_pos_bound x byv Hb) as Hm2.
  split; [|split].
  - rewrite Hru. split; [lia|].
    unfold Layout.roundup_to. apply Z.mod_mul. lia.
  - rewrite Hrd. split; [lia|]. apply Z.mod_mul. lia.
  - intros Hz. rewrite Hru, Hrd. split; [|lia].
    unfold Layout.roundup_to, Layout.ceil_div.
    replace (x + byv - 1) with (byv - 1 + (x / byv) * byv) by lia.
    rewrite Z.div_add by lia. rewrite (Z.div_small (byv - 1) byv) by lia. lia.
Qed.

(** *** Ranged reads of a multipart object (lines 4000-4035) *)

Lemma int64_of_u64_small (x : Z) :
  - 2 ^ 63 <= x < 2 ^ 63 -> int64_of_u64 x = x.
Proof.
  intros Hx. unfold int64_of_u64, u64, uint64_mod.
  destruct (Z_lt_le_dec x 0) as [Hn|Hp].
  - replace (x mod 2 ^ 64) with (x + 2 ^ 64).
    + replace (x + 2 ^ 64 <? 2 ^ 63) with false; [lia|].
      symmetry. apply Z.ltb_ge. lia.
    + apply Z.mod_unique with (q := -1); lia.
  - rewrite Z.mod_small by lia.
    replace (x <? 2 ^ 63) with true; [reflexivity|].
    symmetry. apply Z.ltb_lt. lia.
Qed.

Lemma read_multipart_loop_covers (read_mobj : MotrPartObject -> Z -> Z -> Z)
    (part_objs : list MotrPartObject) (start off end_ cursor : Z) :
  (forall obj s e, 0 <= read_mobj obj s e) ->
  consecutive_from start part_objs = true ->
  0 <= start <= cursor -> off <= cursor <= end_ ->
  (off < cursor -> cursor = start) ->
  end_ < start + fold_right (fun obj acc => po_part_size obj + acc) 0 part_objs ->
  start + fold_right (fun obj acc => po_part_size obj + acc) 0 part_objs
    < 2 ^ 63 ->
  fst (read_multipart_loop read_mobj part_objs off end_ cursor) = 0
  /\ bytes_read (snd (read_multipart_loop read_mobj part_objs off end_ cursor))
     = seqZ cursor (end_ - cursor + 1)
  /\ Forall (fun r => let '(obj, s, e) := r in
                      0 <= s /\ e < po_part_size obj /\ s <= e + 1)
            (snd (read_multipart_loop read_mobj part_objs off end_ cursor)).
Proof.
  intros Hok. revert start cursor.
  induction part_objs as [|obj rest IH];
    intros start cursor Hc Hs Hcur Hph Htot Hmax.
  - simpl in Htot. lia.
  - simpl in Hc. apply andb_true_iff in Hc as [Hc Hrest].
    apply andb_true_iff in Hc as [Hoff Hsz].
    apply Z.eqb_eq in Hoff. apply Z.leb_le in Hsz.
    simpl in Htot, Hmax.
    assert (Hrs : 0 <= fold_right (fun obj acc => po_part_size obj + acc) 0 rest).
    { clear - Hrest. revert Hrest. generalize (start + po_part_size obj).
      induction rest as [|o r IHr]; intros st Hr; simpl; [lia|].
      apply andb_true_iff in Hr as [Hr Hr2].
      apply andb_true_iff in Hr as [_ Hr1]. apply Z.leb_le in Hr1.
      specialize (IHr _ Hr2). lia. }
    simpl read_multipart_loop. rewrite Hoff.
    rewrite (int64_of_u64_small start) by lia.
    rewrite (int64_of_u64_small (po_part_size obj)) by lia.
    rewrite (int64_of_u64_small (start + po_part_size obj - 1)) by lia.
    destruct (start + po_part_size obj - 1 <? off) eqn:Hbefore.
    + apply Z.ltb_lt in Hbefore.
      apply (IH (start + po_part_size obj) cursor Hrest); lia.
    + apply Z.ltb_ge in Hbefore.
      rewrite (int64_of_u64_small (cursor - start)) by lia.
      pose proof (Hok obj (cursor - start)
                    (if start + po_part_size obj - 1 <? end_
                     then po_part_size obj - 1 else end_ - start)) as Hrc.
      apply Z.ltb_ge in Hrc. rewrite Hrc.
      assert (Hcs : cursor <= start + po_part_size obj) by lia.
      destruct (start + po_part_size obj - 1 <? end_) eqn:Hend.
      * apply Z.ltb_lt in Hend.
        assert (Hgt : (start + po_part_size obj - 1 + 1 >? end_) = false)
          by (rewrite Z.gtb_ltb; apply Z.ltb_ge; lia).
        rewrite Hgt.
        destruct (IH (start + po_part_size obj)
                     (start + po_part_size obj - 1 + 1) Hrest)
          as (Hf & Hb & Hall); try lia.
        destruct (read_multipart_loop read_mobj rest off end_
                    (start + po_part_size obj - 1 + 1)) as [rc reads].
        simpl in Hf, Hb, Hall. split; [exact Hf|]. split.
        -- simpl. unfold bytes_read in *. simpl. rewrite Hb, Hoff.
           assert (E : seqZ cursor (end_ - cursor + 1)
                       = seqZ cursor (start + po_part_size obj - cursor)
                         ++ seqZ (cursor + (start + po_part_size obj - cursor))
                              (end_ - (start + po_part_size obj) + 1)).
           { rewrite <- seqZ_app by lia. f_equal. lia. }
           rewrite E. f_equal; f_equal; lia.
        -- simpl. constructor; [lia|exact Hall].
      * apply Z.ltb_ge in Hend.
        assert (Hgt : (start + po_part_size obj - 1 + 1 >? end_) = true)
          by (rewrite Z.gtb_ltb; apply Z.ltb_lt; lia).
        rewrite Hgt. simpl. split; [reflexivity|]. split.
        -- unfold bytes_read. simpl. rewrite app_nil_r, Hoff.
           f_equal; lia.
        -- constructor; [lia|constructor].
Qed.

(** X2: a ranged read of a multipart object whose parts lie one after the
    other from offset 0 and add up to less than 2^63 bytes reads exactly the
    bytes [off .. end] of the whole object, in order and each byte once,
    through reads that stay inside their parts, and returns 0 when every
    part read succeeds. *)
Theorem read_multipart_obj_covers (read_mobj : MotrPartObject -> Z -> Z -> Z)
    (part_objs : list MotrPartObject) (off end_ : Z) :
  (forall obj s e, 0 <= read_mobj obj s e) ->
  consecutive_from 0 part_objs = true ->
  0 <= off <= end_ ->
  end_ < fold_right (fun obj acc => po_part_size obj + acc) 0 part_objs ->
  fold_right (fun obj acc => po_part_size obj + acc) 0 part_objs < 2 ^ 63 ->
  fst (read_multipart_obj read_mobj part_objs off end_) = 0
  /\ bytes_read (snd (read_multipart_obj read_mobj part_objs off end_))
     = seqZ off (end_ - off + 1)
  /\ Forall (fun r => let '(obj, s, e) := r in
                      0 <= s /\ e < po_part_size obj /\ s <= e + 1)
            (snd (read_multipart_obj read_mobj part_objs off end_)).
Proof.
  intros Hok Hc Hoff Htot Hmax. unfold read_multipart_obj.
  apply (read_multipart_loop_covers read_mobj part_objs 0 off end_ off);
    try assumption; lia.
Qed.

(** *** Index keys (lines 3726-3733) *)

Lemma get_key_str_eq (o : MotrObject) :
  get_key_str o = (name o ++ SEP ++ key_instance_of o)%string.
Proof.
  unfold get_key_str, key_instance_of, have_instance, have_null_instance.
  destruct (String.eqb (instance o) "null") eqn:En.
  - rewrite orb_true_r. reflexivity.
  - rewrite orb_false_r.
    destruct (String.eqb (instance o) "") eqn:Ee; simpl; [|reflexivity].
    apply String.eqb_eq in Ee. rewrite Ee. reflexivity.
Qed.

(** X3: the index key of an object tells its name and its version: two
    objects whose names hold no separator byte have the same key exactly
    when they have the same name and the same instance, the empty instance
    and the instance [null] counting as one (the null version). *)
Theorem get_key_str_identifies (o1 o2 : MotrObject) :
  has_sep (name o1) = false -> has_sep (name o2) = false ->
  (get_key_str o1 = get_key_str o2
   <-> name o1 = name o2 /\ key_instance_of o1 = key_instance_of o2).
Proof.
  intros H1 H2. rewrite !get_key_str_eq. split.
  - intros H. pose proof (sep_split_unique _ _ _ _ H H1 H2) as Hn.
    split; [exact Hn|]. rewrite Hn in H.
    apply string_app_inv_head, string_app_inv_head in H. exact H.
  - intros [-> ->]. reflexivity.
Qed.

(** *** Bucket statistics (lines 200-227) *)

(** X4: adding an object to the statistics of a bucket and subtracting the
    same amounts again gives back the counters of the header, reduced
    modulo 2^64 (so unchanged when they are 64-bit values), and changes no
    other category. *)
Theorem update_bucket_stats_add_sub (owner_ b : string) (sz asz n : Z)
    (w w1 w2 : world) :
  update_bucket_stats owner_ b sz asz n true w = (Ret 0, w1) ->
  update_bucket_stats owner_ b sz asz n false w1 = (Ret 0, w2) ->
  exists t h tl h2,
    indices w !! ("motr.rgw.user.stats." ++ owner_)%string = Some t
    /\ idx_lookup b t = Some (enc_dir_header h :: tl)
    /\ (indices w2 !! ("motr.rgw.user.stats." ++ owner_)%string)
         ≫= idx_lookup b = Some [enc_dir_header h2]
    /\ num_entries (stats_at h2 Main) = num_entries (stats_at h Main) mod 2 ^ 64
    /\ total_size (stats_at h2 Main) = total_size (stats_at h Main) mod 2 ^ 64
    /\ actual_size (stats_at h2 Main) = actual_size (stats_at h Main) mod 2 ^ 64
    /\ forall c, c <> Main -> stats h2 !! c = stats h !! c.
Proof.
  intros H1 H2.
  destruct (update_bucket_stats_ok _ _ _ _ _ _ _ _ H1)
    as (t & h & tl & Ht & Hl & ->).
  destruct (update_bucket_stats_ok _ _ _ _ _ _ _ _ H2)
    as (t' & h' & tl' & Ht' & Hl' & ->).
  cbn [indices set_indices] in Ht'. rewrite lookup_insert_eq in Ht'.
  injection Ht' as <-. rewrite idx_lookup_insert in Hl'.
  injection Hl' as <- <-.
  exists t, h, tl. eexists. split; [exact Ht|]. split; [exact Hl|].
  split.
  { cbn [indices set_indices]. rewrite lookup_insert_eq. simpl.
    rewrite idx_lookup_insert. reflexivity. }
  assert (Hinv : forall a d, ((a + d) mod 2 ^ 64 - d) mod 2 ^ 64 = a mod 2 ^ 64).
  { intros a d. rewrite Zminus_mod_idemp_l. f_equal. lia. }
  unfold updated_header, stats_at. cbn [stats].
  rewrite !lookup_insert_eq.
  cbn [default from_option id total_size num_entries actual_size].
  rewrite !Hinv. repeat split.
  intros c Hc. rewrite !lookup_insert_ne by congruence. reflexivity.
Qed.

(** *** Range queries (lines 6032-6113) *)

Lemma m0_idx_next_cases (iname start : string) (n : nat) (w : world) :
  exists rc batch,
    m0_idx_next iname start n w = (Ret (rc, batch), w)
    /\ (rc < 0
        \/ (rc = Z.of_nat (List.length batch) /\ (List.length batch <= n)%nat
            /\ exists t, indices w !! iname = Some t /\ incl batch t)).
Proof.
  unfold m0_idx_next.
  destruct (m0_errno w (call_idx iname M0_IC_NEXT start)) as [|p] eqn:He.
  - destruct (indices w !! iname) as [t|] eqn:Hi.
    + do 2 eexists. split; [reflexivity|]. right.
      split; [reflexivity|]. unfold idx_next. split.
      * rewrite length_firstn. lia.
      * exists t. split; [reflexivity|]. intros kv Hin.
        assert (Hf : In kv (List.filter
                              (fun kv => String.leb start (fst kv)) t)).
        { rewrite <- (firstn_skipn n). apply in_or_app. left. exact Hin. }
        apply filter_In in Hf. tauto.
    + do 2 eexists. split; [reflexivity|]. left. unfold ENOENT. lia.
  - do 2 eexists. split; [reflexivity|]. left. lia.
Qed.

Lemma firstn_combine_split {A B} (l : list (A * B)) (r1 : list A) (r2 : list B) :
  firstn (List.length l) (combine (map fst l ++ r1) (map snd l ++ r2)) = l.
Proof.
  induction l as [|[a b] l IH]; simpl; [reflexivity|]. f_equal. exact IH.
Qed.

Lemma next_query_copy_spec (prefix : string) (batch acc : m0_index) :
  exists taken rest,
    batch = taken ++ rest
    /\ snd (next_query_copy prefix batch acc) = acc ++ taken
    /\ Forall (fun kv => has_prefix prefix (fst kv) = true) taken
    /\ (fst (next_query_copy prefix batch acc) = true -> rest = []).
Proof.
  revert acc. induction batch as [|[k v] batch IH]; intros acc; simpl.
  - exists [], []. repeat split; rewrite ?app_nil_r; auto.
  - destruct (has_prefix prefix k) eqn:Hp; simpl.
    + destruct (IH (acc ++ [(k, v)])) as (taken & rest & -> & Hs & Hf & Hw).
      exists ((k, v) :: taken), rest. rewrite Hs, <- app_assoc.
      repeat split; auto.
    + exists [], ((k, v) :: batch).
      repeat split; rewrite ?app_nil_r; auto. discriminate.
Qed.

Lemma next_query_loop_spec (iname prefix : string) (total nr_kvp : nat)
    (w : world) (fuel : nat) :
  forall (nr : nat) (key0 : string) (acc : m0_index),
    (total - List.length acc < fuel)%nat ->
    (nr <= nr_kvp)%nat -> (List.length acc + nr <= total)%nat ->
    Forall (fun kv => has_prefix prefix (fst kv) = true
                      /\ exists t, indices w !! iname = Some t /\ In kv t) acc ->
    exists rc acc',
      next_query_loop fuel iname prefix total nr_kvp nr key0 acc w
      = (Ret (rc, acc'), w)
      /\ (List.length acc' <= total)%nat
      /\ Forall (fun kv => has_prefix prefix (fst kv) = true
                           /\ exists t, indices w !! iname = Some t /\ In kv t)
                acc'.
Proof.
  induction fuel as [|fuel IH]; intros nr key0 acc Hfuel Hnr Hlen Hacc; [lia|].
  simpl. destruct (List.length acc <? total)%nat eqn:El; cbn [negb].
  2:{ exists 0, acc. split; [reflexivity|]. split; [lia|exact Hacc]. }
  apply Nat.ltb_lt in El. rewrite bind_eq.
  destruct (m0_idx_next_cases iname key0 nr w) as (rc & batch & -> & Hb).
  cbn beta iota.
  destruct (rc <? 0) eqn:Eneg.
  { exists rc, acc. split; [reflexivity|]. split; [lia|exact Hacc]. }
  apply Z.ltb_ge in Eneg.
  destruct Hb as [Hb|(Hrc & Hbl & t & Ht & Hincl)]; [lia|].
  destruct (rc =? 0) eqn:E0.
  { exists rc, acc. split; [reflexivity|]. split; [lia|exact Hacc]. }
  apply Z.eqb_neq in E0.
  destruct (next_query_copy_spec prefix batch acc)
    as (taken & rest & Hbatch & Hs & Hf & Hw).
  destruct (next_query_copy prefix batch acc) as [whole acc'] eqn:Ec.
  cbn [fst snd] in Hs, Hw. subst acc'.
  assert (Hlt : (List.length taken <= List.length batch)%nat).
  { rewrite Hbatch, length_app. lia. }
  assert (Hacc' : Forall (fun kv => has_prefix prefix (fst kv) = true
                      /\ exists t, indices w !! iname = Some t /\ In kv t)
                    (acc ++ taken)).
  { apply Forall_app. split; [exact Hacc|].
    rewrite List.Forall_forall in Hf |- *. intros kv Hin. split; [auto|].
    exists t. split; [exact Ht|]. apply Hincl. rewrite Hbatch.
    apply in_or_app. left. exact Hin. }
  assert (Hlen' : (List.length (acc ++ taken) <= total)%nat).
  { rewrite length_app. lia. }
  destruct whole; cbn [negb].
  2:{ exists rc, (acc ++ taken). auto. }
  destruct (Z.to_nat rc <? nr_kvp)%nat eqn:Er.
  { exists rc, (acc ++ taken). auto. }
  apply Nat.ltb_ge in Er.
  rewrite (Hw eq_refl), app_nil_r in Hbatch. subst taken.
  apply IH; [| |rewrite length_app in *|exact Hacc'].
  - rewrite length_app. lia.
  - destruct (_ <? _)%nat eqn:Ek; [apply Nat.ltb_lt in Ek|]; lia.
  - destruct (_ <? _)%nat eqn:Ek; [apply Nat.ltb_lt in Ek|apply Nat.ltb_ge in Ek];
      rewrite ?length_app in *; lia.
Qed.

(** X5: a range query for at least one pair always returns, and leaves the
    store as it is.  Its two output vectors keep their size [max]; when the
    result [rc] is not negative it is at most [max], and the first [rc]
    slots hold pairs of the index whose keys start with the prefix asked
    for. *)
Theorem next_query_by_name_result (iname key0 : string) (max : nat)
    (prefix : string) (w : world) :
  (0 < max)%nat ->
  exists rc key_out val_out,
    next_query_by_name iname key0 max prefix w = (Ret (rc, key_out, val_out), w)
    /\ List.length key_out = max /\ List.length val_out = max
    /\ rc <= Z.of_nat max
    /\ (0 <= rc ->
        Forall (fun kv => has_prefix prefix (fst kv) = true
                          /\ exists t, indices w !! iname = Some t /\ In kv t)
               (firstn (Z.to_nat rc) (combine key_out val_out))).
Proof.
  intros Hmax.
  unfold next_query_by_name. rewrite bind_eq.
  destruct (next_query_loop_spec iname prefix max (Nat.min max 100) w (S max)
              (Nat.min max 100) key0 [])
    as (rc & acc & -> & Hlen & Hacc); simpl; try lia; [constructor|].
  cbn beta iota. do 3 eexists. split; [reflexivity|].
  assert (Hk : List.length
                 match acc with
                 | [] => firstn max (key0 :: repeat ""%string (max - 1))
                 | _ :: _ => map fst acc ++ repeat ""%string (max - List.length acc)
                 end = max).
  { destruct acc as [|kv acc].
    - rewrite length_firstn. simpl. rewrite repeat_length. lia.
    - rewrite length_app, length_map, repeat_length. lia. }
  split; [exact Hk|]. split.
  { rewrite length_app, length_map, repeat_length. lia. }
  destruct (rc <? 0) eqn:Eneg.
  { apply Z.ltb_lt in Eneg. split; [lia|]. intros; lia. }
  split; [lia|]. intros _. rewrite Nat2Z.id.
  destruct acc as [|kv acc]; [constructor|].
  rewrite firstn_combine_split. exact Hacc.
Qed.

Lemma next_query_by_name_val_length (iname key0 : string) (max : nat)
    (prefix : string) (w w' : world) (rc : Z) (ks : list string)
    (vs : list bufferlist) :
  next_query_by_name iname key0 max prefix w = (Ret (rc, ks, vs), w') ->
  List.length vs = max.
Proof.
  unfold next_query_by_name. rewrite bind_eq.
  destruct (next_query_loop_spec iname prefix max (Nat.min max 100) w (S max)
              (Nat.min max 100) key0 [])
    as (rc0 & acc & -> & Hlen & _); simpl; try lia; [constructor|].
  cbn beta iota. intros H. injection H as _ _ <- _.
  rewrite length_app, length_map, repeat_length. lia.
Qed.

(** *** Listing the parts of an upload (lines 4689-4783) *)

Lemma parts_emplace_in (k : Z) (p : MotrMultipartPart)
    (m : list (Z * MotrMultipartPart)) (x : Z * MotrMultipartPart) :
  In x (parts_emplace k p m) -> x = (k, p) \/ In x m.
Proof.
  induction m as [|[k' p'] m IH]; simpl.
  - intros [H|[]]; auto.
  - destruct (k <? k'); [|destruct (k =? k')]; simpl; intuition.
Qed.

Lemma parts_emplace_key (k : Z) (p : MotrMultipartPart)
    (m : list (Z * MotrMultipartPart)) :
  In k (map fst (parts_emplace k p m)).
Proof.
  induction m as [|[k' p'] m IH]; simpl; [auto|].
  destruct (k <? k'); [simpl; auto|].
  destruct (k =? k') eqn:E; simpl; [|auto].
  apply Z.eqb_eq in E. auto.
Qed.

Lemma parts_emplace_keeps (k : Z) (p : MotrMultipartPart)
    (m : list (Z * MotrMultipartPart)) (x : Z * MotrMultipartPart) :
  In x m -> In x (parts_emplace k p m).
Proof.
  induction m as [|[k' p'] m IH]; simpl; [tauto|].
  destruct (k <? k'); [|destruct (k =? k')]; simpl; intuition.
Qed.

Lemma parts_emplace_length (k : Z) (p : MotrMultipartPart)
    (m : list (Z * MotrMultipartPart)) :
  (List.length (parts_emplace k p m) <= S (List.length m))%nat.
Proof.
  induction m as [|[k' p'] m IH]; simpl; [lia|].
  destruct (k <? k'); [|destruct (k =? k')]; simpl; lia.
Qed.

Lemma parts_emplace_sorted (k : Z) (p : MotrMultipartPart)
    (m : list (Z * MotrMultipartPart)) :
  StronglySorted Z.lt (map fst m) ->
  StronglySorted Z.lt (map fst (parts_emplace k p m)).
Proof.
  induction m as [|[k' p'] m IH]; simpl; intros Hs.
  - repeat constructor.
  - apply StronglySorted_inv in Hs. destruct Hs as [Hs Hall].
    destruct (k <? k') eqn:Elt.
    + apply Z.ltb_lt in Elt. simpl. constructor.
      * constructor; assumption.
      * constructor; [exact Elt|].
        rewrite List.Forall_forall in Hall |- *. intros y Hy.
        specialize (Hall y Hy). lia.
    + apply Z.ltb_ge in Elt. destruct (k =? k') eqn:Eeq.
      * simpl. constructor; assumption.
      * apply Z.eqb_neq in Eeq. simpl. constructor; [auto|].
        rewrite List.Forall_forall in Hall |- *. intros y Hy.
        apply in_map_iff in Hy. destruct Hy as (x & <- & Hx).
        apply parts_emplace_in in Hx. destruct Hx as [->|Hx].
        -- simpl. lia.
        -- apply Hall. apply in_map. exact Hx.
Qed.

Lemma int_of_u32_u32 (x : Z) : int_of_u32 (u32 x) = int_of_u32 x.
Proof. unfold int_of_u32, u32. rewrite Zmod_mod. reflexivity. Qed.

Lemma list_parts_loop_listed (vals : list bufferlist) (marker : Z) :
  forall (ln pc : Z) (ps : list (Z * MotrMultipartPart)) (w w' : world)
         (ln' pc' : Z) (ps' : list (Z * MotrMultipartPart)),
    list_parts_loop vals marker ln pc ps w = (Ret (ln', pc', ps'), w') ->
    parts_listed marker ln ps ->
    parts_listed marker ln' ps'
    /\ (List.length ps' <= List.length ps + List.length vals)%nat
    /\ pc <= pc' <= pc + Z.of_nat (List.length vals).
Proof.
  induction vals as [|bl vals IH]; intros ln pc ps w w' ln' pc' ps' H Hinv.
  - simpl in H. injection H as <- <- <- _. simpl. split; [exact Hinv|]. lia.
  - cbn [list_parts_loop] in H.
    destruct (List.length bl =? 0)%nat.
    { injection H as <- <- <- _. split; [exact Hinv|]. simpl. lia. }
    rewrite bind_eq in H.
    destruct (decode_part_info bl w) as [[[pinfo it1]|e] w1]; [|discriminate H].
    cbn beta iota in H. rewrite bind_eq in H.
    destruct (decode_attrs it1 w1) as [[[a it2]|e] w2]; [|discriminate H].
    cbn beta iota in H. rewrite bind_eq in H.
    destruct (decode_meta entry_meta_as_motr_meta it2 w2)
      as [[[pmeta it3]|e] w3]; [|discriminate H].
    cbn beta iota in H.
    destruct (int_of_u32 (num pinfo) >? marker) eqn:Egt.
    + apply IH in H.
      * destruct H as (Hl & Hlen & Hpc). split; [exact Hl|].
        pose proof (parts_emplace_length (u32 (num pinfo))
                      {| part_info := pinfo; part_meta := pmeta |} ps).
        cbn [List.length]. lia.
      * rewrite Z.gtb_ltb in Egt. apply Z.ltb_lt in Egt.
        destruct Hinv as (Hs & Hall & _). split; [|split].
        -- apply parts_emplace_sorted. exact Hs.
        -- rewrite List.Forall_forall in Hall |- *. intros x Hx.
           apply parts_emplace_in in Hx. destruct Hx as [->|Hx]; [|auto].
           cbn [fst snd part_info]. rewrite int_of_u32_u32. auto.
        -- right. split; [exact Egt|].
           pose proof (parts_emplace_key (u32 (num pinfo))
                         {| part_info := pinfo; part_meta := pmeta |} ps) as Hk.
           apply in_map_iff in Hk. destruct Hk as (kp & Hkp & Hin).
           exists kp. split; [exact Hin|]. rewrite Hkp. apply int_of_u32_u32.
    + apply IH in H; [|exact Hinv].
      destruct H as (Hl & Hlen & Hpc). split; [exact Hl|].
      cbn [List.length]. lia.
Qed.

Lemma list_parts_listed (u u' : MotrMultipartUpload)
    (num_parts marker nm nm' rc : Z) (tr tr' : bool) (w w' : world) :
  0 < num_parts -> 0 <= marker ->
  list_parts u num_parts marker nm tr w = (Ret (rc, nm', tr', u'), w') ->
  0 <= rc ->
  Z.of_nat (List.length (parts u')) <= num_parts
  /\ parts_listed marker nm' (parts u').
Proof.
  intros Hn Hm H Hrc. unfold list_parts in H.
  replace ((num_parts <=? 0) || (marker <? 0)) with false in H.
  2:{ symmetry. apply orb_false_intro; [apply Z.leb_gt|apply Z.ltb_ge]; lia. }
  rewrite bind_eq in H.
  match type of H with
  | context [match ?m w with _ => _ end] => destruct (m w) as [[[rc0 up]|e] w0]
  end; [|discriminate H].
  cbn beta iota in H.
  destruct (rc0 <? 0) eqn:E0.
  { apply Z.ltb_lt in E0. injection H as <- _ _ _ _. lia. }
  rewrite bind_eq in H.
  destruct (next_query_by_name _ _ _ _ w0) as [[[[rc1 ks] vs]|e] w1] eqn:Eq;
    [|discriminate H].
  cbn beta iota in H.
  destruct (rc1 <? 0) eqn:E1.
  { apply Z.ltb_lt in E1. injection H as <- _ _ _ _. lia. }
  rewrite bind_eq in H.
  destruct (list_parts_loop vs marker 0 0 [] w1) as [[[[ln pc] ps]|e] w2] eqn:El;
    [|discriminate H].
  injection H as _ <- _ <- _. cbn [parts set_parts].
  apply next_query_by_name_val_length in Eq.
  apply list_parts_loop_listed in El.
  - destruct El as (Hl & Hlen & _).
    split; [cbn [List.length] in Hlen; lia|exact Hl].
  - split; [constructor|]. split; [constructor|]. left. auto.
Qed.

(** X6: a listing of parts that goes through never returns more than
    [num_parts] parts; the part numbers it returns are strictly ascending,
    each above the marker, and each the number stored in its record; and
    the next marker is 0 with an empty result, and otherwise above the
    marker and the number of one of the parts returned. *)
Theorem list_parts_bounds (u u' : MotrMultipartUpload)
    (num_parts marker nm nm' rc : Z) (tr tr' : bool) (w w' : world) :
  0 < num_parts -> 0 <= marker ->
  list_parts u num_parts marker nm tr w = (Ret (rc, nm', tr', u'), w') ->
  0 <= rc ->
  Z.of_nat (List.length (parts u')) <= num_parts
  /\ StronglySorted Z.lt (map fst (parts u'))
  /\ Forall (fun kp => marker < int_of_u32 (fst kp)
                       /\ fst kp = u32 (num (part_info (snd kp)))) (parts u')
  /\ ((parts u' = [] /\ nm' = 0)
      \/ (marker < nm'
          /\ exists kp, In kp (parts u') /\ int_of_u32 (fst kp) = nm')).
Proof.
  intros Hn Hm H Hrc.
  destruct (list_parts_listed _ _ _ _ _ _ _ _ _ _ _ Hn Hm H Hrc)
    as (Hlen & Hs & Hall & Hlast).
  auto.
Qed.

(** *** PUT followed by GET (lines 4291-4422, 3785-3845) *)

Lemma open_mobj_key (o o' : MotrObject) (rc : Z) (w w' : world) :
  open_mobj o w = (Ret (rc, o'), w') ->
  instance o' = instance o /\ name o' = name o /\ bucket o' = bucket o.
Proof.
  unfold open_mobj. rewrite bind_eq. intros H.
  destruct (layout_id (meta o) =? 0) eqn:El.
  - rewrite bind_eq in H.
    destruct (get_bucket_dir_ent o rgw_bucket_dir_entry_default w)
      as [[[[rc0 e0] o0]|e] w0] eqn:Eg; [|discriminate H].
    apply get_bucket_dir_ent_key in Eg. destruct Eg as (Hi & Hn & Hb & _).
    mcases H; injection H as _ <- _; cbn; auto.
  - mcases H; injection H as _ <- _; cbn; auto.
Qed.

Lemma write_last_ok (wr wr' : MotrAtomicWriter) (fresh : MotrObjectMeta)
    (w w' : world) :
  write_last wr fresh w = (Ret (0, wr'), w') ->
  instance (aw_obj wr') = instance (aw_obj wr)
  /\ name (aw_obj wr') = name (aw_obj wr)
  /\ bucket (aw_obj wr') = bucket (aw_obj wr)
  /\ aw_owner wr' = aw_owner wr
  /\ total_data_size wr' = u64 (total_data_size wr + acc_data_length wr).
Proof.
  unfold write_last. rewrite bind_eq. intros H.
  match type of H with
  | context [match ?m w with _ => _ end] =>
      destruct (m w) as [[[rc0 obj]|e] w0] eqn:E0; [|discriminate H]
  end.
  assert (Hobj : rc0 = 0 -> instance obj = instance (aw_obj wr)
                 /\ name obj = name (aw_obj wr)
                 /\ bucket obj = bucket (aw_obj wr)).
  { intros ->. destruct (mobj (aw_obj wr)); cbn [negb] in E0.
    - injection E0 as <- _. auto.
    - rewrite bind_eq in E0.
      destruct (m0_entity_create (oid fresh) w) as [[rc1|e] w1];
        [|discriminate E0].
      cbn beta iota in E0.
      destruct (rc1 =? - EEXIST).
      + apply open_mobj_key in E0. exact E0.
      + destruct (negb (rc1 =? 0));
          [injection E0 as _ <- _|injection E0 as <- _]; cbn; auto. }
  cbn beta iota zeta in H.
  destruct (rc0 =? 0) eqn:Erc; cbn [negb] in H.
  2:{ injection H as H _ _. apply Z.eqb_neq in Erc. congruence. }
  apply Z.eqb_eq in Erc. specialize (Hobj Erc).
  rewrite bind_eq in H.
  match type of H with
  | context [match ?m w0 with _ => _ end] =>
      destruct (m w0) as [[rc2|e] w2]; [|discriminate H]
  end.
  cbn beta iota in H.
  destruct (rc2 =? 0) eqn:Erc2; cbn [negb] in H.
  2:{ injection H as H _ _. apply Z.eqb_neq in Erc2. congruence. }
  injection H as <- _. cbn. tauto.
Qed.

(** A successful [complete_write_index] has put the record of the object
    in the bucket index and, when the cache is in use, in the cache. *)
Lemma complete_write_index_ok (fuel : nat) (wr wr1 : MotrAtomicWriter)
    (fresh : MotrObjectMeta) (etag_ : string) (set_mtime : Z) (attrs_ : Attrs)
    (user_data_ : option string) (now sr : Z) (w w1 : world) :
  complete_write_index fuel wr fresh etag_ set_mtime attrs_ user_data_ now w
  = (Ret (0, sr, wr1), w1) ->
  exists ent a t,
    (instance (aw_obj wr1) = instance (aw_obj wr)
     /\ name (aw_obj wr1) = name (aw_obj wr)
     /\ bucket (aw_obj wr1) = bucket (aw_obj wr)
     /\ aw_owner wr1 = aw_owner wr
     /\ total_data_size wr1
        = if acc_data_length wr =? 0 then total_data_size wr
          else u64 (total_data_size wr + acc_data_length wr))
    /\ (key_name ent = name (aw_obj wr1)
        /\ key_instance ent = instance (aw_obj wr1)
        /\ size ent = total_data_size wr1
        /\ accounted_size ent = total_data_size wr1
        /\ etag ent = etag_ /\ owner ent = aw_owner wr1
        /\ mtime ent = if set_mtime =? 0 then now else set_mtime)
    /\ (forall k v, attrs_ !! k = Some v -> a !! k = Some v)
    /\ indices w1 !! bucket_index_iname (aw_obj wr1)
       = Some (idx_insert (get_key_str (aw_obj wr1))
                 [enc_dir_entry ent; enc_attrs a; enc_meta (meta (aw_obj wr1))] t)
    /\ (use_metadata_cache (conf w1) = true ->
        obj_meta_cache w1 !! get_key_str (aw_obj wr1)
        = Some [enc_dir_entry ent; enc_attrs a; enc_meta (meta (aw_obj wr1))])
    /\ sr = if negb (size ent =? 0)
            then Layout.roundup (size ent) (get_unit_sz (aw_obj wr1)) else 0.
Proof.
  unfold complete_write_index. rewrite bind_eq. intros H.
  match type of H with
  | context [match ?m w with _ => _ end] =>
      destruct (m w) as [[[rc0 wr0]|e] w0] eqn:E0; [|discriminate H]
  end.
  cbn beta iota zeta in H.
  destruct (rc0 =? 0) eqn:Erc; cbn [negb] in H.
  2:{ injection H as H _ _ _. apply Z.eqb_neq in Erc. congruence. }
  apply Z.eqb_eq in Erc. subst rc0.
  assert (Hwr : instance (aw_obj wr0) = instance (aw_obj wr)
                /\ name (aw_obj wr0) = name (aw_obj wr)
                /\ bucket (aw_obj wr0) = bucket (aw_obj wr)
                /\ aw_owner wr0 = aw_owner wr
                /\ total_data_size wr0
                   = if acc_data_length wr =? 0 then total_data_size wr
                     else u64 (total_data_size wr + acc_data_length wr)).
  { destruct (acc_data_length wr =? 0); cbn [negb] in E0.
    - injection E0 as <- _. auto.
    - rewrite bind_eq in E0.
      destruct (write_last wr fresh w) as [[[rc1 wr2]|e] w2] eqn:Ew;
        [|discriminate E0].
      injection E0 as -> <- _. apply write_last_ok in Ew. cbn. exact Ew. }
  clear E0.
  match type of H with context [enc_dir_entry ?e] => set (ent := e) in H end.
  match type of H with context [enc_attrs ?x] => set (a := x) in H end.
  rewrite bind_eq in H.
  match type of H with
  | context [match ?m w0 with _ => _ end] =>
      destruct (m w0) as [[rc1|e] w2]; [|discriminate H]
  end.
  cbn beta iota in H.
  destruct (rc1 <? 0) eqn:Erc1.
  { injection H as H _ _ _. apply Z.ltb_lt in Erc1. lia. }
  rewrite bind_eq in H.
  match type of H with
  | context [match ?m w2 with _ => _ end] =>
      destruct (m w2) as [[rc3|e] w3]; [|discriminate H]
  end.
  cbn beta iota in H.
  destruct (rc3 <? 0) eqn:Erc3.
  { injection H as H _ _ _. apply Z.ltb_lt in Erc3. lia. }
  rewrite bind_eq in H.
  match type of H with
  | context [do_idx_op_by_name ?i ?o ?k ?b ?u w3] =>
      destruct (do_idx_op_by_name i o k b u w3) as [[[rc4 v4]|e] w4] eqn:Ep;
        [|discriminate H]
  end.
  cbn beta iota in H.
  destruct (rc4 =? 0) eqn:Erc4; cbn [negb] in H.
  2:{ injection H as H _ _ _. apply Z.eqb_neq in Erc4. congruence. }
  apply Z.eqb_eq in Erc4. subst rc4.
  apply do_idx_op_put_ok in Ep. destruct Ep as (t & Ht & ->).
  rewrite bind_eq in H.
  unfold MotrMetaCache_put, ObjectCache_put in H. rewrite bind_eq in H.
  cbn [conf set_indices] in H.
  set (bl := [enc_dir_entry ent; enc_attrs a; enc_meta (meta (aw_obj wr0))])
    in *.
  assert (Hres : exists c,
             w1 = set_cache (set_indices w3
                    (<[bucket_index_iname (aw_obj wr0)
                       := idx_insert (get_key_str (aw_obj wr0)) bl t]>
                       (indices w3))) c
             /\ (use_metadata_cache (conf w3) = true ->
                 c !! get_key_str (aw_obj wr0) = Some bl)
             /\ wr1 = wr0
             /\ sr = if negb (size ent =? 0)
                     then Layout.roundup (size ent) (get_unit_sz (aw_obj wr0))
                     else 0).
  { destruct (use_metadata_cache (conf w3)) eqn:Ec;
      injection H as Hsr <- <-; eexists; (split; [reflexivity|]);
      (split; [|split; [reflexivity|symmetry; exact Hsr]]).
    - intros _. apply lookup_insert_eq.
    - intros Hc. discriminate Hc. }
  clear H. destruct Hres as (c & -> & Hc & -> & ->).
  exists ent, a, t.
  split; [exact Hwr|]. split; [cbn; repeat split; reflexivity|].
  split.
  { intros k v Hk. unfold a.
    destruct (obj_lock_retention (info (bucket (aw_obj wr0)))) as [f|];
      [|exact Hk].
    destruct (attrs_ !! RGW_ATTR_OBJECT_RETENTION) eqn:Er; [exact Hk|].
    unfold Attrs in *. rewrite lookup_insert_ne; [exact Hk|].
    intros <-. congruence. }
  split; [cbn [indices set_indices set_cache]; apply lookup_insert_eq|].
  split; [exact Hc|reflexivity].
Qed.

(** A record under the key of [o], in the index and (with the cache in
    use) in the cache, is what [get_bucket_dir_ent] returns for a request
    that names an instance. *)
Lemma get_bucket_dir_ent_stored (o : MotrObject)
    (ent0 ent : rgw_bucket_dir_entry) (a : Attrs) (x : bl_item)
    (m : MotrObjectMeta) (t : m0_index) (w : world) :
  x = enc_meta m
  \/ (exists e, x = enc_dir_entry_meta e /\ m = entry_meta_as_motr_meta e) ->
  have_instance o = true ->
  key_name ent = name o -> key_instance ent = instance o ->
  indices w !! bucket_index_iname o = Some t ->
  idx_lookup (get_key_str o) t = Some [enc_dir_entry ent; enc_attrs a; x] ->
  (use_metadata_cache (conf w) = true ->
   obj_meta_cache w !! get_key_str o
   = Some [enc_dir_entry ent; enc_attrs a; x]) ->
  m0_errno w (call_idx (bucket_index_iname o) M0_IC_GET (get_key_str o)) = 0%N ->
  fst (get_bucket_dir_ent o ent0 w) = Ret (0, ent, set_meta (set_attrs o a) m).
Proof.
  intros Hx Hi Hn Hin Ht Hl Hc He. unfold get_bucket_dir_ent. rewrite Hi.
  cbv zeta. rewrite bind_eq. unfold MotrMetaCache_get at 1. rewrite bind_eq.
  unfold ObjectCache_get at 1.
  destruct (use_metadata_cache (conf w)) eqn:Ec.
  - unfold bufferlist in *. rewrite (Hc eq_refl).
    destruct Hx as [->|(e & -> & ->)]; reflexivity.
  - assert (Eget : do_idx_op_by_name (bucket_index_iname o) M0_IC_GET
                     (get_key_str o) [] true w
                   = (Ret (0, [enc_dir_entry ent; enc_attrs a; x]), w)).
    { unfold do_idx_op_by_name. rewrite bind_eq. unfold m0_idx_op.
      rewrite He, Ht, Hl. reflexivity. }
    assert (Hk : (if have_null_instance o
                  then set_key ent (key_name ent) "null" else ent) = ent).
    { unfold have_null_instance. destruct (String.eqb (instance o) "null") eqn:E;
        [|reflexivity].
      apply String.eqb_eq in E. rewrite E in Hin.
      destruct ent; cbn in *. subst. reflexivity. }
    cbn beta iota. replace (- ENOENT =? 0) with false by reflexivity.
    rewrite mret_eq. cbn beta iota.
    replace ((if - ENOENT =? - ENODATA then - ENOENT else - ENOENT) =? 0)
      with false by reflexivity.
    rewrite bind_eq, Eget. cbn beta iota.
    replace (0 <? 0) with false by reflexivity.
    unfold MotrMetaCache_put, ObjectCache_put, decode_dir_entry, decode_attrs,
      decode_meta.
    destruct Hx as [->|(e & -> & ->)];
      cbv beta iota delta [mbind M_bind bind mret M_ret ret throw];
      rewrite Ec; cbn [fst]; rewrite Hk; reflexivity.
Qed.

Lemma get_key_str_same (o1 o2 : MotrObject) :
  name o1 = name o2 -> instance o1 = instance o2 ->
  get_key_str o1 = get_key_str o2.
Proof.
  intros Hn Hi. unfold get_key_str, have_instance, have_null_instance.
  rewrite Hn, Hi. reflexivity.
Qed.


(** *** DELETE in a bucket without versioning (lines 2129-2228, 2266-2370) *)

Lemma idx_lookup_delete_ne (k key : string) (t : m0_index) :
  k <> key -> idx_lookup k (idx_delete key t) = idx_lookup k t.
Proof.
  intros Hne. unfold idx_delete. induction t as [|[k' v] t IH]; [reflexivity|].
  simpl. destruct (String.eqb key k') eqn:E; simpl.
  - apply String.eqb_eq in E. subst k'.
    apply String.eqb_neq in Hne. rewrite Hne. exact IH.
  - rewrite IH. reflexivity.
Qed.

(** X8: a DELETE that succeeds in a bucket without versioning removes the
    key of the object from the bucket index and leaves every other key of
    that index as it was; no object is created.  When the entry removed is
    a delete-marker no other index changes; otherwise the only other index
    that changes is the statistics index of the owner of the entry, where
    the header of the bucket loses the size of the entry and one object,
    modulo 2^64. *)
Theorem delete_obj_unversioned (fuel : nat) (source source' : MotrObject)
    (params : DeleteOp_params) (ms : Z) (buf : string) (now : Z)
    (result : DeleteOp_result) (w w' : world) :
  versioned (info (bucket source)) = false ->
  delete_obj fuel source params ms buf now w = (Ret (0, result, source'), w') ->
  let iname := bucket_index_iname source in
  let key := get_key_str source in
  exists rc0 ent src1 t,
    fst (get_bucket_dir_ent source rgw_bucket_dir_entry_default w)
    = Ret (rc0, ent, src1)
    /\ indices w !! iname = Some t
    /\ indices w' !! iname = Some (idx_delete key t)
    /\ idx_lookup key (idx_delete key t) = None
    /\ (forall k, k <> key -> idx_lookup k (idx_delete key t) = idx_lookup k t)
    /\ result = {| result_version_id := ""; result_delete_marker := false |}
    /\ objects w' ⊆ objects w
    /\ if is_delete_marker ent then only_indices [iname] w w'
       else
         let stats_iname := ("motr.rgw.user.stats." ++ owner ent)%string in
         only_indices [iname; stats_iname] w w'
         /\ exists ts h tl sr,
              indices w !! stats_iname = Some ts
              /\ idx_lookup (tenant_bkt_name source) ts
                 = Some (enc_dir_header h :: tl)
              /\ indices w' !! stats_iname
                 = Some (idx_insert (tenant_bkt_name source)
                           [enc_dir_header
                              (updated_header h (size ent) sr 1 false)] ts).
Proof.
  intros Hv H iname key. unfold delete_obj in H. rewrite bind_eq in H.
  destruct (get_bucket_dir_ent source rgw_bucket_dir_entry_default w)
    as [[[[rc0 ent] src1]|e] wa] eqn:Eg; [|discriminate H].
  pose proof (preserves_get_bucket_dir_ent objects_shrink _ _ _ _ _ Eg)
    as (Hia & _ & Hoa).
  destruct (get_bucket_dir_ent_key _ _ _ _ _ _ _ Eg) as (Ei & En & Eb & _).
  cbn beta iota zeta in H.
  destruct (rc0 <? 0) eqn:E0.
  { injection H as H _ _ _. apply Z.ltb_lt in E0. lia. }
  rewrite bind_eq in H.
  unfold MotrMetaCache_remove at 1, ObjectCache_invalidate_remove at 1 in H.
  rewrite bind_eq in H. cbn beta iota in H. rewrite mret_eq in H.
  cbn beta iota in H. rewrite Eb, Hv in H.
  rewrite bind_eq in H.
  assert (Ekey : get_key_str src1 = key) by (apply get_key_str_same; assumption).
  assert (Einame : bucket_index_iname src1 = iname).
  { unfold iname, bucket_index_iname, tenant_bkt_name. rewrite Eb. reflexivity. }
  assert (Ebn : tenant_bkt_name src1 = tenant_bkt_name source).
  { unfold tenant_bkt_name. rewrite Eb. reflexivity. }
  rewrite Ekey, Einame, Ebn in H.
  match type of H with
  | context [remove_mobj_and_index_entry ?f ?o ?e ?k ?i ?b ?wb] =>
      destruct (remove_mobj_and_index_entry f o e k i b wb)
        as [[[rc1 src2]|ex] wc] eqn:Er; [|discriminate H];
      set (wb0 := wb) in *
  end.
  cbn beta iota in H.
  destruct (rc1 <? 0) eqn:E1.
  { injection H as H _ _ _. apply Z.ltb_lt in E1. lia. }
  apply Z.ltb_ge in E1. injection H as <- <- <-.
  unfold remove_mobj_and_index_entry in Er. rewrite bind_eq in Er.
  destruct (remove_mobj_and_index_delete fuel src1 ent key iname
              (tenant_bkt_name source) wb0)
    as [[[[rc2 sr] o2]|ex] wd] eqn:Ed; [|discriminate Er].
  cbn beta iota in Er.
  destruct (rc2 <? 0) eqn:E2.
  { injection Er as <- _ _. apply Z.ltb_lt in E2. lia. }
  apply Z.ltb_ge in E2.
  destruct (remove_mobj_and_index_delete_split objects_shrink _ _ _ _ _ _ _ _ _
              _ _ Ed E2) as (w0 & v & (Hi0 & _ & Ho0) & Edel).
  destruct (do_idx_op_by_name_result _ _ _ _ _ _ _ _ Edel)
    as (rc2' & v' & Hr & Hle & _).
  injection Hr as <- <-. assert (rc2 = 0) by lia. subst rc2.
  destruct (do_idx_op_del_ok _ _ _ _ _ _ _ Edel) as (t & Ht & ->).
  assert (Hidx : indices w0 = indices w).
  { rewrite Hi0. unfold wb0. cbn [indices set_cache]. exact Hia. }
  assert (Hobj : objects w0 ⊆ objects w).
  { intros x Hx. apply Hoa. apply Ho0 in Hx. exact Hx. }
  rewrite Hidx in Ht.
  exists rc0, ent, src1, t. split; [reflexivity|]. split; [exact Ht|].
  destruct (is_delete_marker ent) eqn:Edm.
  - injection Er as _ _ <-. cbn [indices set_indices objects]. 
    rewrite Hidx. split; [apply lookup_insert_eq|].
    split; [apply idx_lookup_delete|].
    split; [intros k Hk; apply idx_lookup_delete_ne, Hk|].
    split; [reflexivity|]. split; [exact Hobj|].
    intros i Hi. cbn [indices set_indices].
    apply lookup_insert_ne. intros <-. apply Hi. left. reflexivity.
  - rewrite bind_eq in Er.
    match type of Er with
    | context [update_bucket_stats ?a ?b ?c ?d ?e ?f ?ww] =>
        destruct (update_bucket_stats a b c d e f ww) as [[rc3|ex] we] eqn:Es;
          [|discriminate Er]
    end.
    injection Er as <- _ <-.
    destruct (update_bucket_stats_failure _ _ _ _ _ _ _ _ _ Es) as (Hle3 & _).
    assert (rc3 = 0) by lia. subst rc3.
    destruct (update_bucket_stats_ok _ _ _ _ _ _ _ _ Es)
      as (ts & h & tl & Hts & Hl & ->).
    cbn [indices set_indices objects] in *. rewrite Hidx in *.
    pose proof (stats_iname_not_bucket_index (owner ent)
                  (tenant_bkt_name source)) as Hne.
    fold (bucket_index_iname source) in Hne. fold iname in Hne.
    rewrite lookup_insert_ne in Hts by congruence.
    split; [rewrite lookup_insert_ne by exact Hne; apply lookup_insert_eq|].
    split; [apply idx_lookup_delete|].
    split; [intros k Hk; apply idx_lookup_delete_ne, Hk|].
    split; [reflexivity|]. split; [exact Hobj|]. split.
    + intros i Hi. cbn [indices set_indices].
      rewrite lookup_insert_ne; [rewrite lookup_insert_ne; [reflexivity|]|].
      * intros <-. apply Hi. left. reflexivity.
      * intros <-. apply Hi. right. left. reflexivity.
    + exists ts, h, tl, sr. split; [exact Hts|]. split; [exact Hl|].
      apply lookup_insert_eq.
Qed.

(** *** DELETE in a bucket with versioning enabled (lines 2129-2264) *)

Lemma gen_rand_obj_instance_name_length (ms : Z) (buf : string) :
  (8 <= String.length (Base62.gen_rand_obj_instance_name ms buf))%nat.
Proof.
  unfold Base62.gen_rand_obj_instance_name, Base62.base62_encode. cbv zeta.
  rewrite string_length_app, string_length_of_list.
  change Base62.TS_LEN with 8%nat.
  destruct (_ <? 8)%nat eqn:E.
  - rewrite length_app, repeat_length. apply Nat.ltb_lt in E. lia.
  - apply Nat.ltb_ge in E. lia.
Qed.

Lemma get_key_str_instance (o : MotrObject) :
  (5 <= String.length (instance o))%nat ->
  have_instance o = true
  /\ get_key_str o = (name o ++ SEP ++ instance o)%string.
Proof.
  intros Hl. unfold get_key_str, have_instance, have_null_instance.
  destruct (String.eqb (instance o) "") eqn:E1.
  { apply String.eqb_eq in E1. rewrite E1 in Hl. simpl in Hl. lia. }
  destruct (String.eqb (instance o) "null") eqn:E2.
  { apply String.eqb_eq in E2. rewrite E2 in Hl. simpl in Hl. lia. }
  split; reflexivity.
Qed.

(** A [create_delete_marker] that goes through has put the record of the
    marker in the bucket index and, when the cache is in use, in the
    cache. *)
Lemma create_delete_marker_ok (source : MotrObject) (result : DeleteOp_result)
    (params : DeleteOp_params) (now rc : Z) (w w' : world) :
  create_delete_marker source result params now w = (Ret rc, w') ->
  0 <= rc ->
  exists marker t,
    (key_name marker = name source
     /\ key_instance marker = result_version_id result
     /\ mtime marker = (if params_mtime params =? 0 then now
                        else params_mtime params)
     /\ size marker = 0 /\ owner marker = obj_owner_id params
     /\ flags marker = Z.lor FLAG_DELETE_MARKER FLAG_CURRENT)
    /\ indices w !! bucket_index_iname source = Some t
    /\ indices w' !! bucket_index_iname source
       = Some (idx_insert (get_key_str source)
                 [enc_dir_entry marker; enc_attrs ∅; enc_dir_entry_meta marker] t)
    /\ (forall i, i <> bucket_index_iname source ->
                  indices w' !! i = indices w !! i)
    /\ (use_metadata_cache (conf w') = true ->
        obj_meta_cache w' !! get_key_str source
        = Some [enc_dir_entry marker; enc_attrs ∅; enc_dir_entry_meta marker])
    /\ objects w' = objects w /\ m0_errno w' = m0_errno w.
Proof.
  unfold create_delete_marker. rewrite bind_eq. intros H Hrc.
  match type of H with context [enc_dir_entry ?e] => set (marker := e) in H end.
  match type of H with
  | context [do_idx_op_by_name ?i ?o ?k ?b ?u w] =>
      destruct (do_idx_op_by_name i o k b u w) as [[[rc1 v1]|e] w1] eqn:Ep;
        [|discriminate H]
  end.
  cbn beta iota in H.
  destruct (do_idx_op_by_name_result _ _ _ _ _ _ _ _ Ep)
    as (rc1' & v1' & Hr & Hle & _).
  injection Hr as <- <-.
  destruct (rc1 <? 0) eqn:E1.
  { injection H as <- _. apply Z.ltb_lt in E1. lia. }
  apply Z.ltb_ge in E1. assert (rc1 = 0) by lia. subst rc1.
  apply do_idx_op_put_ok in Ep. destruct Ep as (t & Ht & ->).
  unfold MotrMetaCache_put, ObjectCache_put in H. rewrite !bind_eq in H.
  cbn [conf set_indices] in H.
  exists marker, t. split; [cbn; repeat split; reflexivity|].
  split; [exact Ht|].
  destruct (use_metadata_cache (conf w)) eqn:Ec; injection H as _ <-;
    cbn [indices set_indices set_cache obj_meta_cache conf objects m0_errno].
  - split; [apply lookup_insert_eq|].
    split; [intros i Hi; apply lookup_insert_ne; congruence|].
    split; [intros _; apply lookup_insert_eq|]. auto.
  - split; [apply lookup_insert_eq|].
    split; [intros i Hi; apply lookup_insert_ne; congruence|].
    split; [intros Hc; congruence|]. auto.
Qed.

(** *** Operations on the metadata only *)

Section Quiet.
Variable l : list string.

Lemma metadata_only_refl (w : world) : metadata_only l w w.
Proof. repeat split. Qed.

Lemma metadata_only_trans (w1 w2 w3 : world) :
  metadata_only l w1 w2 -> metadata_only l w2 w3 -> metadata_only l w1 w3.
Proof.
  intros (A1 & A2 & A3 & A4 & A5 & A6) (B1 & B2 & B3 & B4 & B5 & B6).
  repeat split; try congruence.
  intros i Hi. rewrite (B6 i Hi). apply A6, Hi.
Qed.

Lemma metadata_only_cache (w : world) (c : gmap string bufferlist) :
  metadata_only l w (set_cache w c).
Proof. repeat split. Qed.

Lemma metadata_only_write (w : world) (iname : string) (t : m0_index) :
  In iname l ->
  metadata_only l w (set_indices w (<[iname := t]> (indices w))).
Proof.
  intros Hin. repeat split. intros i Hi. cbn [indices set_indices].
  apply lookup_insert_ne. intros <-. contradiction.
Qed.

Lemma quiet_ret {A} (a : A) : preserves (metadata_only l) (mret a : M A).
Proof. intros w r w' H. injection H as _ <-. apply metadata_only_refl. Qed.

Lemma quiet_ret' {A} (a : A) : preserves (metadata_only l) (ret a : M A).
Proof. exact (quiet_ret a). Qed.

Lemma quiet_throw {A} (e : exn) : preserves (metadata_only l) (throw e : M A).
Proof. intros w r w' H. injection H as _ <-. apply metadata_only_refl. Qed.

Lemma quiet_bind {A B} (m : M A) (k : A -> M B) :
  preserves (metadata_only l) m ->
  (forall a, preserves (metadata_only l) (k a)) ->
  preserves (metadata_only l) (m ≫= k).
Proof.
  intros Hm Hk w r w' H. rewrite bind_eq in H.
  destruct (m w) as [[a|e] w1] eqn:E.
  - eapply metadata_only_trans; [eapply Hm, E | eapply Hk, H].
  - injection H as _ <-. eapply Hm, E.
Qed.

Create HintDb quiet discriminated.

Ltac quiet_step :=
  first
    [ apply quiet_ret | apply quiet_ret' | apply quiet_throw
    | solve [auto 2 with quiet]
    | apply quiet_bind; [|intros]
    | match goal with
      | |- preserves _ (if ?b then _ else _) => destruct b
      | |- preserves _ (match ?x with _ => _ end) => destruct x
      end ].

Ltac quiet := repeat quiet_step.

Ltac quiet_by tac := repeat first [solve [tac] | quiet_step].

Ltac quiet_prim :=
  let H := fresh in
  intros ? ? ? H;
  repeat match type of H with
         | context [match ?x with _ => _ end] => destruct x
         | context [if ?b then _ else _] => destruct b
         end;
  injection H as _ <-;
  first [apply metadata_only_refl | apply metadata_only_cache].

Lemma quiet_decode_dir_entry (bl : bufferlist) :
  preserves (metadata_only l) (decode_dir_entry bl).
Proof. unfold decode_dir_entry. quiet. Qed.

Lemma quiet_decode_attrs (bl : bufferlist) :
  preserves (metadata_only l) (decode_attrs bl).
Proof. unfold decode_attrs. quiet. Qed.

Lemma quiet_decode_meta f (bl : bufferlist) :
  preserves (metadata_only l) (decode_meta f bl).
Proof. unfold decode_meta. quiet. Qed.

Lemma quiet_ObjectCache_get (n : string) :
  preserves (metadata_only l) (ObjectCache_get n).
Proof. unfold ObjectCache_get. quiet_prim. Qed.

Lemma quiet_ObjectCache_put (n : string) (d : bufferlist) :
  preserves (metadata_only l) (ObjectCache_put n d).
Proof. unfold ObjectCache_put. quiet_prim. Qed.

Lemma quiet_ObjectCache_invalidate_remove (n : string) :
  preserves (metadata_only l) (ObjectCache_invalidate_remove n).
Proof. unfold ObjectCache_invalidate_remove. quiet_prim. Qed.

Lemma quiet_idx_next (iname start : string) (n : nat) :
  preserves (metadata_only l) (m0_idx_next iname start n).
Proof. unfold m0_idx_next. quiet_prim. Qed.

(** A GET always, a PUT or a DEL on the indices of [l]. *)
Lemma quiet_do_idx_op_by_name (iname : string) (op : m0_idx_opcode)
    (key : string) (bl : bufferlist) (u : bool) :
  op = M0_IC_GET \/ In iname l ->
  preserves (metadata_only l) (do_idx_op_by_name iname op key bl u).
Proof.
  intros Hop. unfold do_idx_op_by_name.
  apply quiet_bind; [|intros [rc v]; destruct ((rc =? 0) && _); apply quiet_ret].
  intros w r w' H. unfold m0_idx_op in H.
  destruct (m0_errno w (call_idx iname op key));
    [|injection H as _ <-; apply metadata_only_refl].
  destruct (indices w !! iname) as [t|];
    [|injection H as _ <-; apply metadata_only_refl].
  destruct op.
  - destruct (idx_lookup key t); injection H as _ <-; apply metadata_only_refl.
  - destruct Hop as [Hop|Hw]; [discriminate|].
    destruct (idx_lookup key t); [destruct u|];
      injection H as _ <-;
      first [apply metadata_only_refl | apply metadata_only_write, Hw].
  - destruct Hop as [Hop|Hw]; [discriminate|].
    destruct (idx_lookup key t); injection H as _ <-;
      first [apply metadata_only_refl | apply metadata_only_write, Hw].
  - injection H as _ <-. apply metadata_only_refl.
Qed.

Lemma quiet_get (iname key : string) (bl : bufferlist) (u : bool) :
  preserves (metadata_only l) (do_idx_op_by_name iname M0_IC_GET key bl u).
Proof. apply quiet_do_idx_op_by_name. left. reflexivity. Qed.

Lemma quiet_write (iname : string) (op : m0_idx_opcode)
    (key : string) (bl : bufferlist) (u : bool) :
  In iname l ->
  preserves (metadata_only l) (do_idx_op_by_name iname op key bl u).
Proof. intros H. apply quiet_do_idx_op_by_name. right. exact H. Qed.

Hint Resolve quiet_decode_dir_entry quiet_decode_attrs quiet_decode_meta
  quiet_ObjectCache_get quiet_ObjectCache_put
  quiet_ObjectCache_invalidate_remove quiet_idx_next quiet_get : quiet.

Lemma quiet_MotrMetaCache_put (n : string) (d : bufferlist) :
  preserves (metadata_only l) (MotrMetaCache_put n d).
Proof. unfold MotrMetaCache_put. quiet. Qed.

Lemma quiet_MotrMetaCache_get (n : string) (d : bufferlist) :
  preserves (metadata_only l) (MotrMetaCache_get n d).
Proof. unfold MotrMetaCache_get. quiet. Qed.

Lemma quiet_MotrMetaCache_remove (n : string) :
  preserves (metadata_only l) (MotrMetaCache_remove n).
Proof. unfold MotrMetaCache_remove. quiet. Qed.

Hint Resolve quiet_MotrMetaCache_put quiet_MotrMetaCache_get
  quiet_MotrMetaCache_remove : quiet.

Lemma quiet_next_query_loop (fuel : nat) (iname pre : string)
    (total nr_kvp nr : nat) (key0 : string) (acc : m0_index) :
  preserves (metadata_only l)
    (next_query_loop fuel iname pre total nr_kvp nr key0 acc).
Proof.
  revert nr key0 acc. induction fuel as [|fuel IH]; intros nr key0 acc; simpl.
  - quiet.
  - quiet; try apply IH.
Qed.

Hint Resolve quiet_next_query_loop : quiet.

Lemma quiet_next_query_by_name (iname key0 : string) (max : nat)
    (pre : string) :
  preserves (metadata_only l) (next_query_by_name iname key0 max pre).
Proof. unfold next_query_by_name. quiet. Qed.

Hint Resolve quiet_next_query_by_name : quiet.

Lemma quiet_fetch_latest_loop (n : string) (vals : list bufferlist)
    (e : rgw_bucket_dir_entry) (bl : bufferlist) :
  preserves (metadata_only l) (fetch_latest_loop n vals e bl).
Proof.
  revert e bl. induction vals as [|v vals IH]; intros e bl; simpl.
  - quiet.
  - quiet; try apply IH.
Qed.

Hint Resolve quiet_fetch_latest_loop : quiet.

Lemma quiet_fetch_latest_obj (o : MotrObject) (bl : bufferlist) :
  preserves (metadata_only l) (fetch_latest_obj o bl).
Proof. unfold fetch_latest_obj. quiet. Qed.

Hint Resolve quiet_fetch_latest_obj : quiet.

Lemma quiet_get_bucket_dir_ent (o : MotrObject) (e : rgw_bucket_dir_entry) :
  preserves (metadata_only l) (get_bucket_dir_ent o e).
Proof. unfold get_bucket_dir_ent. quiet. Qed.

Hint Resolve quiet_get_bucket_dir_ent : quiet.

Lemma quiet_create_delete_marker (source : MotrObject)
    (result : DeleteOp_result) (params : DeleteOp_params) (now : Z) :
  In (bucket_index_iname source) l ->
  preserves (metadata_only l) (create_delete_marker source result params now).
Proof.
  intros Hw. unfold create_delete_marker.
  apply quiet_bind; [apply quiet_write, Hw|]. intros. quiet.
Qed.

Lemma quiet_update_version_entries (o : MotrObject) (b : bool) :
  In (bucket_index_iname o) l ->
  preserves (metadata_only l) (update_version_entries o b).
Proof.
  intros Hw. unfold update_version_entries.
  quiet_by ltac:(apply quiet_write, Hw).
Qed.

(** The continuation needs the property only for the values that [m]
    returns. *)
Lemma quiet_bind_ret {A B} (m : M A) (k : A -> M B) :
  preserves (metadata_only l) m ->
  (forall a w w', m w = (Ret a, w') -> preserves (metadata_only l) (k a)) ->
  preserves (metadata_only l) (m ≫= k).
Proof.
  intros Hm Hk w r w' H. rewrite bind_eq in H.
  destruct (m w) as [[a|e] w1] eqn:E.
  - eapply metadata_only_trans; [eapply Hm, E | eapply (Hk _ _ _ E), H].
  - injection H as _ <-. eapply Hm, E.
Qed.

Lemma quiet_delete_obj_marker (fuel : nat) (source : MotrObject)
    (params : DeleteOp_params) (ms : Z) (buf : string) (now : Z) :
  versioning_enabled (info (bucket source)) = true ->
  versioned (info (bucket source)) = true ->
  instance source = ""%string ->
  In (bucket_index_iname source) l ->
  preserves (metadata_only l) (delete_obj fuel source params ms buf now).
Proof.
  intros Hen Hv Hi Hw. unfold delete_obj.
  apply quiet_bind_ret; [quiet|].
  intros [[rc ent] source'] w w' E.
  destruct (get_bucket_dir_ent_key _ _ _ _ _ _ _ E) as (Ei & _ & Eb & _).
  unfold have_instance. rewrite Eb, Hv, Ei, Hi.
  cbn [String.eqb negb instance set_instance set_delete_marker bucket].
  rewrite Eb, Hen. cbn [negb].
  assert (Hw' : forall i d,
             In (bucket_index_iname
                   (set_instance (set_delete_marker (set_instance source' i) d)
                      (Base62.gen_rand_obj_instance_name ms buf))) l).
  { intros i d. unfold bucket_index_iname, tenant_bkt_name in *.
    cbn [bucket set_instance set_delete_marker]. rewrite Eb. exact Hw. }
  quiet_by ltac:(first [ apply quiet_update_version_entries, Hw'
                       | apply quiet_create_delete_marker, Hw' ]).
Qed.

End Quiet.



(** *** The current flag of the latest version (lines 3847-3911) *)

(** X10: when a name has a latest record and [update_version_entries]
    returns 0, that record is current afterwards exactly when
    [set_is_latest] was asked for.  Either the record was not current,
    [set_is_latest] is false and nothing is written; or the record stored
    under the key of the entry is rewritten with the same attributes and an
    entry that differs in its flags only: it is current exactly when
    [set_is_latest] holds, and it is a delete-marker exactly when it was
    one.  Only the bucket index and the cache change. *)
Theorem update_version_entries_current (o : MotrObject) (set_is_latest : bool)
    (e : rgw_bucket_dir_entry) (a : Attrs) (x : bl_item) (w w' : world) :
  fst (fetch_latest_obj o [] w) = Ret (0, [enc_dir_entry e; enc_attrs a; x]) ->
  update_version_entries o set_is_latest w = (Ret 0, w') ->
  metadata_only [bucket_index_iname o] w w'
  /\ ((is_current e = false /\ set_is_latest = false
       /\ indices w' = indices w)
      \/ exists f m t,
           indices w' !! bucket_index_iname o = Some t
           /\ idx_lookup (index_key e) t
              = Some [enc_dir_entry (set_flags e f); enc_attrs a; enc_meta m]
           /\ is_current (set_flags e f) = set_is_latest
           /\ is_delete_marker (set_flags e f) = is_delete_marker e
           /\ decode_meta entry_meta_as_motr_meta [x] = ret (m, [])
           /\ obj_meta_cache w' !! index_key e = None).
Proof.
  intros Hf H. split.
  { apply (quiet_update_version_entries [bucket_index_iname o] o set_is_latest
             (or_introl eq_refl) w _ w' H). }
  unfold update_version_entries in H. rewrite bind_eq in H.
  destruct (fetch_latest_obj o [] w) as [r w1] eqn:Ef.
  pose proof (quiet_fetch_latest_obj [] o [] w r w1 Ef)
    as (_ & _ & _ & _ & _ & Hi1).
  assert (Hidx : indices w1 = indices w).
  { apply map_eq. intros i. apply Hi1. intros []. }
  cbn [fst] in Hf. subst r. cbn beta iota in H.
  replace (0 =? - ENOENT) with false in H by reflexivity.
  replace (0 <? 0) with false in H by reflexivity.
  unfold decode_dir_entry, decode_attrs, decode_meta in H.
  assert (Hx : exists m,
             x = enc_meta m
             \/ exists e2, x = enc_dir_entry_meta e2
                           /\ m = entry_meta_as_motr_meta e2).
  { rewrite bind_eq in H. unfold ret at 1 in H. cbn beta iota in H.
    rewrite bind_eq in H. unfold ret at 1 in H. cbn beta iota in H.
    destruct x;
      try (rewrite bind_eq in H; unfold throw in H; discriminate H); eauto. }
  destruct Hx as (m & Hx).
  assert (Hm : decode_meta entry_meta_as_motr_meta [x] = ret (m, [])).
  { destruct Hx as [->|(e2 & -> & ->)]; reflexivity. }
  assert (H' : (if negb (is_current e) && negb set_is_latest then mret 0
                else
                  let f :=
                    if set_is_latest then
                      if is_delete_marker e then FLAG_DELETE_MARKER
                      else Z.lor FLAG_VER FLAG_CURRENT
                    else
                      if is_delete_marker e then Z.lor FLAG_DELETE_MARKER FLAG_VER
                      else FLAG_VER in
                  MotrMetaCache_remove (index_key e);;
                  '(rc, _) ← do_idx_op_by_name (bucket_index_iname o) M0_IC_PUT
                               (index_key e)
                               [enc_dir_entry (set_flags e f); enc_attrs a;
                                enc_meta m] true;
                  mret rc) w1 = (Ret 0, w')).
  { destruct Hx as [->|(e2 & -> & ->)]; exact H. }
  clear H.
  destruct (negb (is_current e) && negb set_is_latest) eqn:Ecur.
  - left. apply andb_prop in Ecur. destruct Ecur as [E1 E2].
    apply negb_true_iff in E1, E2. injection H' as <-. auto.
  - right. cbv zeta in H'.
    match type of H' with
    | context [set_flags e ?f0] => set (f := f0) in H'
    end.
    unfold MotrMetaCache_remove, ObjectCache_invalidate_remove in H'.
    rewrite !bind_eq in H'. cbn beta iota in H'. rewrite mret_eq in H'.
    cbn beta iota in H'. rewrite bind_eq in H'.
    match type of H' with
    | context [do_idx_op_by_name ?i ?op ?k ?b ?u ?ww] =>
        destruct (do_idx_op_by_name i op k b u ww) as [[[rc v]|ex] w2] eqn:Ep;
          [|discriminate H']
    end.
    injection H' as -> <-.
    apply do_idx_op_put_ok in Ep. destruct Ep as (t & Ht & ->).
    exists f, m, (idx_insert (index_key e)
                    [enc_dir_entry (set_flags e f); enc_attrs a; enc_meta m] t).
    cbn [indices set_indices set_cache obj_meta_cache].
    split; [apply lookup_insert_eq|]. split; [apply idx_lookup_insert|].
    split.
    { unfold is_current, f. cbn [flags set_flags].
      destruct set_is_latest; destruct (is_delete_marker e); reflexivity. }
    split.
    { unfold f. destruct set_is_latest; destruct (is_delete_marker e) eqn:Ed;
        unfold is_delete_marker; cbn [flags set_flags]; reflexivity. }
    split; [exact Hm|]. apply lookup_delete_eq.
Qed.

(** *** Aborting an upload that is not in progress (lines 4512-4543) *)

Lemma abort_not_found (fuel : nat) (u : MotrMultipartUpload) (w : world) :
  let tb := get_bucket_name (tenant (mp_bucket u)) (bucket_name (mp_bucket u)) in
  (indices w !! multiparts_in_progress_iname tb) ≫= idx_lookup (get_meta u)
  = None ->
  m0_errno w (call_idx (multiparts_in_progress_iname tb) M0_IC_GET (get_meta u))
  = 0%N ->
  abort fuel u w = (Ret (- ERR_NO_SUCH_UPLOAD), w).
Proof.
  intros tb Hl He. unfold abort. fold tb. rewrite bind_eq.
  unfold do_idx_op_by_name. rewrite bind_eq. unfold m0_idx_op. rewrite He.
  destruct (indices w !! multiparts_in_progress_iname tb) as [t|];
    cbn [mbind option_bind] in Hl.
  - rewrite Hl. reflexivity.
  - reflexivity.
Qed.


(** *** The size of a completed upload (lines 4786-5037) *)

Lemma parts_size_app (a b : list (Z * MotrMultipartPart)) :
  parts_size (a ++ b) = parts_size a + parts_size b.
Proof.
  unfold parts_size. induction a as [|p a IH]; simpl; [reflexivity|].
  rewrite IH. lia.
Qed.

Lemma u64_add_l (a b : Z) : u64 (u64 a + b) = u64 (a + b).
Proof. unfold u64, uint64_mod. apply Z.add_mod_idemp_l. lia. Qed.

Lemma u64_add_int64 (a b : Z) : u64 (int64_of_u64 a + b) = u64 (a + b).
Proof.
  unfold int64_of_u64. cbn zeta.
  destruct (u64 a <? 2 ^ 63); [apply u64_add_l|].
  rewrite <- (u64_add_l a b). unfold u64 at 1 3, uint64_mod.
  replace (u64 a - 2 ^ 64 + b) with (u64 a + b + (-1) * 2 ^ 64) by lia.
  apply Z_mod_plus_full.
Qed.

(** What the part loop of [complete] has checked and added up when it goes
    through. *)
Lemma complete_for_sizes (n minp : Z) (etags etags' : list (Z * string))
    (ps : list (Z * MotrMultipartPart)) (st st' : complete_state) (rc : Z) :
  complete_for n minp etags ps st = (rc, etags', st') -> 0 <= rc ->
  let taken := firstn (List.length etags) ps in
  u64 (off st') = u64 (off st + parts_size taken)
  /\ cs_accounted_size st' = sum_sizes taken (cs_accounted_size st)
  /\ handled_parts st' = handled_parts st + Z.of_nat (List.length taken)
  /\ Forall (fun p => minp <= part_accounted_size (part_info (snd p)))
            (firstn (Z.to_nat (n - 1 - handled_parts st)) taken).
Proof.
  pose proof ERR_TOO_SMALL_pos as Hts. pose proof ERR_INVALID_PART_pos as Hip.
  revert ps st.
  induction etags as [|[enum et] etags IH]; intros ps st H Hrc taken.
  - simpl in H. injection H as _ _ <-. subst taken. simpl.
    rewrite firstn_nil, ?Z.add_0_r. repeat split; try lia. constructor.
  - destruct ps as [|[pnum mmpart] ps].
    + simpl in H. injection H as _ _ <-. subst taken. simpl.
      rewrite firstn_nil, ?Z.add_0_r. repeat split; try lia. constructor.
    + simpl in H.
      destruct ((handled_parts st <? n - 1) && _) eqn:Esz.
      { injection H as <- _ _. lia. }
      destruct (enum =? int_of_u32 pnum); cbn [negb] in H;
        [|injection H as <- _ _; lia].
      destruct (String.eqb (rgw_string_unquote et) _); cbn [negb] in H;
        [|injection H as <- _ _; lia].
      destruct ((0 <? handled_parts st) && _).
      { injection H as <- _ _. lia. }
      apply IH in H; [|exact Hrc].
      cbn [off cs_accounted_size handled_parts] in H.
      destruct H as (Ho & Ha & Hh & Hf).
      subst taken. cbn [List.length firstn].
      split.
      { rewrite Ho, u64_add_int64. f_equal.
        change (parts_size ((pnum, mmpart) :: firstn (List.length etags) ps))
          with (part_accounted_size (part_info mmpart)
                + parts_size (firstn (List.length etags) ps)).
        lia. }
      split; [rewrite Ha; reflexivity|].
      split; [rewrite Hh; cbn [List.length]; lia|].
      destruct (Z.to_nat (n - 1 - handled_parts st)) as [|m] eqn:Em;
        [constructor|].
      cbn [firstn]. constructor.
      * cbn [snd]. apply andb_false_iff in Esz.
        destruct Esz as [E|E]; [apply Z.ltb_ge in E|apply Z.ltb_ge in E]; lia.
      * replace m with (Z.to_nat (n - 1 - (handled_parts st + 1))) by lia.
        exact Hf.
Qed.

(** The same for the whole listing loop. *)
Lemma complete_loop_sizes (fuel : nat) (u u' : MotrMultipartUpload)
    (n minp : Z) (etags : list (Z * string)) (marker : Z) (tr : bool)
    (total prev rc : Z) (st st' : complete_state) (w w' : world) :
  mp_upload_id u <> ""%string ->
  complete_loop fuel u n minp etags marker tr total prev st w
  = (Ret (rc, u', st'), w') ->
  0 <= rc ->
  let taken := firstn (List.length etags) (listed_parts fuel u marker tr w) in
  u64 (off st') = u64 (off st + parts_size taken)
  /\ cs_accounted_size st' = sum_sizes taken (cs_accounted_size st)
  /\ Forall (fun p => minp <= part_accounted_size (part_info (snd p)))
            (firstn (Z.to_nat (n - 1 - handled_parts st)) taken).
Proof.
  pose proof ERR_NO_SUCH_UPLOAD_pos as Hnsu.
  pose proof ERR_INVALID_PART_pos as Hip.
  revert u etags marker tr total prev st w.
  induction fuel as [|fuel IH]; intros u etags marker tr total prev st w Hu H Hrc;
    simpl in H; [discriminate H|].
  rewrite bind_eq in H. simpl listed_parts. unfold listed_step.
  pose proof (proj1 (reads_list_parts u 1000 marker marker tr Hu w)) as Hsame.
  destruct (list_parts u 1000 marker marker tr w)
    as [[[[[rc0 m0] tr0] u0]|e] w0] eqn:E; [|discriminate H].
  simpl in Hsame. subst w0. simpl fst. cbn beta iota in H |- *.
  destruct (list_parts_upload _ _ _ _ _ _ _ _ _ _ _ E) as (Eu & Eb & Ek & _).
  destruct (rc0 =? - ENOENT) eqn:Een.
  { assert (Hl : (- ERR_NO_SUCH_UPLOAD <? 0) = true) by (apply Z.ltb_lt; lia).
    rewrite Hl in H. injection H as <- _ _ _. lia. }
  destruct (rc0 <? 0) eqn:Hlt0.
  { injection H as <- _ _ _. apply Z.ltb_lt in Hlt0. lia. }
  destruct (negb tr0 && _) eqn:Hchk.
  { injection H as <- _ _ _. lia. }
  destruct (complete_for n minp etags (parts u0) st) as [[rc1 etags1] st1] eqn:Ef.
  destruct (rc1 <? 0) eqn:Hlt1.
  { injection H as <- _ _ _. apply Z.ltb_lt in Hlt1. lia. }
  apply Z.ltb_ge in Hlt1.
  destruct (complete_for_spec _ _ _ _ _ _ _ _ Ef Hlt1) as (_ & He1 & _).
  destruct (complete_for_sizes _ _ _ _ _ _ _ _ Ef Hlt1) as (Ho1 & Ha1 & Hh1 & Hf1).
  rewrite bind_eq in H.
  match type of H with
  | context [match ?m w with _ => _ end] =>
      assert (Hext : exists rc2, m w = (Ret rc2, w))
  end.
  { destruct (mp_hsm_enabled u0); [|eexists; reflexivity].
    rewrite bind_eq. unfold m0_composite_add_extents at 1. cbn beta iota.
    match goal with
    | |- context [if ?b then _ else _] => destruct b
    end; eexists; reflexivity. }
  destruct Hext as [rc2 Hext]. rewrite Hext in H. cbn beta iota in H.
  destruct (rc2 <? 0) eqn:Hlt2.
  { injection H as <- _ _ _. apply Z.ltb_lt in Hlt2. lia. }
  destruct tr0.
  - assert (Hu0 : mp_upload_id u0 <> ""%string) by congruence.
    destruct (IH _ _ _ _ _ _ _ _ Hu0 H Hrc) as (Ho & Ha & Hf).
    set (ps2 := listed_parts fuel u0 m0 true w) in *.
    subst etags1. rewrite length_skipn in Ho, Ha, Hf.
    rewrite firstn_app.
    split.
    { rewrite Ho, <- u64_add_l, Ho1, u64_add_l, parts_size_app.
      f_equal. lia. }
    split; [rewrite Ha, Ha1; unfold sum_sizes; rewrite fold_left_app;
            reflexivity|].
    rewrite firstn_app. apply Forall_app. split; [exact Hf1|].
    rewrite Hh1 in Hf.
    replace (Z.to_nat (n - 1 - handled_parts st)
             - List.length (firstn (List.length etags) (parts u0)))%nat
      with (Z.to_nat (n - 1 - (handled_parts st
                               + Z.of_nat (List.length
                                             (firstn (List.length etags)
                                                     (parts u0))))))
      by lia.
    exact Hf.
  - injection H as _ _ <- _. auto.
Qed.

(** X12: when [complete] succeeds for an upload with an id, every listed
    part but the last has at least the minimum part size, and the record
    written to the bucket index for the final object has the sizes of the
    parts added up: its size is the starting offset plus the accounted
    sizes of the parts, modulo 2^64, its accounted size their sum modulo
    2^64.  The
    record carries the object id kept in the record of the upload, keeps
    the owner of that record, and has the time of the call; and the record
    of the upload is gone from the [multiparts.in-progress] index. *)
Theorem complete_sizes (fuel : nat) (u : MotrMultipartUpload)
    (part_etags : list (Z * string)) (accounted_size0 : Z) (compressed0 : bool)
    (cs_info0 : RGWCompressionInfo) (off0 min_part_size : Z)
    (target_obj tobj : MotrObject) (now rc : Z) (st : complete_state)
    (w w' : world) :
  mp_upload_id u <> ""%string ->
  complete fuel u part_etags accounted_size0 compressed0 cs_info0 off0
    min_part_size target_obj now w = (Ret (rc, tobj, st), w') ->
  0 <= rc ->
  let ps := listed_parts fuel u 0 false w in
  let tb := get_bucket_name (tenant (mp_bucket u)) (bucket_name (mp_bucket u)) in
  let in_progress := multiparts_in_progress_iname tb in
  List.length ps = List.length part_etags
  /\ Forall (fun p => min_part_size <= part_accounted_size (part_info (snd p)))
            (firstn (List.length ps - 1) ps)
  /\ (exists ent a old ui rest,
        (indices w' !! ("motr.rgw.bucket.index." ++ tb)%string)
          ≫= idx_lookup (get_key_str target_obj)
        = Some [enc_dir_entry ent; enc_attrs a; enc_meta (info_meta ui)]
        /\ (indices w !! in_progress) ≫= idx_lookup (get_meta u)
           = Some (enc_dir_entry old :: rest)
        /\ user_data old = ud_upload_info ui
        /\ key_name ent = name target_obj
        /\ key_instance ent = instance target_obj
        /\ size ent = (off0 + parts_size ps) mod 2 ^ 64
        /\ accounted_size ent = sum_sizes ps accounted_size0
        /\ mtime ent = now /\ owner ent = owner old)
  /\ (indices w' !! in_progress) ≫= idx_lookup (get_meta u) = None.
Proof.
  intros Hu H Hrc ps tb in_progress.
  pose proof ERR_NO_SUCH_UPLOAD_pos as Hnsu.
  unfold complete in H. rewrite bind_eq in H.
  match type of H with
  | context [complete_loop fuel u ?n ?mp ?et ?mk ?tr ?tot ?pv ?s0 w] =>
      destruct (complete_loop fuel u n mp et mk tr tot pv s0 w)
        as [[[[rc1 u1] st1]|ex] w1] eqn:El; [|discriminate H]
  end.
  cbn beta iota in H.
  destruct (rc1 <? 0) eqn:Hlt1.
  { injection H as <- _ _ _. apply Z.ltb_lt in Hlt1. lia. }
  apply Z.ltb_ge in Hlt1.
  destruct (complete_loop_spec _ _ _ _ _ _ _ _ _ _ _ _ _ _ _ Hu El Hlt1)
    as (-> & Eb & Ek & Eu & Htot & _ & _).
  destruct (complete_loop_sizes _ _ _ _ _ _ _ _ _ _ _ _ _ _ _ Hu El Hlt1)
    as (Ho & Ha & Hf).
  fold ps in Htot, Ho, Ha, Hf. cbn [off cs_accounted_size handled_parts] in Ho, Ha, Hf.
  assert (Hlen : List.length ps = List.length part_etags) by lia.
  rewrite <- Hlen, firstn_all in Ho, Ha, Hf.
  match type of Hf with
  | Forall _ (firstn ?k _) => replace k with (List.length ps - 1)%nat in Hf by lia
  end.
  split; [exact Hlen|]. split; [exact Hf|].
  unfold get_meta in H. rewrite Eb, Ek, Eu in H. fold tb in H.
  fold in_progress in H. fold (get_meta u) in H.
  rewrite bind_eq in H.
  destruct (do_idx_op_by_name_get in_progress (get_meta u) [] true w)
    as (rc2 & bl & Hget & Hbl).
  destruct (do_idx_op_by_name_result _ _ _ _ _ _ _ _ Hget)
    as (rc2' & bl' & Hr2 & Hle2 & _).
  injection Hr2 as <- <-.
  rewrite Hget in H. cbn beta iota in H.
  destruct (rc2 <? 0) eqn:Hlt2.
  { injection H as <- _ _ _. apply Z.ltb_lt in Hlt2.
    destruct (rc2 =? - ENOENT); lia. }
  apply Z.ltb_ge in Hlt2. assert (rc2 = 0) by lia. subst rc2.
  destruct (Hbl eq_refl) as (tip0 & val & Htip0 & Hval & ->).
  cbn [app] in H. clear Hbl.
  rewrite bind_eq in H.
  destruct (decode_dir_entry val w) as [[[ent0 it1]|ex] w2] eqn:Ed1;
    [|discriminate H].
  assert (w2 = w /\ val = enc_dir_entry ent0 :: it1) as [-> ->].
  { unfold decode_dir_entry, ret, throw in Ed1.
    destruct val as [|[] ?]; try discriminate Ed1.
    injection Ed1 as <- <- <-. auto. }
  cbn beta iota in H. rewrite bind_eq in H.
  destruct (decode_upload_info (user_data ent0) w) as [[ui|ex] w2] eqn:Ed2;
    [|discriminate H].
  assert (w2 = w /\ user_data ent0 = ud_upload_info ui) as [-> Hui].
  { unfold decode_upload_info, ret, throw in Ed2.
    destruct (user_data ent0); try discriminate Ed2.
    injection Ed2 as <- <-. auto. }
  cbn beta iota in H. rewrite bind_eq in H.
  destruct (decode_attrs it1 w) as [[[ta it2]|ex] w2] eqn:Ed3;
    [|discriminate H].
  assert (w2 = w) as ->.
  { unfold decode_attrs, ret, throw in Ed3.
    destruct it1 as [|[] ?]; congruence. }
  cbn beta iota in H.
  rewrite bind_eq in H.
  match type of H with
  | context [match ?m w with _ => _ end] =>
      destruct (m w) as [[rc3|ex] w3] eqn:Ev; [|discriminate H]
  end.
  cbn beta iota in H.
  destruct (rc3 <? 0) eqn:Hlt3.
  { injection H as <- _ _ _. apply Z.ltb_lt in Hlt3. lia. }
  rewrite bind_eq in H.
  match type of H with
  | context [match ?m w3 with _ => _ end] =>
      destruct (m w3) as [[rc4|ex] w4] eqn:En; [|discriminate H]
  end.
  cbn beta iota in H.
  destruct (rc4 <? 0) eqn:Hlt4.
  { injection H as <- _ _ _. apply Z.ltb_lt in Hlt4. lia. }
  rewrite bind_eq in H.
  match type of H with
  | context [do_idx_op_by_name ?i M0_IC_PUT ?k ?v true w4] =>
      destruct (do_idx_op_by_name i M0_IC_PUT k v true w4)
        as [[[rc5 v5]|ex] w5] eqn:Ep; [|discriminate H]
  end.
  cbn beta iota in H.
  destruct (rc5 <? 0) eqn:Hlt5.
  { injection H as <- _ _ _. apply Z.ltb_lt in Hlt5. lia. }
  apply Z.ltb_ge in Hlt5.
  destruct (do_idx_op_by_name_result _ _ _ _ _ _ _ _ Ep)
    as (rc5' & v5' & Hr5 & Hle5 & _).
  injection Hr5 as <- <-.
  assert (rc5 = 0) as -> by lia.
  destruct (do_idx_op_put_ok _ _ _ _ _ _ Ep) as (t & Ht & ->).
  rewrite bind_eq in H.
  match type of H with
  | context [MotrMetaCache_put ?k ?v ?ww] =>
      destruct (MotrMetaCache_put k v ww) as [r6 w6] eqn:Ec
  end.
  destruct (MotrMetaCache_put_indices _ _ _ _ _ Ec) as [Hi6 ->].
  cbn beta iota in H. rewrite bind_eq in H.
  destruct (do_idx_op_by_name in_progress M0_IC_DEL (get_meta u) [] true w6)
    as [[[rc7 v7]|ex] w7] eqn:Edel; [|discriminate H].
  cbn beta iota in H. injection H as <- <- <- <-.
  destruct (do_idx_op_by_name_result _ _ _ _ _ _ _ _ Edel)
    as (rc7' & v7' & Hr7 & Hle7 & _).
  injection Hr7 as <- <-.
  assert (rc7 = 0) as -> by lia.
  destruct (do_idx_op_del_ok _ _ _ _ _ _ _ Edel) as (tip & Htip & ->).
  split.
  - do 2 eexists. exists ent0, ui, it1. split; [|split; [|split]].
    + cbn [indices set_indices]. rewrite Hi6. cbn [indices set_indices].
      rewrite lookup_insert_ne
        by (intros E'; symmetry in E'; exact (bucket_index_not_in_progress tb E')).
      rewrite lookup_insert_eq. simpl. rewrite idx_lookup_insert. reflexivity.
    + rewrite Htip0. exact Hval.
    + exact Hui.
    + cbn [key_name key_instance size accounted_size mtime owner name instance
           set_attrs].
      rewrite Ho, Ha. repeat split; reflexivity.
  - cbn [indices set_indices]. rewrite lookup_insert_eq. simpl.
    apply idx_lookup_delete.
Qed.

(** *** Attributes of an object (lines 1702-1836) *)

(** [set_obj_attrs] in terms of the record that [get_bucket_dir_ent]
    resolves: what is written, and where. *)
Lemma set_obj_attrs_ok (o o1 o2 : MotrObject) (setattrs delattrs : option Attrs)
    (target_obj : option (string * string)) (ent : rgw_bucket_dir_entry)
    (rc0 : Z) (w w1 w' : world) :
  get_bucket_dir_ent o rgw_bucket_dir_entry_default w = (Ret (rc0, ent, o1), w1) ->
  set_obj_attrs o setattrs delattrs target_obj w = (Ret (0, o2), w') ->
  let new_attrs :=
    match delattrs with
    | Some da => match setattrs with Some sa => sa ∪ attrs o1 | None => attrs o1 end ∖ da
    | None => match setattrs with Some sa => sa ∪ attrs o1 | None => attrs o1 end
    end in
  let bname :=
    match target_obj with
    | Some (t, n) => get_bucket_name t n
    | None => tenant_bkt_name o
    end in
  let iname := ("motr.rgw.bucket.index." ++ bname)%string in
  let ent' := if String.eqb (key_instance ent) "null"
              then set_key ent (key_name ent) "" else ent in
  let key := (key_name ent ++ SEP ++ key_instance ent')%string in
  let bl := [enc_dir_entry ent'; enc_attrs new_attrs; enc_meta (meta o1)] in
  is_delete_marker ent = false
  /\ o2 = set_attrs o1 new_attrs
  /\ exists t,
       indices w1 !! iname = Some t
       /\ w' = (if use_metadata_cache (conf w1)
                then set_cache
                       (set_indices w1 (<[iname := idx_insert key bl t]> (indices w1)))
                       (<[key := bl]> (obj_meta_cache w1))
                else set_indices w1 (<[iname := idx_insert key bl t]> (indices w1))).
Proof.
  intros Hg H new_attrs bname iname ent' key bl.
  destruct (get_bucket_dir_ent_key _ _ _ _ _ _ _ Hg) as (_ & _ & Eb & _).
  unfold set_obj_attrs, fetch_obj_entry_and_key in H.
  rewrite !bind_eq, Hg in H. cbn beta iota in H.
  destruct (rc0 <? 0) eqn:E0.
  { rewrite mret_eq in H. cbn beta iota in H. rewrite E0 in H.
    injection H as H _ _. apply Z.ltb_lt in E0. lia. }
  destruct (is_delete_marker ent) eqn:Edm.
  { rewrite mret_eq in H. cbn beta iota in H.
    replace (- ENOENT <? 0) with true in H by reflexivity.
    injection H as H _ _. discriminate H. }
  split; [reflexivity|].
  assert (Hb : match target_obj with
               | Some (t, n) => get_bucket_name t n
               | None => get_bucket_name (tenant (bucket o1))
                           (bucket_name (bucket o1))
               end = bname).
  { unfold bname, tenant_bkt_name. rewrite Eb. reflexivity. }
  assert (H' : ('(rc, _) ← do_idx_op_by_name iname M0_IC_PUT key bl true;
                if rc <? 0 then mret (rc, set_attrs o1 new_attrs)
                else MotrMetaCache_put key bl;;
                     mret (0, set_attrs o1 new_attrs)) w1
               = (Ret (0, o2), w')).
  { unfold iname, key, bl, ent', new_attrs. rewrite <- Hb.
    destruct (String.eqb (key_instance ent) "null");
      rewrite mret_eq in H; cbn beta iota in H;
      replace (0 <? 0) with false in H by reflexivity;
      [rewrite string_app_nil_r|];
      destruct setattrs, delattrs; exact H. }
  clear H. rewrite bind_eq in H'.
  destruct (do_idx_op_by_name iname M0_IC_PUT key bl true w1)
    as [[[rc1 v1]|e] w2] eqn:Ep; [|discriminate H'].
  cbn beta iota in H'.
  destruct (do_idx_op_by_name_result _ _ _ _ _ _ _ _ Ep)
    as (rc1' & v1' & Hr & Hle & _).
  injection Hr as <- <-.
  destruct (rc1 <? 0) eqn:E1.
  { injection H' as H' _ _. apply Z.ltb_lt in E1. lia. }
  apply Z.ltb_ge in E1. assert (rc1 = 0) by lia. subst rc1.
  apply do_idx_op_put_ok in Ep. destruct Ep as (t & Ht & ->).
  unfold MotrMetaCache_put, ObjectCache_put in H'. rewrite !bind_eq in H'.
  cbn [conf set_indices] in H'.
  destruct (use_metadata_cache (conf w1)); injection H' as <- <-;
    (split; [reflexivity|]); exists t; auto.
Qed.

(** X13: attributes set on a version are the attributes read back.  For an
    object that names a version whose record is stored under its own key,
    a [set_obj_attrs] that returns 0 (with no target or the object's own
    bucket as target) leaves the object with the attributes of the record,
    overridden by [setattrs] and without the keys of [delattrs]; a lookup of
    the object afterwards returns the same entry, the same object id and
    these attributes, with the cache on or off; and nothing but the bucket
    index and the cache has changed. *)
Theorem set_obj_attrs_then_get (o o1 o2 : MotrObject)
    (setattrs delattrs : option Attrs) (target_obj : option (string * string))
    (ent : rgw_bucket_dir_entry) (rc0 : Z) (w w1 w' : world) :
  have_instance o = true -> have_null_instance o = false ->
  target_obj = None
  \/ target_obj = Some (tenant (bucket o), bucket_name (bucket o)) ->
  get_bucket_dir_ent o rgw_bucket_dir_entry_default w = (Ret (rc0, ent, o1), w1) ->
  key_name ent = name o -> key_instance ent = instance o ->
  set_obj_attrs o setattrs delattrs target_obj w = (Ret (0, o2), w') ->
  m0_errno w (call_idx (bucket_index_iname o) M0_IC_GET (get_key_str o)) = 0%N ->
  let sa := default ∅ setattrs in
  let da := default ∅ delattrs in
  attrs o2 = (sa ∪ attrs o1) ∖ da
  /\ (forall k v, sa !! k = Some v -> da !! k = None -> attrs o2 !! k = Some v)
  /\ (forall k, is_Some (da !! k) -> attrs o2 !! k = None)
  /\ (forall k, sa !! k = None -> da !! k = None ->
                attrs o2 !! k = attrs o1 !! k)
  /\ metadata_only [bucket_index_iname o] w w'
  /\ fst (get_bucket_dir_ent o rgw_bucket_dir_entry_default w')
     = Ret (0, ent, set_meta (set_attrs o (attrs o2)) (meta o1)).
Proof.
  intros Hi Hnull Ht Hg Hkn Hki H He sa da.
  destruct (set_obj_attrs_ok _ _ _ _ _ _ _ _ _ _ _ Hg H)
    as (Hdm & -> & t & Hidx & Hw').
  unfold have_null_instance in Hnull. rewrite <- Hki in Hnull.
  rewrite Hnull in Hw'.
  assert (Hbn : match target_obj with
                | Some (t, n) => get_bucket_name t n
                | None => tenant_bkt_name o
                end = tenant_bkt_name o).
  { destruct Ht as [->| ->]; reflexivity. }
  rewrite Hbn in Hidx, Hw'. fold (bucket_index_iname o) in Hidx, Hw'.
  assert (Hkey : (key_name ent ++ SEP ++ key_instance ent)%string = get_key_str o).
  { unfold get_key_str. rewrite Hi. unfold have_null_instance.
    rewrite <- Hki, Hnull, Hkn. reflexivity. }
  rewrite Hkey in Hw'.
  assert (Hattrs : match delattrs with
                   | Some da0 =>
                       match setattrs with
                       | Some sa0 => sa0 ∪ attrs o1
                       | None => attrs o1
                       end ∖ da0
                   | None =>
                       match setattrs with
                       | Some sa0 => sa0 ∪ attrs o1
                       | None => attrs o1
                       end
                   end = (sa ∪ attrs o1) ∖ da).
  { unfold sa, da, Attrs in *. destruct setattrs, delattrs; cbn [default].
    - reflexivity.
    - rewrite map_difference_empty. reflexivity.
    - rewrite (left_id_L ∅ (∪)). reflexivity.
    - rewrite map_difference_empty, (left_id_L ∅ (∪)). reflexivity. }
  rewrite Hattrs in *. cbn [attrs set_attrs].
  set (new_attrs := (sa ∪ attrs o1) ∖ da) in *.
  set (bl := [enc_dir_entry ent; enc_attrs new_attrs; enc_meta (meta o1)]) in *.
  split; [reflexivity|].
  split.
  { intros k v Hs Hd. unfold new_attrs, Attrs in *.
    apply lookup_difference_Some. split; [|exact Hd].
    apply lookup_union_Some_raw. left. exact Hs. }
  split.
  { intros k Hd. unfold new_attrs, Attrs in *.
    apply lookup_difference_None. right. exact Hd. }
  split.
  { intros k Hs Hd. unfold new_attrs, Attrs in *.
    rewrite lookup_difference, Hd, lookup_union, Hs.
    apply (left_id_L None (∪)). }
  pose proof (quiet_get_bucket_dir_ent [bucket_index_iname o] _ _ _ _ _ Hg) as Hq1.
  assert (Hq2 : metadata_only [bucket_index_iname o] w1 w').
  { rewrite Hw'. destruct (use_metadata_cache (conf w1)).
    - eapply metadata_only_trans; [|apply metadata_only_cache].
      apply metadata_only_write. left. reflexivity.
    - apply metadata_only_write. left. reflexivity. }
  assert (Hq : metadata_only [bucket_index_iname o] w w').
  { eapply metadata_only_trans; eassumption. }
  split; [exact Hq|].
  apply (get_bucket_dir_ent_stored o rgw_bucket_dir_entry_default ent new_attrs
           (enc_meta (meta o1)) (meta o1)
           (idx_insert (get_key_str o) bl t)).
  - left. reflexivity.
  - exact Hi.
  - exact Hkn.
  - exact Hki.
  - rewrite Hw'. destruct (use_metadata_cache (conf w1));
      cbn [indices set_indices set_cache]; apply lookup_insert_eq.
  - apply idx_lookup_insert.
  - intros Hc. rewrite Hw' in Hc |- *.
    destruct (use_metadata_cache (conf w1)) eqn:Ec.
    + cbn [obj_meta_cache set_cache]. apply lookup_insert_eq.
    + cbn [conf set_indices] in Hc. congruence.
  - destruct Hq as (_ & _ & _ & _ & Herr & _). rewrite Herr. exact He.
Qed.

(** X14: the attribute operations refuse what is not an object.  When the
    lookup of the object fails, or resolves a delete-marker, [set_obj_attrs],
    [get_obj_attrs], [modify_obj_attrs] and [delete_obj_attrs] all return
    the error of the lookup, respectively ENOENT, and write nothing: the
    store is the one the lookup left, with the indices it had before.  For
    [get_obj_attrs] this holds without a request state and with the state
    of any request but a PUT or POST on a [MultiMeta] object; for those it
    returns 0 without a lookup and leaves the object and the store alone. *)
Theorem obj_attrs_refused (o o1 : MotrObject) (setattrs delattrs : option Attrs)
    (target_obj : option (string * string)) (target : string * string)
    (attr_name attr_val : string) (ent : rgw_bucket_dir_entry) (rc0 : Z)
    (w w1 : world) :
  get_bucket_dir_ent o rgw_bucket_dir_entry_default w = (Ret (rc0, ent, o1), w1) ->
  rc0 < 0 \/ is_delete_marker ent = true ->
  let rc := if rc0 <? 0 then rc0 else - ENOENT in
  rc < 0
  /\ set_obj_attrs o setattrs delattrs target_obj w = (Ret (rc, o1), w1)
  /\ get_obj_attrs o None target_obj w = (Ret (rc, o1), w1)
  /\ (forall m : string,
        obj_category o <> MultiMeta
        \/ (m <> "POST"%string /\ m <> "PUT"%string) ->
        get_obj_attrs o (Some m) target_obj w = (Ret (rc, o1), w1))
  /\ (forall m : string,
        obj_category o = MultiMeta ->
        m = "POST"%string \/ m = "PUT"%string ->
        get_obj_attrs o (Some m) target_obj w = (Ret (0, o), w))
  /\ modify_obj_attrs o attr_name attr_val target w = (Ret (rc, o1), w1)
  /\ delete_obj_attrs o attr_name target w = (Ret (rc, o1), w1)
  /\ indices w1 = indices w.
Proof.
  intros Hg Hbad rc.
  assert (Hf : forall t,
             fetch_obj_entry_and_key o rgw_bucket_dir_entry_default "" "" t w
             = (Ret (rc, ent, ""%string, ""%string, o1), w1)).
  { intros t. unfold fetch_obj_entry_and_key. rewrite bind_eq, Hg.
    cbn beta iota. unfold rc. destruct (rc0 <? 0) eqn:E0; [reflexivity|].
    destruct Hbad as [Hlt|Hdm]; [apply Z.ltb_ge in E0; lia|].
    rewrite Hdm. reflexivity. }
  assert (Hrc : rc < 0).
  { unfold rc. destruct (rc0 <? 0) eqn:E0; [apply Z.ltb_lt in E0; lia|].
    unfold ENOENT. lia. }
  assert (Hltb : (rc <? 0) = true) by (apply Z.ltb_lt; exact Hrc).
  assert (Hset : forall sa da t,
             set_obj_attrs o sa da t w = (Ret (rc, o1), w1)).
  { intros sa da t. unfold set_obj_attrs. rewrite bind_eq, Hf.
    cbn beta iota. rewrite Hltb. reflexivity. }
  split; [exact Hrc|]. split; [apply Hset|]. split.
  { unfold get_obj_attrs. cbn beta iota. rewrite bind_eq, Hf.
    cbn beta iota. rewrite Hltb. reflexivity. }
  split.
  { intros m Hm. unfold get_obj_attrs.
    replace ((if decide (obj_category o = MultiMeta) then true else false)
             && (String.eqb m "POST" || String.eqb m "PUT")) with false.
    - rewrite bind_eq, Hf. cbn beta iota. rewrite Hltb. reflexivity.
    - symmetry. destruct Hm as [Hc|[Hp Hu]].
      + destruct (decide (obj_category o = MultiMeta)) as [E|_];
          [contradiction|reflexivity].
      + apply String.eqb_neq in Hp, Hu. rewrite Hp, Hu.
        apply andb_false_r. }
  split.
  { intros m Hc Hm. unfold get_obj_attrs.
    replace ((if decide (obj_category o = MultiMeta) then true else false)
             && (String.eqb m "POST" || String.eqb m "PUT")) with true;
      [reflexivity|].
    symmetry. apply andb_true_intro. split.
    - destruct (decide (obj_category o = MultiMeta)) as [_|N];
        [reflexivity|contradiction].
    - destruct Hm as [-> | ->]; reflexivity. }
  split; [apply Hset|]. split; [apply Hset|].
  pose proof (quiet_get_bucket_dir_ent [] _ _ _ _ _ Hg)
    as (_ & _ & _ & _ & _ & Hi).
  apply map_eq. intros i. apply Hi. intros [].
Qed.

(** *** Storing the record of a part (lines 5127-5218) *)

Lemma idx_lookup_insert_ne (k key : string) (v : bufferlist) (t : m0_index) :
  k <> key -> idx_lookup k (idx_insert key v t) = idx_lookup k t.
Proof.
  intros Hne. apply String.eqb_neq in Hne.
  induction t as [|[k' v'] t IH]; simpl.
  - rewrite Hne. reflexivity.
  - destruct (String.compare key k') eqn:Ec; simpl.
    + apply String.compare_eq_iff in Ec. subst k'. rewrite Hne. reflexivity.
    + rewrite Hne. reflexivity.
    + rewrite IH. reflexivity.
Qed.

(** What a [store_part_info] that returns 0 has done, the index service
    answering the lookup of the old record. *)
Lemma store_part_info_spec
    (from_attrset : Attrs -> RGWUploadPartInfo -> Z * RGWUploadPartInfo)
    (key_to_str : MotrObject -> string)
    (wr : MotrMultipartWriter) (info : RGWUploadPartInfo) (attrs_ : Attrs)
    (w w' : world) :
  store_part_info from_attrset key_to_str wr info attrs_ w = (Ret 0, w') ->
  m0_errno w (call_idx
                (multiparts_iname
                   (get_bucket_name (tenant (bucket (mw_head_obj wr)))
                      (bucket_name (bucket (mw_head_obj wr)))))
                M0_IC_GET (part_key wr)) = 0%N ->
  let tb := get_bucket_name (tenant (bucket (mw_head_obj wr)))
              (bucket_name (bucket (mw_head_obj wr))) in
  let iname := multiparts_iname tb in
  let stats_iname :=
    ("motr.rgw.user.stats." ++ acl_owner (bucket (mw_head_obj wr)))%string in
  let info' := snd (from_attrset attrs_ info) in
  let old := (indices w !! iname) ≫= idx_lookup (part_key wr) in
  exists t t' ts h tl old_size old_rounded,
    indices w !! iname = Some t
    /\ indices w' !! iname = Some t'
    /\ idx_lookup (part_key wr) t'
       = Some [enc_part_info info'; enc_attrs attrs_;
               enc_meta (meta (mw_part_obj wr))]
    /\ (forall k, k <> part_key wr -> idx_lookup k t' = idx_lookup k t)
    /\ only_indices [iname; stats_iname] w w'
    /\ indices w !! stats_iname = Some ts
    /\ idx_lookup tb ts = Some (enc_dir_header h :: tl)
    /\ indices w' !! stats_iname
       = Some (idx_insert tb
                 [enc_dir_header
                    (updated_header h
                       (u64 (mw_actual_part_size wr - old_size))
                       (u64 (size_rounded info' - old_rounded)) 0 true)] ts)
    /\ objects w' ⊆ objects w
    /\ match old with
       | Some (enc_part_info oi :: enc_attrs _ :: x :: _) =>
           if is_composite (meta (mw_part_obj wr))
           then old_size = 0 /\ old_rounded = 0 /\ objects w' = objects w
           else old_size = part_accounted_size oi
                /\ old_rounded = size_rounded oi
                /\ forall m, decode_meta entry_meta_as_motr_meta [x] = ret (m, [])
                             -> layout_id m <> 0 -> oid m ∉ objects w'
       | _ => old_size = 0 /\ old_rounded = 0 /\ objects w' = objects w
       end.
Proof.
  intros H He tb iname stats_iname info' old.
  unfold store_part_info in H.
  destruct (from_attrset attrs_ info) as [rcc info1] eqn:Ef.
  subst info'. cbn [snd].
  destruct (rcc <? 0) eqn:Ercc.
  { injection H as H _. apply Z.ltb_lt in Ercc. lia. }
  cbv zeta in H. fold tb in H. fold iname in H. rewrite bind_eq in H.
  assert (Hget : do_idx_op_by_name iname M0_IC_GET (part_key wr) [] true w
                 = (Ret (match old with
                         | Some v => (0, v)
                         | None => (- ENOENT, [])
                         end), w)).
  { unfold do_idx_op_by_name. rewrite bind_eq. unfold m0_idx_op.
    fold tb in He. fold iname in He. rewrite He. unfold old.
    destruct (indices w !! iname) as [t0|]; cbn [mbind option_bind];
      [|reflexivity].
    destruct (idx_lookup (part_key wr) t0); reflexivity. }
  assert (Hold0 : exists rc1 obl,
             match old with
             | Some v => (0, v)
             | None => (- ENOENT, [])
             end = (rc1, obl)
             /\ ((rc1 = 0 /\ old = Some obl) \/ (rc1 <> 0 /\ old = None))).
  { destruct old as [v|]; do 2 eexists; (split; [reflexivity|]).
    - left. auto.
    - right. split; [unfold ENOENT; lia|reflexivity]. }
  destruct Hold0 as (rc1 & obl & Hpair & Hcase).
  rewrite Hpair in Hget. clear Hpair.
  rewrite Hget in H. cbn beta iota in H. rewrite bind_eq in H.
  match type of H with
  | context [match ?m w with _ => _ end] =>
      destruct (m w) as [[[[rc2 osz] ornd]|ex] w1] eqn:E1; [|discriminate H]
  end.
  cbn beta iota in H.
  destruct (rc2 =? 0) eqn:Erc2; cbn [negb] in H.
  2:{ injection H as H _. apply Z.eqb_neq in Erc2. congruence. }
  apply Z.eqb_eq in Erc2. subst rc2.
  assert (Hphase :
            objects_shrink w w1
            /\ match old with
               | Some (enc_part_info oi :: enc_attrs _ :: x :: _) =>
                   if is_composite (meta (mw_part_obj wr))
                   then osz = 0 /\ ornd = 0 /\ objects w1 = objects w
                   else osz = part_accounted_size oi
                        /\ ornd = size_rounded oi
                        /\ forall m,
                             decode_meta entry_meta_as_motr_meta [x] = ret (m, [])
                             -> layout_id m <> 0 -> oid m ∉ objects w1
               | _ => osz = 0 /\ ornd = 0 /\ objects w1 = objects w
               end).
  { assert (Hsame : forall ww, objects_shrink ww ww).
    { intros ww. repeat split. reflexivity. }
    destruct Hcase as [[-> Eold]|[Hrc1 Eold]]; rewrite Eold.
    2:{ apply Z.eqb_neq in Hrc1. rewrite Hrc1 in E1. cbn [andb] in E1.
        injection E1 as <- <- <-. auto. }
    replace (0 =? 0) with true in E1 by reflexivity. cbn [andb] in E1.
    destruct obl as [|i1 val].
    { cbn in E1. injection E1 as <- <- <-. auto. }
    cbn [List.length Nat.ltb Nat.leb andb] in E1.
    destruct (is_composite (meta (mw_part_obj wr))) eqn:Ecomp; cbn [negb] in E1.
    { injection E1 as <- <- <-. split; [apply Hsame|].
      destruct i1; auto. destruct val as [|[] [|x val]]; auto. }
    unfold decode_part_info at 1 in E1.
    destruct i1;
      try (rewrite bind_eq in E1; unfold throw in E1; discriminate E1).
    match type of Eold with
    | context [enc_part_info ?p] => rename p into oi
    end.
    rewrite bind_eq in E1. unfold ret at 1 in E1. cbn beta iota in E1.
    unfold decode_attrs at 1 in E1.
    destruct val as [|i2 val];
      [rewrite bind_eq in E1; unfold throw in E1; discriminate E1|].
    destruct i2;
      try (rewrite bind_eq in E1; unfold throw in E1; discriminate E1).
    rewrite bind_eq in E1. unfold ret at 1 in E1. cbn beta iota in E1.
    unfold decode_meta at 1 in E1.
    destruct val as [|x val];
      [rewrite bind_eq in E1; unfold throw in E1; discriminate E1|].
    assert (Hx : exists m,
               decode_meta entry_meta_as_motr_meta [x] = ret (m, [])
               /\ exists rcd od,
                    delete_mobj
                      (set_meta
                         (get_object (bucket (mw_head_obj wr))
                            (bucket_name (bucket (mw_head_obj wr)) ++ "."
                             ++ key_to_str (mw_head_obj wr) ++ ".part."
                             ++ string_of_Z (u64 (mw_part_num wr)))) m) w
                    = (Ret (rcd, od), w1)
                    /\ rcd = 0
                    /\ osz = part_accounted_size oi /\ ornd = size_rounded oi).
    { destruct x;
        try (rewrite bind_eq in E1; unfold throw in E1; discriminate E1);
        eexists; (split; [reflexivity|]);
        rewrite bind_eq in E1; unfold ret at 1 in E1; cbn beta iota in E1;
        rewrite bind_eq in E1;
        match type of E1 with
        | context [delete_mobj ?o w] =>
            destruct (delete_mobj o w) as [[[rcd od]|ex] wd] eqn:Ed;
              [|discriminate E1]
        end;
        injection E1 as -> <- <- <-; exists 0, od; auto. }
    destruct Hx as (m & Hm & rcd & od & Ed & -> & -> & ->).
    split.
    - apply (preserves_delete_mobj objects_shrink _ _ _ _ Ed).
    - split; [reflexivity|]. split; [reflexivity|].
      intros m' Hm' Hl. rewrite Hm in Hm'.
      assert (m' = m) as ->.
      { apply (f_equal (fun f => f w)) in Hm'. unfold ret in Hm'.
        injection Hm' as ->. reflexivity. }
      apply (delete_mobj_deletes _ _ _ _ _ Ed); [lia|exact Hl]. }
  destruct Hphase as ((Hi1 & _ & Ho1) & Hold).
  clear E1 Hget.
  rewrite bind_eq in H.
  match type of H with
  | context [do_idx_op_by_name iname M0_IC_PUT ?k ?b true w1] =>
      destruct (do_idx_op_by_name iname M0_IC_PUT k b true w1)
        as [[[rc3 v3]|ex] w3] eqn:Ep; [|discriminate H]
  end.
  cbn beta iota in H.
  pose proof ERR_NO_SUCH_UPLOAD_pos as Hnsu.
  destruct (do_idx_op_by_name_result _ _ _ _ _ _ _ _ Ep)
    as (rc3' & v3' & Hr & Hle & _).
  injection Hr as <- <-.
  destruct (rc3 <? 0) eqn:E3.
  { apply Z.ltb_lt in E3. destruct (rc3 =? - ENOENT); injection H as H _; lia. }
  apply Z.ltb_ge in E3. assert (rc3 = 0) by lia. subst rc3.
  apply do_idx_op_put_ok in Ep. destruct Ep as (t & Ht & ->).
  destruct (update_bucket_stats_ok _ _ _ _ _ _ _ _ H)
    as (ts & h & tl & Hts & Hl & ->).
  cbn [indices set_indices objects] in *. rewrite Hi1 in *.
  destruct (stats_iname_not_multiparts (acl_owner (bucket (mw_head_obj wr))) tb)
    as [Hne _].
  fold stats_iname in Hne, Hts |- *. fold iname in Hne.
  rewrite lookup_insert_ne in Hts by congruence.
  exists t, (idx_insert (part_key wr)
               [enc_part_info info1; enc_attrs attrs_;
                enc_meta (meta (mw_part_obj wr))] t), ts, h, tl, osz, ornd.
  split; [exact Ht|].
  split; [rewrite lookup_insert_ne by exact Hne; apply lookup_insert_eq|].
  split; [apply idx_lookup_insert|].
  split; [intros k Hk; apply idx_lookup_insert_ne, Hk|].
  split.
  { intros i Hi. cbn [indices set_indices].
    rewrite lookup_insert_ne; [rewrite lookup_insert_ne; [reflexivity|]|].
    - intros <-. apply Hi. left. reflexivity.
    - intros <-. apply Hi. right. left. reflexivity. }
  split; [exact Hts|]. split; [exact Hl|].
  split; [apply lookup_insert_eq|].
  split; [exact Ho1|]. exact Hold.
Qed.

Lemma open_mobj_nonpos (o o' : MotrObject) (rc : Z) (w w' : world) :
  open_mobj o w = (Ret (rc, o'), w') -> rc <= 0.
Proof.
  unfold open_mobj. rewrite bind_eq. intros H.
  match type of H with
  | context [match ?m w with _ => _ end] =>
      destruct (m w) as [[[rc0 o0]|e] w0] eqn:E0; [|discriminate H]
  end.
  assert (Hrc0 : rc0 <= 0).
  { destruct (layout_id (meta o) =? 0).
    - rewrite bind_eq in E0.
      destruct (get_bucket_dir_ent o rgw_bucket_dir_entry_default w)
        as [[[[rc1 e1] o1]|e] w1] eqn:Eg; [|discriminate E0].
      apply get_bucket_dir_ent_key in Eg. injection E0 as <- _ _. tauto.
    - injection E0 as <- _ _. lia. }
  cbn beta iota in H.
  destruct (rc0 <? 0); [injection H as <- _ _; exact Hrc0|].
  destruct (layout_id (meta o0) =? 0);
    [injection H as <- _ _; unfold ENOENT; lia|].
  rewrite bind_eq in H.
  destruct (m0_entity_open (oid (meta o0)) w0) as [r w1] eqn:Eo.
  destruct (m0_entity_open_result _ _ _ _ Eo) as (rc1 & -> & Hle & _).
  cbn beta iota in H.
  destruct (negb (rc1 =? 0)); injection H as <- _ _; lia.
Qed.

Lemma delete_mobj_nonpos (o o' : MotrObject) (rc : Z) (w w' : world) :
  delete_mobj o w = (Ret (rc, o'), w') -> rc <= 0.
Proof.
  unfold delete_mobj. intros H.
  destruct ((fst (oid (meta o)) =? 0) || (snd (oid (meta o)) =? 0)).
  { injection H as <- _ _. unfold EINVAL. lia. }
  rewrite bind_eq in H.
  match type of H with
  | context [match ?m w with _ => _ end] =>
      destruct (m w) as [[[rc0 o0]|e] w0] eqn:E0; [|discriminate H]
  end.
  assert (Hrc0 : rc0 <= 0).
  { destruct (negb (mobj o)).
    - apply open_mobj_nonpos in E0. exact E0.
    - injection E0 as <- _ _. lia. }
  cbn beta iota in H.
  destruct (rc0 <? 0); [injection H as <- _ _; exact Hrc0|].
  rewrite bind_eq in H.
  destruct (m0_entity_delete (oid (meta o0)) w0) as [r w1] eqn:Ed.
  destruct (m0_entity_delete_result _ _ _ _ Ed) as (rc1 & -> & Hle & _).
  cbn beta iota in H.
  destruct (negb (rc1 =? 0)); injection H as <- _ _; lia.
Qed.

Lemma store_part_info_nonpos
    (from_attrset : Attrs -> RGWUploadPartInfo -> Z * RGWUploadPartInfo)
    (key_to_str : MotrObject -> string)
    (wr : MotrMultipartWriter) (info : RGWUploadPartInfo) (attrs_ : Attrs)
    (rc : Z) (w w' : world) :
  store_part_info from_attrset key_to_str wr info attrs_ w = (Ret rc, w') ->
  rc <= 0.
Proof.
  pose proof ERR_NO_SUCH_UPLOAD_pos as Hnsu.
  unfold store_part_info. intros H.
  destruct (from_attrset attrs_ info) as [rcc info1].
  destruct (rcc <? 0) eqn:Ercc.
  { injection H as <- _. apply Z.ltb_lt in Ercc. lia. }
  cbv zeta in H. rewrite bind_eq in H.
  match type of H with
  | context [do_idx_op_by_name ?i M0_IC_GET ?k ?b ?u w] =>
      destruct (do_idx_op_by_name i M0_IC_GET k b u w) as [[[rc1 obl]|ex] w0];
        [|discriminate H]
  end.
  cbn beta iota in H. rewrite bind_eq in H.
  match type of H with
  | context [match ?m w0 with _ => _ end] =>
      destruct (m w0) as [[[[rc2 osz] ornd]|ex] w1] eqn:E1; [|discriminate H]
  end.
  cbn beta iota in H.
  assert (Hrc2 : rc2 <= 0).
  { destruct ((rc1 =? 0) && _ && _); [|injection E1 as <- _ _ _; lia].
    rewrite bind_eq in E1.
    destruct (decode_part_info obl w0) as [[[oi it1]|ex] wa]; [|discriminate E1].
    cbn beta iota in E1. rewrite bind_eq in E1.
    destruct (decode_attrs it1 wa) as [[[a it2]|ex] wb]; [|discriminate E1].
    cbn beta iota in E1. rewrite bind_eq in E1.
    destruct (decode_meta entry_meta_as_motr_meta it2 wb) as [[[m it3]|ex] wc];
      [|discriminate E1].
    cbn beta iota in E1. rewrite bind_eq in E1.
    match type of E1 with
    | context [delete_mobj ?o wc] =>
        destruct (delete_mobj o wc) as [[[rcd od]|ex] wd] eqn:Ed;
          [|discriminate E1]
    end.
    apply delete_mobj_nonpos in Ed. injection E1 as <- _ _ _. exact Ed. }
  destruct (rc2 =? 0) eqn:Erc2; cbn [negb] in H;
    [|injection H as <- _; exact Hrc2].
  rewrite bind_eq in H.
  match type of H with
  | context [do_idx_op_by_name ?i M0_IC_PUT ?k ?b true w1] =>
      destruct (do_idx_op_by_name i M0_IC_PUT k b true w1)
        as [[[rc3 v3]|ex] w3] eqn:Ep; [|discriminate H]
  end.
  cbn beta iota in H.
  destruct (rc3 <? 0) eqn:E3.
  { apply Z.ltb_lt in E3. destruct (rc3 =? - ENOENT); injection H as <- _; lia. }
  apply update_bucket_stats_failure in H. tauto.
Qed.


(** *** The part objects of a multipart object (lines 3917-3974) *)

Lemma part_objs_emplace_last (k : Z) (p : MotrPartObject)
    (m : list (Z * MotrPartObject)) :
  Forall (fun x => fst x < k) m -> part_objs_emplace k p m = m ++ [(k, p)].
Proof.
  induction m as [|[k' p'] tl IH]; intros H; [reflexivity|].
  inversion H as [|? ? Hk Htl]; subst. cbn [fst] in Hk.
  cbn [part_objs_emplace].
  replace (k <? k') with false by (symmetry; apply Z.ltb_ge; lia).
  replace (k =? k') with false by (symmetry; apply Z.eqb_neq; lia).
  rewrite (IH Htl). reflexivity.
Qed.

Lemma int_of_u32_pos (k x : Z) :
  k = u32 x -> 0 < int_of_u32 k -> int_of_u32 (u32 x) = k.
Proof.
  intros -> H. rewrite int_of_u32_u32 in *.
  unfold int_of_u32 in *. cbn zeta in *.
  pose proof (Z.mod_pos_bound x uint32_mod eq_refl) as Hb.
  unfold u32 in *. change uint32_mod with (2 ^ 32) in *.
  destruct (x mod 2 ^ 32 <? 2 ^ 31); [reflexivity|lia].
Qed.

Lemma get_part_objs_for_spec (key_to_str : MotrObject -> string)
    (o : MotrObject) (ps : list (Z * MotrMultipartPart)) :
  forall (off : Z) (acc : list (Z * MotrPartObject)),
    StronglySorted Z.lt (map fst ps) ->
    Forall (fun kp => 0 < int_of_u32 (fst kp)
                      /\ fst kp = u32 (num (part_info (snd kp)))) ps ->
    Forall (fun kp => 0 <= get_size (snd kp)) ps ->
    Forall (fun x => Forall (fun kp => fst x < fst kp) ps) acc ->
    0 <= off -> off + parts_size ps < 2 ^ 64 ->
    exists objs,
      get_part_objs_for key_to_str o ps off acc
      = (off + parts_size ps, acc ++ objs)
      /\ Forall2 (fun kp ko =>
                    fst ko = fst kp
                    /\ po_part_num (snd ko) = fst kp
                    /\ po_part_size (snd ko) = get_size (snd kp)
                    /\ meta (po_obj (snd ko)) = part_meta (snd kp)
                    /\ obj_size (po_obj (snd ko)) = get_size (snd kp))
                 ps objs
      /\ consecutive_from off (map snd objs) = true
      /\ fold_right (fun obj acc => po_part_size obj + acc) 0 (map snd objs)
         = parts_size ps.
Proof.
  induction ps as [|[k p] rest IH]; intros off acc Hs Hk Hsz Hacc Hoff Hmax.
  - exists []. cbn. rewrite app_nil_r, Z.add_0_r. repeat split. constructor.
  - cbn [map fst] in Hs. apply StronglySorted_inv in Hs as [Hs Hlt].
    pose proof (List.Forall_inv Hk) as [Hpos Hnum].
    pose proof (List.Forall_inv_tail Hk) as Hk'.
    pose proof (List.Forall_inv Hsz) as Hp.
    pose proof (List.Forall_inv_tail Hsz) as Hsz'.
    cbn [fst snd] in Hpos, Hnum, Hp.
    assert (Hrest : 0 <= parts_size rest).
    { clear - Hsz'. induction Hsz' as [|x l Hx _ IHl]; cbn; [lia|].
      unfold get_size in Hx. unfold parts_size in IHl. lia. }
    change (parts_size ((k, p) :: rest))
      with (get_size p + parts_size rest) in *.
    cbn [get_part_objs_for].
    rewrite (int_of_u32_pos k _ Hnum Hpos).
    rewrite part_objs_emplace_last.
    2:{ eapply List.Forall_impl; [|exact Hacc]. intros x Hx.
        exact (List.Forall_inv Hx). }
    rewrite u64_small by lia.
    destruct (IH (off + get_size p)
                 (acc ++ [(k, {| po_obj := set_meta
                                    (set_obj_size
                                       (get_object (bucket o)
                                          (bucket_name (bucket o) ++ "."
                                           ++ key_to_str o ++ ".part."
                                           ++ string_of_Z (u32 (num (part_info p)))))
                                       (get_size p))
                                    (part_meta p);
                                 po_part_num := u32 (num (part_info p));
                                 part_off := off;
                                 po_part_size := get_size p |})])
                 Hs Hk' Hsz')
      as (objs & E & Hf & Hc & Hsum); try lia.
    { apply Forall_app. split.
      - eapply List.Forall_impl; [|exact Hacc]. intros x Hx.
        exact (List.Forall_inv_tail Hx).
      - constructor; [|constructor]. cbn [fst].
        rewrite Forall_map in Hlt. exact Hlt. }
    eexists. split; [rewrite E, <- app_assoc; cbn [app]; f_equal; lia|].
    split; [|split].
    + constructor; [|exact Hf]. cbn. auto.
    + cbn [map snd consecutive_from part_off po_part_size].
      rewrite Hc, Z.eqb_refl. cbn [andb].
      replace (0 <=? get_size p) with true; [reflexivity|].
      symmetry. apply Z.leb_le. exact Hp.
    + cbn [map snd fold_right po_part_size]. rewrite Hsum. reflexivity.
Qed.

(** X16: for a multipart object whose upload is found and whose parts come
    back in one listing, with sizes that add up to less than 2^64,
    [get_part_objs] returns 0 and one part object per part listed, under
    the same number and in the same order, with the size and the metadata
    of the part; the part objects lie one after the other from offset 0 and
    add up to the size of the parts. *)
Theorem get_part_objs_layout (key_to_str : MotrObject -> string)
    (fuel : nat) (o : MotrObject) (id : string) (rc0 rc1 nm : Z)
    (u' : MotrMultipartUpload) (w w0 w1 : world) :
  get_upload_id (get_bucket_name (tenant (bucket o)) (bucket_name (bucket o)))
    (get_key_str o) "" w = (Ret (rc0, id), w0) ->
  0 <= rc0 ->
  list_parts (get_multipart_upload (bucket o) (name o) id) 1000 0 0 false w0
  = (Ret (rc1, nm, false, u'), w1) ->
  0 <= rc1 ->
  Forall (fun kp => 0 <= get_size (snd kp)) (parts u') ->
  parts_size (parts u') < 2 ^ 64 ->
  exists objs,
    get_part_objs key_to_str (S fuel) o [] w = (Ret (0, objs), w1)
    /\ Forall2 (fun kp ko =>
                  fst ko = fst kp
                  /\ po_part_num (snd ko) = fst kp
                  /\ po_part_size (snd ko) = get_size (snd kp)
                  /\ meta (po_obj (snd ko)) = part_meta (snd kp)
                  /\ obj_size (po_obj (snd ko)) = get_size (snd kp))
               (parts u') objs
    /\ consecutive_from 0 (map snd objs) = true
    /\ fold_right (fun obj acc => po_part_size obj + acc) 0 (map snd objs)
       = parts_size (parts u').
Proof.
  intros Hup Hrc0 Hl Hrc1 Hsz Hmax.
  assert (Hn : 0 < 1000) by lia.
  destruct (list_parts_listed _ _ _ _ _ _ _ _ _ _ _ Hn (Z.le_refl 0)
              Hl Hrc1) as (_ & Hs & Hall & _).
  assert (Hmax0 : 0 + parts_size (parts u') < 2 ^ 64) by lia.
  destruct (get_part_objs_for_spec key_to_str o (parts u') 0 [] Hs Hall Hsz
              (List.Forall_nil _) (Z.le_refl 0) Hmax0)
    as (objs & E & Hf & Hc & Hsum).
  exists objs. split; [|auto].
  unfold get_part_objs. rewrite bind_eq, Hup. cbn beta iota.
  replace (rc0 <? 0) with false by (symmetry; apply Z.ltb_ge; lia).
  cbn [get_part_objs_loop]. rewrite bind_eq, Hl. cbn beta iota.
  replace (rc1 =? - ENOENT) with false
    by (symmetry; apply Z.eqb_neq; unfold ENOENT; lia).
  replace (rc1 <? 0) with false by (symmetry; apply Z.ltb_ge; lia).
  rewrite E. reflexivity.
Qed.

End SalFacts.

(** C2 does not hold as stated: the index holds the null version of an
    object named [a SEP] and, after it, the version [zzz] of [a].  NEXT
    from [a SEP] returns both records; the first has another name, and the
    second is a record of [a]; yet a GET of [a] without a version instance
    fails with ENOENT, because the scan stops at the first record instead
    of passing over it. *)
Lemma get_without_instance_stops_counterexample :
  let o := Sal.get_object (Example.bkt true true) "a" in
  let returned := Motr.idx_next ("a" ++ Sal.SEP) 2 Example.sep_index in
  Motr.indices Example.w_sep !! Sal.bucket_index_iname o = Some Example.sep_index
  /\ Sal.keys_ascending Example.sep_index = true
  /\ Forall (fun kv => Sal.record_encoded (snd kv) = true) returned
  /\ Sal.wf_record (("a" ++ Sal.SEP ++ "zzz")%string, Example.rec "a" "zzz" 7 10 1)
     = true
  /\ List.filter (fun kv => Sal.record_named "a" (snd kv)) returned
     = [(("a" ++ Sal.SEP ++ "zzz")%string, Example.rec "a" "zzz" 7 10 1)]
  /\ Sal.get_bucket_dir_ent (EXT := Example.ext) o rgw_bucket_dir_entry_default
       Example.w_sep
     = (Motr.Ret (- ENOENT, rgw_bucket_dir_entry_default, o), Example.w_sep).
Proof.
  cbv zeta. split; [vm_compute; reflexivity|]. split; [vm_compute; reflexivity|].
  split; [repeat constructor|]. repeat split; vm_compute; reflexivity.
Qed.

Lemma get_without_instance_latest_witness :
  exists k bl e o',
    In (k, bl) Example.bucket_index /\ Sal.record_entry bl = Some e
    /\ mtime e = 7
    /\ fst (Sal.get_bucket_dir_ent (EXT := Example.ext)
              (Sal.get_object (Example.bkt true true) "a")
              rgw_bucket_dir_entry_default Example.w0)
       = Motr.Ret (0, e, o').
Proof.
  destruct (get_without_instance_latest (EXT := Example.ext)
              (Sal.get_object (Example.bkt true true) "a") Example.w0
              Example.bucket_index eq_refl ltac:(discriminate)
              eq_refl eq_refl
              ltac:(repeat constructor))
    as (k & bl & e & o' & Hin & Hre & Hmax & Hget).
  exists k, bl, e, o'. split; [exact Hin|]. split; [exact Hre|].
  split; [|exact Hget].
  vm_compute in Hget.
  destruct Hin as [Hin|[Hin|[]]]; injection Hin as <- <-;
    injection Hre as <-; [discriminate Hget | reflexivity].
Defined.

Lemma prepare_delete_marker_witness :
  fst (Sal.prepare (EXT := Example.ext)
         (Sal.set_instance (Sal.get_object (Example.bkt true true) "a") "dm1")
         {| Sal.mod_ptr := None; Sal.unmod_ptr := None; Sal.if_match := None;
            Sal.if_nomatch := None; Sal.high_precision_time := false |}
         0 Example.w_marker)
  = Motr.Ret (- 2003,
              Sal.set_instance (Sal.get_object (Example.bkt true true) "a") "dm1",
              0).
Proof.
  destruct (Sal.get_bucket_dir_ent (EXT := Example.ext)
              (Sal.set_instance (Sal.get_object (Example.bkt true true) "a") "dm1")
              rgw_bucket_dir_entry_default Example.w_marker) as [r w'] eqn:E.
  assert (Hr : r = Motr.Ret (0, Example.marker,
                 Sal.set_instance (Sal.get_object (Example.bkt true true) "a") "dm1")).
  { apply (f_equal fst) in E. simpl in E. rewrite <- E. vm_compute. reflexivity. }
  subst r.
  pose proof (prepare_delete_marker (EXT := Example.ext)
                (Sal.set_instance (Sal.get_object (Example.bkt true true) "a") "dm1")
                (Sal.set_instance (Sal.get_object (Example.bkt true true) "a") "dm1")
                {| Sal.mod_ptr := None; Sal.unmod_ptr := None;
                   Sal.if_match := None; Sal.if_nomatch := None;
                   Sal.high_precision_time := false |}
                0 Example.marker 0 Example.w_marker w' E) as H.
  assert (H0 : 0 <= 0) by lia.
  assert (Hdm : is_delete_marker Example.marker = true) by reflexivity.
  destruct (H H0 Hdm) as [Hna _].
  rewrite Hna; [reflexivity|].
  split; [reflexivity | discriminate].
Defined.


Lemma composite_process_write_offset_witness :
  exists wr' blocks,
    Sal.process (EXT := Example.ext) 101 Example.pool_attr
      Example.composite_writer 100 4096 Example.w0
    = (Motr.Ret (0, wr'),
       Motr.set_write_log Example.w0 (Motr.write_log Example.w0 ++ blocks))
    /\ Sal.contiguous_writes (1, 1) ((3 - 1) * (15 * 1024 * 1024) + 4096) blocks
       = true
    /\ blocks <> []
    /\ 100 <= Sal.blocks_length blocks.
Proof.
  destruct (composite_process_write_offset (EXT := Example.ext) 101
              Example.pool_attr Example.composite_writer 100 4096 Example.w0)
    as (wr' & blocks & E & Hc & _ & Hw & Hl & _).
  - cbn. lia.
  - lia.
  - lia.
  - cbn. lia.
  - constructor.
  - cbn. lia.
  - intros len last Hlen.
    apply (get_optimal_bs_pos Example.pool_attr 4096 len last);
      first [ lia | vm_compute; reflexivity | vm_compute; discriminate ].
  - reflexivity.
  - cbn. lia.
  - exists wr', blocks. split; [exact E|]. split; [exact Hc|].
    assert (Hne : blocks <> []) by (apply Hl; [reflexivity|cbn; lia]).
    split; [exact Hne|]. apply (Hw Hne). reflexivity.
Defined.

Lemma update_bucket_stats_spec_witness :
  Sal.update_bucket_stats "u" "b" 10 4096 1 false
    Example.w_no_stats
  = (Motr.Ret (- ENOENT), Example.w_no_stats)
  /\ exists h',
       Sal.update_bucket_stats "u" "b" 10 4096 1 false Example.w0
       = (Motr.Ret 0,
          Motr.set_indices Example.w0
            (<["motr.rgw.user.stats.u"%string
               := Motr.idx_insert "b" [enc_dir_header h'] Example.stats_index]>
               (Motr.indices Example.w0)))
       /\ stats h' !! Main
          = Some {| total_size := 90; total_size_rounded := 0;
                    num_entries := 4; actual_size := 0 |}
       /\ forall c, c <> Main -> stats h' !! c = stats Example.hdr !! c.
Proof.
  split.
  - apply (proj1 (update_bucket_stats_spec
                    "u" "b" 10 4096 1 false Example.w_no_stats)
             (- ENOENT) []).
    + reflexivity.
    + discriminate.
  - apply (proj1 (proj1 (proj2 (update_bucket_stats_spec
                                  "u" "b" 10 4096 1 false Example.w0))
                    Example.stats_index Example.hdr [] Example.main_stats
                    eq_refl eq_refl eq_refl (or_introl eq_refl))).
    reflexivity.
Defined.

(** C5 does not hold as stated: in a store without the statistics header
    of the bucket, the index write of a PUT succeeds and the new entry is in
    the bucket index, the statistics update fails with ENOENT, and
    [MotrAtomicWriter::complete] returns that error; likewise a DELETE
    removes the index entry and then returns the error of the statistics
    update. *)
Lemma stats_failure_fails_mutation_counterexample :
  let put := Sal.complete_write_index (EXT := Example.ext) 1 Example.writer
               Example.meta2 "e" 0 ∅ None 1 in
  let del := Sal.remove_mobj_and_index_delete (EXT := Example.ext) 1
               Example.obj_a (Example.ent "a" "" 5 10 0) ("a" ++ Sal.SEP)
               "motr.rgw.bucket.index.b" "b" in
  (fst (put Example.w_no_stats) = Motr.Ret (0, 4096, Example.writer)
   /\ (Motr.indices Example.w_put !! "motr.rgw.bucket.index.b"%string)
        ≫= Motr.idx_lookup ("c" ++ Sal.SEP) <> None
   /\ fst (Sal.update_bucket_stats "u" "b" 10 4096 1 true Example.w_put)
      = Motr.Ret (- ENOENT)
   /\ fst (Sal.MotrAtomicWriter_complete (EXT := Example.ext) 1 Example.writer
             Example.meta2 "e" 0 ∅ None 1 Example.w_no_stats)
      = Motr.Ret (- ENOENT, Example.writer))
  /\ (fst (del Example.w_no_stats)
      = Motr.Ret (0, 4096, Sal.set_mobj Example.obj_a true)
      /\ (Motr.indices Example.w_del !! "motr.rgw.bucket.index.b"%string)
           ≫= Motr.idx_lookup ("a" ++ Sal.SEP) = None
      /\ fst (Sal.update_bucket_stats "u" "b" 10 4096 1 false Example.w_del)
         = Motr.Ret (- ENOENT)
      /\ fst (Sal.remove_mobj_and_index_entry (EXT := Example.ext) 1
                Example.obj_a (Example.ent "a" "" 5 10 0) ("a" ++ Sal.SEP)
                "motr.rgw.bucket.index.b" "b" Example.w_no_stats)
         = Motr.Ret (- ENOENT, Sal.set_mobj Example.obj_a true)).
Proof.
  cbv zeta. repeat split; try (vm_compute; reflexivity).
  vm_compute. discriminate.
Qed.

Lemma stats_failure_is_returned_witness :
  (Sal.MotrAtomicWriter_complete (EXT := Example.ext) 1 Example.writer
     Example.meta2 "e" 0 ∅ None 1 Example.w_no_stats
   = (Motr.Ret (- ENOENT, Example.writer), Example.w_put) /\ - ENOENT < 0)
  /\ (Sal.remove_mobj_and_index_entry (EXT := Example.ext) 1
        Example.obj_a (Example.ent "a" "" 5 10 0) ("a" ++ Sal.SEP)
        "motr.rgw.bucket.index.b" "b" Example.w_no_stats
      = (Motr.Ret (- ENOENT, Sal.set_mobj Example.obj_a true), Example.w_del)
      /\ - ENOENT < 0).
Proof.
  split.
  - apply (proj1 (stats_failure_is_returned (EXT := Example.ext) 1)
             Example.writer Example.writer Example.meta2 "e"%string 0 ∅ None
             1 4096 (- ENOENT) Example.w_no_stats Example.w_put Example.w_put).
    + rewrite (surjective_pairing (Sal.complete_write_index _ _ _ _ _ _ _ _ _)).
      f_equal; vm_compute; reflexivity.
    + rewrite (surjective_pairing (Sal.update_bucket_stats _ _ _ _ _ _ _)).
      f_equal; vm_compute; reflexivity.
    + discriminate.
  - apply (proj2 (stats_failure_is_returned (EXT := Example.ext) 1)
             Example.obj_a (Sal.set_mobj Example.obj_a true)
             (Example.ent "a" "" 5 10 0) ("a" ++ Sal.SEP)%string
             "motr.rgw.bucket.index.b"%string "b"%string 4096 0 (- ENOENT)
             Example.w_no_stats Example.w_del Example.w_del).
    + rewrite (surjective_pairing (Sal.remove_mobj_and_index_delete _ _ _ _ _ _ _)).
      f_equal; vm_compute; reflexivity.
    + lia.
    + reflexivity.
    + rewrite (surjective_pairing (Sal.update_bucket_stats _ _ _ _ _ _ _)).
      f_equal; vm_compute; reflexivity.
    + discriminate.
Defined.

(** C4 does not hold as stated: in a bucket with versioning suspended, the
    DELETE of an object whose latest record is the null version succeeds
    and creates a delete-marker, stored under the null key, and the
    statistics header of the bucket has changed: the removal of the null
    version that comes before the marker has taken its 10 bytes and one
    object from the counters. *)
Lemma delete_marker_subtracts_stats_counterexample :
  let src := Sal.get_object (Example.bkt true false) "a" in
  let params := {| Sal.obj_owner_id := "u"; Sal.obj_owner_display_name := "U";
                   Sal.params_mtime := 0 |} in
  let r := Sal.delete_obj (EXT := Example.ext) 1 src params 0
             "abcdefghijklmnopqrstuvw" 9 Example.w_null in
  (exists o',
     fst r = Motr.Ret (0, {| Sal.result_version_id := "null";
                             Sal.result_delete_marker := true |}, o'))
  /\ (exists m,
        (Motr.indices (snd r) !! "motr.rgw.bucket.index.b"%string)
          ≫= Motr.idx_lookup ("a" ++ Sal.SEP)
        = Some [enc_dir_entry m; enc_attrs ∅; enc_dir_entry_meta m]
        /\ is_delete_marker m = true)
  /\ (Motr.indices Example.w_null !! "motr.rgw.user.stats.u"%string)
       ≫= Motr.idx_lookup "b"
     = Some [enc_dir_header Example.hdr]
  /\ stats Example.hdr !! Main
     = Some {| total_size := 100; total_size_rounded := 0; num_entries := 5;
               actual_size := 4096 |}
  /\ (exists h',
        (Motr.indices (snd r) !! "motr.rgw.user.stats.u"%string)
          ≫= Motr.idx_lookup "b"
        = Some [enc_dir_header h']
        /\ stats h' !! Main
           = Some {| total_size := 90; total_size_rounded := 0;
                     num_entries := 4; actual_size := 0 |}).
Proof.
  cbv zeta. split; [|split; [|split; [|split]]].
  - eexists. vm_compute. reflexivity.
  - eexists. split; [vm_compute; reflexivity|reflexivity].
  - vm_compute. reflexivity.
  - vm_compute. reflexivity.
  - eexists. split; vm_compute; reflexivity.
Qed.

Lemma delete_marker_leaves_stats_witness :
  let src := Sal.get_object (Example.bkt true true) "a" in
  let params := {| Sal.obj_owner_id := "u"; Sal.obj_owner_display_name := "U";
                   Sal.params_mtime := 0 |} in
  let w1 := snd (Sal.delete_obj (EXT := Example.ext) 1 src params 0
                   "abcdefghijklmnopqrstuvw" 9 Example.w0) in
  let w2 := snd (Sal.remove_mobj_and_index_entry (EXT := Example.ext) 1 src
                   Example.marker ("a" ++ Sal.SEP ++ "dm1")
                   (Sal.bucket_index_iname src) (Sal.tenant_bkt_name src)
                   Example.w_marker) in
  Motr.indices w1 !! "motr.rgw.user.stats.u"%string = Some Example.stats_index
  /\ Motr.indices w2 !! "motr.rgw.user.stats.u"%string = Some Example.stats_index.
Proof.
  cbv zeta. split.
  - match goal with
    | |- Motr.indices (snd (?m ?w)) !! _ = _ =>
        destruct (m w) as [r w1] eqn:E;
        destruct (delete_marker_leaves_stats (EXT := Example.ext) 1
                    (Sal.get_object (Example.bkt true true) "a") w w1)
          as (_ & H & _);
        destruct (H _ _ _ _ r eq_refl eq_refl eq_refl E) as [_ Hs]
    end.
    simpl snd. etransitivity; [exact (Hs "u"%string)|]. vm_compute. reflexivity.
  - match goal with
    | |- Motr.indices (snd (?m ?w)) !! _ = _ =>
        destruct (m w) as [r w2] eqn:E;
        destruct (delete_marker_leaves_stats (EXT := Example.ext) 1
                    (Sal.get_object (Example.bkt true true) "a") w w2)
          as (_ & _ & H);
        destruct (H Example.marker _ r eq_refl E) as [_ Hs]
    end.
    simpl snd. etransitivity; [exact (Hs "u"%string)|]. vm_compute. reflexivity.
Defined.



Lemma complete_etag_witness :
  let r := Sal.complete (EXT := Example.ext) 2 (Example.upload1 false)
             Example.request_etags 0 false Example.no_compression 0 5
             (Sal.get_object (Example.bkt false false) "obj") 11
             (Example.w_upload false) in
  exists ent a m,
    (Motr.indices (snd r) !! "motr.rgw.bucket.index.b"%string)
      ≫= Motr.idx_lookup ("obj" ++ Sal.SEP)
    = Some [enc_dir_entry ent; enc_attrs a; enc_meta m]
    /\ etag ent = "00112233445566778899aabbccddeeff-2"%string.
Proof.
  cbv zeta.
  destruct (Sal.complete (EXT := Example.ext) 2 (Example.upload1 false)
              Example.request_etags 0 false Example.no_compression 0 5
              (Sal.get_object (Example.bkt false false) "obj") 11
              (Example.w_upload false))
    as [[[[rc tobj] st]|ex] w'] eqn:E.
  - assert (Hrc : 0 <= rc).
    { apply (f_equal fst) in E. vm_compute in E. injection E as <- _ _. lia. }
    assert (Hu : Sal.mp_upload_id (Example.upload1 false) <> ""%string)
      by discriminate.
    destruct (complete_etag (EXT := Example.ext) 2 (Example.upload1 false)
                Example.request_etags 0 false Example.no_compression 0 5
                (Sal.get_object (Example.bkt false false) "obj") tobj 11 rc st
                (Example.w_upload false) w' Hu E Hrc)
      as (_ & _ & ent & a & m & Hl & He & _).
    exists ent, a, m. split; [exact Hl|].
    rewrite He. vm_compute. reflexivity.
  - exfalso. apply (f_equal fst) in E. vm_compute in E. discriminate E.
Defined.

Lemma roundup_rounddown_bounds_witness :
  (10 <= Layout.roundup 10 4096 < 10 + 4096
   /\ Layout.roundup 10 4096 mod 4096 = 0)
  /\ (10 - 4096 < Layout.rounddown 10 4096 <= 10
      /\ Layout.rounddown 10 4096 mod 4096 = 0)
  /\ (10 mod 4096 = 0 ->
      Layout.roundup 10 4096 = 10 /\ Layout.rounddown 10 4096 = 10).
Proof.
  apply (roundup_rounddown_bounds 10 4096); [lia | lia |].
  change (2 ^ 64) with 18446744073709551616. lia.
Defined.

Lemma read_multipart_obj_covers_witness :
  fst (Sal.read_multipart_obj (fun _ _ _ => 0) Example.part_objs 10 17) = 0
  /\ Sal.bytes_read
       (snd (Sal.read_multipart_obj (fun _ _ _ => 0) Example.part_objs 10 17))
     = seqZ 10 (17 - 10 + 1)
  /\ Forall (fun r => let '(obj, s, e) := r in
                      0 <= s /\ e < Sal.po_part_size obj /\ s <= e + 1)
            (snd (Sal.read_multipart_obj (fun _ _ _ => 0) Example.part_objs 10 17)).
Proof.
  apply (read_multipart_obj_covers (fun _ _ _ => 0) Example.part_objs 10 17).
  - intros. lia.
  - reflexivity.
  - lia.
  - vm_compute. reflexivity.
  - vm_compute. reflexivity.
Defined.

Lemma get_key_str_identifies_witness :
  Sal.get_key_str Example.obj_a
  = Sal.get_key_str (Sal.set_instance Example.obj_a "null").
Proof.
  apply (proj2 (get_key_str_identifies Example.obj_a
                  (Sal.set_instance Example.obj_a "null")
                  eq_refl eq_refl)).
  split; reflexivity.
Defined.

Lemma update_bucket_stats_add_sub_witness :
  let w1 := snd (Sal.update_bucket_stats "u" "b" 10 4096 1 true Example.w0) in
  let w2 := snd (Sal.update_bucket_stats "u" "b" 10 4096 1 false w1) in
  exists t h tl h2,
    Motr.indices Example.w0 !! ("motr.rgw.user.stats." ++ "u")%string = Some t
    /\ Motr.idx_lookup "b" t = Some (enc_dir_header h :: tl)
    /\ (Motr.indices w2 !! ("motr.rgw.user.stats." ++ "u")%string)
         ≫= Motr.idx_lookup "b" = Some [enc_dir_header h2]
    /\ num_entries (Sal.stats_at h2 Main) = num_entries (Sal.stats_at h Main) mod 2 ^ 64
    /\ total_size (Sal.stats_at h2 Main) = total_size (Sal.stats_at h Main) mod 2 ^ 64
    /\ actual_size (Sal.stats_at h2 Main) = actual_size (Sal.stats_at h Main) mod 2 ^ 64
    /\ forall c, c <> Main -> stats h2 !! c = stats h !! c.
Proof.
  intros w1 w2.
  apply (update_bucket_stats_add_sub "u" "b" 10 4096 1 Example.w0 w1 w2);
    vm_compute; reflexivity.
Defined.

Lemma next_query_by_name_result_witness :
  exists rc key_out val_out,
    Sal.next_query_by_name "motr.rgw.bucket.index.b" "a" 2 "a" Example.w0
    = (Motr.Ret (rc, key_out, val_out), Example.w0)
    /\ List.length key_out = 2%nat /\ List.length val_out = 2%nat
    /\ rc <= Z.of_nat 2
    /\ (0 <= rc ->
        Forall (fun kv => Sal.has_prefix "a" (fst kv) = true
                          /\ exists t,
                               Motr.indices Example.w0
                                 !! "motr.rgw.bucket.index.b"%string = Some t
                               /\ In kv t)
               (firstn (Z.to_nat rc) (combine key_out val_out))).
Proof.
  apply (next_query_by_name_result "motr.rgw.bucket.index.b" "a" 2 "a"
           Example.w0).
  lia.
Defined.

Lemma list_parts_bounds_witness :
  Sal.list_parts (EXT := Example.ext) (Example.upload1 false) 10 0 0 false
    (Example.w_upload false)
  = (Motr.Ret (0, 2, false, Sal.set_parts (Example.upload1 false) Example.listed1),
     Example.w_upload false)
  /\ Z.of_nat (List.length Example.listed1) <= 10
  /\ StronglySorted Z.lt (map fst Example.listed1)
  /\ Forall (fun kp => 0 < Sal.int_of_u32 (fst kp)
                       /\ fst kp = u32 (num (Sal.part_info (snd kp))))
            Example.listed1
  /\ ((Example.listed1 = [] /\ 2 = 0)
      \/ (0 < 2
          /\ exists kp, In kp Example.listed1 /\ Sal.int_of_u32 (fst kp) = 2)).
Proof.
  assert (E : Sal.list_parts (EXT := Example.ext) (Example.upload1 false)
                10 0 0 false (Example.w_upload false)
              = (Motr.Ret (0, 2, false,
                           Sal.set_parts (Example.upload1 false) Example.listed1),
                 Example.w_upload false)).
  { vm_compute. reflexivity. }
  split; [exact E|].
  apply (list_parts_bounds (EXT := Example.ext) (Example.upload1 false)
           (Sal.set_parts (Example.upload1 false) Example.listed1)
           10 0 0 2 0 false false (Example.w_upload false)
           (Example.w_upload false)); [lia | lia | exact E | lia].
Defined.


Lemma delete_obj_unversioned_witness :
  let w' := snd (Sal.delete_obj (EXT := Example.ext) 1 Example.obj_a
                   Example.del_params 0 "" 0 Example.w0) in
  exists t,
    Motr.indices Example.w0 !! Sal.bucket_index_iname Example.obj_a = Some t
    /\ Motr.indices w' !! Sal.bucket_index_iname Example.obj_a
       = Some (Motr.idx_delete (Sal.get_key_str Example.obj_a) t)
    /\ Motr.idx_lookup (Sal.get_key_str Example.obj_a)
         (Motr.idx_delete (Sal.get_key_str Example.obj_a) t) = None.
Proof.
  intros w'.
  assert (E : exists src',
             Sal.delete_obj (EXT := Example.ext) 1 Example.obj_a
               Example.del_params 0 "" 0 Example.w0
             = (Motr.Ret (0, {| Sal.result_version_id := "";
                                Sal.result_delete_marker := false |}, src'),
                w')).
  { eexists. vm_compute. reflexivity. }
  destruct E as [src' E].
  destruct (delete_obj_unversioned (EXT := Example.ext) 1 Example.obj_a src'
              Example.del_params 0 "" 0
              {| Sal.result_version_id := ""; Sal.result_delete_marker := false |}
              Example.w0 w' eq_refl E)
    as (rc0 & ent & src1 & t & _ & Ht & Ht' & Hl & _).
  exists t. auto.
Defined.


Lemma update_version_entries_current_witness :
  let o := Sal.get_object (Example.bkt true true) "a" in
  let e := Example.ent "a" "zzz" 7 10 3 in
  let w' := snd (Sal.update_version_entries (EXT := Example.ext) o false
                   Example.w0) in
  Sal.metadata_only [Sal.bucket_index_iname o] Example.w0 w'
  /\ ((is_current e = false /\ false = false
       /\ Motr.indices w' = Motr.indices Example.w0)
      \/ exists f m t,
           Motr.indices w' !! Sal.bucket_index_iname o = Some t
           /\ Motr.idx_lookup (Sal.index_key e) t
              = Some [enc_dir_entry (Sal.set_flags e f); enc_attrs ∅; enc_meta m]
           /\ is_current (Sal.set_flags e f) = false
           /\ is_delete_marker (Sal.set_flags e f) = is_delete_marker e
           /\ Motr.decode_meta
                (Sal.entry_meta_as_motr_meta (External := Example.ext))
                [enc_meta Example.meta1] = Motr.ret (m, [])
           /\ Motr.obj_meta_cache w' !! Sal.index_key e = None).
Proof.
  intros o e w'.
  apply (update_version_entries_current (EXT := Example.ext) o false e ∅
           (enc_meta Example.meta1) Example.w0 w');
    vm_compute; reflexivity.
Defined.


Lemma complete_sizes_witness :
  let r := Sal.complete (EXT := Example.ext) 2 (Example.upload1 false)
             Example.request_etags 0 false Example.no_compression 0 5
             (Sal.get_object (Example.bkt false false) "obj") 11
             (Example.w_upload false) in
  (exists ent a m,
     (Motr.indices (snd r) !! "motr.rgw.bucket.index.b"%string)
       ≫= Motr.idx_lookup ("obj" ++ Sal.SEP)
     = Some [enc_dir_entry ent; enc_attrs a; enc_meta m]
     /\ size ent = 22 /\ accounted_size ent = 22)
  /\ (Motr.indices (snd r) !! "motr.rgw.bucket.b.multiparts.in-progress"%string)
       ≫= Motr.idx_lookup "obj.id1" = None.
Proof.
  cbv zeta.
  destruct (Sal.complete (EXT := Example.ext) 2 (Example.upload1 false)
              Example.request_etags 0 false Example.no_compression 0 5
              (Sal.get_object (Example.bkt false false) "obj") 11
              (Example.w_upload false))
    as [[[[rc tobj] st]|ex] w'] eqn:E.
  - assert (Hrc : 0 <= rc).
    { apply (f_equal fst) in E. vm_compute in E. injection E as <- _ _. lia. }
    assert (Hu : Sal.mp_upload_id (Example.upload1 false) <> ""%string)
      by discriminate.
    destruct (complete_sizes (EXT := Example.ext) 2 (Example.upload1 false)
                Example.request_etags 0 false Example.no_compression 0 5
                (Sal.get_object (Example.bkt false false) "obj") tobj 11 rc st
                (Example.w_upload false) w' Hu E Hrc)
      as (_ & _ & (ent & a & old & ui & rest & Hl & _ & _ & _ & _ & Hs & Ha & _)
          & Hgone).
    split; [|exact Hgone].
    exists ent, a, (info_meta ui). split; [exact Hl|].
    rewrite Hs, Ha. vm_compute. split; reflexivity.
  - exfalso. apply (f_equal fst) in E. vm_compute in E. discriminate E.
Defined.

Lemma set_obj_attrs_then_get_witness :
  let o := Sal.set_instance (Sal.get_object (Example.bkt true true) "a") "zzz" in
  let sa : Attrs := {[ "k"%string := "v"%string ]} in
  let w' := snd (Sal.set_obj_attrs (EXT := Example.ext) o (Some sa) None None
                   Example.w0) in
  exists o2,
    Sal.attrs o2 !! "k"%string = Some "v"%string
    /\ fst (Sal.get_bucket_dir_ent (EXT := Example.ext) o
              rgw_bucket_dir_entry_default w')
       = Motr.Ret (0, Example.ent "a" "zzz" 7 10 3,
                   Sal.set_meta (Sal.set_attrs o (Sal.attrs o2)) Example.meta1).
Proof.
  intros o sa w'.
  assert (Hg : exists o1 w1,
             Sal.get_bucket_dir_ent (EXT := Example.ext) o
               rgw_bucket_dir_entry_default Example.w0
             = (Motr.Ret (0, Example.ent "a" "zzz" 7 10 3, o1), w1)
             /\ Sal.meta o1 = Example.meta1).
  { do 2 eexists. split; vm_compute; reflexivity. }
  destruct Hg as (o1 & w1 & Hg & Hm).
  assert (Hs : exists o2,
             Sal.set_obj_attrs (EXT := Example.ext) o (Some sa) None None
               Example.w0 = (Motr.Ret (0, o2), w')).
  { eexists. vm_compute. reflexivity. }
  destruct Hs as (o2 & Hs).
  destruct (set_obj_attrs_then_get (EXT := Example.ext) o o1 o2 (Some sa) None
              None (Example.ent "a" "zzz" 7 10 3) 0 Example.w0 w1 w'
              eq_refl eq_refl (or_introl eq_refl) Hg eq_refl eq_refl Hs eq_refl)
    as (_ & Hk & _ & _ & _ & Hget).
  exists o2. split.
  - apply Hk; reflexivity.
  - rewrite Hget, Hm. reflexivity.
Defined.

Lemma obj_attrs_refused_witness :
  let o := Sal.set_instance (Sal.get_object (Example.bkt true true) "a") "dm1" in
  fst (Sal.modify_obj_attrs (EXT := Example.ext) o "k" "v" (""%string, "b"%string)
         Example.w_marker)
  = fst (Sal.delete_obj_attrs (EXT := Example.ext) o "k" (""%string, "b"%string)
           Example.w_marker)
  /\ fst (Sal.get_obj_attrs (EXT := Example.ext) o (Some "GET"%string) None
            Example.w_marker)
     = fst (Sal.delete_obj_attrs (EXT := Example.ext) o "k"
              (""%string, "b"%string) Example.w_marker)
  /\ Motr.indices
       (snd (Sal.modify_obj_attrs (EXT := Example.ext) o "k" "v"
               (""%string, "b"%string) Example.w_marker))
     = Motr.indices Example.w_marker.
Proof.
  intros o.
  assert (Hg : exists o1 w1,
             Sal.get_bucket_dir_ent (EXT := Example.ext) o
               rgw_bucket_dir_entry_default Example.w_marker
             = (Motr.Ret (0, Example.marker, o1), w1)).
  { do 2 eexists. vm_compute. reflexivity. }
  destruct Hg as (o1 & w1 & Hg).
  destruct (obj_attrs_refused (EXT := Example.ext) o o1 None None None
              (""%string, "b"%string) "k" "v" Example.marker 0
              Example.w_marker w1 Hg (or_intror eq_refl))
    as (_ & _ & _ & Hg1 & _ & Hm & Hd & Hi).
  rewrite Hm, Hd, (Hg1 "GET"%string).
  - split; [reflexivity|]. split; [reflexivity|exact Hi].
  - right. split; discriminate.
Defined.


Lemma get_part_objs_layout_witness :
  exists objs,
    Sal.get_part_objs (EXT := Example.ext) Sal.name 1 Example.multipart_obj []
      Example.w_multipart
    = (Motr.Ret (0, objs), Example.w_multipart)
    /\ Forall2 (fun kp ko =>
                  fst ko = fst kp
                  /\ Sal.po_part_num (snd ko) = fst kp
                  /\ Sal.po_part_size (snd ko) = Sal.get_size (snd kp)
                  /\ Sal.meta (Sal.po_obj (snd ko)) = Sal.part_meta (snd kp)
                  /\ Sal.obj_size (Sal.po_obj (snd ko)) = Sal.get_size (snd kp))
               Example.listed1 objs
    /\ Sal.consecutive_from 0 (map snd objs) = true
    /\ fold_right (fun obj acc => Sal.po_part_size obj + acc) 0 (map snd objs)
       = Sal.parts_size Example.listed1.
Proof.
  apply (get_part_objs_layout (EXT := Example.ext) Sal.name 0
           Example.multipart_obj "id1" 0 0 2
           (Sal.set_parts
              (Sal.get_multipart_upload (Example.bkt false false) "obj" "id1")
              Example.listed1)
           Example.w_multipart Example.w_multipart Example.w_multipart).
  - vm_compute. reflexivity.
  - lia.
  - vm_compute. reflexivity.
  - lia.
  - repeat constructor; cbn; lia.
  - vm_compute. reflexivity.
Defined.
